(** * Pong WebSocket server: sessions, admission control and the two schedulers

    A shallow embedding of [server.js]: the upgrade handler, the connection and
    per-message handlers, the commentary worker and the coach worker, with the
    JavaScript values they inspect, the exceptions they can raise and the
    order of the frames they send.

    JavaScript numbers are IEEE 754 binary64 values ([float]); strings are
    byte strings (UTF-8); timestamps and configured intervals are integers
    (milliseconds, as [Date.now()] returns them). *)

From Stdlib Require Import ZArith List Bool Lia Floats.
From stdpp Require Import gmap strings.

Import ListNotations.
Set Warnings "-register-all,-inexact-float".
Local Open Scope Z_scope.

(** ** JavaScript values *)

(** What [JSON.parse] and [msgpack.decode] build: plain data, no functions.
    An object is the list of its own properties, first binding of a name
    first. *)
Inductive JsVal : Type :=
| JUndefined
| JNull
| JBool (b : bool)
| JNum (x : float)
| JStr (s : string)
| JArr (items : list JsVal)
| JObj (props : list (string * JsVal)).

Inductive Exn : Type :=
| TypeError
| SyntaxError
| ProviderError.

(** The completion of an expression: a value, or a raised exception. *)
Inductive Res (A : Type) : Type :=
| Ok (a : A)
| Throw (e : Exn).
Arguments Ok {A} a.
Arguments Throw {A} e.

Definition bindR {A B : Type} (m : Res A) (k : A -> Res B) : Res B :=
  match m with
  | Ok a => k a
  | Throw e => Throw e
  end.

Notation "x <-- m ;; k" := (bindR m (fun x => k))
  (at level 100, m at next level, right associativity).

Definition NaN : float := PrimFloat.nan.

Definition float_of_nat (n : nat) : float :=
  PrimFloat.of_uint63 (Uint63.of_Z (Z.of_nat n)).

(** [ToBoolean]: undefined, null, false, 0, -0, NaN and the empty string are
    falsy. *)
Definition ToBoolean (v : JsVal) : bool :=
  match v with
  | JUndefined | JNull => false
  | JBool b => b
  | JNum x => negb (PrimFloat.is_nan x || PrimFloat.eqb x 0%float)
  | JStr s => negb (String.eqb s "")
  | JArr _ | JObj _ => true
  end.

Fixpoint obj_get (props : list (string * JsVal)) (k : string) : option JsVal :=
  match props with
  | [] => None
  | (k', v) :: rest => if String.eqb k' k then Some v else obj_get rest k
  end.

(** [v.k] for the property names the server reads (none of them is defined
    on a built-in prototype): a TypeError on undefined and null, the own
    property of an object, undefined on everything else. *)
Definition Get (v : JsVal) (k : string) : Res JsVal :=
  match v with
  | JUndefined | JNull => Throw TypeError
  | JObj props => Ok (default JUndefined (obj_get props k))
  | _ => Ok JUndefined
  end.

(** [v?.k] *)
Definition OptGet (v : JsVal) (k : string) : Res JsVal :=
  match v with
  | JUndefined | JNull => Ok JUndefined
  | _ => Get v k
  end.

Definition isArray (v : JsVal) : bool :=
  match v with
  | JArr _ => true
  | _ => false
  end.

(** [v[i]] on a value already known to be an array. *)
Definition Index (v : JsVal) (i : nat) : JsVal :=
  match v with
  | JArr items => default JUndefined (items !! i)
  | _ => JUndefined
  end.

(** [v === 'lit'] *)
Definition StrictEqStr (v : JsVal) (lit : string) : bool :=
  match v with
  | JStr s => String.eqb s lit
  | _ => false
  end.

(** [typeof v === 'number'] *)
Definition typeof_number (v : JsVal) : bool :=
  match v with
  | JNum _ => true
  | _ => false
  end.

(** [a || b] *)
Definition js_or (a b : JsVal) : JsVal := if ToBoolean a then a else b.

(** ** Upgrade requests

    What the server and the ws library read of an upgrade request (a GET
    with [Upgrade: websocket], or Node does not raise ['upgrade']). *)
Record Request : Type := {
  (** [req.headers['sec-websocket-protocol']] *)
  sec_websocket_protocol : option string;
  (** [req.url] *)
  url : string;
  (** [req.headers.host] *)
  host : option string;
  (** [req.headers['sec-websocket-key']] *)
  sec_websocket_key : option string;
  (** [req.headers['sec-websocket-version']] *)
  sec_websocket_version : option string;
}.

(** ** The platform

    Functions of the JavaScript runtime and of the libraries the server is
    linked with (msgpack-lite, jsonwebtoken, ws, the WHATWG URL class).
    [None] stands for a raised exception. *)
Class Env : Type := {
  JSON_parse : string -> option JsVal;
  JSON_stringify : JsVal -> string;
  msgpack_decode : string -> option JsVal;
  (** [jwt.verify(token, secret)] at the clock [now] (ms) *)
  jwt_verify : string -> string -> Z -> option JsVal;
  (** [new URL(url, base).searchParams], as the list of its pairs *)
  URL_searchParams : string -> string -> option (list (string * string));
  Number_toString : float -> string;
  (** [x.toFixed(digits)] *)
  Number_toFixed : float -> nat -> string;
  (** [Number(s)] on a string *)
  StringToNumber : string -> float;
  (** [wss.handleUpgrade(req, socket, head, callback)]: [None] when the
      library completes the upgrade and calls back with the new socket,
      [Some status] when it refuses the request by itself (a malformed
      key, version or list of sub-protocols) and never calls back *)
  ws_handleUpgrade : Request -> option Z;
}.

Section Coercions.
Context `{Env}.

Definition has_own (props : list (string * JsVal)) (k : string) : bool :=
  match obj_get props k with
  | Some _ => true
  | None => false
  end.

(** [ToString].  An array is joined with commas, undefined and null
    elements printing as nothing.  A plain object prints through
    [Object.prototype.toString], unless an own property named [toString]
    (never callable in decoded data) shadows it: then no conversion is
    left and a TypeError is raised. *)
Fixpoint ToString (v : JsVal) : Res string :=
  match v with
  | JUndefined => Ok "undefined"
  | JNull => Ok "null"
  | JBool b => Ok (if b then "true" else "false")
  | JNum x => Ok (Number_toString x)
  | JStr s => Ok s
  | JArr items =>
      (fix join (l : list JsVal) : Res string :=
         match l with
         | [] => Ok ""
         | x :: rest =>
             s <-- match x with
                   | JUndefined | JNull => Ok ""
                   | _ => ToString x
                   end ;;
             match rest with
             | [] => Ok s
             | _ => r <-- join rest ;; Ok (s +:+ "," +:+ r)
             end
         end) items
  | JObj props =>
      if has_own props "toString" then Throw TypeError
      else Ok "[object Object]"
  end.

(** [ToPrimitive]: the same string conversion for objects and arrays,
    whatever the hint. *)
Definition ToPrimitive (v : JsVal) : Res JsVal :=
  match v with
  | JArr _ | JObj _ => s <-- ToString v ;; Ok (JStr s)
  | _ => Ok v
  end.

(** [Number(v)] *)
Definition ToNumber (v : JsVal) : Res float :=
  p <-- ToPrimitive v ;;
  match p with
  | JUndefined => Ok NaN
  | JNull => Ok 0%float
  | JBool b => Ok (if b then 1%float else 0%float)
  | JNum x => Ok x
  | JStr s => Ok (StringToNumber s)
  | JArr _ | JObj _ => Throw TypeError
  end.

(** [a + b] *)
Definition js_add (a b : JsVal) : Res JsVal :=
  pa <-- ToPrimitive a ;;
  pb <-- ToPrimitive b ;;
  match pa, pb with
  | JStr _, _ | _, JStr _ =>
      sa <-- ToString pa ;;
      sb <-- ToString pb ;;
      Ok (JStr (sa +:+ sb))
  | _, _ =>
      x <-- ToNumber pa ;;
      y <-- ToNumber pb ;;
      Ok (JNum (x + y)%float)
  end.

(** [Math.min(a, b)] and [Math.max(a, b)] on numbers: NaN if either is. *)
Definition Math_min (x y : float) : float :=
  if PrimFloat.is_nan x || PrimFloat.is_nan y then NaN
  else if PrimFloat.ltb y x then y else x.

Definition Math_max (x y : float) : float :=
  if PrimFloat.is_nan x || PrimFloat.is_nan y then NaN
  else if PrimFloat.ltb x y then y else x.

End Coercions.

(** ** Strings *)

Definition bytes (l : list nat) : string :=
  fold_right (fun n s => String (Ascii.ascii_of_nat n) s) "" l.

Definition nl : string := bytes [10%nat].
Definition dq : string := bytes [34%nat].

Fixpoint strip_prefix (p s : string) : option string :=
  match p with
  | EmptyString => Some s
  | String a p' =>
      match s with
      | EmptyString => None
      | String b s' => if Ascii.eqb a b then strip_prefix p' s' else None
      end
  end.

(** The white space and line terminators [String.prototype.trim] removes,
    in UTF-8: TAB, LF, VT, FF, CR, SP, U+00A0, U+1680, U+2000..U+200A,
    U+2028, U+2029, U+202F, U+205F, U+3000, U+FEFF. *)
Definition js_whitespace : list string :=
  map bytes
    [ [9]; [10]; [11]; [12]; [13]; [32]; [194; 160]; [225; 154; 128];
      [226; 128; 128]; [226; 128; 129]; [226; 128; 130]; [226; 128; 131];
      [226; 128; 132]; [226; 128; 133]; [226; 128; 134]; [226; 128; 135];
      [226; 128; 136]; [226; 128; 137]; [226; 128; 138]; [226; 128; 168];
      [226; 128; 169]; [226; 128; 175]; [226; 129; 159]; [227; 128; 128];
      [239; 187; 191] ]%nat.

Fixpoint strip_any (ws : list string) (s : string) : option string :=
  match ws with
  | [] => None
  | w :: rest =>
      match strip_prefix w s with
      | Some s' => Some s'
      | None => strip_any rest s
      end
  end.

Fixpoint strip_all (fuel : nat) (ws : list string) (s : string) : string :=
  match fuel with
  | O => s
  | S fuel' =>
      match strip_any ws s with
      | Some s' => strip_all fuel' ws s'
      | None => s
      end
  end.

Definition trimStart (s : string) : string :=
  strip_all (String.length s) js_whitespace s.

Definition trimEnd (s : string) : string :=
  String.rev
    (strip_all (String.length s) (map String.rev js_whitespace) (String.rev s)).

(** [s.trim()] *)
Definition js_trim (s : string) : string := trimEnd (trimStart s).

(** [s.split(sep)] for a one-character separator. *)
Fixpoint split_on (sep : Ascii.ascii) (s : string) : list string :=
  match s with
  | EmptyString => [""]
  | String c s' =>
      if Ascii.eqb c sep then "" :: split_on sep s'
      else match split_on sep s' with
           | h :: t => String c h :: t
           | [] => [String c ""]
           end
  end.

Definition comma : Ascii.ascii := Ascii.ascii_of_nat 44.

Definition nonempty (s : string) : bool := negb (String.eqb s "").

(** ** Configuration (read from the environment at start-up) *)

Record Config : Type := {
  JWT_SECRET : string;
  COMMENTARY_INTERVAL_MS : Z;
  COACH_INTERVAL_MS : Z;
  STATE_SEND_LIMIT_PER_SECOND : Z;
  COMMENTARY_LIMIT_PER_MINUTE : Z;
  SIMULATED_MODE : bool;
  (** whether [openaiClient] is non-null *)
  openaiClient : bool;
}.

(** ** Admission control

    [RateLimiterRedis] of rate-limiter-flexible over the one Redis client:
    under the key [keyPrefix:key] a counter of the points consumed in the
    current window, which opens at the first consumption and lasts
    [duration] seconds.  A consumption is rejected when the counter exceeds
    [points]; from [points + 1] on ([inmemoryBlockOnConsumed]) the key is
    blocked for the rest of the window and the counter stays.  The store is
    read at the caller's clock; a failing store is not modelled. *)
Record RateLimiter : Type := {
  keyPrefix : string;
  points : Z;
  duration : Z;
}.

Definition stateLimiter (cfg : Config) : RateLimiter :=
  {| keyPrefix := "rl_state";
     points := STATE_SEND_LIMIT_PER_SECOND cfg;
     duration := 1 |}.

Definition commentaryLimiter (cfg : Config) : RateLimiter :=
  {| keyPrefix := "rl_commentary";
     points := COMMENTARY_LIMIT_PER_MINUTE cfg;
     duration := 60 |}.

(** The counters: key to (points consumed, end of the window in ms). *)
Abbreviation Redis := (gmap string (Z * Z)).

Definition consumedPoints (store : Redis) (rlKey : string) (now : Z) : Z :=
  match store !! rlKey with
  | Some (c, expires) => if now <? expires then c else 0
  | None => 0
  end.

Definition windowEnd (rl : RateLimiter) (store : Redis) (rlKey : string)
    (now : Z) : Z :=
  match store !! rlKey with
  | Some (c, expires) =>
      if now <? expires then expires else now + duration rl * 1000
  | None => now + duration rl * 1000
  end.

Definition getKey (rl : RateLimiter) (k : string) : string :=
  keyPrefix rl +:+ ":" +:+ k.

(** What is left of the budget of [k] in the window current at [now]. *)
Definition remainingPoints (rl : RateLimiter) (store : Redis) (k : string)
    (now : Z) : Z :=
  points rl - consumedPoints store (getKey rl k) now.

Section Limiter.
Context `{Env}.

(** [await limiter.consume(key)]: [true] when it resolves, [false] when it
    rejects. *)
Definition consume (rl : RateLimiter) (key : JsVal) (now : Z)
    (store : Redis) : bool * Redis :=
  match ToString key with
  | Throw _ => (false, store)
  | Ok k =>
      let rlKey := getKey rl k in
      let c := consumedPoints store rlKey now in
      if points rl + 1 <=? c then (false, store)
      else (c + 1 <=? points rl,
            <[rlKey := (c + 1, windowEnd rl store rlKey now)]> store)
  end.
End Limiter.

(** ** Frames, sessions and the server state *)

(** Outbound frames, before [JSON.stringify]. *)
Inductive Event : Type :=
| Welcome (user : JsVal)
| Error (message : string)
| Commentary (text : string)
| CommentaryChunk (text : string)
| Coach (text : string)
| CoachStatus (enabled : bool)
| Control (control : JsVal)
| Pong (ts : Z).

Inductive Kind : Type :=
| KCommentary
| KCoach.

(** What a handler or a worker does to the outside, in order. *)
Inductive Effect : Type :=
| Send (ws : nat) (e : Event)
    (** [ws.send(JSON.stringify(e))] *)
| Generate (ws : nat) (k : Kind) (now : Z)
    (** the generator is called for the session, in the tick started at
        [now] *)
| Refuse (status : Z)
    (** [socket.write('HTTP/1.1 <status> ...'); socket.destroy()] *).

Inductive Completion : Type :=
| Normal
| Abrupt (e : Exn).

(** The record kept in [metaByWs].  [None] is a property the object does not
    have (an object created by [metaByWs.get(ws) || {}]). *)
Record Meta : Type := {
  lastCommentAt : option Z;
  lastCoachAt : option Z;
  coachEnabled : option bool;
  lastState : JsVal;
}.

Definition empty_meta : Meta :=
  {| lastCommentAt := None; lastCoachAt := None; coachEnabled := None;
     lastState := JUndefined |}.

Definition new_meta : Meta :=
  {| lastCommentAt := Some 0; lastCoachAt := Some 0;
     coachEnabled := Some false; lastState := JNull |}.

Definition set_lastState (v : JsVal) (m : Meta) : Meta :=
  {| lastCommentAt := lastCommentAt m; lastCoachAt := lastCoachAt m;
     coachEnabled := coachEnabled m; lastState := v |}.

Definition set_lastCommentAt (t : Z) (m : Meta) : Meta :=
  {| lastCommentAt := Some t; lastCoachAt := lastCoachAt m;
     coachEnabled := coachEnabled m; lastState := lastState m |}.

Definition set_lastCoachAt (t : Z) (m : Meta) : Meta :=
  {| lastCommentAt := lastCommentAt m; lastCoachAt := Some t;
     coachEnabled := coachEnabled m; lastState := lastState m |}.

Definition set_coachEnabled (b : bool) (m : Meta) : Meta :=
  {| lastCommentAt := lastCommentAt m; lastCoachAt := lastCoachAt m;
     coachEnabled := Some b; lastState := lastState m |}.

(** A connection: its identity, [ws.user], and whether
    [ws.readyState === ws.OPEN]. *)
Record WebSocket : Type := {
  ws_id : nat;
  user : JsVal;
  isOpen : bool;
}.

Record Server : Type := {
  (** [wss.clients], in iteration order *)
  clients : list WebSocket;
  metaByWs : gmap nat Meta;
  redis : Redis;
  (** the identity the next accepted connection gets *)
  next_ws : nat;
}.

Definition initial_server : Server :=
  {| clients := []; metaByWs := ∅; redis := ∅; next_ws := 0 |}.

Definition with_meta (id : nat) (m : Meta) (st : Server) : Server :=
  {| clients := clients st; metaByWs := <[id := m]> (metaByWs st);
     redis := redis st; next_ws := next_ws st |}.

Definition with_redis (r : Redis) (st : Server) : Server :=
  {| clients := clients st; metaByWs := metaByWs st; redis := r;
     next_ws := next_ws st |}.

(** ** The text generators *)

(** One choice of a streamed part: [ch?.delta?.content], [ch?.delta?.text]
    and [ch?.text], each a string when present. *)
Record StreamChoice : Type := {
  delta_content : option string;
  delta_text : option string;
  choice_text : option string;
}.

(** The answer to a non-streaming request: [resp?.choices?.[0]?.message?.content]
    and [resp?.choices?.[0]?.text]; [None] is undefined or null. *)
Record ChatResponse : Type := {
  message_content : option string;
  first_text : option string;
}.

(** The three [Math.random()] draws the simulated generators may take. *)
Record Draws : Type := {
  draw1 : float;
  draw2 : float;
  draw3 : float;
}.

(** What the outside answers during one tick, per connection: the random
    draws, the stream of a streaming request (its parts, each the list
    [part?.choices || []], and whether iteration ends by raising), and the
    answer to a non-streaming request.  [Throw] is a rejected request. *)
Record Provider : Type := {
  Math_random : nat -> Draws;
  chat_stream : nat -> string -> string ->
                Res (list (list StreamChoice) * bool);
  chat_complete : nat -> string -> string -> Res ChatResponse;
}.

Definition phrases : list string :=
  [ "Nice block!"; "Amazing reflex!";
    "Edge of the paddle " +:+ bytes [226; 128; 148]%nat +:+ " nearly missed!";
    "Fast return!"; "Deep to the corner!"; "Watch the angle!";
    "Move early to intercept"; "Keep paddle centered";
    "Aim low for a tough return" ].

Definition tips : list string :=
  [ "Keep paddle centered and move small amounts; this reduces overcommit and increases reach for angled returns.";
    "Anticipate opponent returns by watching their paddle center; move preemptively rather than reacting late.";
    "Aim slightly ahead of the ball to push returns low " +:+
      bytes [226; 128; 148]%nat +:+
      " low angles are harder to reach and often cause misses." ].

(** [Math.floor(x)] as an index below [n], for [0 <= x]. *)
Definition floor_index (x : float) (n : nat) : nat :=
  length (List.filter (fun k => PrimFloat.leb (float_of_nat k) x) (seq 1 n)).

(** [list[Math.floor(r * list.length)]] for a draw [r] of [Math.random()]. *)
Definition pick (r : float) (l : list string) : string :=
  nth (floor_index (r * float_of_nat (length l))%float (length l)) l
      "undefined".

(** The part of an upgrade request the server looks at. *)
Inductive Upgrade : Type :=
| Rejected (status : Z)
| Accepted (claims : JsVal).

Definition first_nonempty (l : list (option string)) : string :=
  match List.filter nonempty (omap id l) with
  | s :: _ => s
  | [] => ""
  end.

(** [ch?.delta?.content || ch?.delta?.text || ch?.text || ''] *)
Definition textChunk (ch : StreamChoice) : string :=
  first_nonempty [delta_content ch; delta_text ch; choice_text ch].

(** The chunks the streaming loop forwards: the non-empty [textChunk]s, part
    after part, choice after choice. *)
Definition stream_chunks (parts : list (list StreamChoice)) : list string :=
  List.filter nonempty (map textChunk (concat parts)).

Definition aggregate (chunks : list string) : string :=
  fold_left String.append chunks "".

Section Server.
Context `{Env} (cfg : Config).

(** *** Handshake *)

(** [parseProtocols(req)] *)
Definition parseProtocols (req : Request) : list string :=
  List.filter nonempty
    (map js_trim
       (split_on comma (default "" (sec_websocket_protocol req)))).

Definition searchParams_get (ps : list (string * string)) (k : string)
    : option string :=
  snd <$> List.find (fun p => String.eqb (fst p) k) ps.

(** The token looked up in the query string when the second protocol is
    missing; a URL that does not parse gives none. *)
Definition query_token (req : Request) : option string :=
  match URL_searchParams (url req)
          ("http://" +:+ default "undefined" (host req)) with
  | Some ps => searchParams_get ps "token"
  | None => None
  end.

Definition truthy_token (t : option string) : bool :=
  match t with
  | Some s => nonempty s
  | None => false
  end.

(** [server.on('upgrade', ...)], up to the call of [wss.handleUpgrade]. *)
Definition upgrade (now : Z) (req : Request) : Upgrade :=
  let protocols := parseProtocols req in
  match protocols with
  | [] => Rejected 400
  | p0 :: _ =>
      if negb (String.eqb p0 "pong-proto.v1") then Rejected 400
      else
        let token := protocols !! 1%nat in
        let token := if truthy_token token then token else query_token req in
        if negb (truthy_token token) then Rejected 401
        else
          match jwt_verify (default "" token) (JWT_SECRET cfg) now with
          | Some claims => Accepted claims
          | None => Rejected 401
          end
  end.

(** [wss.on('connection', ...)]: the socket joins [wss.clients], its
    record is created and the welcome frame is sent. *)
Definition on_connection (claims : JsVal) (st : Server)
    : Server * list Effect :=
  let id := next_ws st in
  ({| clients := clients st ++ [{| ws_id := id; user := claims;
                                   isOpen := true |}];
      metaByWs := <[id := new_meta]> (metaByWs st);
      redis := redis st;
      next_ws := S id |},
   [Send id (Welcome claims)]).

(** The whole handler: its own decision, then that of
    [wss.handleUpgrade], whose callback sets [ws.user] and raises
    ['connection']. *)
Definition admission (now : Z) (req : Request) : Upgrade :=
  match upgrade now req with
  | Rejected status => Rejected status
  | Accepted claims =>
      match ws_handleUpgrade req with
      | Some status => Rejected status
      | None => Accepted claims
      end
  end.

Definition on_upgrade (now : Z) (req : Request) (st : Server)
    : Server * list Effect :=
  match admission now req with
  | Rejected status => (st, [Refuse status])
  | Accepted claims => on_connection claims st
  end.

(** [ws.on('close', ...)] *)
Definition on_close (id : nat) (st : Server) : Server :=
  {| clients := List.filter (fun ws => negb (Nat.eqb (ws_id ws) id))
                  (clients st);
     metaByWs := delete id (metaByWs st);
     redis := redis st;
     next_ws := next_ws st |}.

(** *** Inbound frames *)

(** [ws.user?.sub || 'anon'] *)
Definition userKey (ws : WebSocket) : Res JsVal :=
  sub <-- OptGet (user ws) "sub" ;;
  Ok (js_or sub (JStr "anon")).

(** The body shared by the two state branches (binary
    [['state', payload]] and text [{type: 'state', state: payload}]). *)
Definition ingest_state (now : Z) (ws : WebSocket) (key payload : JsVal)
    (st : Server) : Server * list Effect * Completion :=
  let '(admitted, store) := consume (stateLimiter cfg) key now (redis st) in
  if admitted then
    let meta := default empty_meta (metaByWs st !! ws_id ws) in
    (with_meta (ws_id ws) (set_lastState payload meta) (with_redis store st),
     [], Normal)
  else
    (with_redis store st,
     [Send (ws_id ws) (Error "state rate limit exceeded")], Normal).

(** [data && data.type === 'lit'] *)
Definition has_type (data : JsVal) (lit : string) : Res bool :=
  if ToBoolean data then
    ty <-- Get data "type" ;; Ok (StrictEqStr ty lit)
  else Ok false.

Definition raise (st : Server) (e : Exn) : Server * list Effect * Completion :=
  (st, [], Abrupt e).

(** [ws.on('message', async (msg, isBinary) => ...)] *)
Definition on_message (now : Z) (ws : WebSocket) (msg : string)
    (isBinary : bool) (st : Server) : Server * list Effect * Completion :=
  match (if isBinary then msgpack_decode msg else JSON_parse msg) with
  | None => (st, [Send (ws_id ws) (Error "invalid message")], Normal)
  | Some data =>
      match userKey ws with
      | Throw e => raise st e
      | Ok key =>
          if isArray data && StrictEqStr (Index data 0) "state" then
            ingest_state now ws key (Index data 1) st
          else
            match has_type data "state" with
            | Throw e => raise st e
            | Ok true =>
                match Get data "state" with
                | Throw e => raise st e
                | Ok payload => ingest_state now ws key payload st
                end
            | Ok false =>
                match has_type data "coach_enable" with
                | Throw e => raise st e
                | Ok true =>
                    let meta := default empty_meta (metaByWs st !! ws_id ws) in
                    match Get data "enable" with
                    | Throw e => raise st e
                    | Ok enable =>
                        let b := ToBoolean enable in
                        (with_meta (ws_id ws)
                           (set_lastCoachAt 0 (set_coachEnabled b meta)) st,
                         [Send (ws_id ws) (CoachStatus b)], Normal)
                    end
                | Ok false =>
                    match has_type data "ping" with
                    | Throw e => raise st e
                    | Ok true => (st, [Send (ws_id ws) (Pong now)], Normal)
                    | Ok false =>
                        (st,
                         [Send (ws_id ws) (Error "unknown message type")],
                         Normal)
                    end
                end
            end
      end
  end.

(** *** Generators *)

(** [generateSimulatedCommentary(state)], on the draws it takes. *)
Definition generateSimulatedCommentary (d : Draws) (state : JsVal)
    : Res string :=
  let p := pick (draw1 d) phrases in
  if PrimFloat.ltb (draw2 d) 0.05%float then
    rp <-- OptGet state "rightPaddle" ;;
    sp <-- OptGet rp "speed" ;;
    sum <-- js_add (js_or sp (JNum 4%float))
              (JNum (if PrimFloat.ltb (draw3 d) 0.5%float
                     then (-0.5)%float else 0.5%float)) ;;
    x <-- ToNumber sum ;;
    let aiSpeed := Math_max 2%float (Math_min 8%float x) in
    Ok (JSON_stringify
          (JObj [("type", JStr "aiAdjust");
                 ("aiSpeed",
                  JNum (StringToNumber (Number_toFixed aiSpeed 2)))]))
  else Ok p.

(** [generateSimulatedCoachTip(state)] *)
Definition generateSimulatedCoachTip (d : Draws) (state : JsVal) : string :=
  pick (draw1 d) tips.

Definition commentary_systemPrompt : string :=
  "You are a concise sports commentator for a Pong match. Reply with either one short (<25 words) lively commentary phrase or, if recommending an AI adjustment, output a single-line JSON ONLY like {"
  +:+ dq +:+ "type" +:+ dq +:+ ":" +:+ dq +:+ "aiAdjust" +:+ dq +:+ ","
  +:+ dq +:+ "aiSpeed" +:+ dq +:+ ":<number>} with no other text.".

Definition coach_systemPrompt : string :=
  "You are a Pong coach giving one concise strategy tip (about 40-60 words) focusing on positioning and timing.".

(** [Number(s.o.f).toFixed(d)] *)
Definition fixed (s : JsVal) (o f : string) (d : nat) : Res string :=
  ob <-- Get s o ;;
  v <-- Get ob f ;;
  x <-- ToNumber v ;;
  Ok (Number_toFixed x d).

(** [`${s.o.f}`] *)
Definition shown (s : JsVal) (o f : string) : Res string :=
  ob <-- Get s o ;;
  v <-- Get ob f ;;
  ToString v.

(** The user prompt of both workers: the same template over the snapshot,
    up to its last line. *)
Definition userPrompt (s : JsVal) (closing : string) : Res string :=
  bx <-- fixed s "ball" "x" 1 ;;
  by_ <-- fixed s "ball" "y" 1 ;;
  bvx <-- fixed s "ball" "vx" 2 ;;
  bvy <-- fixed s "ball" "vy" 2 ;;
  ly <-- fixed s "leftPaddle" "y" 1 ;;
  ry <-- fixed s "rightPaddle" "y" 1 ;;
  sp <-- (rp <-- Get s "rightPaddle" ;;
          v <-- Get rp "speed" ;;
          x <-- ToNumber v ;;
          Ok (Number_toString x)) ;;
  pl <-- shown s "score" "player" ;;
  ai <-- shown s "score" "ai" ;;
  rn <-- (v <-- Get s "running" ;; ToString v) ;;
  Ok ("Snapshot:" +:+ nl
      +:+ "ball x=" +:+ bx +:+ " y=" +:+ by_ +:+ " vx=" +:+ bvx
      +:+ " vy=" +:+ bvy +:+ nl
      +:+ "leftPaddle.y=" +:+ ly +:+ nl
      +:+ "rightPaddle.y=" +:+ ry +:+ " speed=" +:+ sp +:+ nl
      +:+ "score player=" +:+ pl +:+ " ai=" +:+ ai +:+ nl
      +:+ "running=" +:+ rn +:+ nl +:+ nl +:+ closing).

(** *** Directives in generated text *)

Definition confirmation (speed : string) : string :=
  "(AI speed set to " +:+ speed +:+ ")".

(** The body of a [try] block that may [continue]: the frames sent, and
    whether it ended by [continue] ([Ok true]), fell through ([Ok false])
    or raised. *)
Definition directive_block (check_number : bool) (text : string)
    : list Event * Res bool :=
  match JSON_parse text with
  | None => ([], Throw SyntaxError)
  | Some parsed =>
      match
        (if ToBoolean parsed then
           ty <-- Get parsed "type" ;;
           if StrictEqStr ty "aiAdjust" then
             if check_number then
               sp <-- Get parsed "aiSpeed" ;; Ok (typeof_number sp)
             else Ok true
           else Ok false
         else Ok false)
      with
      | Throw e => ([], Throw e)
      | Ok false => ([], Ok false)
      | Ok true =>
          match (sp <-- Get parsed "aiSpeed" ;; ToString sp) with
          | Throw e => ([Control parsed], Throw e)
          | Ok shown_speed =>
              ([Control parsed; Commentary (confirmation shown_speed)],
               Ok true)
          end
      end
  end.

(** [try { ...continue... } catch (e) {}] followed by the plain
    commentary frame. *)
Definition route (check_number : bool) (text : string) : list Event :=
  match directive_block check_number text with
  | (sent, Ok true) => sent
  | (sent, _) => sent ++ [Commentary text]
  end.

(** The simulated branch tests [parsed && parsed.type === 'aiAdjust']. *)
Definition route_simulated (out : string) : list Event := route false out.

(** The streaming branch also tests [typeof parsed.aiSpeed === 'number']. *)
Definition route_streamed (finalText : string) : list Event :=
  route true finalText.

(** *** The commentary worker *)

Definition simulated : bool := SIMULATED_MODE cfg || negb (openaiClient cfg).

(** What follows the admission of a session in the commentary worker:
    prompt construction, generation, routing.  It reads the snapshot and
    writes nothing to the registry. *)
Definition commentary_generate (now : Z) (P : Provider) (ws : WebSocket)
    (s : JsVal) : list Effect * Completion :=
  let id := ws_id ws in
  match userPrompt s "Respond accordingly." with
  | Throw e => ([], Abrupt e)
  | Ok prompt =>
      if simulated then
        match generateSimulatedCommentary (Math_random P id) s with
        | Throw e => ([Generate id KCommentary now], Abrupt e)
        | Ok out =>
            (Generate id KCommentary now
               :: map (Send id) (route_simulated out), Normal)
        end
      else
        match chat_stream P id commentary_systemPrompt prompt with
        | Throw _ =>
            ([Generate id KCommentary now;
              Send id (Commentary "[commentary error]")], Normal)
        | Ok (parts, breaks) =>
            let chunks := stream_chunks parts in
            let forwarded :=
              map (fun c => Send id (CommentaryChunk c)) chunks in
            if breaks : bool then
              (Generate id KCommentary now
                 :: forwarded
                 ++ [Send id (Commentary "[commentary error]")], Normal)
            else
              (Generate id KCommentary now
                 :: forwarded
                 ++ map (Send id)
                      (route_streamed (js_trim (aggregate chunks))),
               Normal)
        end
  end.

(** One iteration of the loop of the commentary worker, run without
    interruption: the gate, the awaited call of the limiter, the stamp and
    the generation follow one another with nothing else in between, as
    when every [await] is answered before anything else is ready.
    [commentary_gate] and [resume] below cut the iteration at its awaits. *)
Definition commentary_session (now : Z) (P : Provider) (ws : WebSocket)
    (st : Server) : Server * list Effect * Completion :=
  if negb (isOpen ws) then (st, [], Normal)
  else
    match metaByWs st !! ws_id ws with
    | None => (st, [], Normal)
    | Some meta =>
        if negb (ToBoolean (lastState meta)) then (st, [], Normal)
        else if now - default 0 (lastCommentAt meta)
                <? COMMENTARY_INTERVAL_MS cfg
        then (st, [], Normal)
        else
          match userKey ws with
          | Throw e => raise st e
          | Ok key =>
              let '(admitted, store) :=
                consume (commentaryLimiter cfg) key now (redis st) in
              let st' :=
                with_meta (ws_id ws) (set_lastCommentAt now meta)
                  (with_redis store st) in
              if admitted then
                let '(effects, c) :=
                  commentary_generate now P ws (lastState meta) in
                (st', effects, c)
              else
                (st',
                 [Send (ws_id ws) (Commentary "[commentary rate-limited]")],
                 Normal)
          end
    end.

(** *** The coach worker *)

Definition coach_generate (now : Z) (P : Provider) (ws : WebSocket)
    (s : JsVal) : list Effect * Completion :=
  let id := ws_id ws in
  match userPrompt s "Provide one coaching tip." with
  | Throw e => ([], Abrupt e)
  | Ok prompt =>
      if simulated then
        ([Generate id KCoach now;
          Send id (Coach (generateSimulatedCoachTip (Math_random P id) s))],
         Normal)
      else
        match chat_complete P id coach_systemPrompt prompt with
        | Throw _ =>
            ([Generate id KCoach now; Send id (Coach "[coach error]")],
             Normal)
        | Ok resp =>
            let coachText :=
              match message_content resp with
              | Some c => c
              | None => default "[coach error]" (first_text resp)
              end in
            ([Generate id KCoach now; Send id (Coach (js_trim coachText))],
             Normal)
        end
  end.

(** One iteration of the loop of the coach worker, run without
    interruption like [commentary_session]; [coach_gate] and [resume] below
    cut it at its awaits. *)
Definition coach_session (now : Z) (P : Provider) (ws : WebSocket)
    (st : Server) : Server * list Effect * Completion :=
  if negb (isOpen ws) then (st, [], Normal)
  else
    match metaByWs st !! ws_id ws with
    | None => (st, [], Normal)
    | Some meta =>
        if negb (default false (coachEnabled meta))
           || negb (ToBoolean (lastState meta))
        then (st, [], Normal)
        else if now - default 0 (lastCoachAt meta) <? COACH_INTERVAL_MS cfg
        then (st, [], Normal)
        else
          match userKey ws with
          | Throw e => raise st e
          | Ok key =>
              let '(admitted, store) :=
                consume (commentaryLimiter cfg) key now (redis st) in
              let st' :=
                with_meta (ws_id ws) (set_lastCoachAt now meta)
                  (with_redis store st) in
              if admitted then
                let '(effects, c) :=
                  coach_generate now P ws (lastState meta) in
                (st', effects, c)
              else
                (st', [Send (ws_id ws) (Coach "[coach rate-limited]")],
                 Normal)
          end
    end.

(** *** Ticks and runs *)

(** [for (const ws of wss.clients) { ... }] inside the async callback: an
    exception leaves the loop, what was done before it stays done. *)
Fixpoint for_each
    (body : WebSocket -> Server -> Server * list Effect * Completion)
    (l : list WebSocket) (st : Server) : Server * list Effect * Completion :=
  match l with
  | [] => (st, [], Normal)
  | ws :: rest =>
      match body ws st with
      | (st1, e1, Normal) =>
          let '(st2, e2, c) := for_each body rest st1 in
          (st2, e1 ++ e2, c)
      | (st1, e1, Abrupt e) => (st1, e1, Abrupt e)
      end
  end.

Definition commentary_tick (now : Z) (P : Provider) (st : Server)
    : Server * list Effect * Completion :=
  for_each (commentary_session now P) (clients st) st.

Definition coach_tick (now : Z) (P : Provider) (st : Server)
    : Server * list Effect * Completion :=
  for_each (coach_session now P) (clients st) st.

(** What happens to the server, one event at a time, on the schedules
    where a handler call and an iteration of a worker's loop run to their
    end before the next event: every [await] inside them is answered before
    anything else is ready.  A tick is the row of its iterations; a visit is
    one iteration alone, of a tick started at [now], so that whole
    iterations of different ticks can alternate.  The clock values are not
    ordered.  The schedules where something else runs during an [await] are
    those of [async_step] below. *)
Inductive Action : Type :=
| AUpgrade (now : Z) (req : Request)
| AMessage (id : nat) (now : Z) (msg : string) (isBinary : bool)
| AClose (id : nat)
| ACommentaryTick (now : Z) (P : Provider)
| ACoachTick (now : Z) (P : Provider)
| ACommentaryVisit (now : Z) (P : Provider) (id : nat)
| ACoachVisit (now : Z) (P : Provider) (id : nat).

Definition socket (id : nat) (st : Server) : option WebSocket :=
  List.find (fun ws => Nat.eqb (ws_id ws) id) (clients st).

Definition step (a : Action) (st : Server) : Server * list Effect :=
  match a with
  | AUpgrade now req => on_upgrade now req st
  | AMessage id now msg isBinary =>
      match socket id st with
      | Some ws => fst (on_message now ws msg isBinary st)
      | None => (st, [])
      end
  | AClose id => (on_close id st, [])
  | ACommentaryTick now P => fst (commentary_tick now P st)
  | ACoachTick now P => fst (coach_tick now P st)
  | ACommentaryVisit now P id =>
      match socket id st with
      | Some ws => fst (commentary_session now P ws st)
      | None => (st, [])
      end
  | ACoachVisit now P id =>
      match socket id st with
      | Some ws => fst (coach_session now P ws st)
      | None => (st, [])
      end
  end.

Fixpoint run (acts : list Action) (st : Server) : Server * list Effect :=
  match acts with
  | [] => (st, [])
  | a :: rest =>
      let '(st1, e1) := step a st in
      let '(st2, e2) := run rest st1 in
      (st2, e1 ++ e2)
  end.

End Server.

(** The frames sent to one connection, in order. *)
Definition sent_to (id : nat) (log : list Effect) : list Event :=
  omap (fun e => match e with
                 | Send id' ev => if Nat.eqb id' id then Some ev else None
                 | _ => None
                 end) log.

(** The times at which the generator was called for one session by one
    worker, in order. *)
Definition invocations (id : nat) (k : Kind) (log : list Effect) : list Z :=
  omap (fun e => match e with
                 | Generate id' k' now =>
                     if Nat.eqb id' id
                        && match k, k' with
                           | KCommentary, KCommentary | KCoach, KCoach => true
                           | _, _ => false
                           end
                     then Some now else None
                 | _ => None
                 end) log.

(** ** A reference platform

    Executable definitions of the platform functions, to run the server on
    concrete frames.  Numbers are converted exactly: a decimal literal goes
    to the nearest binary64 value (ties to even), a binary64 value prints as
    its shortest decimal that reads back.  The theorems below hold for every
    platform; this one is used for the worked examples. *)
Module Reference.

(** *** Decimal digits *)

Definition digit_char (d : Z) : Ascii.ascii :=
  Ascii.ascii_of_N (Z.to_N (48 + d)).

Fixpoint digits_go (fuel : nat) (n : Z) (acc : string) : string :=
  match fuel with
  | O => acc
  | S fuel' =>
      let acc' := String (digit_char (n mod 10)) acc in
      if n <? 10 then acc' else digits_go fuel' (n / 10) acc'
  end.

(** The decimal digits of [n >= 0]. *)
Definition Z_digits (n : Z) : string :=
  digits_go (S (Z.to_nat (Z.log2 n))) n "".

Definition code (c : Ascii.ascii) : Z := Z.of_N (Ascii.N_of_ascii c).

Definition is_digit (c : Ascii.ascii) : bool :=
  (48 <=? code c) && (code c <=? 57).

(** Reads a run of decimal digits: their value, their number, the rest. *)
Fixpoint read_digits (s : string) (acc : Z) (count : Z) : Z * Z * string :=
  match s with
  | String c rest =>
      if is_digit c then read_digits rest (acc * 10 + (code c - 48)) (count + 1)
      else (acc, count, s)
  | EmptyString => (acc, count, s)
  end.

Fixpoint zeros (n : nat) : string :=
  match n with
  | O => ""
  | S n' => String (digit_char 0) (zeros n')
  end.

Fixpoint take (n : nat) (s : string) : string :=
  match n, s with
  | S n', String c rest => String c (take n' rest)
  | _, _ => ""
  end.

Fixpoint drop (n : nat) (s : string) : string :=
  match n, s with
  | S n', String c rest => drop n' rest
  | _, _ => s
  end.

(** *** Exact conversions between decimals and binary64 *)

(** The binary64 value nearest to [num / den] ([num >= 0], [den > 0]),
    negated when [neg]. *)
Definition nearest (neg : bool) (num den : Z) : float :=
  if num =? 0 then (if neg then (-0)%float else 0%float)
  else
    let k := Z.max 0 (66 + Z.log2 den - Z.log2 num) in
    let scaled := num * 2 ^ k in
    let q := scaled / den in
    let sticky := if scaled mod den =? 0 then 0 else 1 in
    let m := 2 * q + sticky in
    SF2Prim (binary_normalize FloatOps.prec FloatOps.emax
               (if neg then - m else m) (- k - 1) false).

(** [m * 10 ^ e] as a binary64 value. *)
Definition of_decimal (neg : bool) (m e : Z) : float :=
  if 0 <=? e then nearest neg (m * 10 ^ e) 1
  else nearest neg m (10 ^ (- e)).

(** Compares [s * 10 ^ p] with [c * 2 ^ b]. *)
Definition compare_scaled (s p c b : Z) : comparison :=
  (s * 10 ^ Z.max p 0 * 2 ^ Z.max (- b) 0
   ?= c * 2 ^ Z.max b 0 * 10 ^ Z.max (- p) 0).

(** The least [n], from [n0] on, with [m * 2 ^ e < 10 ^ n]. *)
Fixpoint magnitude (fuel : nat) (m e n : Z) : Z :=
  match fuel with
  | O => n
  | S fuel' =>
      match compare_scaled 1 n m e with
      | Gt => n
      | _ => magnitude fuel' m e (n + 1)
      end
  end.

(** For [x = m * 2 ^ e > 0] with [10 ^ (n - 1) <= x < 10 ^ n]: the least
    number [k] of digits, from [k] on, and the [s] of [k] digits (or
    [10 ^ k]) nearest to [x] such that [s * 10 ^ (n - k)] reads back as
    [x]. *)
Fixpoint shortest (fuel : nat) (m e n k : Z) : Z * Z :=
  let p := n - k in
  let lo_s := (m * 2 ^ Z.max e 0 * 10 ^ Z.max (- p) 0)
              / (10 ^ Z.max p 0 * 2 ^ Z.max (- e) 0) in
  let hi_s := lo_s + 1 in
  (* the rounding interval of x, in units of 2 ^ (e - 2) *)
  let low :=
    if (m =? 2 ^ 52) && (-1074 <? e) then 4 * m - 1 else 4 * m - 2 in
  let high := 4 * m + 2 in
  let closed := Z.even m in
  let lo_ok :=
    match compare_scaled lo_s p low (e - 2) with
    | Gt => true
    | Eq => closed
    | Lt => false
    end in
  let hi_ok :=
    match compare_scaled hi_s p high (e - 2) with
    | Lt => true
    | Eq => closed
    | Gt => false
    end in
  (* lo_s is nearer to x than hi_s when lo_s + hi_s > 2 x / 10 ^ p *)
  let nearer_lo :=
    match compare_scaled (lo_s + hi_s) p (8 * m) (e - 2) with
    | Gt => true
    | Eq => Z.even lo_s
    | Lt => false
    end in
  match fuel with
  | O => (lo_s, k)
  | S fuel' =>
      if lo_ok && hi_ok then ((if nearer_lo then lo_s else hi_s), k)
      else if lo_ok then (lo_s, k)
      else if hi_ok then (hi_s, k)
      else shortest fuel' m e n (k + 1)
  end.

(** [Number::toString] on [x = m * 2 ^ e > 0]. *)
Definition show_positive (m e : Z) : string :=
  let n0 := magnitude 8 m e ((Z.log2 m + e) * 30103 / 100000 - 1) in
  let '(s, k) := shortest 17 m e n0 1 in
  let '(ds, n) :=
    if s =? 10 ^ k then (Z_digits 1, n0 + 1) else (Z_digits s, n0) in
  let k := Z.of_nat (String.length ds) in
  if (k <=? n) && (n <=? 21) then ds +:+ zeros (Z.to_nat (n - k))
  else if (0 <? n) && (n <=? 21) then
    take (Z.to_nat n) ds +:+ "." +:+ drop (Z.to_nat n) ds
  else if (-6 <? n) && (n <=? 0) then
    "0." +:+ zeros (Z.to_nat (- n)) +:+ ds
  else
    (if k =? 1 then ds else take 1 ds +:+ "." +:+ drop 1 ds)
    +:+ "e" +:+ (if n - 1 <? 0 then "-" else "+")
    +:+ Z_digits (Z.abs (n - 1)).

(** [Number::toString(x)] *)
Definition print_number (x : float) : string :=
  match Prim2SF x with
  | S754_nan => "NaN"
  | S754_zero _ => "0"
  | S754_infinity neg => if neg then "-Infinity" else "Infinity"
  | S754_finite neg m e =>
      (if neg then "-" else "") +:+ show_positive (Zpos m) e
  end.

(** The digits of [x.toFixed(d)] for [0 <= x = m * 2 ^ e < 10 ^ 21]: the
    integer nearest to [x * 10 ^ d], the larger one on a tie, with the
    point [d] digits from the right. *)
Definition fixed_digits (m e : Z) (d : nat) : string :=
  let scale := 10 ^ Z.of_nat d in
  let n :=
    if 0 <=? e then m * 2 ^ e * scale
    else (2 * m * scale + 2 ^ (- e)) / (2 * 2 ^ (- e)) in
  let ds := Z_digits n in
  let ds := zeros (S d - String.length ds) +:+ ds in
  match d with
  | O => ds
  | _ =>
      take (String.length ds - d) ds +:+ "." +:+ drop (String.length ds - d) ds
  end.

(** [x.toFixed(d)] *)
Definition print_fixed (x : float) (d : nat) : string :=
  match Prim2SF x with
  | S754_nan => "NaN"
  | S754_zero _ => fixed_digits 0 0 d
  | S754_infinity neg => if neg then "-Infinity" else "Infinity"
  | S754_finite neg m e =>
      match compare_scaled 1 21 (Zpos m) e with
      | Gt => (if neg then "-" else "") +:+ fixed_digits (Zpos m) e d
      | _ => print_number x
      end
  end.

(** The value of a decimal literal [digits [. digits] [e [+|-] digits]]
    (or [. digits ...]) and what follows it. *)
Definition read_exponent (s : string) : option (Z * string) :=
  match s with
  | String c rest =>
      if (code c =? 101) || (code c =? 69) then
        let '(neg, rest) :=
          match rest with
          | String sg rest' =>
              if code sg =? 45 then (true, rest')
              else if code sg =? 43 then (false, rest')
              else (false, rest)
          | EmptyString => (false, rest)
          end in
        let '(e, count, rest) := read_digits rest 0 0 in
        if count =? 0 then None
        else Some ((if neg then - e else e), rest)
      else Some (0, s)
  | EmptyString => Some (0, s)
  end.

Definition read_decimal (neg : bool) (s : string) : option (float * string) :=
  let '(int, count1, rest) := read_digits s 0 0 in
  let '(frac, count2, rest) :=
    match rest with
    | String c rest' =>
        if code c =? 46 then read_digits rest' 0 0 else (0, 0, rest)
    | EmptyString => (0, 0, rest)
    end in
  if count1 + count2 =? 0 then None
  else
    match read_exponent rest with
    | None => None
    | Some (e, rest) =>
        Some (of_decimal neg (int * 10 ^ count2 + frac) (e - count2), rest)
    end.

Definition hex_value (c : Ascii.ascii) : option Z :=
  let n := code c in
  if (48 <=? n) && (n <=? 57) then Some (n - 48)
  else if (97 <=? n) && (n <=? 102) then Some (n - 87)
  else if (65 <=? n) && (n <=? 70) then Some (n - 55)
  else None.

(** The digits of [s] in base [b], all of them. *)
Fixpoint read_radix (b : Z) (s : string) (acc : Z) : option Z :=
  match s with
  | EmptyString => Some acc
  | String c rest =>
      match hex_value c with
      | Some d => if d <? b then read_radix b rest (acc * b + d) else None
      | None => None
      end
  end.

Definition infinity_of (neg : bool) : float :=
  if neg then PrimFloat.neg_infinity else PrimFloat.infinity.

(** [Number(s)] *)
Definition scan_number (s : string) : float :=
  let t := js_trim s in
  let radix (b : Z) (digits : string) : float :=
    match digits with
    | EmptyString => NaN
    | _ => match read_radix b digits 0 with
           | Some n => nearest false n 1
           | None => NaN
           end
    end in
  match t with
  | EmptyString => 0%float
  | String c0 rest0 =>
      let prefixed :=
        if code c0 =? 48 then
          match rest0 with
          | String c1 digits =>
              if (code c1 =? 120) || (code c1 =? 88) then Some (radix 16 digits)
              else if (code c1 =? 111) || (code c1 =? 79) then Some (radix 8 digits)
              else if (code c1 =? 98) || (code c1 =? 66) then Some (radix 2 digits)
              else None
          | EmptyString => None
          end
        else None in
      match prefixed with
      | Some x => x
      | None =>
          let '(neg, body) :=
            if code c0 =? 45 then (true, rest0)
            else if code c0 =? 43 then (false, rest0)
            else (false, t) in
          if String.eqb body "Infinity" then infinity_of neg
          else
            match read_decimal neg body with
            | Some (x, EmptyString) => x
            | _ => NaN
            end
      end
  end.

(** *** JSON *)

Fixpoint skip_ws (s : string) : string :=
  match s with
  | String c rest =>
      if (code c =? 32) || (code c =? 9) || (code c =? 10) || (code c =? 13)
      then skip_ws rest else s
  | EmptyString => s
  end.

Definition byte_of (n : Z) : Ascii.ascii := Ascii.ascii_of_N (Z.to_N n).

(** The UTF-8 bytes of a code point. *)
Definition utf8 (cp : Z) : string :=
  if cp <? 128 then String (byte_of cp) ""
  else if cp <? 2048 then
    String (byte_of (192 + cp / 64)) (String (byte_of (128 + cp mod 64)) "")
  else if cp <? 65536 then
    String (byte_of (224 + cp / 4096))
      (String (byte_of (128 + cp / 64 mod 64))
         (String (byte_of (128 + cp mod 64)) ""))
  else
    String (byte_of (240 + cp / 262144))
      (String (byte_of (128 + cp / 4096 mod 64))
         (String (byte_of (128 + cp / 64 mod 64))
            (String (byte_of (128 + cp mod 64)) ""))).

Definition read_hex4 (s : string) : option (Z * string) :=
  match s with
  | String a (String b (String c (String d rest))) =>
      match hex_value a, hex_value b, hex_value c, hex_value d with
      | Some x, Some y, Some z, Some w =>
          Some (((x * 16 + y) * 16 + z) * 16 + w, rest)
      | _, _, _, _ => None
      end
  | _ => None
  end.

(** A [\uXXXX] escape, the [\u] read: one code unit, or a surrogate pair. *)
Definition read_unicode (s : string) : option (string * string) :=
  match read_hex4 s with
  | None => None
  | Some (hi, rest) =>
      let single := Some (utf8 hi, rest) in
      if (55296 <=? hi) && (hi <=? 56319) then
        match rest with
        | String b (String u rest') =>
            if (code b =? 92) && (code u =? 117) then
              match read_hex4 rest' with
              | Some (lo, rest'') =>
                  if (56320 <=? lo) && (lo <=? 57343) then
                    Some (utf8 (65536 + (hi - 55296) * 1024 + (lo - 56320)),
                          rest'')
                  else single
              | None => single
              end
            else single
        | _ => single
        end
      else single
  end.

(** The rest of a string literal, its opening quote read; [acc] holds the
    bytes read so far, last first. *)
Fixpoint read_string (fuel : nat) (s : string) (acc : string)
    : option (string * string) :=
  match fuel, s with
  | S fuel', String c rest =>
      if code c =? 34 then Some (String.rev acc, rest)
      else if code c <? 32 then None
      else if code c =? 92 then
        match rest with
        | String e rest' =>
            let plain (n : Z) :=
              read_string fuel' rest' (String (byte_of n) acc) in
            if code e =? 34 then plain 34
            else if code e =? 92 then plain 92
            else if code e =? 47 then plain 47
            else if code e =? 98 then plain 8
            else if code e =? 102 then plain 12
            else if code e =? 110 then plain 10
            else if code e =? 114 then plain 13
            else if code e =? 116 then plain 9
            else if code e =? 117 then
              match read_unicode rest' with
              | Some (bs, rest'') =>
                  read_string fuel' rest'' (String.rev bs +:+ acc)
              | None => None
              end
            else None
        | EmptyString => None
        end
      else read_string fuel' rest (String c acc)
  | _, _ => None
  end.

(** A JSON number: [-? (0 | [1-9] digits) (. digits)? (e sign? digits)?]. *)
Definition read_number (s : string) : option (float * string) :=
  let '(neg, body) :=
    match s with
    | String c rest => if code c =? 45 then (true, rest) else (false, s)
    | EmptyString => (false, s)
    end in
  match body with
  | String c rest =>
      if negb (is_digit c) then None
      else
        let '(int, count1, after_int) :=
          if code c =? 48 then (0, 1, rest) else read_digits body 0 0 in
        match after_int with
        | String p after_point =>
            if code p =? 46 then
              let '(frac, count2, after_frac) := read_digits after_point 0 0 in
              if count2 =? 0 then None
              else
                match read_exponent after_frac with
                | Some (e, rest') =>
                    Some (of_decimal neg (int * 10 ^ count2 + frac)
                            (e - count2), rest')
                | None => None
                end
            else
              match read_exponent after_int with
              | Some (e, rest') => Some (of_decimal neg int e, rest')
              | None => None
              end
        | EmptyString => Some (of_decimal neg int 0, after_int)
        end
  | EmptyString => None
  end.

(** A later member replaces an earlier one of the same name. *)
Definition obj_put (k : string) (v : JsVal) (props : list (string * JsVal))
    : list (string * JsVal) :=
  List.filter (fun p => negb (String.eqb (fst p) k)) props ++ [(k, v)].

Fixpoint parse_value (fuel : nat) (s : string) : option (JsVal * string) :=
  match fuel with
  | O => None
  | S fuel' =>
      match skip_ws s with
      | EmptyString => None
      | String c rest =>
          if code c =? 123 then
            match skip_ws rest with
            | String c' rest' =>
                if code c' =? 125 then Some (JObj [], rest')
                else parse_members fuel' (skip_ws rest) []
            | EmptyString => None
            end
          else if code c =? 91 then
            match skip_ws rest with
            | String c' rest' =>
                if code c' =? 93 then Some (JArr [], rest')
                else parse_elements fuel' rest []
            | EmptyString => None
            end
          else if code c =? 34 then
            match read_string (String.length rest) rest "" with
            | Some (str, rest') => Some (JStr str, rest')
            | None => None
            end
          else if code c =? 116 then
            (fun r => (JBool true, r)) <$> strip_prefix "rue" rest
          else if code c =? 102 then
            (fun r => (JBool false, r)) <$> strip_prefix "alse" rest
          else if code c =? 110 then
            (fun r => (JNull, r)) <$> strip_prefix "ull" rest
          else
            match read_number (String c rest) with
            | Some (x, rest') => Some (JNum x, rest')
            | None => None
            end
      end
  end
with parse_elements (fuel : nat) (s : string) (acc : list JsVal)
    : option (JsVal * string) :=
  match fuel with
  | O => None
  | S fuel' =>
      match parse_value fuel' s with
      | None => None
      | Some (v, rest) =>
          match skip_ws rest with
          | String c rest' =>
              if code c =? 44 then parse_elements fuel' rest' (v :: acc)
              else if code c =? 93 then Some (JArr (rev (v :: acc)), rest')
              else None
          | EmptyString => None
          end
      end
  end
with parse_members (fuel : nat) (s : string) (acc : list (string * JsVal))
    : option (JsVal * string) :=
  match fuel with
  | O => None
  | S fuel' =>
      match s with
      | String q after_quote =>
          if code q =? 34 then
            match read_string (String.length after_quote) after_quote "" with
            | None => None
            | Some (k, rest) =>
                match skip_ws rest with
                | String c rest' =>
                    if code c =? 58 then
                      match parse_value fuel' rest' with
                      | None => None
                      | Some (v, rest'') =>
                          match skip_ws rest'' with
                          | String d rest3 =>
                              if code d =? 44 then
                                parse_members fuel' (skip_ws rest3)
                                  (obj_put k v acc)
                              else if code d =? 125 then
                                Some (JObj (obj_put k v acc), rest3)
                              else None
                          | EmptyString => None
                          end
                      end
                    else None
                | EmptyString => None
                end
            end
          else None
      | EmptyString => None
      end
  end.

(** [JSON.parse(text)] *)
Definition parse_json (text : string) : option JsVal :=
  match parse_value (2 * String.length text + 2) text with
  | Some (v, rest) =>
      match skip_ws rest with
      | EmptyString => Some v
      | _ => None
      end
  | None => None
  end.

Definition hex_digit (n : Z) : Ascii.ascii :=
  if n <? 10 then byte_of (48 + n) else byte_of (87 + n).

(** A string literal of [JSON.stringify]. *)
Fixpoint quote_body (s : string) : string :=
  match s with
  | EmptyString => dq
  | String c rest =>
      let n := code c in
      let escaped (e : Z) := String (byte_of 92) (String (byte_of e) "") in
      (if n =? 34 then escaped 34
       else if n =? 92 then escaped 92
       else if n =? 8 then escaped 98
       else if n =? 12 then escaped 102
       else if n =? 10 then escaped 110
       else if n =? 13 then escaped 114
       else if n =? 9 then escaped 116
       else if n <? 32 then
         escaped 117 +:+ "00"
         +:+ String (hex_digit (n / 16)) (String (hex_digit (n mod 16)) "")
       else String c "")
      +:+ quote_body rest
  end.

Definition quote (s : string) : string := dq +:+ quote_body s.

Fixpoint join (sep : string) (l : list string) : string :=
  match l with
  | [] => ""
  | [x] => x
  | x :: rest => x +:+ sep +:+ join sep rest
  end.

Definition is_finite (x : float) : bool :=
  match Prim2SF x with
  | S754_nan | S754_infinity _ => false
  | _ => true
  end.

(** [JSON.stringify(v)]; [None] is undefined (a member left out). *)
Fixpoint stringify (v : JsVal) : option string :=
  match v with
  | JUndefined => None
  | JNull => Some "null"
  | JBool b => Some (if b then "true" else "false")
  | JNum x => Some (if is_finite x then print_number x else "null")
  | JStr s => Some (quote s)
  | JArr items =>
      Some ("[" +:+ join ","
                      ((fix each (l : list JsVal) : list string :=
                          match l with
                          | [] => []
                          | x :: rest =>
                              default "null" (stringify x) :: each rest
                          end) items)
            +:+ "]")
  | JObj props =>
      Some ("{" +:+ join ","
                      ((fix each (l : list (string * JsVal)) : list string :=
                          match l with
                          | [] => []
                          | (k, x) :: rest =>
                              match stringify x with
                              | Some t => (quote k +:+ ":" +:+ t) :: each rest
                              | None => each rest
                              end
                          end) props)
            +:+ "}")
  end.

Definition print_json (v : JsVal) : string :=
  default "undefined" (stringify v).

(** *** MessagePack

    The nil, boolean, integer, float, str, array and map families; the bin
    and ext families, which decode to buffers and host objects, are
    refused here.  This decoder reads one value and leaves what follows. *)

(** A big-endian unsigned integer of [n] bytes. *)
Fixpoint read_uint (n : nat) (s : string) (acc : Z) : option (Z * string) :=
  match n with
  | O => Some (acc, s)
  | S n' =>
      match s with
      | String c rest => read_uint n' rest (acc * 256 + code c)
      | EmptyString => None
      end
  end.

Definition read_bytes (n : nat) (s : string) : option (string * string) :=
  if (n <=? String.length s)%nat then Some (take n s, drop n s) else None.

Definition signed (bits : Z) (u : Z) : Z :=
  if u <? 2 ^ (bits - 1) then u else u - 2 ^ bits.

Definition of_Z (n : Z) : float := nearest (n <? 0) (Z.abs n) 1.

(** The value of an IEEE 754 pattern with [ebits] exponent bits and
    [fbits] fraction bits. *)
Definition of_bits (ebits fbits : Z) (u : Z) : float :=
  let neg := 2 ^ (ebits + fbits) <=? u in
  let e := u / 2 ^ fbits mod 2 ^ ebits in
  let f := u mod 2 ^ fbits in
  let bias := 2 ^ (ebits - 1) - 1 in
  if e =? 2 ^ ebits - 1 then (if f =? 0 then infinity_of neg else NaN)
  else if e =? 0 then
    if 0 <=? 1 - bias - fbits
    then nearest neg (f * 2 ^ (1 - bias - fbits)) 1
    else nearest neg f (2 ^ (bias + fbits - 1))
  else
    if 0 <=? e - bias - fbits
    then nearest neg ((2 ^ fbits + f) * 2 ^ (e - bias - fbits)) 1
    else nearest neg (2 ^ fbits + f) (2 ^ (bias + fbits - e)).

(** The property name a decoded map key becomes. *)
Definition key_name (k : JsVal) : option string :=
  match k with
  | JStr s => Some s
  | JNum x => Some (print_number x)
  | JBool b => Some (if b then "true" else "false")
  | JNull => Some "null"
  | _ => None
  end.

Fixpoint unpack (fuel : nat) (s : string) : option (JsVal * string) :=
  match fuel with
  | O => None
  | S fuel' =>
      match s with
      | EmptyString => None
      | String c rest =>
          let t := code c in
          let number (r : option (Z * string)) (f : Z -> float) :=
            (fun p => (JNum (f (fst p)), snd p)) <$> r in
          let str (r : option (Z * string)) :=
            match r with
            | Some (n, rest') =>
                (fun p => (JStr (fst p), snd p))
                  <$> read_bytes (Z.to_nat n) rest'
            | None => None
            end in
          let arr (r : option (Z * string)) :=
            match r with
            | Some (n, rest') => unpack_items fuel' (Z.to_nat n) rest' []
            | None => None
            end in
          let map (r : option (Z * string)) :=
            match r with
            | Some (n, rest') => unpack_pairs fuel' (Z.to_nat n) rest' []
            | None => None
            end in
          if t <=? 127 then Some (JNum (of_Z t), rest)
          else if t <=? 143 then map (Some (t - 128, rest))
          else if t <=? 159 then arr (Some (t - 144, rest))
          else if t <=? 191 then str (Some (t - 160, rest))
          else if t =? 192 then Some (JNull, rest)
          else if t =? 194 then Some (JBool false, rest)
          else if t =? 195 then Some (JBool true, rest)
          else if t =? 202 then number (read_uint 4 rest 0) (of_bits 8 23)
          else if t =? 203 then number (read_uint 8 rest 0) (of_bits 11 52)
          else if t =? 204 then number (read_uint 1 rest 0) of_Z
          else if t =? 205 then number (read_uint 2 rest 0) of_Z
          else if t =? 206 then number (read_uint 4 rest 0) of_Z
          else if t =? 207 then number (read_uint 8 rest 0) of_Z
          else if t =? 208 then
            number (read_uint 1 rest 0) (fun u => of_Z (signed 8 u))
          else if t =? 209 then
            number (read_uint 2 rest 0) (fun u => of_Z (signed 16 u))
          else if t =? 210 then
            number (read_uint 4 rest 0) (fun u => of_Z (signed 32 u))
          else if t =? 211 then
            number (read_uint 8 rest 0) (fun u => of_Z (signed 64 u))
          else if t =? 217 then str (read_uint 1 rest 0)
          else if t =? 218 then str (read_uint 2 rest 0)
          else if t =? 219 then str (read_uint 4 rest 0)
          else if t =? 220 then arr (read_uint 2 rest 0)
          else if t =? 221 then arr (read_uint 4 rest 0)
          else if t =? 222 then map (read_uint 2 rest 0)
          else if t =? 223 then map (read_uint 4 rest 0)
          else if 224 <=? t then Some (JNum (of_Z (t - 256)), rest)
          else None
      end
  end
with unpack_items (fuel : nat) (n : nat) (s : string) (acc : list JsVal)
    : option (JsVal * string) :=
  match fuel with
  | O => None
  | S fuel' =>
      match n with
      | O => Some (JArr (rev acc), s)
      | S n' =>
          match unpack fuel' s with
          | Some (v, rest) => unpack_items fuel' n' rest (v :: acc)
          | None => None
          end
      end
  end
with unpack_pairs (fuel : nat) (n : nat) (s : string)
    (acc : list (string * JsVal)) : option (JsVal * string) :=
  match fuel with
  | O => None
  | S fuel' =>
      match n with
      | O => Some (JObj acc, s)
      | S n' =>
          match unpack fuel' s with
          | Some (k, rest) =>
              match key_name k, unpack fuel' rest with
              | Some name, Some (v, rest') =>
                  unpack_pairs fuel' n' rest' (obj_put name v acc)
              | _, _ => None
              end
          | None => None
          end
      end
  end.

(** [msgpack.decode(buffer)] *)
Definition unpack_first (buffer : string) : option JsVal :=
  fst <$> unpack (2 * String.length buffer + 2) buffer.

(** *** Tokens and URLs *)

(** The value of a base64url digit. *)
Definition b64_value (c : Ascii.ascii) : option Z :=
  let n := code c in
  if (65 <=? n) && (n <=? 90) then Some (n - 65)
  else if (97 <=? n) && (n <=? 122) then Some (n - 71)
  else if (48 <=? n) && (n <=? 57) then Some (n + 4)
  else if n =? 45 then Some 62
  else if n =? 95 then Some 63
  else None.

(** base64url without padding. *)
Fixpoint b64_decode (s : string) : option string :=
  match s with
  | EmptyString => Some ""
  | String a (String b (String c (String d rest))) =>
      match b64_value a, b64_value b, b64_value c, b64_value d,
            b64_decode rest with
      | Some x, Some y, Some z, Some w, Some tail =>
          let n := ((x * 64 + y) * 64 + z) * 64 + w in
          Some (String (byte_of (n / 65536))
                  (String (byte_of (n / 256 mod 256))
                     (String (byte_of (n mod 256)) tail)))
      | _, _, _, _, _ => None
      end
  | String a (String b (String c EmptyString)) =>
      match b64_value a, b64_value b, b64_value c with
      | Some x, Some y, Some z =>
          let n := (x * 64 + y) * 64 + z in
          Some (String (byte_of (n / 1024))
                  (String (byte_of (n / 4 mod 256)) ""))
      | _, _, _ => None
      end
  | String a (String b EmptyString) =>
      match b64_value a, b64_value b with
      | Some x, Some y => Some (String (byte_of ((x * 64 + y) / 16)) "")
      | _, _ => None
      end
  | String _ EmptyString => None
  end.

(** A token has the three parts of a JWT: header and claims in base64url,
    and a tag.  The tag of HMAC-SHA256 is replaced by a keyed one: the
    secret the token was signed with.  A token verifies under that secret
    while its [exp] claim, when it has one, lies after the clock (in
    seconds). *)
Definition verify_token (token secret : string) (now : Z) : option JsVal :=
  match split_on (Ascii.ascii_of_nat 46) token with
  | [header; payload; tag] =>
      if String.eqb tag secret then
        match b64_decode header ≫= parse_json,
              b64_decode payload ≫= parse_json with
        | Some (JObj _), Some (JObj claims) =>
            match obj_get claims "exp" with
            | Some (JNum exp) =>
                if PrimFloat.leb exp (of_Z (now / 1000)) then None
                else Some (JObj claims)
            | _ => Some (JObj claims)
            end
        | _, _ => None
        end
      else None
  | _ => None
  end.

Fixpoint split_first (sep : Z) (s : string) : string * option string :=
  match s with
  | EmptyString => ("", None)
  | String c rest =>
      if code c =? sep then ("", Some rest)
      else let '(a, b) := split_first sep rest in (String c a, b)
  end.

(** [+] and [%XX] of a query component. *)
Fixpoint form_decode (s : string) : string :=
  match s with
  | EmptyString => ""
  | String c rest =>
      if code c =? 43 then String (byte_of 32) (form_decode rest)
      else
        match (if code c =? 37 then
                 match rest with
                 | String a (String b _) =>
                     match hex_value a, hex_value b with
                     | Some x, Some y => Some (x * 16 + y)
                     | _, _ => None
                     end
                 | _ => None
                 end
               else None), rest with
        | Some n, String _ (String _ rest') =>
            String (byte_of n) (form_decode rest')
        | _, _ => String c (form_decode rest)
        end
  end.

(** The pairs of the query of a request target; the base is not looked
    at, and nothing is refused. *)
Definition query_pairs (target base : string)
    : option (list (string * string)) :=
  match snd (split_first 63 (fst (split_first 35 target))) with
  | None => Some []
  | Some query =>
      Some (map (fun piece =>
                   let '(k, v) := split_first 61 piece in
                   (form_decode k, form_decode (default "" v)))
              (List.filter nonempty
                 (split_on (Ascii.ascii_of_nat 38) query)))
  end.

(** *** The upgrade checks of ws *)

(** The characters of an HTTP token. *)
Definition is_tchar (c : Ascii.ascii) : bool :=
  let n := code c in
  ((48 <=? n) && (n <=? 57)) || ((65 <=? n) && (n <=? 90))
  || ((97 <=? n) && (n <=? 122))
  || existsb (Z.eqb n) [33; 35; 36; 37; 38; 39; 42; 43; 45; 46; 94; 95; 96;
                        124; 126].

Inductive Reading : Type :=
| Idle
| Name (name : string)
| Ended (name : string).

(** The parser of [Sec-WebSocket-Protocol] in ws: names of token
    characters, separated by commas and optional spaces or tabs after a
    name or a comma; an empty name, a repeated name, white space at the
    start or after the last name, and any other character are errors. *)
Fixpoint read_names (s : string) (at_start : bool) (state : Reading)
    (seen : list string) : option (list string) :=
  let close name :=
    if existsb (String.eqb name) seen then None
    else Some (seen ++ [name]) in
  match s with
  | EmptyString =>
      match state with
      | Name name => close name
      | _ => None
      end
  | String c rest =>
      if is_tchar c then
        match state with
        | Idle => read_names rest false (Name (String c "")) seen
        | Name name => read_names rest false (Name (name +:+ String c "")) seen
        | Ended _ => None
        end
      else if negb at_start && ((code c =? 32) || (code c =? 9)) then
        match state with
        | Name name => read_names rest false (Ended name) seen
        | _ => read_names rest false state seen
        end
      else if code c =? 44 then
        match state with
        | Idle => None
        | Name name | Ended name =>
            match close name with
            | Some seen' => read_names rest false Idle seen'
            | None => None
            end
        end
      else None
  end.

Definition is_key_char (c : Ascii.ascii) : bool :=
  let n := code c in
  ((48 <=? n) && (n <=? 57)) || ((65 <=? n) && (n <=? 90))
  || ((97 <=? n) && (n <=? 122)) || (n =? 43) || (n =? 47).

Fixpoint all_chars (f : Ascii.ascii -> bool) (s : string) : bool :=
  match s with
  | EmptyString => true
  | String c rest => f c && all_chars f rest
  end.

(** The checks of [handleUpgrade] on the headers of the request: a key of
    22 base64 digits and [==], version 8 or 13, a well-formed list of
    sub-protocols.  Each failure is answered with 400. *)
Definition handshake_check (req : Request) : option Z :=
  let key := default "" (sec_websocket_key req) in
  let version :=
    match sec_websocket_version req with
    | Some v => scan_number v
    | None => NaN
    end in
  if negb ((String.length key =? 24)%nat
           && all_chars is_key_char (take 22 key)
           && String.eqb (drop 22 key) "==")
  then Some 400
  else if negb (PrimFloat.eqb version 8 || PrimFloat.eqb version 13)
  then Some 400
  else
    match sec_websocket_protocol req with
    | Some header =>
        match read_names header true Idle [] with
        | Some _ => None
        | None => Some 400
        end
    | None => None
    end.

Definition platform : Env :=
  {| JSON_parse := parse_json;
     JSON_stringify := print_json;
     msgpack_decode := unpack_first;
     jwt_verify := verify_token;
     URL_searchParams := query_pairs;
     Number_toString := print_number;
     Number_toFixed := print_fixed;
     StringToNumber := scan_number;
     ws_handleUpgrade := handshake_check |}.

End Reference.

(** ** The frame codec, as the protocol describes it *)

(** The commands an inbound frame can carry. *)
Inductive Command : Type :=
| CState (payload : JsVal)
| CCoachEnable (enable : JsVal)
| CPing
| CUnrecognized.

Definition field (props : list (string * JsVal)) (k : string) : JsVal :=
  default JUndefined (obj_get props k).

(** A decoded frame is a state frame when it is an array headed by
    ['state'] (its payload is the second element) or an object of type
    ['state'] (its payload is the property [state]); an object of type
    ['coach_enable'] or ['ping'] is that command; anything else is not
    recognized. *)
Definition classify (data : JsVal) : Command :=
  match data with
  | JArr (JStr tag :: rest) =>
      if String.eqb tag "state" then CState (hd JUndefined rest)
      else CUnrecognized
  | JObj props =>
      match obj_get props "type" with
      | Some (JStr t) =>
          if String.eqb t "state" then CState (field props "state")
          else if String.eqb t "coach_enable" then
            CCoachEnable (field props "enable")
          else if String.eqb t "ping" then CPing
          else CUnrecognized
      | _ => CUnrecognized
      end
  | _ => CUnrecognized
  end.

(** The identity a connection is accounted under: the truthy [sub] claim of
    its token, or ['anon']. *)
Definition identity (ws : WebSocket) : JsVal :=
  match user ws with
  | JObj claims => js_or (field claims "sub") (JStr "anon")
  | _ => JStr "anon"
  end.

(** Consecutive timestamps at least [gap] apart. *)
Inductive spaced (gap : Z) : list Z -> Prop :=
| spaced_nil : spaced gap []
| spaced_one t : spaced gap [t]
| spaced_cons t1 t2 l :
    gap <= t2 - t1 -> spaced gap (t2 :: l) -> spaced gap (t1 :: t2 :: l).

Section Frames.
Context `{Env} (cfg : Config).

Definition decode (msg : string) (isBinary : bool) : option JsVal :=
  if isBinary then msgpack_decode msg else JSON_parse msg.

Lemma userKey_identity (ws : WebSocket) : userKey ws = Ok (identity ws).
Proof.
  unfold userKey, identity, OptGet, Get, field.
  destruct (user ws); reflexivity.
Qed.

Lemma has_type_object (props : list (string * JsVal)) (lit : string) :
  has_type (JObj props) lit = Ok (StrictEqStr (field props "type") lit).
Proof. reflexivity. Qed.

Lemma has_type_other (data : JsVal) (lit : string) :
  (forall props, data <> JObj props) -> has_type data lit = Ok false.
Proof.
  intros Hno. unfold has_type.
  destruct data; simpl; try reflexivity.
  - destruct b; reflexivity.
  - destruct (negb _); reflexivity.
  - destruct (negb _); reflexivity.
  - exfalso. eapply Hno. reflexivity.
Qed.

(** What the handler does with a decoded frame, command by command. *)
Definition dispatch (now : Z) (ws : WebSocket) (c : Command) (st : Server)
    : Server * list Effect * Completion :=
  match c with
  | CState payload => ingest_state cfg now ws (identity ws) payload st
  | CCoachEnable enable =>
      let meta := default empty_meta (metaByWs st !! ws_id ws) in
      (with_meta (ws_id ws)
         (set_lastCoachAt 0 (set_coachEnabled (ToBoolean enable) meta)) st,
       [Send (ws_id ws) (CoachStatus (ToBoolean enable))], Normal)
  | CPing => (st, [Send (ws_id ws) (Pong now)], Normal)
  | CUnrecognized =>
      (st, [Send (ws_id ws) (Error "unknown message type")], Normal)
  end.

Lemma on_message_decoded now ws msg isBinary st data :
  decode msg isBinary = Some data ->
  on_message cfg now ws msg isBinary st = dispatch now ws (classify data) st.
Proof.
  unfold decode, on_message. intros ->.
  rewrite userKey_identity.
  destruct data as [| |b|x|s|items|props].
  1-5: rewrite !has_type_other by (intros ? [=]); reflexivity.
  - (* an array *)
    rewrite !has_type_other by (intros ? [=]).
    destruct items as [|[| | | |tag| |] rest]; try reflexivity.
    simpl. destruct (String.eqb tag "state"); [|reflexivity].
    destruct rest; reflexivity.
  - (* an object *)
    rewrite !has_type_object. cbn [isArray andb classify Get].
    unfold field.
    destruct (obj_get props "type") as [[| | | |t| |]|]; try reflexivity.
    cbn [from_option id StrictEqStr].
    destruct (String.eqb t "state"); [reflexivity|].
    destruct (String.eqb t "coach_enable"); [reflexivity|].
    destruct (String.eqb t "ping"); reflexivity.
Qed.

Lemma ingest_state_normal now ws key payload st :
  snd (ingest_state cfg now ws key payload st) = Normal.
Proof.
  unfold ingest_state.
  destruct (consume _ _ _ _) as [[] store]; reflexivity.
Qed.

(** *** The workers, once their gates are passed *)

Definition commentary_due (now : Z) (ws : WebSocket) (meta : Meta) : Prop :=
  isOpen ws = true /\ ToBoolean (lastState meta) = true
  /\ COMMENTARY_INTERVAL_MS cfg <= now - default 0 (lastCommentAt meta).

Definition coach_due (now : Z) (ws : WebSocket) (meta : Meta) : Prop :=
  isOpen ws = true /\ default false (coachEnabled meta) = true
  /\ ToBoolean (lastState meta) = true
  /\ COACH_INTERVAL_MS cfg <= now - default 0 (lastCoachAt meta).

Lemma commentary_session_due now P ws st meta :
  metaByWs st !! ws_id ws = Some meta ->
  commentary_due now ws meta ->
  commentary_session cfg now P ws st =
    (let '(admitted, store) :=
       consume (commentaryLimiter cfg) (identity ws) now (redis st) in
     let st' := with_meta (ws_id ws) (set_lastCommentAt now meta)
                  (with_redis store st) in
     if admitted then
       let '(effects, c) := commentary_generate cfg now P ws (lastState meta) in
       (st', effects, c)
     else
       (st', [Send (ws_id ws) (Commentary "[commentary rate-limited]")],
        Normal)).
Proof.
  intros Hmeta (Hopen & Hstate & Hgap).
  unfold commentary_session.
  rewrite Hopen, Hmeta, Hstate. cbn [negb].
  destruct (Z.ltb_spec (now - default 0 (lastCommentAt meta))
              (COMMENTARY_INTERVAL_MS cfg)) as [Hlt|_]; [lia|].
  rewrite userKey_identity. reflexivity.
Qed.

Lemma commentary_session_skip now P ws st :
  (forall meta, metaByWs st !! ws_id ws = Some meta ->
                ~ commentary_due now ws meta) ->
  commentary_session cfg now P ws st = (st, [], Normal).
Proof.
  intros Hskip. unfold commentary_session.
  destruct (isOpen ws) eqn:Hopen; [|reflexivity]. cbn [negb].
  destruct (metaByWs st !! ws_id ws) as [meta|] eqn:Hmeta; [|reflexivity].
  destruct (ToBoolean (lastState meta)) eqn:Hstate; [|reflexivity].
  cbn [negb].
  destruct (Z.ltb_spec (now - default 0 (lastCommentAt meta))
              (COMMENTARY_INTERVAL_MS cfg)) as [_|Hge]; [reflexivity|].
  exfalso. apply (Hskip meta eq_refl). repeat split; assumption.
Qed.

Lemma coach_session_due now P ws st meta :
  metaByWs st !! ws_id ws = Some meta ->
  coach_due now ws meta ->
  coach_session cfg now P ws st =
    (let '(admitted, store) :=
       consume (commentaryLimiter cfg) (identity ws) now (redis st) in
     let st' := with_meta (ws_id ws) (set_lastCoachAt now meta)
                  (with_redis store st) in
     if admitted then
       let '(effects, c) := coach_generate cfg now P ws (lastState meta) in
       (st', effects, c)
     else
       (st', [Send (ws_id ws) (Coach "[coach rate-limited]")], Normal)).
Proof.
  intros Hmeta (Hopen & Hon & Hstate & Hgap).
  unfold coach_session.
  rewrite Hopen, Hmeta, Hon, Hstate. cbn [negb orb].
  destruct (Z.ltb_spec (now - default 0 (lastCoachAt meta))
              (COACH_INTERVAL_MS cfg)) as [Hlt|_]; [lia|].
  rewrite userKey_identity. reflexivity.
Qed.

Lemma coach_session_skip now P ws st :
  (forall meta, metaByWs st !! ws_id ws = Some meta ->
                ~ coach_due now ws meta) ->
  coach_session cfg now P ws st = (st, [], Normal).
Proof.
  intros Hskip. unfold coach_session.
  destruct (isOpen ws) eqn:Hopen; [|reflexivity]. cbn [negb].
  destruct (metaByWs st !! ws_id ws) as [meta|] eqn:Hmeta; [|reflexivity].
  destruct (default false (coachEnabled meta)) eqn:Hon; [|reflexivity].
  destruct (ToBoolean (lastState meta)) eqn:Hstate; [|reflexivity].
  cbn [negb orb].
  destruct (Z.ltb_spec (now - default 0 (lastCoachAt meta))
              (COACH_INTERVAL_MS cfg)) as [_|Hge]; [reflexivity|].
  exfalso. apply (Hskip meta eq_refl). repeat split; assumption.
Qed.

Lemma meta_after_session (f : Meta -> Meta) id meta store st :
  metaByWs (with_meta id (f meta) (with_redis store st)) !! id
  = Some (f meta).
Proof. unfold with_meta, with_redis; simpl. apply lookup_insert_eq. Qed.

(** *** Inbound frames *)

(** C5: the per-message handler never ends by raising; a frame that does
    not decode, and a decoded frame of no recognized shape, each get
    exactly one [error] frame and leave the server as it was; any other
    frame is dispatched to its command (state, coach_enable or ping). *)
Theorem frame_handling_total (now : Z) (ws : WebSocket) (msg : string)
    (isBinary : bool) (st : Server) :
  snd (on_message cfg now ws msg isBinary st) = Normal
  /\ match decode msg isBinary with
     | None =>
         fst (on_message cfg now ws msg isBinary st)
         = (st, [Send (ws_id ws) (Error "invalid message")])
     | Some data =>
         match classify data with
         | CUnrecognized =>
             fst (on_message cfg now ws msg isBinary st)
             = (st, [Send (ws_id ws) (Error "unknown message type")])
         | command =>
             on_message cfg now ws msg isBinary st
             = dispatch now ws command st
         end
     end.
Proof.
  destruct (decode msg isBinary) as [data|] eqn:Hdec.
  - rewrite (on_message_decoded _ _ _ _ _ _ Hdec).
    destruct (classify data); simpl; auto using ingest_state_normal.
  - unfold decode in Hdec. unfold on_message. rewrite Hdec. auto.
Qed.

(** C1, as amended: a state frame the admission check rejects leaves the
    registry as it was and is answered by exactly one [error] frame,
    "state rate limit exceeded"; an admitted state frame overwrites
    [lastState] with its payload, touches no other session and sends
    nothing. *)
Theorem state_frame_admission (now : Z) (ws : WebSocket) (msg : string)
    (isBinary : bool) (st : Server) (data payload : JsVal) :
  decode msg isBinary = Some data ->
  classify data = CState payload ->
  let admitted :=
    fst (consume (stateLimiter cfg) (identity ws) now (redis st)) in
  let '(st', effects, completion) := on_message cfg now ws msg isBinary st in
  completion = Normal
  /\ (admitted = false ->
      metaByWs st' = metaByWs st
      /\ effects = [Send (ws_id ws) (Error "state rate limit exceeded")])
  /\ (admitted = true ->
      lastState <$> metaByWs st' !! ws_id ws = Some payload
      /\ (forall other, other <> ws_id ws ->
                        metaByWs st' !! other = metaByWs st !! other)
      /\ effects = []).
Proof.
  intros Hdec Hcmd.
  rewrite (on_message_decoded _ _ _ _ _ _ Hdec), Hcmd.
  unfold dispatch, ingest_state.
  destruct (consume _ _ _ _) as [[] store]; cbn [fst];
    (split; [reflexivity|]); split; intros [=].
  - split; [|split; [|reflexivity]].
    + unfold with_meta, with_redis; simpl.
      rewrite lookup_insert_eq. reflexivity.
    + intros other Hother. unfold with_meta, with_redis; simpl.
      apply lookup_insert_ne. congruence.
  - split; reflexivity.
Qed.

(** C10: a coach_enable frame sets [coachEnabled] to the boolean coercion
    of its [enable] field and [lastCoachAt] to 0, keeps [lastState] and
    [lastCommentAt], and sends exactly one [coach_status] frame with the
    coerced value; with [lastCoachAt] at 0 the session passes the interval
    gate of any coach tick from [COACH_INTERVAL_MS] on, whatever its last
    coach output was. *)
Theorem coach_enable_frame (now : Z) (ws : WebSocket) (msg : string)
    (isBinary : bool) (st : Server) (data enable : JsVal) :
  decode msg isBinary = Some data ->
  classify data = CCoachEnable enable ->
  let meta := default empty_meta (metaByWs st !! ws_id ws) in
  let meta' := {| lastCommentAt := lastCommentAt meta;
                  lastCoachAt := Some 0;
                  coachEnabled := Some (ToBoolean enable);
                  lastState := lastState meta |} in
  on_message cfg now ws msg isBinary st
  = (with_meta (ws_id ws) meta' st,
     [Send (ws_id ws) (CoachStatus (ToBoolean enable))], Normal)
  /\ forall (later : Z) (P : Provider),
       isOpen ws = true -> ToBoolean enable = true ->
       ToBoolean (lastState meta) = true ->
       COACH_INTERVAL_MS cfg <= later ->
       metaByWs (fst (fst (coach_session cfg later P ws
                             (with_meta (ws_id ws) meta' st))))
         !! ws_id ws
       = Some (set_lastCoachAt later meta').
Proof.
  intros Hdec Hcmd meta meta'.
  rewrite (on_message_decoded _ _ _ _ _ _ Hdec), Hcmd.
  split; [reflexivity|].
  intros later P Hopen Hon Hstate Hlate.
  assert (Hmeta : metaByWs (with_meta (ws_id ws) meta' st) !! ws_id ws
                  = Some meta')
    by (unfold with_meta; simpl; apply lookup_insert_eq).
  rewrite (coach_session_due later P ws _ meta' Hmeta).
  - destruct (consume _ _ _ _) as [[] store]; cbn zeta iota.
    + destruct (coach_generate _ _ _ _ _) as [effects c]. cbn [fst].
      apply meta_after_session.
    + cbn [fst]. apply meta_after_session.
  - repeat split; simpl; try assumption. lia.
Qed.

End Frames.

(** ** The effects of one iteration *)

(** An effect that concerns the connection [id]. *)
Definition about (id : nat) (e : Effect) : Prop :=
  match e with
  | Send i _ | Generate i _ _ => i = id
  | Refuse _ => False
  end.

Lemma sent_to_app id l1 l2 : sent_to id (l1 ++ l2) = sent_to id l1 ++ sent_to id l2.
Proof. apply omap_app. Qed.

Lemma invocations_app id k l1 l2 :
  invocations id k (l1 ++ l2) = invocations id k l1 ++ invocations id k l2.
Proof. apply omap_app. Qed.

Lemma sent_to_other id other l :
  Forall (about other) l -> other <> id -> sent_to id l = [].
Proof.
  intros Hall Hne. induction Hall as [|e l He _ IH]; [reflexivity|].
  unfold sent_to in *. cbn [omap list_omap]. rewrite IH.
  destruct e as [i ev|i k t|status]; simpl in He; try reflexivity.
  subst i. destruct (Nat.eqb_spec other id); [contradiction|reflexivity].
Qed.

Lemma invocations_other id other k l :
  Forall (about other) l -> other <> id -> invocations id k l = [].
Proof.
  intros Hall Hne. induction Hall as [|e l He _ IH]; [reflexivity|].
  unfold invocations in *. cbn [omap list_omap]. rewrite IH.
  destruct e as [i ev|i k' t|status]; simpl in He; try reflexivity.
  subst i. destruct (Nat.eqb_spec other id); [contradiction|reflexivity].
Qed.

Lemma invocations_sends id k i (evs : list Event) :
  invocations id k (map (Send i) evs) = [].
Proof. induction evs; [reflexivity|assumption]. Qed.

Lemma sent_to_sends id (evs : list Event) :
  sent_to id (map (Send id) evs) = evs.
Proof.
  induction evs as [|ev evs IH]; [reflexivity|].
  unfold sent_to in *. cbn [map omap list_omap].
  rewrite Nat.eqb_refl, IH. reflexivity.
Qed.

Lemma about_sends id (evs : list Event) : Forall (about id) (map (Send id) evs).
Proof. induction evs; constructor; [reflexivity|assumption]. Qed.

Section Sessions.
Context `{Env} (cfg : Config).

Lemma commentary_generate_about now P ws s :
  Forall (about (ws_id ws)) (fst (commentary_generate cfg now P ws s)).
Proof.
  unfold commentary_generate.
  destruct (userPrompt _ _) as [prompt|]; [|constructor].
  destruct (simulated cfg).
  - destruct (generateSimulatedCommentary _ _) as [out|]; cbn [fst].
    + constructor; [reflexivity|apply about_sends].
    + repeat constructor.
  - destruct (chat_stream _ _ _ _) as [[parts []]|]; cbn [fst].
    + constructor; [reflexivity|]. apply Forall_app. split.
      * apply Forall_map, Forall_forall. reflexivity.
      * repeat constructor.
    + constructor; [reflexivity|]. apply Forall_app. split.
      * apply Forall_map, Forall_forall. reflexivity.
      * apply about_sends.
    + repeat constructor.
Qed.

Lemma coach_generate_about now P ws s :
  Forall (about (ws_id ws)) (fst (coach_generate cfg now P ws s)).
Proof.
  unfold coach_generate.
  destruct (userPrompt _ _) as [prompt|]; [|constructor].
  destruct (simulated cfg); [repeat constructor|].
  destruct (chat_complete _ _ _ _); repeat constructor.
Qed.

(** What one iteration of a worker may touch: the record of its own
    connection and the counters; its effects concern its own
    connection. *)
Definition framed (ws : WebSocket) (st : Server)
    (r : Server * list Effect * Completion) : Prop :=
  clients (fst (fst r)) = clients st
  /\ next_ws (fst (fst r)) = next_ws st
  /\ (forall other, other <> ws_id ws ->
        metaByWs (fst (fst r)) !! other = metaByWs st !! other)
  /\ (is_Some (metaByWs st !! ws_id ws) ->
      is_Some (metaByWs (fst (fst r)) !! ws_id ws))
  /\ Forall (about (ws_id ws)) (snd (fst r)).

Lemma framed_skip ws st : framed ws st (st, [], Normal).
Proof. repeat split; auto. Qed.

Lemma framed_update ws st (f : Meta -> Meta) meta store effects c :
  Forall (about (ws_id ws)) effects ->
  framed ws st
    (with_meta (ws_id ws) (f meta) (with_redis store st), effects, c).
Proof.
  intros Hall. repeat split; simpl; auto.
  - intros other Hother. apply lookup_insert_ne. congruence.
  - intros _. rewrite lookup_insert_eq. eauto.
Qed.

Lemma commentary_session_framed now P ws st :
  framed ws st (commentary_session cfg now P ws st).
Proof.
  unfold commentary_session.
  destruct (isOpen ws); [|apply framed_skip]. cbn [negb].
  destruct (metaByWs st !! ws_id ws) as [meta|]; [|apply framed_skip].
  destruct (negb _); [apply framed_skip|].
  destruct (_ <? _); [apply framed_skip|].
  rewrite userKey_identity.
  destruct (consume _ _ _ _) as [[] store].
  - pose proof (commentary_generate_about now P ws (lastState meta)) as Hall.
    destruct (commentary_generate _ _ _ _ _) as [effects c].
    apply (framed_update ws st (set_lastCommentAt now)), Hall.
  - apply (framed_update ws st (set_lastCommentAt now)). repeat constructor.
Qed.

Lemma coach_session_framed now P ws st :
  framed ws st (coach_session cfg now P ws st).
Proof.
  unfold coach_session.
  destruct (isOpen ws); [|apply framed_skip]. cbn [negb].
  destruct (metaByWs st !! ws_id ws) as [meta|]; [|apply framed_skip].
  destruct (_ || _); [apply framed_skip|].
  destruct (_ <? _); [apply framed_skip|].
  rewrite userKey_identity.
  destruct (consume _ _ _ _) as [[] store].
  - pose proof (coach_generate_about now P ws (lastState meta)) as Hall.
    destruct (coach_generate _ _ _ _ _) as [effects c].
    apply (framed_update ws st (set_lastCoachAt now)), Hall.
  - apply (framed_update ws st (set_lastCoachAt now)). repeat constructor.
Qed.

(** A property of the server and of the log so far that every iteration
    keeps is kept by the loop. *)
Lemma for_each_invariant
    (body : WebSocket -> Server -> Server * list Effect * Completion)
    (Inv : Server -> list Effect -> Prop) (l : list WebSocket) :
  (forall ws st log, In ws l -> Inv st log ->
     Inv (fst (fst (body ws st))) (log ++ snd (fst (body ws st)))) ->
  forall st log,
    Inv st log ->
    Inv (fst (fst (for_each body l st)))
        (log ++ snd (fst (for_each body l st))).
Proof.
  induction l as [|ws rest IH]; intros Hbody st log Hinv.
  - simpl. rewrite app_nil_r. exact Hinv.
  - simpl. pose proof (Hbody ws st log (or_introl eq_refl) Hinv) as Hstep.
    destruct (body ws st) as [[st1 e1] [|e]]; cbn [fst snd] in *.
    + assert (Hrest : forall w s g, In w rest -> Inv s g ->
                Inv (fst (fst (body w s))) (g ++ snd (fst (body w s))))
        by (intros; apply Hbody; [right|]; assumption).
      specialize (IH Hrest st1 (log ++ e1) Hstep).
      destruct (for_each body rest st1) as [[st2 e2] c]; cbn [fst snd] in *.
      rewrite app_assoc. exact IH.
    + exact Hstep.
Qed.

(** *** The coach gate *)

Definition coach_off (meta : Meta) : Prop :=
  default false (coachEnabled meta) = false
  \/ ToBoolean (lastState meta) = false.

(** C7: when the record of a session has [coachEnabled] false, or holds no
    state, a coach tick sends that session nothing, calls no generator for
    it and leaves its record alone, whatever the time of the tick; the
    iteration for that session changes nothing at all, the admission
    counters included. *)
Theorem coach_tick_skips_disabled (now : Z) (P : Provider) (st : Server)
    (id : nat) :
  (forall meta, metaByWs st !! id = Some meta -> coach_off meta) ->
  (forall ws st0,
     ws_id ws = id -> metaByWs st0 !! id = metaByWs st !! id ->
     coach_session cfg now P ws st0 = (st0, [], Normal))
  /\ let '(st', effects, _) := coach_tick cfg now P st in
     sent_to id effects = []
     /\ invocations id KCoach effects = []
     /\ metaByWs st' !! id = metaByWs st !! id.
Proof.
  intros Hoff.
  assert (Hskip : forall ws st0,
            ws_id ws = id -> metaByWs st0 !! id = metaByWs st !! id ->
            coach_session cfg now P ws st0 = (st0, [], Normal)).
  { intros ws st0 Hid Hsame. apply coach_session_skip.
    intros meta Hmeta (_ & Hon & Hstate & _).
    rewrite Hid, Hsame in Hmeta.
    destruct (Hoff meta Hmeta); congruence. }
  split; [exact Hskip|].
  pose (Inv := fun (s : Server) (log : list Effect) =>
                 metaByWs s !! id = metaByWs st !! id
                 /\ sent_to id log = [] /\ invocations id KCoach log = []).
  assert (Hloop := for_each_invariant (coach_session cfg now P) Inv
                     (clients st)).
  unfold coach_tick.
  destruct (for_each _ _ _) as [[st' effects] c] eqn:Hrun.
  specialize (Hloop ltac:(
    intros ws s log _ (Hsame & Hsent & Hinv);
    destruct (Nat.eq_dec (ws_id ws) id) as [Hid|Hne];
    [ rewrite (Hskip ws s Hid Hsame); cbn [fst snd];
      rewrite app_nil_r; repeat split; assumption
    | destruct (coach_session_framed now P ws s)
        as (_ & _ & Hother & _ & Habout);
      unfold Inv; rewrite sent_to_app, invocations_app, Hsent, Hinv,
        (sent_to_other _ _ _ Habout Hne),
        (invocations_other _ _ _ _ Habout Hne),
        (Hother id ltac:(congruence));
      repeat split; assumption ]) st [] ltac:(repeat split; reflexivity)).
  rewrite Hrun in Hloop. cbn [fst snd app] in Hloop.
  destruct Hloop as (Hsame & Hsent & Hinv). repeat split; assumption.
Qed.

(** *** The shared budget *)

Lemma consume_admitted rl key k now store store' :
  ToString key = Ok k ->
  consume rl key now store = (true, store') ->
  1 <= remainingPoints rl store k now
  /\ forall later,
       now <= later < windowEnd rl store (getKey rl k) now ->
       remainingPoints rl store' k later
       = remainingPoints rl store k later - 1.
Proof.
  unfold consume, remainingPoints. intros -> Hc.
  destruct (points rl + 1 <=? consumedPoints store (getKey rl k) now);
    [discriminate|].
  injection Hc as Hle <-. apply Z.leb_le in Hle.
  split; [lia|]. intros later [Hnow Hend].
  unfold consumedPoints at 1. rewrite lookup_insert_eq.
  destruct (Z.ltb_spec later (windowEnd rl store (getKey rl k) now));
    [|lia].
  unfold consumedPoints, windowEnd in *.
  destruct (store !! getKey rl k) as [[c expires]|]; [|lia].
  destruct (Z.ltb_spec now expires), (Z.ltb_spec later expires); lia.
Qed.

Lemma consume_exhausted rl key k now store :
  ToString key = Ok k ->
  remainingPoints rl store k now <= 0 ->
  fst (consume rl key now store) = false.
Proof.
  unfold consume, remainingPoints. intros -> Hleft.
  destruct (points rl + 1 <=? consumedPoints store (getKey rl k) now);
    [reflexivity|].
  cbn [fst]. apply Z.leb_gt. lia.
Qed.

(** The generator calls among the effects of an iteration are calls for
    its own session, of its own kind, at the time of its tick. *)
Definition calls_only (id : nat) (k : Kind) (now : Z) (e : Effect) : Prop :=
  match e with
  | Generate i k' t => i = id /\ k' = k /\ t = now
  | _ => True
  end.

Lemma calls_only_sends id k now i (evs : list Event) :
  Forall (calls_only id k now) (map (Send i) evs).
Proof. induction evs; constructor; [exact I|assumption]. Qed.

Lemma commentary_generate_calls now P ws s :
  Forall (calls_only (ws_id ws) KCommentary now)
    (fst (commentary_generate cfg now P ws s)).
Proof.
  unfold commentary_generate.
  destruct (userPrompt _ _) as [prompt|]; [|constructor].
  destruct (simulated cfg).
  - destruct (generateSimulatedCommentary _ _) as [out|]; cbn [fst].
    + constructor; [repeat split|apply calls_only_sends].
    + repeat constructor.
  - destruct (chat_stream _ _ _ _) as [[parts []]|]; cbn [fst].
    + constructor; [repeat split|]. apply Forall_app. split.
      * apply Forall_map, Forall_forall. intros; exact I.
      * repeat constructor.
    + constructor; [repeat split|]. apply Forall_app. split.
      * apply Forall_map, Forall_forall. intros; exact I.
      * apply calls_only_sends.
    + repeat constructor.
Qed.

Lemma coach_generate_calls now P ws s :
  Forall (calls_only (ws_id ws) KCoach now)
    (fst (coach_generate cfg now P ws s)).
Proof.
  unfold coach_generate.
  destruct (userPrompt _ _) as [prompt|]; [|constructor].
  destruct (simulated cfg); [repeat constructor|].
  destruct (chat_complete _ _ _ _); repeat constructor.
Qed.

(** A generator call in the commentary worker follows an admission, at a
    time the session was due. *)
Lemma commentary_session_call now P ws st i k t :
  In (Generate i k t) (snd (fst (commentary_session cfg now P ws st))) ->
  exists meta store,
    metaByWs st !! ws_id ws = Some meta
    /\ commentary_due cfg now ws meta
    /\ consume (commentaryLimiter cfg) (identity ws) now (redis st)
       = (true, store)
    /\ fst (fst (commentary_session cfg now P ws st))
       = with_meta (ws_id ws) (set_lastCommentAt now meta)
           (with_redis store st)
    /\ i = ws_id ws /\ k = KCommentary /\ t = now.
Proof.
  intros Hin.
  destruct (metaByWs st !! ws_id ws) as [meta|] eqn:Hmeta.
  2:{ rewrite commentary_session_skip in Hin by (intros ?; congruence).
      destruct Hin. }
  destruct (isOpen ws) eqn:Hopen.
  2:{ rewrite commentary_session_skip in Hin
        by (intros ? _ (? & _); congruence).
      destruct Hin. }
  destruct (ToBoolean (lastState meta)) eqn:Hstate.
  2:{ rewrite commentary_session_skip in Hin
        by (intros ? Hm (_ & ? & _); congruence).
      destruct Hin. }
  destruct (Z.lt_ge_cases (now - default 0 (lastCommentAt meta))
              (COMMENTARY_INTERVAL_MS cfg)) as [Hlt|Hge].
  { rewrite commentary_session_skip in Hin.
    - destruct Hin.
    - intros m Hm (_ & _ & Hgap). rewrite Hmeta in Hm.
      injection Hm as <-. lia. }
  assert (Hdue : commentary_due cfg now ws meta) by (repeat split; auto).
  rewrite (commentary_session_due cfg now P ws st meta Hmeta Hdue) in *.
  destruct (consume _ _ _ _) as [[] store].
  - pose proof (commentary_generate_calls now P ws (lastState meta)) as Hc.
    destruct (commentary_generate _ _ _ _ _) as [effects c].
    cbn [fst snd] in *.
    rewrite List.Forall_forall in Hc. specialize (Hc _ Hin) as (-> & -> & ->).
    exists meta, store. repeat split; auto.
  - cbn [fst snd] in Hin. destruct Hin as [[=]|[]].
Qed.

Lemma coach_session_call now P ws st i k t :
  In (Generate i k t) (snd (fst (coach_session cfg now P ws st))) ->
  exists meta store,
    metaByWs st !! ws_id ws = Some meta
    /\ coach_due cfg now ws meta
    /\ consume (commentaryLimiter cfg) (identity ws) now (redis st)
       = (true, store)
    /\ fst (fst (coach_session cfg now P ws st))
       = with_meta (ws_id ws) (set_lastCoachAt now meta)
           (with_redis store st)
    /\ i = ws_id ws /\ k = KCoach /\ t = now.
Proof.
  intros Hin.
  destruct (metaByWs st !! ws_id ws) as [meta|] eqn:Hmeta.
  2:{ rewrite coach_session_skip in Hin by (intros ?; congruence).
      destruct Hin. }
  destruct (isOpen ws) eqn:Hopen.
  2:{ rewrite coach_session_skip in Hin by (intros ? _ (? & _); congruence).
      destruct Hin. }
  destruct (default false (coachEnabled meta)) eqn:Hon.
  2:{ rewrite coach_session_skip in Hin
        by (intros ? Hm (_ & ? & _); congruence).
      destruct Hin. }
  destruct (ToBoolean (lastState meta)) eqn:Hstate.
  2:{ rewrite coach_session_skip in Hin
        by (intros ? Hm (_ & _ & ? & _); congruence).
      destruct Hin. }
  destruct (Z.lt_ge_cases (now - default 0 (lastCoachAt meta))
              (COACH_INTERVAL_MS cfg)) as [Hlt|Hge].
  { rewrite coach_session_skip in Hin.
    - destruct Hin.
    - intros m Hm (_ & _ & _ & Hgap). rewrite Hmeta in Hm.
      injection Hm as <-. lia. }
  assert (Hdue : coach_due cfg now ws meta) by (repeat split; auto).
  rewrite (coach_session_due cfg now P ws st meta Hmeta Hdue) in *.
  destruct (consume _ _ _ _) as [[] store].
  - pose proof (coach_generate_calls now P ws (lastState meta)) as Hc.
    destruct (coach_generate _ _ _ _ _) as [effects c].
    cbn [fst snd] in *.
    rewrite List.Forall_forall in Hc. specialize (Hc _ Hin) as (-> & -> & ->).
    exists meta, store. repeat split; auto.
  - cbn [fst snd] in Hin. destruct Hin as [[=]|[]].
Qed.

(** C9: both workers consume from the one counter kept for the identity of
    the connection under the commentary limiter.  A generator call by
    either worker needed a point of that budget and took it: for the rest
    of the window the budget left to both is one less.  With no point
    left, neither worker calls a generator. *)
Theorem shared_commentary_budget (now : Z) (P : Provider) (ws : WebSocket)
    (st : Server) (k : string) :
  ToString (identity ws) = Ok k ->
  let budget (s : Server) (t : Z) :=
    remainingPoints (commentaryLimiter cfg) (redis s) k t in
  let window (t : Z) :=
    now <= t
    < windowEnd (commentaryLimiter cfg) (redis st)
        (getKey (commentaryLimiter cfg) k) now in
  let taken (r : Server * list Effect * Completion) :=
    1 <= budget st now
    /\ forall t, window t -> budget (fst (fst r)) t = budget st t - 1 in
  (forall kind, In (Generate (ws_id ws) kind now)
                   (snd (fst (coach_session cfg now P ws st))) ->
                taken (coach_session cfg now P ws st))
  /\ (forall kind, In (Generate (ws_id ws) kind now)
                     (snd (fst (commentary_session cfg now P ws st))) ->
                   taken (commentary_session cfg now P ws st))
  /\ (budget st now <= 0 ->
      invocations (ws_id ws) KCoach
        (snd (fst (coach_session cfg now P ws st))) = []
      /\ invocations (ws_id ws) KCommentary
           (snd (fst (commentary_session cfg now P ws st))) = []).
Proof.
  intros Hk budget window taken. split; [|split].
  - intros kind Hin.
    destruct (coach_session_call _ _ _ _ _ _ _ Hin)
      as (meta & store & _ & _ & Hc & Hst & _).
    destruct (consume_admitted _ _ _ _ _ _ Hk Hc) as [Hone Hless].
    split; [exact Hone|]. intros t Ht. rewrite Hst. apply Hless, Ht.
  - intros kind Hin.
    destruct (commentary_session_call _ _ _ _ _ _ _ Hin)
      as (meta & store & _ & _ & Hc & Hst & _).
    destruct (consume_admitted _ _ _ _ _ _ Hk Hc) as [Hone Hless].
    split; [exact Hone|]. intros t Ht. rewrite Hst. apply Hless, Ht.
  - intros Hnone.
    pose proof (consume_exhausted _ _ _ _ _ Hk Hnone) as Hrej.
    assert (Hno : forall l : list Effect,
              (forall i kd t, ~ In (Generate i kd t) l) ->
              forall kd, invocations (ws_id ws) kd l = []).
    { induction l as [|e l IH]; intros Hnot kd; [reflexivity|].
      unfold invocations in *. cbn [omap list_omap].
      rewrite IH by (intros i kd' t Hin; apply (Hnot i kd' t); right; auto).
      destruct e as [i ev|i kd' t|status]; try reflexivity.
      exfalso. apply (Hnot i kd' t). left. reflexivity. }
    split; apply Hno; intros i kd t Hin.
    + destruct (coach_session_call _ _ _ _ _ _ _ Hin)
        as (_ & store & _ & _ & Hc & _).
      rewrite Hc in Hrej. discriminate.
    + destruct (commentary_session_call _ _ _ _ _ _ _ Hin)
        as (_ & store & _ & _ & Hc & _).
      rewrite Hc in Hrej. discriminate.
Qed.

End Sessions.

(** ** Handshake *)

(** The pieces of a header between its commas, read character by
    character; [current] is the piece being read. *)
Fixpoint pieces (header current : string) : list string :=
  match header with
  | EmptyString => [current]
  | String c rest =>
      if Ascii.eqb c comma then current :: pieces rest ""
      else pieces rest (current +:+ String c "")
  end.

(** The sub-protocols a request asks for, in order: the pieces of its
    [Sec-WebSocket-Protocol] header without the white space around them,
    the empty ones left out; none without the header. *)
Definition requested (req : Request) : list string :=
  match sec_websocket_protocol req with
  | None => []
  | Some header => List.filter nonempty (map js_trim (pieces header ""))
  end.

Lemma append_one (a : string) (c : Ascii.ascii) (b : string) :
  (a +:+ String c "") +:+ b = a +:+ String c b.
Proof.
  induction a as [|d a IH]; [reflexivity|].
  change ((String d a +:+ String c "") +:+ b)
    with (String d ((a +:+ String c "") +:+ b)).
  rewrite IH. reflexivity.
Qed.

Lemma append_nothing (a : string) : a +:+ "" = a.
Proof.
  induction a as [|d a IH]; [reflexivity|].
  change (String d a +:+ "") with (String d (a +:+ "")).
  rewrite IH. reflexivity.
Qed.

Lemma pieces_split_on (header : string) : forall current,
  exists first others,
    split_on comma header = first :: others
    /\ pieces header current = (current +:+ first) :: others.
Proof.
  induction header as [|c rest IH]; intros current; cbn [pieces split_on].
  - exists "", []. rewrite append_nothing. split; reflexivity.
  - destruct (Ascii.eqb c comma).
    + destruct (IH "") as (first & others & -> & ->).
      eexists "", _. rewrite append_nothing. split; reflexivity.
    + destruct (IH (current +:+ String c "")) as (first & others & -> & ->).
      eexists _, _. rewrite append_one. split; reflexivity.
Qed.

Section Handshake.
Context `{Env} (cfg : Config).

(** The [token] parameter of the query of a request: the value of the
    first pair of that name. *)
Definition token_parameter (req : Request) : option string :=
  match URL_searchParams (url req)
          ("http://" +:+ default "undefined" (host req)) with
  | Some pairs =>
      match List.find (fun pair => String.eqb (fst pair) "token") pairs with
      | Some (_, value) => Some value
      | None => None
      end
  | None => None
  end.

(** The credential of a request: its second sub-protocol, or else the
    non-empty [token] parameter of its query. *)
Definition credential (req : Request) : option string :=
  match requested req with
  | _ :: token :: _ => Some token
  | _ =>
      match token_parameter req with
      | Some token => if nonempty token then Some token else None
      | None => None
      end
  end.

Lemma parseProtocols_requested req : parseProtocols req = requested req.
Proof.
  unfold parseProtocols, requested.
  destruct (sec_websocket_protocol req) as [header|]; [|reflexivity].
  cbn [from_option id].
  destruct (pieces_split_on header "") as (first & others & -> & ->).
  reflexivity.
Qed.

Lemma query_token_parameter req : query_token req = token_parameter req.
Proof.
  unfold query_token, token_parameter, searchParams_get.
  destruct (URL_searchParams _ _) as [pairs|]; [|reflexivity].
  destruct (List.find _ pairs) as [[k v]|]; reflexivity.
Qed.

Lemma parseProtocols_nonempty req p :
  In p (parseProtocols req) -> nonempty p = true.
Proof. unfold parseProtocols. intros Hin. apply filter_In in Hin. tauto. Qed.

Lemma upgrade_credential now req :
  head (requested req) = Some "pong-proto.v1" ->
  upgrade cfg now req
  = match credential req with
    | None => Rejected 401
    | Some token =>
        match jwt_verify token (JWT_SECRET cfg) now with
        | Some claims => Accepted claims
        | None => Rejected 401
        end
    end.
Proof.
  unfold upgrade, credential. intros Hfirst.
  pose proof (parseProtocols_nonempty req) as Hne.
  rewrite query_token_parameter. rewrite parseProtocols_requested in *.
  destruct (requested req) as [|p0 rest]; [discriminate|].
  injection Hfirst as ->. rewrite String.eqb_refl. cbn [negb].
  destruct rest as [|p1 rest]; cbn [lookup list_lookup truthy_token].
  - destruct (token_parameter req) as [token|]; cbn [truthy_token];
      [|reflexivity].
    destruct (nonempty token); reflexivity.
  - rewrite (Hne p1) by (right; left; reflexivity). cbn [truthy_token].
    rewrite (Hne p1) by (right; left; reflexivity). reflexivity.
Qed.

(** C6: a request whose first sub-protocol is not [pong-proto.v1], or
    that carries no credential, or whose credential does not verify, is
    refused (400, 401, 401) before any upgrade: the server is left as it
    was, with no session record and no frame sent.  A request whose
    credential verifies goes to the ws library for the upgrade: when the
    library refuses it, nothing is created either; when the library
    completes it, the connection joins the clients, its record is created
    and one [welcome] frame carries the decoded claims. *)
Theorem handshake (now : Z) (req : Request) (st : Server) :
  let first := head (requested req) in
  (first <> Some "pong-proto.v1" ->
   on_upgrade cfg now req st = (st, [Refuse 400]))
  /\ (first = Some "pong-proto.v1" ->
      match credential req with
      | None => on_upgrade cfg now req st = (st, [Refuse 401])
      | Some token =>
          match jwt_verify token (JWT_SECRET cfg) now with
          | None => on_upgrade cfg now req st = (st, [Refuse 401])
          | Some claims =>
              match ws_handleUpgrade req with
              | Some status =>
                  on_upgrade cfg now req st = (st, [Refuse status])
              | None =>
                  let '(st', effects) := on_upgrade cfg now req st in
                  effects = [Send (next_ws st) (Welcome claims)]
                  /\ metaByWs st' !! next_ws st = Some new_meta
                  /\ clients st'
                     = clients st ++ [{| ws_id := next_ws st; user := claims;
                                         isOpen := true |}]
              end
          end
      end).
Proof.
  cbn zeta. split.
  - intros Hfirst. unfold on_upgrade, admission, upgrade.
    rewrite parseProtocols_requested.
    destruct (requested req) as [|p0 rest]; [reflexivity|].
    destruct (String.eqb_spec p0 "pong-proto.v1") as [->|_];
      [exfalso; apply Hfirst; reflexivity|reflexivity].
  - intros Hfirst. unfold on_upgrade, admission.
    rewrite (upgrade_credential now req Hfirst).
    destruct (credential req) as [token|]; [|reflexivity].
    destruct (jwt_verify token (JWT_SECRET cfg) now) as [claims|];
      [|reflexivity].
    destruct (ws_handleUpgrade req) as [status|]; [reflexivity|].
    unfold on_connection. cbn [metaByWs clients].
    rewrite lookup_insert_eq. auto.
Qed.

End Handshake.

(** ** Directives in generated text *)

Fixpoint concat_all (l : list string) : string :=
  match l with
  | [] => ""
  | x :: rest => x +:+ concat_all rest
  end.

Lemma append_empty_r (s : string) : s +:+ "" = s.
Proof.
  induction s as [|c s IH]; [reflexivity|].
  change (String c (s +:+ "") = String c s). f_equal. exact IH.
Qed.

Lemma append_assoc3 (a b c : string) : (a +:+ b) +:+ c = a +:+ (b +:+ c).
Proof.
  induction a as [|x a IH]; [reflexivity|].
  change (String x ((a +:+ b) +:+ c) = String x (a +:+ (b +:+ c))).
  f_equal. exact IH.
Qed.

Lemma aggregate_concat (chunks : list string) :
  aggregate chunks = concat_all chunks.
Proof.
  unfold aggregate.
  assert (Hgen : forall acc, fold_left String.append chunks acc
                             = acc +:+ concat_all chunks).
  { induction chunks as [|x rest IH]; intros acc; cbn [fold_left concat_all].
    - symmetry. apply append_empty_r.
    - rewrite IH. apply append_assoc3. }
  apply Hgen.
Qed.

(** The stream that yields the given chunks, one part and one choice
    each. *)
Definition stream_of (chunks : list string) : list (list StreamChoice) :=
  map (fun c => [{| delta_content := Some c; delta_text := None;
                    choice_text := None |}]) chunks.

Lemma stream_of_chunks (chunks : list string) :
  Forall (fun c => nonempty c = true) chunks ->
  stream_chunks (stream_of chunks) = chunks.
Proof.
  unfold stream_chunks, stream_of.
  induction 1 as [|c rest Hc _ IH]; [reflexivity|].
  assert (Htc : textChunk {| delta_content := Some c; delta_text := None;
                              choice_text := None |} = c).
  { unfold textChunk, first_nonempty. simpl. rewrite Hc. reflexivity. }
  cbn [map concat app]. rewrite Htc. cbn [List.filter]. rewrite Hc.
  f_equal. exact IH.
Qed.

Section Directives.
Context `{Env} (cfg : Config).

(** A text that parses as one object tagged [aiAdjust]. *)
Definition tagged (text : string) : option (list (string * JsVal)) :=
  match JSON_parse text with
  | Some (JObj props) =>
      match obj_get props "type" with
      | Some (JStr t) => if String.eqb t "aiAdjust" then Some props else None
      | _ => None
      end
  | _ => None
  end.

(** A speed adjustment: tagged, with a numeric [aiSpeed]. *)
Definition directive (text : string) : option (JsVal * float) :=
  match tagged text with
  | Some props =>
      match obj_get props "aiSpeed" with
      | Some (JNum speed) => Some (JObj props, speed)
      | _ => None
      end
  | None => None
  end.

Lemma directive_block_untagged check text :
  tagged text = None ->
  route check text = [Commentary text].
Proof.
  unfold tagged, route, directive_block. intros Htag.
  destruct (JSON_parse text) as [parsed|]; [|reflexivity].
  destruct parsed as [| |b|x|s|items|props]; try reflexivity.
  - destruct b; reflexivity.
  - cbn [ToBoolean]. destruct (negb _); reflexivity.
  - cbn [ToBoolean]. destruct (negb _); reflexivity.
  - cbn [ToBoolean Get bindR].
    destruct (obj_get props "type") as [[| | | |t| |]|]; try reflexivity.
    cbn [from_option id StrictEqStr].
    destruct (String.eqb t "aiAdjust"); [discriminate|reflexivity].
Qed.

Lemma route_tagged check text props :
  tagged text = Some props ->
  route check text
  = if check && negb (typeof_number (field props "aiSpeed"))
    then [Commentary text]
    else match ToString (field props "aiSpeed") with
         | Ok shown_speed =>
             [Control (JObj props); Commentary (confirmation shown_speed)]
         | Throw _ => [Control (JObj props); Commentary text]
         end.
Proof.
  unfold tagged, route, directive_block, field. intros Htag.
  destruct (JSON_parse text) as [[| | | | | |props']|]; try discriminate.
  cbn [ToBoolean Get bindR].
  destruct (obj_get props' "type") as [[| | | |t| |]|]; try discriminate.
  cbn [from_option id StrictEqStr].
  destruct (String.eqb t "aiAdjust"); [|discriminate].
  injection Htag as ->.
  destruct check; cbn [andb].
  - destruct (typeof_number _); cbn [negb];
      [destruct (ToString _)|]; reflexivity.
  - destruct (ToString _); reflexivity.
Qed.

(** The streaming branch sends a control frame exactly for a speed
    adjustment with a numeric speed. *)
Lemma route_streamed_directive text :
  route_streamed text
  = match directive text with
    | Some (parsed, speed) =>
        [Control parsed; Commentary (confirmation (Number_toString speed))]
    | None => [Commentary text]
    end.
Proof.
  unfold route_streamed, directive.
  destruct (tagged text) as [props|] eqn:Htag.
  - rewrite (route_tagged _ _ _ Htag). unfold field.
    destruct (obj_get props "aiSpeed") as [[]|]; reflexivity.
  - apply directive_block_untagged, Htag.
Qed.

(** The simulated branch sends a control frame for every tagged text,
    whatever its [aiSpeed]. *)
Lemma route_simulated_tagged text :
  route_simulated text
  = match tagged text with
    | Some props =>
        match ToString (field props "aiSpeed") with
        | Ok shown_speed =>
            [Control (JObj props); Commentary (confirmation shown_speed)]
        | Throw _ => [Control (JObj props); Commentary text]
        end
    | None => [Commentary text]
    end.
Proof.
  unfold route_simulated.
  destruct (tagged text) as [props|] eqn:Htag.
  - apply (route_tagged false _ _ Htag).
  - apply directive_block_untagged, Htag.
Qed.

(** C8, as amended: a streaming generation whose stream ends normally
    sends one [commentary_chunk] frame per non-empty chunk, in order,
    and then: one [commentary] frame with the trimmed concatenation of the
    chunks, unless that text is a speed adjustment with a numeric speed;
    in that case one [control] frame and one confirmation. *)
Theorem streamed_commentary (now : Z) (P : Provider) (ws : WebSocket)
    (s : JsVal) (prompt : string) (parts : list (list StreamChoice)) :
  simulated cfg = false ->
  userPrompt s "Respond accordingly." = Ok prompt ->
  chat_stream P (ws_id ws) commentary_systemPrompt prompt
  = Ok (parts, false) ->
  let chunks := stream_chunks parts in
  let finalText := js_trim (concat_all chunks) in
  sent_to (ws_id ws) (fst (commentary_generate cfg now P ws s))
  = map CommentaryChunk chunks
    ++ match directive finalText with
       | Some (parsed, speed) =>
           [Control parsed;
            Commentary (confirmation (Number_toString speed))]
       | None => [Commentary finalText]
       end.
Proof.
  intros Hmode Hprompt Hstream chunks finalText.
  unfold commentary_generate. rewrite Hprompt, Hmode, Hstream. cbn [fst].
  change (Generate (ws_id ws) KCommentary now :: ?l)
    with ([Generate (ws_id ws) KCommentary now] ++ l).
  rewrite !sent_to_app, sent_to_sends, aggregate_concat,
    route_streamed_directive.
  fold chunks. fold finalText. cbn [sent_to omap list_omap app].
  f_equal. rewrite <- (sent_to_sends (ws_id ws) (map CommentaryChunk chunks)).
  rewrite map_map. reflexivity.
Qed.

End Directives.

(** ** Prompt construction *)

Definition primitive (v : JsVal) : bool :=
  match v with
  | JArr _ | JObj _ => false
  | _ => true
  end.

Section Prompts.
Context `{Env}.

Lemma ToString_primitive v : primitive v = true -> exists t, ToString v = Ok t.
Proof. destruct v; try discriminate; intros _; eexists; reflexivity. Qed.

Lemma ToNumber_primitive v : primitive v = true -> exists x, ToNumber v = Ok x.
Proof. destruct v; try discriminate; intros _; eexists; reflexivity. Qed.

(** The property [o] of the snapshot is an object whose properties are
    primitive values (numbers or not, present or not). *)
Definition flat_object (s : JsVal) (o : string) : Prop :=
  exists props, Get s o = Ok (JObj props)
                /\ forall f, primitive (field props f) = true.

Lemma fixed_flat s o f d :
  flat_object s o -> exists t, fixed s o f d = Ok t.
Proof.
  intros (props & Hget & Hleaf). unfold fixed. rewrite Hget. cbn [bindR Get].
  fold (field props f).
  destruct (ToNumber_primitive _ (Hleaf f)) as [x ->]. eexists. reflexivity.
Qed.

Lemma shown_flat s o f : flat_object s o -> exists t, shown s o f = Ok t.
Proof.
  intros (props & Hget & Hleaf). unfold shown. rewrite Hget. cbn [bindR Get].
  fold (field props f). apply ToString_primitive, Hleaf.
Qed.

(** Missing and NaN-like leaves are tolerated: the prompt is built whenever
    the four objects of the snapshot are there. *)
Lemma userPrompt_tolerates_leaves s closing :
  flat_object s "ball" -> flat_object s "leftPaddle" ->
  flat_object s "rightPaddle" -> flat_object s "score" ->
  (exists v, Get s "running" = Ok v /\ primitive v = true) ->
  exists prompt, userPrompt s closing = Ok prompt.
Proof.
  intros Hball Hleft Hright Hscore (v & Hrun & Hv). unfold userPrompt.
  destruct (fixed_flat s "ball" "x" 1 Hball) as [? ->].
  destruct (fixed_flat s "ball" "y" 1 Hball) as [? ->].
  destruct (fixed_flat s "ball" "vx" 2 Hball) as [? ->].
  destruct (fixed_flat s "ball" "vy" 2 Hball) as [? ->].
  destruct (fixed_flat s "leftPaddle" "y" 1 Hleft) as [? ->].
  destruct (fixed_flat s "rightPaddle" "y" 1 Hright) as [? ->].
  destruct (shown_flat s "score" "player" Hscore) as [? ->].
  destruct (shown_flat s "score" "ai" Hscore) as [? ->].
  destruct Hright as (props & -> & Hleaf).
  cbn [bindR Get]. fold (field props "speed").
  destruct (ToNumber_primitive _ (Hleaf "speed")) as [speed ->].
  rewrite Hrun. cbn [bindR].
  destruct (ToString_primitive v Hv) as [t ->].
  eexists. reflexivity.
Qed.

(** A snapshot without its [ball] object is not: reading [s.ball.x] raises. *)
Lemma userPrompt_needs_objects props closing :
  obj_get props "ball" = None ->
  userPrompt (JObj props) closing = Throw TypeError.
Proof. intros Hnone. unfold userPrompt, fixed. cbn. rewrite Hnone. reflexivity. Qed.

End Prompts.

(** ** Runs of the server *)

Lemma spaced_snoc gap l t :
  spaced gap l -> (forall t', In t' l -> gap <= t - t') ->
  spaced gap (l ++ [t]).
Proof.
  induction 1 as [|t1|t1 t2 l Hgap Hrest IH]; intros Hall; cbn [app].
  - constructor.
  - constructor; [apply Hall; left; reflexivity|constructor].
  - constructor; [exact Hgap|].
    apply IH. intros t' Hin. apply Hall. right. exact Hin.
Qed.

Section Runs.
Context `{Env} (cfg : Config).

Let gap := COMMENTARY_INTERVAL_MS cfg.

(** Every client has a record and an identity already given out; every
    past commentary call of a session lies at or before its
    [lastCommentAt]; the calls of each session are [gap] apart. *)
Definition stamped (st : Server) (log : list Effect) : Prop :=
  (forall ws, In ws (clients st) ->
     (ws_id ws < next_ws st)%nat /\ is_Some (metaByWs st !! ws_id ws))
  /\ (forall id t, In t (invocations id KCommentary log) ->
        (id < next_ws st)%nat
        /\ forall meta, metaByWs st !! id = Some meta ->
                        t <= default 0 (lastCommentAt meta))
  /\ (forall id, spaced gap (invocations id KCommentary log)).

Lemma commentary_session_cases now P ws st :
  commentary_session cfg now P ws st = (st, [], Normal)
  \/ exists meta, metaByWs st !! ws_id ws = Some meta
                  /\ commentary_due cfg now ws meta.
Proof.
  destruct (metaByWs st !! ws_id ws) as [meta|] eqn:Hmeta.
  2:{ left. apply commentary_session_skip. intros ?; congruence. }
  destruct (isOpen ws) eqn:Hopen.
  2:{ left. apply commentary_session_skip.
      intros ? _ (? & _); congruence. }
  destruct (ToBoolean (lastState meta)) eqn:Hstate.
  2:{ left. apply commentary_session_skip.
      intros ? Hm (_ & ? & _). congruence. }
  destruct (Z.lt_ge_cases (now - default 0 (lastCommentAt meta)) gap)
    as [Hlt|Hge].
  - left. apply commentary_session_skip.
    intros m Hm (_ & _ & Hgap). rewrite Hmeta in Hm.
    injection Hm as <-. unfold gap in Hlt. lia.
  - right. exists meta. repeat split; auto.
Qed.

Lemma coach_session_cases now P ws st :
  coach_session cfg now P ws st = (st, [], Normal)
  \/ exists meta, metaByWs st !! ws_id ws = Some meta
                  /\ coach_due cfg now ws meta.
Proof.
  destruct (metaByWs st !! ws_id ws) as [meta|] eqn:Hmeta.
  2:{ left. apply coach_session_skip. intros ?; congruence. }
  destruct (isOpen ws) eqn:Hopen.
  2:{ left. apply coach_session_skip. intros ? _ (? & _); congruence. }
  destruct (default false (coachEnabled meta)) eqn:Hon.
  2:{ left. apply coach_session_skip.
      intros ? Hm (_ & ? & _). congruence. }
  destruct (ToBoolean (lastState meta)) eqn:Hstate.
  2:{ left. apply coach_session_skip.
      intros ? Hm (_ & _ & ? & _). congruence. }
  destruct (Z.lt_ge_cases (now - default 0 (lastCoachAt meta))
              (COACH_INTERVAL_MS cfg)) as [Hlt|Hge].
  - left. apply coach_session_skip.
    intros m Hm (_ & _ & _ & Hgap). rewrite Hmeta in Hm.
    injection Hm as <-. lia.
  - right. exists meta. repeat split; auto.
Qed.

(** The frames of a commentary generation follow its one call. *)
Lemma commentary_generate_shape now P ws s :
  fst (commentary_generate cfg now P ws s) = []
  \/ exists evs,
       fst (commentary_generate cfg now P ws s)
       = Generate (ws_id ws) KCommentary now :: map (Send (ws_id ws)) evs.
Proof.
  unfold commentary_generate.
  destruct (userPrompt _ _) as [prompt|]; [|left; reflexivity].
  right. destruct (simulated cfg).
  - destruct (generateSimulatedCommentary _ _) as [out|]; cbn [fst].
    + eexists. reflexivity.
    + exists []. reflexivity.
  - destruct (chat_stream _ _ _ _) as [[parts []]|]; cbn [fst].
    + exists (map CommentaryChunk (stream_chunks parts)
              ++ [Commentary "[commentary error]"]).
      rewrite map_app, map_map. reflexivity.
    + exists (map CommentaryChunk (stream_chunks parts)
              ++ route_streamed (js_trim (aggregate (stream_chunks parts)))).
      rewrite map_app, map_map. reflexivity.
    + exists [Commentary "[commentary error]"]. reflexivity.
Qed.

Lemma invocations_one id now (evs : list Event) :
  invocations id KCommentary
    (Generate id KCommentary now :: map (Send id) evs) = [now].
Proof.
  change (Generate id KCommentary now :: map (Send id) evs)
    with ([Generate id KCommentary now] ++ map (Send id) evs).
  rewrite invocations_app, invocations_sends, app_nil_r.
  unfold invocations. cbn [omap list_omap]. rewrite Nat.eqb_refl.
  reflexivity.
Qed.

Lemma no_commentary_calls id other k now (l : list Effect) :
  Forall (calls_only other k now) l -> k = KCoach ->
  invocations id KCommentary l = [].
Proof.
  intros Hall ->. induction Hall as [|e l He _ IH]; [reflexivity|].
  unfold invocations in *. cbn [omap list_omap]. rewrite IH.
  destruct e as [i ev|i k' t|status]; try reflexivity.
  destruct He as (_ & -> & _). rewrite andb_false_r. reflexivity.
Qed.

(** A step that leaves the commentary calls, the identities given out and
    [lastCommentAt] of every record alone keeps the invariant. *)
Lemma stamped_stable st log st' effects :
  stamped st log ->
  (forall id, invocations id KCommentary effects = []) ->
  next_ws st' = next_ws st ->
  (forall ws, In ws (clients st') ->
     In ws (clients st) /\ is_Some (metaByWs st' !! ws_id ws)) ->
  (forall id meta', metaByWs st' !! id = Some meta' ->
     exists meta, metaByWs st !! id = Some meta
                  /\ lastCommentAt meta' = lastCommentAt meta) ->
  stamped st' (log ++ effects).
Proof.
  intros (Hcl & Hpast & Hsp) Hnone Hnext Hclients Hmetas.
  split; [|split].
  - intros ws Hin. destruct (Hclients ws Hin) as [Hold Hsome].
    rewrite Hnext. split; [apply Hcl, Hold|exact Hsome].
  - intros id t. rewrite invocations_app, Hnone, app_nil_r. intros Hin.
    destruct (Hpast id t Hin) as [Hlt Hle]. rewrite Hnext.
    split; [exact Hlt|]. intros meta' Hm'.
    destruct (Hmetas id meta' Hm') as (meta & Hm & ->). apply Hle, Hm.
  - intros id. rewrite invocations_app, Hnone, app_nil_r. apply Hsp.
Qed.

Lemma stamped_same st log st' effects :
  stamped st log ->
  (forall id, invocations id KCommentary effects = []) ->
  clients st' = clients st -> metaByWs st' = metaByWs st ->
  next_ws st' = next_ws st ->
  stamped st' (log ++ effects).
Proof.
  intros Hinv Hnone Hcl Hmeta Hnext.
  apply (stamped_stable st log st' effects Hinv Hnone Hnext).
  - intros ws Hin. rewrite Hcl in Hin. split; [exact Hin|].
    rewrite Hmeta. destruct Hinv as (Hc & _). apply Hc, Hin.
  - intros id m Hm. rewrite Hmeta in Hm. exists m. auto.
Qed.

Lemma commentary_session_stamped now P ws st log :
  0 <= gap -> In ws (clients st) -> stamped st log ->
  stamped (fst (fst (commentary_session cfg now P ws st)))
          (log ++ snd (fst (commentary_session cfg now P ws st))).
Proof.
  intros Hgap Hws Hinv.
  destruct (commentary_session_cases now P ws st)
    as [->|(meta & Hmeta & Hdue)].
  { cbn [fst snd]. rewrite app_nil_r. exact Hinv. }
  rewrite (commentary_session_due cfg now P ws st meta Hmeta Hdue).
  destruct Hinv as (Hcl & Hpast & Hsp).
  destruct Hdue as (_ & _ & Hdue).
  set (st' := fun store => with_meta (ws_id ws) (set_lastCommentAt now meta)
                             (with_redis store st)).
  assert (Hframe : forall store effects,
            invocations (ws_id ws) KCommentary effects = []
            \/ invocations (ws_id ws) KCommentary effects = [now] ->
            Forall (about (ws_id ws)) effects ->
            stamped (st' store) (log ++ effects)).
  { intros store effects Hcalls Habout. split; [|split].
    - intros w Hin. destruct (Hcl w Hin) as [Hlt Hsome].
      split; [exact Hlt|]. unfold st', with_meta; simpl.
      destruct (Nat.eq_dec (ws_id ws) (ws_id w)) as [->|Hne].
      + rewrite lookup_insert_eq. eauto.
      + rewrite lookup_insert_ne by exact Hne. exact Hsome.
    - intros id t. rewrite invocations_app. intros Hin.
      destruct (Nat.eq_dec (ws_id ws) id) as [<-|Hne].
      + split; [apply Hcl, Hws|].
        intros m. unfold st', with_meta; simpl. rewrite lookup_insert_eq.
        intros [= <-]. cbn [lastCommentAt set_lastCommentAt from_option id].
        apply in_app_or in Hin as [Hold|Hnew].
        * destruct (Hpast _ _ Hold) as [_ Hle].
          specialize (Hle meta Hmeta). unfold gap in Hgap. lia.
        * destruct Hcalls as [Hc|Hc]; rewrite Hc in Hnew;
            [destruct Hnew|destruct Hnew as [<-|[]]; lia].
      + rewrite (invocations_other _ _ _ _ Habout Hne), app_nil_r in Hin.
        destruct (Hpast _ _ Hin) as [Hlt Hle]. split; [exact Hlt|].
        intros m. unfold st', with_meta; simpl.
        rewrite lookup_insert_ne by exact Hne. apply Hle.
    - intros id. rewrite invocations_app.
      destruct (Nat.eq_dec (ws_id ws) id) as [<-|Hne].
      + destruct Hcalls as [->| ->]; [rewrite app_nil_r; apply Hsp|].
        apply spaced_snoc; [apply Hsp|].
        intros t' Hin. destruct (Hpast _ _ Hin) as [_ Hle].
        specialize (Hle meta Hmeta). unfold gap. lia.
      + rewrite (invocations_other _ _ _ _ Habout Hne), app_nil_r.
        apply Hsp. }
  destruct (consume _ _ _ _) as [[] store].
  - pose proof (commentary_generate_about cfg now P ws (lastState meta))
      as Habout.
    pose proof (commentary_generate_shape now P ws (lastState meta))
      as Hshape.
    destruct (commentary_generate _ _ _ _ _) as [effects c].
    cbn [fst snd] in *. apply Hframe; [|exact Habout].
    destruct Hshape as [->|(evs & ->)];
      [left; reflexivity|right; apply invocations_one].
  - cbn [fst snd]. apply Hframe; [left; reflexivity|repeat constructor].
Qed.

Lemma coach_session_stamped now P ws st log :
  stamped st log ->
  stamped (fst (fst (coach_session cfg now P ws st)))
          (log ++ snd (fst (coach_session cfg now P ws st))).
Proof.
  intros Hinv.
  destruct (coach_session_cases now P ws st) as [->|(meta & Hmeta & Hdue)].
  { cbn [fst snd]. rewrite app_nil_r. exact Hinv. }
  rewrite (coach_session_due cfg now P ws st meta Hmeta Hdue).
  assert (Hframe : forall store effects,
            Forall (calls_only (ws_id ws) KCoach now) effects ->
            stamped (with_meta (ws_id ws) (set_lastCoachAt now meta)
                       (with_redis store st)) (log ++ effects)).
  { intros store effects Hcalls.
    apply (stamped_stable st log); try assumption; try reflexivity.
    - intros id. eapply no_commentary_calls; [exact Hcalls|reflexivity].
    - intros w Hin. split; [exact Hin|]. unfold with_meta; simpl.
      destruct (Nat.eq_dec (ws_id ws) (ws_id w)) as [->|Hne].
      + rewrite lookup_insert_eq. eauto.
      + rewrite lookup_insert_ne by exact Hne.
        destruct Hinv as (Hcl & _). apply Hcl, Hin.
    - intros id m. unfold with_meta; simpl.
      destruct (Nat.eq_dec (ws_id ws) id) as [<-|Hne].
      + rewrite lookup_insert_eq. intros [= <-]. exists meta. auto.
      + rewrite lookup_insert_ne by exact Hne. intros Hm. exists m. auto. }
  destruct (consume _ _ _ _) as [[] store].
  - pose proof (coach_generate_calls cfg now P ws (lastState meta)) as Hc.
    destruct (coach_generate _ _ _ _ _) as [effects c].
    cbn [fst snd] in *. apply Hframe, Hc.
  - cbn [fst snd]. apply Hframe. repeat constructor.
Qed.

Lemma socket_client id st ws :
  socket id st = Some ws -> In ws (clients st) /\ ws_id ws = id.
Proof.
  unfold socket. intros Hfind. apply find_some in Hfind as [Hin Heq].
  split; [exact Hin|]. apply Nat.eqb_eq, Heq.
Qed.

Lemma on_message_stamped now ws msg isBinary st log :
  In ws (clients st) -> stamped st log ->
  stamped (fst (fst (on_message cfg now ws msg isBinary st)))
          (log ++ snd (fst (on_message cfg now ws msg isBinary st))).
Proof.
  intros Hws Hinv.
  assert (Hsame : forall effects,
            (forall id, invocations id KCommentary effects = []) ->
            stamped st (log ++ effects)).
  { intros effects Hnone. apply (stamped_same st log); auto. }
  assert (Hput : forall (f : Meta -> Meta) effects,
            (forall m, lastCommentAt (f m) = lastCommentAt m) ->
            (forall id, invocations id KCommentary effects = []) ->
            forall store,
            stamped (with_meta (ws_id ws)
                       (f (default empty_meta (metaByWs st !! ws_id ws)))
                       (with_redis store st)) (log ++ effects)).
  { intros f effects Hkeep Hnone store.
    destruct Hinv as (Hcl & Hrest).
    destruct (Hcl ws Hws) as [_ [meta Hmeta]].
    apply (stamped_stable st log);
      [exact (conj Hcl Hrest)|exact Hnone|reflexivity| |].
    - intros w Hin. split; [exact Hin|]. unfold with_meta; simpl.
      destruct (Nat.eq_dec (ws_id ws) (ws_id w)) as [->|Hne].
      + rewrite lookup_insert_eq. eauto.
      + rewrite lookup_insert_ne by exact Hne. apply Hcl, Hin.
    - intros id m. unfold with_meta; simpl.
      destruct (Nat.eq_dec (ws_id ws) id) as [<-|Hne].
      + rewrite lookup_insert_eq, Hmeta. intros [= <-].
        exists meta. split; [reflexivity|apply Hkeep].
      + rewrite lookup_insert_ne by exact Hne. intros Hm. exists m. auto. }
  destruct (decode msg isBinary) as [data|] eqn:Hdec.
  - rewrite (on_message_decoded cfg now ws msg isBinary st data Hdec).
    destruct (classify data) as [payload|enable| |]; cbn [dispatch].
    + unfold ingest_state.
      destruct (consume _ _ _ _) as [[] store]; cbn [fst snd].
      * apply (Hput (set_lastState payload)); reflexivity.
      * apply (stamped_same st log); auto.
    + cbn [fst snd].
      pose proof (Hput (fun m => set_lastCoachAt 0
                                   (set_coachEnabled (ToBoolean enable) m))
                    [Send (ws_id ws) (CoachStatus (ToBoolean enable))]
                    ltac:(reflexivity) ltac:(reflexivity) (redis st))
        as Hst.
      destruct st; exact Hst.
    + cbn [fst snd]. apply Hsame. reflexivity.
    + cbn [fst snd]. apply Hsame. reflexivity.
  - unfold decode in Hdec. unfold on_message. rewrite Hdec.
    cbn [fst snd]. apply Hsame. reflexivity.
Qed.

Lemma on_upgrade_stamped now req st log :
  stamped st log ->
  stamped (fst (on_upgrade cfg now req st))
          (log ++ snd (on_upgrade cfg now req st)).
Proof.
  intros (Hcl & Hpast & Hsp). unfold on_upgrade.
  destruct (admission cfg now req) as [status|claims]; cbn [fst snd].
  - apply (stamped_same st log); auto.
    exact (conj Hcl (conj Hpast Hsp)).
  - unfold on_connection. cbn [fst snd]. split; [|split]; simpl.
    + intros w Hin. apply in_app_or in Hin as [Hold|[<-|[]]].
      * destruct (Hcl w Hold) as [Hlt Hsome]. split; [lia|].
        rewrite lookup_insert_ne by lia. exact Hsome.
      * simpl. split; [lia|]. rewrite lookup_insert_eq. eauto.
    + intros id t. rewrite invocations_app.
      cbn [invocations omap list_omap]. rewrite app_nil_r. intros Hin.
      destruct (Hpast id t Hin) as [Hlt Hle]. split; [lia|].
      rewrite lookup_insert_ne by lia. exact Hle.
    + intros id. rewrite invocations_app.
      cbn [invocations omap list_omap]. rewrite app_nil_r. apply Hsp.
Qed.

Lemma on_close_stamped id st log :
  stamped st log -> stamped (on_close id st) (log ++ []).
Proof.
  intros (Hcl & Hpast & Hsp).
  apply (stamped_stable st log);
    [exact (conj Hcl (conj Hpast Hsp))|reflexivity|reflexivity| |].
  - intros w Hin. unfold on_close in *; simpl in *.
    apply filter_In in Hin as [Hin Hne].
    split; [exact Hin|].
    rewrite lookup_delete_ne.
    + apply Hcl, Hin.
    + intros Heq. rewrite <- Heq, Nat.eqb_refl in Hne. discriminate.
  - intros i m. unfold on_close; simpl.
    destruct (Nat.eq_dec id i) as [<-|Hne].
    + rewrite lookup_delete_eq. discriminate.
    + rewrite lookup_delete_ne by exact Hne. intros Hm. exists m. auto.
Qed.

Lemma tick_stamped
    (body : WebSocket -> Server -> Server * list Effect * Completion)
    st log :
  (forall ws s, framed ws s (body ws s)) ->
  (forall ws s g, In ws (clients s) -> stamped s g ->
     stamped (fst (fst (body ws s))) (g ++ snd (fst (body ws s)))) ->
  stamped st log ->
  stamped (fst (fst (for_each body (clients st) st)))
          (log ++ snd (fst (for_each body (clients st) st))).
Proof.
  intros Hframed Hbody Hinv.
  pose (Inv := fun (s : Server) (g : list Effect) =>
                 clients s = clients st /\ stamped s g).
  apply (for_each_invariant body Inv (clients st)).
  - intros ws s g Hin [Hsame Hst]. split.
    + destruct (Hframed ws s) as (-> & _). exact Hsame.
    + apply Hbody; [rewrite Hsame; exact Hin|exact Hst].
  - split; [reflexivity|exact Hinv].
Qed.

Lemma step_stamped a st log :
  0 <= gap -> stamped st log ->
  stamped (fst (step cfg a st)) (log ++ snd (step cfg a st)).
Proof.
  intros Hgap Hinv.
  destruct a as [now req|id now msg isBinary|id|now P|now P|now P id
                |now P id]; cbn [step].
  - apply on_upgrade_stamped, Hinv.
  - destruct (socket id st) as [ws|] eqn:Hsock.
    + apply on_message_stamped; [|exact Hinv].
      apply (socket_client id st ws Hsock).
    + cbn [fst snd]. rewrite app_nil_r. exact Hinv.
  - apply on_close_stamped, Hinv.
  - unfold commentary_tick.
    apply (tick_stamped (commentary_session cfg now P)); [| |exact Hinv].
    + intros; apply commentary_session_framed.
    + intros; apply commentary_session_stamped; assumption.
  - unfold coach_tick.
    apply (tick_stamped (coach_session cfg now P)); [| |exact Hinv].
    + intros; apply coach_session_framed.
    + intros; apply coach_session_stamped; assumption.
  - destruct (socket id st) as [ws|] eqn:Hsock.
    + apply commentary_session_stamped; [exact Hgap| |exact Hinv].
      apply (socket_client id st ws Hsock).
    + cbn [fst snd]. rewrite app_nil_r. exact Hinv.
  - destruct (socket id st) as [ws|] eqn:Hsock.
    + apply coach_session_stamped, Hinv.
    + cbn [fst snd]. rewrite app_nil_r. exact Hinv.
Qed.

Lemma run_stamped acts st log :
  0 <= gap -> stamped st log ->
  stamped (fst (run cfg acts st)) (log ++ snd (run cfg acts st)).
Proof.
  intros Hgap. revert st log.
  induction acts as [|a rest IH]; intros st log Hinv; cbn [run].
  - cbn [fst snd]. rewrite app_nil_r. exact Hinv.
  - pose proof (step_stamped a st log Hgap Hinv) as Hstep.
    destruct (step cfg a st) as [st1 e1]. cbn [fst snd] in Hstep.
    specialize (IH st1 (log ++ e1) Hstep).
    destruct (run cfg rest st1) as [st2 e2]. cbn [fst snd] in *.
    rewrite app_assoc. exact IH.
Qed.

Lemma initial_stamped : stamped initial_server [].
Proof.
  split; [|split].
  - intros ws [].
  - intros id t [].
  - intros id. constructor.
Qed.

(** The uninterrupted schedules: with a non-negative interval, in every
    run of the server from its start in which each handler call and each
    worker iteration runs to its end before the next event (whole
    iterations of different ticks in any order), the commentary generator
    is called for one session at times at least [COMMENTARY_INTERVAL_MS]
    apart; and an iteration of the worker for a session that is due stamps
    [lastCommentAt] with the time of the tick whether the admission
    succeeds or not, whatever the generator then does.  The schedules
    where a second iteration comes while the first one waits for its
    limiter are those of [async_run] below. *)
Theorem commentary_calls_spaced :
  0 <= COMMENTARY_INTERVAL_MS cfg ->
  (forall (acts : list Action) (id : nat),
     spaced (COMMENTARY_INTERVAL_MS cfg)
       (invocations id KCommentary (snd (run cfg acts initial_server))))
  /\ (forall now P ws st meta,
        metaByWs st !! ws_id ws = Some meta ->
        commentary_due cfg now ws meta ->
        metaByWs (fst (fst (commentary_session cfg now P ws st)))
          !! ws_id ws
        = Some (set_lastCommentAt now meta)).
Proof.
  intros Hgap. split.
  - intros acts id.
    destruct (run_stamped acts initial_server [] Hgap initial_stamped)
      as (_ & _ & Hsp).
    apply Hsp.
  - intros now P ws st meta Hmeta Hdue.
    rewrite (commentary_session_due cfg now P ws st meta Hmeta Hdue).
    destruct (consume _ _ _ _) as [[] store]; cbn zeta iota.
    + destruct (commentary_generate _ _ _ _ _) as [effects c]. cbn [fst].
      apply meta_after_session.
    + cbn [fst]. apply meta_after_session.
Qed.

End Runs.

(** ** Worked examples on the reference platform *)

(** A JSON text written with single quotes for its double quotes. *)
Fixpoint json_text (s : string) : string :=
  match s with
  | EmptyString => EmptyString
  | String c rest =>
      String (if Ascii.eqb c (Ascii.ascii_of_nat 39)
              then Ascii.ascii_of_nat 34 else c) (json_text rest)
  end.

(** The defaults of the server, in simulated mode. *)
Definition example_config : Config :=
  {| JWT_SECRET := "s3cret";
     COMMENTARY_INTERVAL_MS := 1200;
     COACH_INTERVAL_MS := 10000;
     STATE_SEND_LIMIT_PER_SECOND := 5;
     COMMENTARY_LIMIT_PER_MINUTE := 40;
     SIMULATED_MODE := true;
     openaiClient := false |}.

(** The same with the external provider in use. *)
Definition streaming_config : Config :=
  {| JWT_SECRET := "s3cret";
     COMMENTARY_INTERVAL_MS := 1200;
     COACH_INTERVAL_MS := 10000;
     STATE_SEND_LIMIT_PER_SECOND := 5;
     COMMENTARY_LIMIT_PER_MINUTE := 40;
     SIMULATED_MODE := false;
     openaiClient := true |}.

Definition dev_claims : JsVal := JObj [("sub", JStr "dev-user")].

(** The token of the development issuer: header
    [{"alg":"HS256","typ":"JWT"}], claims [{"sub":"dev-user"}]. *)
Definition dev_token : string :=
  "eyJhbGciOiJIUzI1NiIsInR5cCI6IkpXVCJ9.eyJzdWIiOiJkZXYtdXNlciJ9.s3cret".

Definition sample_key : string := "dGhlIHNhbXBsZSBub25jZQ==".

Definition dev_request : Request :=
  {| sec_websocket_protocol := Some ("pong-proto.v1, " +:+ dev_token);
     url := "/";
     host := Some "localhost:3000";
     sec_websocket_key := Some sample_key;
     sec_websocket_version := Some "13" |}.

Definition dev_socket : WebSocket :=
  {| ws_id := 0; user := dev_claims; isOpen := true |}.

(** Draws that make the simulated generator pick its first phrase. *)
Definition prose_draws : Draws :=
  {| draw1 := 0%float; draw2 := 0.5%float; draw3 := 0.5%float |}.

(** Draws that make it emit a speed adjustment, half a unit down. *)
Definition adjust_draws : Draws :=
  {| draw1 := 0%float; draw2 := 0.01%float; draw3 := 0.3%float |}.

Definition offline (d : Draws) : Provider :=
  {| Math_random := fun _ => d;
     chat_stream := fun _ _ _ => Throw ProviderError;
     chat_complete := fun _ _ _ => Throw ProviderError |}.

(** A provider whose stream yields the given chunks and ends. *)
Definition streaming (chunks : list string) : Provider :=
  {| Math_random := fun _ => prose_draws;
     chat_stream := fun _ _ _ => Ok (stream_of chunks, false);
     chat_complete := fun _ _ _ => Throw ProviderError |}.

Definition empty_state_frame : string :=
  json_text "{'type':'state','state':{}}".

Definition full_state_frame : string :=
  json_text "{'type':'state','state':{'ball':{'x':400,'y':250.5,'vx':-4,'vy':3},'leftPaddle':{'y':200},'rightPaddle':{'y':210,'speed':4},'score':{'player':1,'ai':2},'running':true}}".

Definition text_speed_frame : string :=
  json_text "{'type':'state','state':{'ball':{},'leftPaddle':{},'rightPaddle':{'speed':'fast'},'score':{}}}".

Definition coach_on_frame : string :=
  json_text "{'type':'coach_enable','enable':true}".

Definition full_snapshot : JsVal :=
  JObj [("ball", JObj [("x", JNum 400%float); ("y", JNum 250.5%float);
                       ("vx", JNum (-4)%float); ("vy", JNum 3%float)]);
        ("leftPaddle", JObj [("y", JNum 200%float)]);
        ("rightPaddle", JObj [("y", JNum 210%float); ("speed", JNum 4%float)]);
        ("score", JObj [("player", JNum 1%float); ("ai", JNum 2%float)]);
        ("running", JBool true)].

Definition split_directive : list string :=
  [json_text "{'type':'aiAdjust',"; json_text "'aiSpeed':5}"].

Section Examples.
#[local] Existing Instance Reference.platform.

(** One client connects and sends five state frames within half a second. *)
Definition after_five : Server :=
  fst (run example_config
         [AUpgrade 0 dev_request;
          AMessage 0 0 empty_state_frame false;
          AMessage 0 100 empty_state_frame false;
          AMessage 0 200 empty_state_frame false;
          AMessage 0 300 empty_state_frame false;
          AMessage 0 400 empty_state_frame false] initial_server).

(** One client connects and sends a full snapshot. *)
Definition playing : Server :=
  fst (run example_config
         [AUpgrade 0 dev_request; AMessage 0 0 full_state_frame false]
         initial_server).

(** The same client then enables coaching. *)
Definition coached : Server :=
  fst (run example_config
         [AMessage 0 1000 coach_on_frame false] playing).

(** Two clients: the first sends an empty snapshot and enables coaching, the
    second sends a full snapshot and enables coaching. *)
Definition two_players : Server :=
  fst (run example_config
         [AUpgrade 0 dev_request; AUpgrade 0 dev_request;
          AMessage 0 0 empty_state_frame false;
          AMessage 0 10 coach_on_frame false;
          AMessage 1 100 full_state_frame false;
          AMessage 1 110 coach_on_frame false] initial_server).

(** One client whose snapshot gives the right paddle a textual speed. *)
Definition text_speed : Server :=
  fst (run example_config
         [AUpgrade 0 dev_request; AMessage 0 0 text_speed_frame false]
         initial_server).

(** C1, counterexample: under a budget of five state frames a second, the
    sixth frame of the same client within the window is rejected, and it is
    not dropped in silence: an [error] frame goes back to the client. *)
Lemma rejected_state_frame_is_answered :
  fst (consume (stateLimiter example_config) (identity dev_socket) 500
         (redis after_five)) = false
  /\ sent_to 0 (snd (fst (on_message example_config 500 dev_socket
                            empty_state_frame false after_five)))
     = [Error "state rate limit exceeded"]
  /\ sent_to 0 (snd (fst (on_message example_config 500 dev_socket
                            empty_state_frame false after_five))) <> [].
Proof. vm_compute. repeat split; discriminate. Qed.

Lemma state_frame_admission_witness :
  metaByWs (fst (fst (on_message example_config 500 dev_socket
                        empty_state_frame false after_five)))
  = metaByWs after_five.
Proof.
  generalize (@state_frame_admission Reference.platform example_config 500 dev_socket
                empty_state_frame false after_five
                (JObj [("type", JStr "state"); ("state", JObj [])]) (JObj [])
                ltac:(vm_compute; reflexivity) ltac:(reflexivity)).
  cbv zeta.
  destruct (on_message example_config 500 dev_socket empty_state_frame false
              after_five) as [[st' effects] c].
  intros (_ & Hrejected & _). apply Hrejected. vm_compute. reflexivity.
Defined.

Lemma coach_enable_frame_witness :
  snd (fst (on_message example_config 1000 dev_socket coach_on_frame false
              playing))
  = [Send 0 (CoachStatus true)].
Proof.
  destruct (@coach_enable_frame Reference.platform example_config 1000 dev_socket coach_on_frame
              false playing
              (JObj [("type", JStr "coach_enable"); ("enable", JBool true)])
              (JBool true) ltac:(vm_compute; reflexivity) ltac:(reflexivity))
    as [-> _].
  reflexivity.
Defined.

Lemma coach_tick_skips_disabled_witness :
  sent_to 0 (snd (fst (coach_tick example_config 60000 (offline prose_draws)
                         playing))) = [].
Proof.
  destruct (@coach_tick_skips_disabled Reference.platform example_config 60000
              (offline prose_draws) playing 0%nat) as [_ Htick].
  - intros meta Hmeta. vm_compute in Hmeta. injection Hmeta as <-.
    left. reflexivity.
  - destruct (coach_tick example_config 60000 (offline prose_draws) playing)
      as [[st' effects] c].
    apply Htick.
Defined.

Lemma shared_commentary_budget_witness :
  remainingPoints (commentaryLimiter example_config)
    (redis (fst (fst (coach_session example_config 60000 (offline prose_draws)
                        dev_socket coached)))) "dev-user" 60000
  = remainingPoints (commentaryLimiter example_config) (redis coached)
      "dev-user" 60000 - 1.
Proof.
  destruct (@shared_commentary_budget Reference.platform example_config 60000
              (offline prose_draws) dev_socket coached "dev-user" eq_refl)
    as (Hcoach & _ & _).
  destruct (Hcoach KCoach ltac:(vm_compute; left; reflexivity)) as [_ Hless].
  apply Hless. vm_compute. split; [discriminate|reflexivity].
Defined.

Lemma commentary_calls_spaced_witness :
  spaced 1200
    (invocations 0 KCommentary
       (snd (run example_config
               [AUpgrade 0 dev_request; AMessage 0 0 full_state_frame false;
                ACommentaryTick 2000 (offline prose_draws);
                ACommentaryTick 3000 (offline prose_draws);
                ACommentaryTick 3200 (offline adjust_draws)]
               initial_server))).
Proof.
  apply (@commentary_calls_spaced Reference.platform example_config). simpl. lia.
Defined.

(** The user prompt built from the full snapshot. *)
Definition full_prompt : string :=
  match userPrompt full_snapshot "Respond accordingly." with
  | Ok prompt => prompt
  | Throw _ => ""
  end.

(** The scenario of the protocol description: the chunks "Nice", " shot"
    and "!" give three chunk frames and the commentary "Nice shot!". *)
Lemma streamed_commentary_witness :
  sent_to (ws_id dev_socket)
    (fst (commentary_generate streaming_config 5000
            (streaming ["Nice"; " shot"; "!"]) dev_socket full_snapshot))
  = [CommentaryChunk "Nice"; CommentaryChunk " shot"; CommentaryChunk "!";
     Commentary "Nice shot!"].
Proof.
  rewrite (@streamed_commentary Reference.platform streaming_config 5000
             (streaming ["Nice"; " shot"; "!"]) dev_socket full_snapshot
             full_prompt (stream_of ["Nice"; " shot"; "!"])).
  - vm_compute. reflexivity.
  - reflexivity.
  - vm_compute. reflexivity.
  - reflexivity.
Defined.

(** C8, counterexample: a stream whose chunks add up to a speed adjustment
    is not followed by a [commentary] frame with the concatenated text: a
    [control] frame and a confirmation take its place. *)
Lemma streamed_directive_replaces_commentary :
  sent_to 0 (fst (commentary_generate streaming_config 5000
                    (streaming split_directive) dev_socket full_snapshot))
  = map CommentaryChunk split_directive
    ++ [Control (JObj [("type", JStr "aiAdjust"); ("aiSpeed", JNum 5%float)]);
        Commentary "(AI speed set to 5)"]
  /\ sent_to 0 (fst (commentary_generate streaming_config 5000
                       (streaming split_directive) dev_socket full_snapshot))
     <> map CommentaryChunk split_directive
        ++ [Commentary (js_trim (concat_all split_directive))].
Proof. vm_compute. split; [reflexivity|discriminate]. Qed.

(** C2: the code raises where the claim asks for tolerance.  A client whose
    snapshot is the empty object makes prompt construction raise a
    TypeError outside every [try]: the commentary tick ends there, and the
    session after it, which is due with a full snapshot, gets nothing (it
    gets its commentary once the first client is gone); the coach tick
    ends the same way. *)
Theorem empty_snapshot_aborts_tick :
  (let '(_, effects, completion) :=
     commentary_tick example_config 60000 (offline prose_draws) two_players in
   completion = Abrupt TypeError /\ sent_to 1 effects = [])
  /\ (let '(_, effects, completion) :=
        commentary_tick example_config 60000 (offline prose_draws)
          (on_close 0 two_players) in
      completion = Normal /\ sent_to 1 effects = [Commentary "Nice block!"])
  /\ (let '(_, effects, completion) :=
        coach_tick example_config 60000 (offline prose_draws) two_players in
      completion = Abrupt TypeError /\ sent_to 1 effects = []).
Proof. vm_compute. repeat split; reflexivity. Qed.

(** C3: the simulated branch lacks the numeric test of the streaming
    branch.  With a textual speed in the snapshot the simulated generator
    emits a speed adjustment whose [aiSpeed] is null, and the commentary
    tick forwards it as a [control] frame with a confirmation; the
    streaming branch sends the same text as plain commentary. *)
Theorem simulated_directive_without_numeric_speed :
  generateSimulatedCommentary adjust_draws
    (JObj [("ball", JObj []); ("leftPaddle", JObj []);
           ("rightPaddle", JObj [("speed", JStr "fast")]);
           ("score", JObj [])])
  = Ok (json_text "{'type':'aiAdjust','aiSpeed':null}")
  /\ sent_to 0 (snd (fst (commentary_tick example_config 60000
                            (offline adjust_draws) text_speed)))
     = [Control (JObj [("type", JStr "aiAdjust"); ("aiSpeed", JNull)]);
        Commentary "(AI speed set to null)"]
  /\ route_streamed (json_text "{'type':'aiAdjust','aiSpeed':null}")
     = [Commentary (json_text "{'type':'aiAdjust','aiSpeed':null}")].
Proof. vm_compute. repeat split; reflexivity. Qed.

(** C6, witness: the request of the protocol description, sub-protocols
    [pong-proto.v1] and a valid token, is accepted and welcomed with the
    claims of the token. *)
Lemma handshake_witness :
  snd (on_upgrade example_config 0 dev_request initial_server)
  = [Send 0 (Welcome dev_claims)].
Proof.
  destruct (@handshake Reference.platform example_config 0 dev_request
              initial_server) as [_ Hfirst].
  specialize (Hfirst ltac:(vm_compute; reflexivity)).
  assert (Hcredential : credential dev_request = Some dev_token)
    by (vm_compute; reflexivity).
  assert (Hverified : jwt_verify dev_token (JWT_SECRET example_config) 0
                      = Some dev_claims)
    by (vm_compute; reflexivity).
  assert (Hlibrary : ws_handleUpgrade dev_request = None)
    by (vm_compute; reflexivity).
  rewrite Hcredential, Hverified, Hlibrary in Hfirst.
  destruct (on_upgrade example_config 0 dev_request initial_server)
    as [st' effects].
  destruct Hfirst as [-> _]. reflexivity.
Defined.

(** A request whose list of sub-protocols has an empty element before
    the token. *)
Definition doubled_comma_request : Request :=
  {| sec_websocket_protocol := Some ("pong-proto.v1,, " +:+ dev_token);
     url := "/";
     host := Some "localhost:3000";
     sec_websocket_key := Some sample_key;
     sec_websocket_version := Some "13" |}.

(** C6, counterexample: the server's own handler reads the two names of
    that request and verifies its token, but the ws library refuses the
    list: the connection is refused with 400, no record is created and no
    welcome is sent. *)
Lemma verified_credential_refused_by_library :
  head (requested doubled_comma_request) = Some "pong-proto.v1"
  /\ credential doubled_comma_request = Some dev_token
  /\ jwt_verify dev_token (JWT_SECRET example_config) 0 = Some dev_claims
  /\ on_upgrade example_config 0 doubled_comma_request initial_server
     = (initial_server, [Refuse 400]).
Proof. vm_compute. repeat split; reflexivity. Qed.

(** The token as a query parameter, with the one sub-protocol. *)
Example handshake_accepts_query_token :
  snd (on_upgrade example_config 0
         {| sec_websocket_protocol := Some "pong-proto.v1";
            url := "/ws?token=" +:+ dev_token;
            host := Some "localhost:3000";
            sec_websocket_key := Some sample_key;
            sec_websocket_version := Some "13" |} initial_server)
  = [Send 0 (Welcome dev_claims)].
Proof. vm_compute. reflexivity. Qed.

Example handshake_refuses_other_secret :
  snd (on_upgrade example_config 0
         {| sec_websocket_protocol :=
              Some ("pong-proto.v1, eyJhbGciOiJIUzI1NiIsInR5cCI6IkpXVCJ9.eyJzdWIiOiJkZXYtdXNlciJ9.guess");
            url := "/"; host := None;
            sec_websocket_key := Some sample_key;
            sec_websocket_version := Some "13" |} initial_server)
  = [Refuse 401].
Proof. vm_compute. reflexivity. Qed.

End Examples.

(** ** Rejections and provider failures in the workers *)

Section Failures.
Context `{Env} (cfg : Config).

Lemma commentary_session_not_due now P ws st meta :
  metaByWs st !! ws_id ws = Some meta ->
  now - default 0 (lastCommentAt meta) < COMMENTARY_INTERVAL_MS cfg ->
  commentary_session cfg now P ws st = (st, [], Normal).
Proof.
  intros Hmeta Hsoon. apply commentary_session_skip.
  intros m Hm (_ & _ & Hgap). rewrite Hmeta in Hm. injection Hm as <-. lia.
Qed.

Lemma coach_session_not_due now P ws st meta :
  metaByWs st !! ws_id ws = Some meta ->
  now - default 0 (lastCoachAt meta) < COACH_INTERVAL_MS cfg ->
  coach_session cfg now P ws st = (st, [], Normal).
Proof.
  intros Hmeta Hsoon. apply coach_session_skip.
  intros m Hm (_ & _ & _ & Hgap). rewrite Hmeta in Hm. injection Hm as <-. lia.
Qed.

(** X1: A due session that the commentary limiter rejects gets the one
    placeholder frame of its worker and no generator call; its timestamp is
    advanced all the same, so that no iteration started less than an
    interval later tries again. *)
Theorem rejected_admission_placeholder (now : Z) (P : Provider)
    (ws : WebSocket) (st : Server) (meta : Meta) :
  metaByWs st !! ws_id ws = Some meta ->
  fst (consume (commentaryLimiter cfg) (identity ws) now (redis st)) = false ->
  (commentary_due cfg now ws meta ->
   let '(st', effects, completion) := commentary_session cfg now P ws st in
   effects = [Send (ws_id ws) (Commentary "[commentary rate-limited]")]
   /\ completion = Normal
   /\ metaByWs st' !! ws_id ws = Some (set_lastCommentAt now meta)
   /\ forall later P',
        later - now < COMMENTARY_INTERVAL_MS cfg ->
        commentary_session cfg later P' ws st' = (st', [], Normal))
  /\ (coach_due cfg now ws meta ->
      let '(st', effects, completion) := coach_session cfg now P ws st in
      effects = [Send (ws_id ws) (Coach "[coach rate-limited]")]
      /\ completion = Normal
      /\ metaByWs st' !! ws_id ws = Some (set_lastCoachAt now meta)
      /\ forall later P',
           later - now < COACH_INTERVAL_MS cfg ->
           coach_session cfg later P' ws st' = (st', [], Normal)).
Proof.
  intros Hmeta Hrej. split; intros Hdue.
  - rewrite (commentary_session_due cfg now P ws st meta Hmeta Hdue).
    destruct (consume _ _ _ _) as [admitted store]. cbn [fst] in Hrej.
    subst admitted.
    pose proof (meta_after_session (set_lastCommentAt now) (ws_id ws) meta
                  store st) as Hafter.
    repeat split; try assumption.
    intros later P' Hsoon.
    apply (commentary_session_not_due later P' ws _ _ Hafter). exact Hsoon.
  - rewrite (coach_session_due cfg now P ws st meta Hmeta Hdue).
    destruct (consume _ _ _ _) as [admitted store]. cbn [fst] in Hrej.
    subst admitted.
    pose proof (meta_after_session (set_lastCoachAt now) (ws_id ws) meta
                  store st) as Hafter.
    repeat split; try assumption.
    intros later P' Hsoon.
    apply (coach_session_not_due later P' ws _ _ Hafter). exact Hsoon.
Qed.

(** The chunks forwarded before a streaming request gives up. *)
Definition forwarded (answer : Res (list (list StreamChoice) * bool))
    : list string :=
  match answer with
  | Ok (parts, _) => stream_chunks parts
  | Throw _ => []
  end.

Definition failed {A : Type} (answer : Res (A * bool)) : bool :=
  match answer with
  | Ok (_, breaks) => breaks
  | Throw _ => true
  end.

(** X2: With the external provider in use and the prompt built, nothing the
    provider does ends a worker's iteration abruptly.  A streaming request
    that is refused, or whose stream breaks, leaves the chunks forwarded so
    far followed by the one frame "[commentary error]"; a coach request
    that is refused, or answered without any text, gives the one frame
    "[coach error]". *)
Theorem provider_failure_contained (now : Z) (P : Provider) (ws : WebSocket)
    (s : JsVal) :
  simulated cfg = false ->
  (forall prompt,
     userPrompt s "Respond accordingly." = Ok prompt ->
     let answer := chat_stream P (ws_id ws) commentary_systemPrompt prompt in
     snd (commentary_generate cfg now P ws s) = Normal
     /\ (failed answer = true ->
         sent_to (ws_id ws) (fst (commentary_generate cfg now P ws s))
         = map CommentaryChunk (forwarded answer)
           ++ [Commentary "[commentary error]"]))
  /\ (forall prompt,
        userPrompt s "Provide one coaching tip." = Ok prompt ->
        let answer := chat_complete P (ws_id ws) coach_systemPrompt prompt in
        snd (coach_generate cfg now P ws s) = Normal
        /\ (match answer with
            | Throw _ => True
            | Ok resp => message_content resp = None /\ first_text resp = None
            end ->
            sent_to (ws_id ws) (fst (coach_generate cfg now P ws s))
            = [Coach "[coach error]"])).
Proof.
  intros Hmode. split; intros prompt Hprompt answer.
  - unfold commentary_generate. rewrite Hprompt, Hmode. fold answer.
    destruct answer as [[parts breaks]|e]; cbn [fst snd failed forwarded].
    + destruct breaks; cbn [fst snd]; (split; [reflexivity|]); [|discriminate].
      intros _.
      change (Generate (ws_id ws) KCommentary now :: ?l)
        with ([Generate (ws_id ws) KCommentary now] ++ l).
      rewrite !sent_to_app.
      rewrite <- (map_map CommentaryChunk (Send (ws_id ws))), sent_to_sends.
      cbn [sent_to omap list_omap app]. rewrite Nat.eqb_refl. reflexivity.
    + split; [reflexivity|]. intros _.
      cbn [sent_to omap list_omap map app]. rewrite Nat.eqb_refl. reflexivity.
  - unfold coach_generate. rewrite Hprompt, Hmode. fold answer.
    destruct answer as [resp|e]; cbn [fst snd].
    + split; [reflexivity|]. intros [-> ->].
      cbn [sent_to omap list_omap from_option]. rewrite Nat.eqb_refl.
      reflexivity.
    + split; [reflexivity|]. intros _.
      cbn [sent_to omap list_omap]. rewrite Nat.eqb_refl. reflexivity.
Qed.

Lemma for_each_ext
    (body body' : WebSocket -> Server -> Server * list Effect * Completion)
    (l : list WebSocket) (st : Server) :
  (forall ws s, body ws s = body' ws s) ->
  for_each body l st = for_each body' l st.
Proof.
  intros Hsame. revert st.
  induction l as [|ws rest IH]; intros st; [reflexivity|].
  cbn [for_each]. rewrite Hsame.
  destruct (body' ws st) as [[st1 e1] [|e]]; [|reflexivity].
  rewrite IH. reflexivity.
Qed.

(** X3: In simulated mode no request goes to the provider: whatever the two
    chat functions would answer, both ticks do the same, draw for draw. *)
Theorem simulated_mode_asks_no_provider (now : Z) (P P' : Provider)
    (st : Server) :
  simulated cfg = true ->
  (forall id, Math_random P id = Math_random P' id) ->
  commentary_tick cfg now P st = commentary_tick cfg now P' st
  /\ coach_tick cfg now P st = coach_tick cfg now P' st.
Proof.
  intros Hmode Hdraws. split.
  - apply for_each_ext. intros ws s. unfold commentary_session.
    assert (Hgen : forall snapshot,
              commentary_generate cfg now P ws snapshot
              = commentary_generate cfg now P' ws snapshot).
    { intros snapshot. unfold commentary_generate.
      rewrite Hmode, Hdraws. reflexivity. }
    destruct (isOpen ws); [|reflexivity]. cbn [negb].
    destruct (metaByWs s !! ws_id ws) as [meta|]; [|reflexivity].
    rewrite Hgen. reflexivity.
  - apply for_each_ext. intros ws s. unfold coach_session.
    assert (Hgen : forall snapshot,
              coach_generate cfg now P ws snapshot
              = coach_generate cfg now P' ws snapshot).
    { intros snapshot. unfold coach_generate.
      rewrite Hmode, Hdraws. reflexivity. }
    destruct (isOpen ws); [|reflexivity]. cbn [negb].
    destruct (metaByWs s !! ws_id ws) as [meta|]; [|reflexivity].
    rewrite Hgen. reflexivity.
Qed.

End Failures.

(** ** What the workers and the handler write *)

(** Two records that differ at most in the timestamp of one worker, set to
    the time of its tick. *)
Definition same_but_stamp (k : Kind) (now : Z) (m m' : Meta) : Prop :=
  lastState m' = lastState m
  /\ coachEnabled m' = coachEnabled m
  /\ match k with
     | KCommentary =>
         lastCoachAt m' = lastCoachAt m
         /\ (lastCommentAt m' = lastCommentAt m \/ lastCommentAt m' = Some now)
     | KCoach =>
         lastCommentAt m' = lastCommentAt m
         /\ (lastCoachAt m' = lastCoachAt m \/ lastCoachAt m' = Some now)
     end.

(** Two servers with the same clients and the same records up to that
    timestamp. *)
Definition only_stamps (k : Kind) (now : Z) (st st' : Server) : Prop :=
  clients st' = clients st
  /\ next_ws st' = next_ws st
  /\ forall id,
       match metaByWs st !! id, metaByWs st' !! id with
       | Some m, Some m' => same_but_stamp k now m m'
       | None, None => True
       | _, _ => False
       end.

Lemma same_but_stamp_refl k now m : same_but_stamp k now m m.
Proof. destruct k; repeat split; auto. Qed.

Lemma same_but_stamp_trans k now m1 m2 m3 :
  same_but_stamp k now m1 m2 -> same_but_stamp k now m2 m3 ->
  same_but_stamp k now m1 m3.
Proof.
  intros (Hs1 & Hc1 & H1) (Hs2 & Hc2 & H2).
  split; [congruence|]. split; [congruence|].
  destruct k; destruct H1 as [Ho1 [Ht1|Ht1]], H2 as [Ho2 [Ht2|Ht2]];
    (split; [congruence|]);
    first [left; congruence | right; congruence].
Qed.

Lemma only_stamps_refl k now st : only_stamps k now st st.
Proof.
  repeat split. intros id. destruct (metaByWs st !! id); [|exact I].
  apply same_but_stamp_refl.
Qed.

Lemma only_stamps_trans k now st1 st2 st3 :
  only_stamps k now st1 st2 -> only_stamps k now st2 st3 ->
  only_stamps k now st1 st3.
Proof.
  intros (Hc1 & Hn1 & Hm1) (Hc2 & Hn2 & Hm2).
  split; [congruence|]. split; [congruence|].
  intros id. specialize (Hm1 id). specialize (Hm2 id).
  destruct (metaByWs st1 !! id), (metaByWs st2 !! id), (metaByWs st3 !! id);
    try contradiction; try exact I.
  eapply same_but_stamp_trans; eassumption.
Qed.

Lemma only_stamps_update k now st id meta meta' store :
  metaByWs st !! id = Some meta ->
  same_but_stamp k now meta meta' ->
  only_stamps k now st (with_meta id meta' (with_redis store st)).
Proof.
  intros Hmeta Hsame. repeat split. intros i. unfold with_meta; simpl.
  destruct (Nat.eq_dec id i) as [<-|Hne].
  - rewrite lookup_insert_eq, Hmeta. exact Hsame.
  - rewrite lookup_insert_ne by exact Hne.
    destruct (metaByWs st !! i); [apply same_but_stamp_refl|exact I].
Qed.

Section Writes.
Context `{Env} (cfg : Config).

Lemma commentary_session_only_stamps now P ws st :
  only_stamps KCommentary now st
    (fst (fst (commentary_session cfg now P ws st))).
Proof.
  destruct (commentary_session_cases cfg now P ws st)
    as [->|(meta & Hmeta & Hdue)]; [apply only_stamps_refl|].
  rewrite (commentary_session_due cfg now P ws st meta Hmeta Hdue).
  assert (Hput : forall store,
            only_stamps KCommentary now st
              (with_meta (ws_id ws) (set_lastCommentAt now meta)
                 (with_redis store st))).
  { intros store. apply (only_stamps_update _ _ _ _ meta); [exact Hmeta|].
    repeat split; auto. }
  destruct (consume _ _ _ _) as [[] store]; cbn zeta iota.
  - destruct (commentary_generate _ _ _ _ _) as [effects c]. apply Hput.
  - apply Hput.
Qed.

Lemma coach_session_only_stamps now P ws st :
  only_stamps KCoach now st (fst (fst (coach_session cfg now P ws st))).
Proof.
  destruct (coach_session_cases cfg now P ws st)
    as [->|(meta & Hmeta & Hdue)]; [apply only_stamps_refl|].
  rewrite (coach_session_due cfg now P ws st meta Hmeta Hdue).
  assert (Hput : forall store,
            only_stamps KCoach now st
              (with_meta (ws_id ws) (set_lastCoachAt now meta)
                 (with_redis store st))).
  { intros store. apply (only_stamps_update _ _ _ _ meta); [exact Hmeta|].
    repeat split; auto. }
  destruct (consume _ _ _ _) as [[] store]; cbn zeta iota.
  - destruct (coach_generate _ _ _ _ _) as [effects c]. apply Hput.
  - apply Hput.
Qed.

Lemma for_each_only_stamps k now
    (body : WebSocket -> Server -> Server * list Effect * Completion)
    (l : list WebSocket) (st : Server) :
  (forall ws s, only_stamps k now s (fst (fst (body ws s)))) ->
  only_stamps k now st (fst (fst (for_each body l st))).
Proof.
  intros Hbody.
  pose proof (for_each_invariant body
                (fun s _ => only_stamps k now st s) l) as Hloop.
  apply (Hloop ltac:(intros ws s log _ Hs;
                     exact (only_stamps_trans _ _ _ _ _ Hs (Hbody ws s)))
               st [] (only_stamps_refl k now st)).
Qed.

(** X4: A tick of a worker leaves the clients as they are and writes nothing
    into the registry but its own timestamp: [lastState], [coachEnabled]
    and the timestamp of the other worker are kept in every record, no
    record appears or disappears, and the timestamp it owns is either kept
    or set to the time of the tick.  One worker iteration is taken as one
    step: nothing else runs while it waits for the limiter or the
    generator. *)
Theorem ticks_write_their_timestamp_only (now : Z) (P : Provider)
    (st : Server) :
  only_stamps KCommentary now st (fst (fst (commentary_tick cfg now P st)))
  /\ only_stamps KCoach now st (fst (fst (coach_tick cfg now P st))).
Proof.
  split.
  - apply for_each_only_stamps. intros. apply commentary_session_only_stamps.
  - apply for_each_only_stamps. intros. apply coach_session_only_stamps.
Qed.

End Writes.

(** ** Snapshots the workers can always describe *)

Section Shapes.
Context `{Env} (cfg : Config).

(** A snapshot of the shape the client builds: [ball], [leftPaddle],
    [rightPaddle] and [score] are objects with primitive properties (numbers
    or not, present or not), [running] is primitive. *)
Definition well_shaped (s : JsVal) : Prop :=
  flat_object s "ball" /\ flat_object s "leftPaddle"
  /\ flat_object s "rightPaddle" /\ flat_object s "score"
  /\ exists v, Get s "running" = Ok v /\ primitive v = true.

Lemma OptGet_defined (v : JsVal) (k : string) (r : JsVal) :
  Get v k = Ok r -> OptGet v k = Ok r.
Proof. destruct v; try discriminate; intros Hget; exact Hget. Qed.

Lemma js_add_primitive (a : JsVal) (y : float) :
  primitive a = true ->
  exists v, js_add a (JNum y) = Ok v /\ primitive v = true.
Proof.
  destruct a; try discriminate; intros _; eexists; split; reflexivity.
Qed.

Lemma js_or_primitive (a b : JsVal) :
  primitive a = true -> primitive b = true -> primitive (js_or a b) = true.
Proof. intros Ha Hb. unfold js_or. destruct (ToBoolean a); assumption. Qed.

Lemma generateSimulatedCommentary_flat (d : Draws) (s : JsVal) :
  flat_object s "rightPaddle" ->
  exists out, generateSimulatedCommentary d s = Ok out.
Proof.
  intros (props & Hget & Hleaf). unfold generateSimulatedCommentary.
  destruct (PrimFloat.ltb (draw2 d) 0.05); [|eexists; reflexivity].
  rewrite (OptGet_defined _ _ _ Hget). cbn [bindR OptGet Get].
  fold (field props "speed").
  destruct (js_add_primitive
              (js_or (field props "speed") (JNum 4%float))
              (if PrimFloat.ltb (draw3 d) 0.5 then (-0.5)%float
               else 0.5%float)
              (js_or_primitive _ (JNum 4%float) (Hleaf "speed") eq_refl))
    as (sum & -> & Hsum).
  cbn [bindR].
  destruct (ToNumber_primitive sum Hsum) as [x ->].
  eexists. reflexivity.
Qed.

Lemma commentary_generate_normal now P ws s :
  well_shaped s -> snd (commentary_generate cfg now P ws s) = Normal.
Proof.
  intros (Hball & Hleft & Hright & Hscore & Hrun).
  unfold commentary_generate.
  destruct (userPrompt_tolerates_leaves s "Respond accordingly."
              Hball Hleft Hright Hscore Hrun) as [prompt ->].
  destruct (simulated cfg).
  - destruct (generateSimulatedCommentary_flat (Math_random P (ws_id ws)) s
                Hright) as [out ->].
    reflexivity.
  - destruct (chat_stream _ _ _ _) as [[parts []]|]; reflexivity.
Qed.

Lemma coach_generate_normal now P ws s :
  well_shaped s -> snd (coach_generate cfg now P ws s) = Normal.
Proof.
  intros (Hball & Hleft & Hright & Hscore & Hrun).
  unfold coach_generate.
  destruct (userPrompt_tolerates_leaves s "Provide one coaching tip."
              Hball Hleft Hright Hscore Hrun) as [prompt ->].
  destruct (simulated cfg); [reflexivity|].
  destruct (chat_complete _ _ _ _); reflexivity.
Qed.

(** Every truthy snapshot of the registry is well shaped. *)
Definition describable (st : Server) : Prop :=
  forall id meta,
    metaByWs st !! id = Some meta ->
    ToBoolean (lastState meta) = true -> well_shaped (lastState meta).

Lemma describable_only_stamps k now st st' :
  only_stamps k now st st' -> describable st -> describable st'.
Proof.
  intros (_ & _ & Hrec) Hst id meta' Hmeta' Htruthy.
  specialize (Hrec id). rewrite Hmeta' in Hrec.
  destruct (metaByWs st !! id) as [meta|] eqn:Hmeta; [|contradiction].
  destruct Hrec as (Hsame & _). rewrite Hsame in *.
  exact (Hst id meta Hmeta Htruthy).
Qed.

Lemma commentary_session_normal now P ws st :
  describable st -> snd (commentary_session cfg now P ws st) = Normal.
Proof.
  intros Hst.
  destruct (commentary_session_cases cfg now P ws st)
    as [->|(meta & Hmeta & Hdue)]; [reflexivity|].
  rewrite (commentary_session_due cfg now P ws st meta Hmeta Hdue).
  destruct (consume _ _ _ _) as [[] store]; cbn zeta iota; [|reflexivity].
  pose proof (commentary_generate_normal now P ws (lastState meta)
                (Hst _ _ Hmeta (proj1 (proj2 Hdue)))) as Hnormal.
  destruct (commentary_generate _ _ _ _ _) as [effects c]. exact Hnormal.
Qed.

Lemma coach_session_normal now P ws st :
  describable st -> snd (coach_session cfg now P ws st) = Normal.
Proof.
  intros Hst.
  destruct (coach_session_cases cfg now P ws st)
    as [->|(meta & Hmeta & Hdue)]; [reflexivity|].
  rewrite (coach_session_due cfg now P ws st meta Hmeta Hdue).
  destruct (consume _ _ _ _) as [[] store]; cbn zeta iota; [|reflexivity].
  pose proof (coach_generate_normal now P ws (lastState meta)
                (Hst _ _ Hmeta (proj1 (proj2 (proj2 Hdue))))) as Hnormal.
  destruct (coach_generate _ _ _ _ _) as [effects c]. exact Hnormal.
Qed.

Lemma for_each_normal
    (body : WebSocket -> Server -> Server * list Effect * Completion)
    (Inv : Server -> Prop) (l : list WebSocket) :
  (forall ws s, Inv s ->
     snd (body ws s) = Normal /\ Inv (fst (fst (body ws s)))) ->
  forall st, Inv st ->
    snd (for_each body l st) = Normal /\ Inv (fst (fst (for_each body l st))).
Proof.
  intros Hbody. induction l as [|ws rest IH]; intros st Hst.
  - split; [reflexivity|exact Hst].
  - cbn [for_each]. destruct (Hbody ws st Hst) as [Hc Hs].
    destruct (body ws st) as [[st1 e1] c1]. cbn [fst snd] in Hc, Hs.
    subst c1. destruct (IH st1 Hs) as [Hc2 Hs2].
    destruct (for_each body rest st1) as [[st2 e2] c2].
    split; [exact Hc2|exact Hs2].
Qed.

(** X5: When every truthy snapshot of the registry has the shape the client
    builds, a tick of either worker runs to its end whatever the leaves
    hold (missing, null, strings, NaN): every session of the tick is
    visited, and the registry still has that shape afterwards. *)
Theorem shaped_snapshots_never_abort (now : Z) (P : Provider) (st : Server) :
  describable st ->
  (snd (commentary_tick cfg now P st) = Normal
   /\ describable (fst (fst (commentary_tick cfg now P st))))
  /\ (snd (coach_tick cfg now P st) = Normal
      /\ describable (fst (fst (coach_tick cfg now P st)))).
Proof.
  intros Hst. split.
  - apply (for_each_normal _ describable); [|exact Hst].
    intros ws s Hs. split; [apply commentary_session_normal; exact Hs|].
    exact (describable_only_stamps _ _ _ _
             (commentary_session_only_stamps cfg now P ws s) Hs).
  - apply (for_each_normal _ describable); [|exact Hst].
    intros ws s Hs. split; [apply coach_session_normal; exact Hs|].
    exact (describable_only_stamps _ _ _ _
             (coach_session_only_stamps cfg now P ws s) Hs).
Qed.

End Shapes.

(** ** The two budgets *)

Lemma getKey_inj (rl : RateLimiter) (k k' : string) :
  getKey rl k = getKey rl k' -> k = k'.
Proof.
  unfold getKey. intros Heq.
  apply (inj (String.app (keyPrefix rl))) in Heq.
  apply (inj (String.app ":")) in Heq. exact Heq.
Qed.

Lemma getKey_categories (cfg : Config) (k k' : string) :
  getKey (stateLimiter cfg) k <> getKey (commentaryLimiter cfg) k'.
Proof. unfold getKey. cbn. discriminate. Qed.

Lemma remainingPoints_lookup (rl : RateLimiter) (store store' : Redis)
    (k : string) (now : Z) :
  store' !! getKey rl k = store !! getKey rl k ->
  remainingPoints rl store' k now = remainingPoints rl store k now.
Proof. intros Heq. unfold remainingPoints, consumedPoints. rewrite Heq. reflexivity. Qed.

Section Budgets.
Context `{Env} (cfg : Config).

(** A consumption writes under the key of its limiter and identity only. *)
Lemma consume_elsewhere rl key now store rlKey :
  (forall k, ToString key = Ok k -> rlKey <> getKey rl k) ->
  snd (consume rl key now store) !! rlKey = store !! rlKey.
Proof.
  intros Hother. unfold consume.
  destruct (ToString key) as [k|]; [|reflexivity].
  destruct (_ <=? _); [reflexivity|]. cbn [snd].
  apply lookup_insert_ne. intros Heq. exact (Hother k eq_refl (eq_sym Heq)).
Qed.

(** The Redis store after a frame: as before, or after one consumption of
    the state budget of the sender. *)
Lemma on_message_redis now ws msg isBinary st :
  redis (fst (fst (on_message cfg now ws msg isBinary st))) = redis st
  \/ redis (fst (fst (on_message cfg now ws msg isBinary st)))
     = snd (consume (stateLimiter cfg) (identity ws) now (redis st)).
Proof.
  destruct (decode msg isBinary) as [data|] eqn:Hdec.
  - rewrite (on_message_decoded cfg now ws msg isBinary st data Hdec).
    destruct (classify data); cbn [dispatch]; try (left; reflexivity).
    right. unfold ingest_state.
    destruct (consume _ _ _ _) as [[] store]; reflexivity.
  - left. unfold on_message. unfold decode in Hdec.
    destruct isBinary; rewrite Hdec; reflexivity.
Qed.

Lemma commentary_session_redis now P ws st :
  redis (fst (fst (commentary_session cfg now P ws st))) = redis st
  \/ redis (fst (fst (commentary_session cfg now P ws st)))
     = snd (consume (commentaryLimiter cfg) (identity ws) now (redis st)).
Proof.
  destruct (commentary_session_cases cfg now P ws st)
    as [->|(meta & Hmeta & Hdue)]; [left; reflexivity|].
  right. rewrite (commentary_session_due cfg now P ws st meta Hmeta Hdue).
  destruct (consume _ _ _ _) as [[] store]; cbn zeta iota; [|reflexivity].
  destruct (commentary_generate _ _ _ _ _); reflexivity.
Qed.

Lemma coach_session_redis now P ws st :
  redis (fst (fst (coach_session cfg now P ws st))) = redis st
  \/ redis (fst (fst (coach_session cfg now P ws st)))
     = snd (consume (commentaryLimiter cfg) (identity ws) now (redis st)).
Proof.
  destruct (coach_session_cases cfg now P ws st)
    as [->|(meta & Hmeta & Hdue)]; [left; reflexivity|].
  right. rewrite (coach_session_due cfg now P ws st meta Hmeta Hdue).
  destruct (consume _ _ _ _) as [[] store]; cbn zeta iota; [|reflexivity].
  destruct (coach_generate _ _ _ _ _); reflexivity.
Qed.

(** The counters of the state budget are the same in both stores. *)
Definition same_state_budget (st st' : Server) : Prop :=
  forall k, redis st' !! getKey (stateLimiter cfg) k
            = redis st !! getKey (stateLimiter cfg) k.

Lemma session_keeps_state_budget ws now st st' :
  redis st' = redis st
  \/ redis st'
     = snd (consume (commentaryLimiter cfg) (identity ws) now (redis st)) ->
  same_state_budget st st'.
Proof.
  intros Hcase k. destruct Hcase as [Heq|Heq]; rewrite Heq; [reflexivity|].
  apply consume_elsewhere. intros k' _. apply getKey_categories.
Qed.

Lemma for_each_keeps_state_budget
    (body : WebSocket -> Server -> Server * list Effect * Completion)
    (l : list WebSocket) (st : Server) :
  (forall ws s, same_state_budget s (fst (fst (body ws s)))) ->
  same_state_budget st (fst (fst (for_each body l st))).
Proof.
  intros Hbody.
  pose proof (for_each_invariant body
                (fun s _ => same_state_budget st s) l) as Hloop.
  apply (Hloop ltac:(intros ws s log _ Hs k;
                     rewrite (Hbody ws s k); exact (Hs k))
               st [] ltac:(intros k; reflexivity)).
Qed.

(** X6: The state budget and the commentary budget do not touch each other,
    and a frame costs its sender only: a frame of any kind leaves every
    commentary budget as it is, and the state budget of every identity but
    its sender's; a tick of either worker leaves every state budget as it
    is. *)
Theorem budgets_do_not_interfere (now : Z) (P : Provider) (ws : WebSocket)
    (msg : string) (isBinary : bool) (st : Server) (k : string) (t : Z) :
  let after_frame := fst (fst (on_message cfg now ws msg isBinary st)) in
  remainingPoints (commentaryLimiter cfg) (redis after_frame) k t
  = remainingPoints (commentaryLimiter cfg) (redis st) k t
  /\ (ToString (identity ws) <> Ok k ->
      remainingPoints (stateLimiter cfg) (redis after_frame) k t
      = remainingPoints (stateLimiter cfg) (redis st) k t)
  /\ remainingPoints (stateLimiter cfg)
       (redis (fst (fst (commentary_tick cfg now P st)))) k t
     = remainingPoints (stateLimiter cfg) (redis st) k t
  /\ remainingPoints (stateLimiter cfg)
       (redis (fst (fst (coach_tick cfg now P st)))) k t
     = remainingPoints (stateLimiter cfg) (redis st) k t.
Proof.
  cbn zeta. repeat split.
  - apply remainingPoints_lookup.
    destruct (on_message_redis now ws msg isBinary st) as [Heq|Heq];
      rewrite Heq; [reflexivity|].
    apply consume_elsewhere. intros k' _ Hsame.
    exact (getKey_categories cfg k' k (eq_sym Hsame)).
  - intros Hother. apply remainingPoints_lookup.
    destruct (on_message_redis now ws msg isBinary st) as [Heq|Heq];
      rewrite Heq; [reflexivity|].
    apply consume_elsewhere. intros k' Hk' Hsame.
    apply getKey_inj in Hsame. subst k'. exact (Hother Hk').
  - apply remainingPoints_lookup.
    apply (for_each_keeps_state_budget (commentary_session cfg now P)).
    intros w s. apply (session_keeps_state_budget w now).
    apply commentary_session_redis.
  - apply remainingPoints_lookup.
    apply (for_each_keeps_state_budget (coach_session cfg now P)).
    intros w s. apply (session_keeps_state_budget w now).
    apply coach_session_redis.
Qed.

End Budgets.

(** ** The state budget over one window *)

(** The action is a state frame of connection [id] with payload [p],
    received in the second that starts at [t0]. *)
Definition state_frame_of `{Env} (id : nat) (t0 : Z) (a : Action)
    (p : JsVal) : Prop :=
  match a with
  | AMessage i t msg isBinary =>
      i = id /\ t0 <= t < t0 + 1000
      /\ classify <$> decode msg isBinary = Some (CState p)
  | _ => False
  end.

Definition rate_error : Event := Error "state rate limit exceeded".

Lemma last_cons {A : Type} (p d : A) (l : list A) :
  List.last (p :: l) d = List.last l p.
Proof.
  revert p d. induction l as [|x l IH]; intros p d; [reflexivity|].
  change (List.last (p :: x :: l) d) with (List.last (x :: l) d).
  rewrite (IH x d), (IH x p). reflexivity.
Qed.

Section Window.
Context `{Env} (cfg : Config).

Let limit := STATE_SEND_LIMIT_PER_SECOND cfg.

Lemma on_message_clients now ws msg isBinary st :
  clients (fst (fst (on_message cfg now ws msg isBinary st))) = clients st.
Proof.
  destruct (decode msg isBinary) as [data|] eqn:Hdec.
  - rewrite (on_message_decoded cfg now ws msg isBinary st data Hdec).
    destruct (classify data); cbn [dispatch]; try reflexivity.
    unfold ingest_state.
    destruct (consume _ _ _ _) as [[] store]; reflexivity.
  - unfold on_message. unfold decode in Hdec.
    destruct isBinary; rewrite Hdec; reflexivity.
Qed.

(** A state frame inside a window already open, with [c] points taken. *)
Lemma ingest_state_live now ws k payload st c e meta :
  ToString (identity ws) = Ok k ->
  redis st !! getKey (stateLimiter cfg) k = Some (c, e) ->
  now < e ->
  metaByWs st !! ws_id ws = Some meta ->
  exists st',
    ingest_state cfg now ws (identity ws) payload st
    = (st', if c + 1 <=? limit then [] else [Send (ws_id ws) rate_error],
       Normal)
    /\ clients st' = clients st
    /\ redis st' !! getKey (stateLimiter cfg) k
       = Some (if limit + 1 <=? c then c else c + 1, e)
    /\ metaByWs st' !! ws_id ws
       = Some (if c + 1 <=? limit then set_lastState payload meta else meta).
Proof.
  intros Hk Hentry Hlive Hmeta. unfold ingest_state, consume.
  rewrite Hk. unfold consumedPoints, windowEnd. rewrite Hentry.
  assert (Hnow : (now <? e) = true) by (apply Z.ltb_lt; exact Hlive).
  rewrite Hnow. cbn [points stateLimiter]. fold limit.
  destruct (limit + 1 <=? c) eqn:Hblocked.
  - assert (Hover : (c + 1 <=? limit) = false) by lia. rewrite Hover.
    eexists. split; [reflexivity|]. cbn. repeat split; assumption.
  - destruct (c + 1 <=? limit) eqn:Hadmit.
    + rewrite Hmeta. eexists. split; [reflexivity|]. cbn.
      rewrite !lookup_insert_eq. repeat split.
    + eexists. split; [reflexivity|]. cbn.
      rewrite lookup_insert_eq. repeat split. exact Hmeta.
Qed.

(** The first state frame of an identity with no counter opens the
    window. *)
Lemma ingest_state_fresh now ws k payload st meta :
  ToString (identity ws) = Ok k ->
  redis st !! getKey (stateLimiter cfg) k = None ->
  0 <= limit ->
  metaByWs st !! ws_id ws = Some meta ->
  exists st',
    ingest_state cfg now ws (identity ws) payload st
    = (st', if 1 <=? limit then [] else [Send (ws_id ws) rate_error],
       Normal)
    /\ clients st' = clients st
    /\ redis st' !! getKey (stateLimiter cfg) k = Some (1, now + 1000)
    /\ metaByWs st' !! ws_id ws
       = Some (if 1 <=? limit then set_lastState payload meta else meta).
Proof.
  intros Hk Hentry Hlimit Hmeta. unfold ingest_state, consume.
  rewrite Hk. unfold consumedPoints, windowEnd. rewrite Hentry.
  cbn [points duration stateLimiter]. fold limit.
  assert (Hopen : (limit + 1 <=? 0) = false) by lia. rewrite Hopen.
  change (0 + 1) with 1. change (1 * 1000) with 1000.
  destruct (1 <=? limit) eqn:Hadmit.
  - rewrite Hmeta. eexists. split; [reflexivity|]. cbn.
    rewrite !lookup_insert_eq. repeat split.
  - eexists. split; [reflexivity|]. cbn.
    rewrite lookup_insert_eq. repeat split. exact Hmeta.
Qed.

Lemma step_state_frame id t0 a p ws st :
  state_frame_of id t0 a p ->
  socket id st = Some ws ->
  exists t, t0 <= t < t0 + 1000
    /\ step cfg a st
       = fst (ingest_state cfg t ws (identity ws) p st).
Proof.
  destruct a as [| i t msg isBinary | | | | |]; try contradiction.
  intros (-> & Ht & Hframe) Hws. exists t. split; [exact Ht|].
  cbn [step]. rewrite Hws.
  destruct (decode msg isBinary) as [data|] eqn:Hdec; [|discriminate].
  injection Hframe as Hclass.
  rewrite (on_message_decoded cfg t ws msg isBinary st data Hdec), Hclass.
  reflexivity.
Qed.

Lemma socket_same_clients id st st' :
  clients st' = clients st -> socket id st' = socket id st.
Proof. unfold socket. intros ->. reflexivity. Qed.

Lemma state_frames_live id ws k t0 acts payloads :
  Forall2 (state_frame_of id t0) acts payloads ->
  forall st c e meta,
    socket id st = Some ws ->
    ws_id ws = id ->
    ToString (identity ws) = Ok k ->
    redis st !! getKey (stateLimiter cfg) k = Some (c, e) ->
    t0 + 1000 <= e ->
    0 <= c ->
    metaByWs st !! id = Some meta ->
    sent_to id (snd (run cfg acts st))
    = replicate (length acts - Z.to_nat (limit - c)) rate_error
    /\ lastState <$> metaByWs (fst (run cfg acts st)) !! id
       = Some (List.last (firstn (Z.to_nat (limit - c)) payloads)
                 (lastState meta)).
Proof.
  induction 1 as [|a p acts payloads Ha Hrest IH];
    intros st c e meta Hws Hid Hk Hentry Hwindow Hc Hmeta.
  - cbn. rewrite Hmeta. rewrite firstn_nil. split; reflexivity.
  - destruct (step_state_frame id t0 a p ws st Ha Hws) as (t & Ht & Hstep).
    subst id.
    destruct (ingest_state_live t ws k p st c e meta Hk Hentry
                ltac:(lia) Hmeta)
      as (st1 & Hingest & Hclients & Hentry1 & Hmeta1).
    rewrite Hingest in Hstep. cbn [fst] in Hstep.
    cbn [run]. rewrite Hstep.
    assert (Hws1 : socket (ws_id ws) st1 = Some ws)
      by (rewrite (socket_same_clients _ _ _ Hclients); exact Hws).
    destruct (c + 1 <=? limit) eqn:Hadmit.
    + assert (Hopen : (limit + 1 <=? c) = false) by lia.
      rewrite Hopen in Hentry1.
      destruct (IH st1 (c + 1) e _ Hws1 eq_refl Hk Hentry1 Hwindow
                  ltac:(lia) Hmeta1) as [Hsent Hlast].
      destruct (run cfg acts st1) as [st2 log2]. cbn [fst snd] in *.
      rewrite sent_to_app, Hsent, Hlast.
      replace (Z.to_nat (limit - c)) with (S (Z.to_nat (limit - (c + 1))))
        by lia.
      cbn [sent_to omap app length Nat.sub firstn]. split; [reflexivity|].
      rewrite last_cons. reflexivity.
    + destruct (IH st1 (if limit + 1 <=? c then c else c + 1) e _ Hws1
                  eq_refl Hk Hentry1 Hwindow
                  ltac:(destruct (limit + 1 <=? c); lia) Hmeta1)
        as [Hsent Hlast].
      destruct (run cfg acts st1) as [st2 log2]. cbn [fst snd] in *.
      rewrite sent_to_app, Hsent, Hlast.
      replace (Z.to_nat (limit - c)) with 0%nat by lia.
      replace (Z.to_nat (limit - (if limit + 1 <=? c then c else c + 1)))
        with 0%nat by (destruct (limit + 1 <=? c); lia).
      cbn [firstn List.last]. rewrite !Nat.sub_0_r. split; [|reflexivity].
      cbn. rewrite Nat.eqb_refl. reflexivity.
Qed.

(** X7: The state frames of one connection inside one second, for an
    identity that has no counter in the store yet: the first
    [STATE_SEND_LIMIT_PER_SECOND] of them are stored, each of the others is
    answered by one rate error; the snapshot kept at the end is the payload
    of the last frame stored. *)
Theorem state_budget_per_second (id : nat) (ws : WebSocket) (k : string)
    (t0 : Z) (acts : list Action) (payloads : list JsVal) (st : Server)
    (meta : Meta) :
  Forall2 (state_frame_of id t0) acts payloads ->
  socket id st = Some ws ->
  ws_id ws = id ->
  ToString (identity ws) = Ok k ->
  redis st !! getKey (stateLimiter cfg) k = None ->
  0 <= STATE_SEND_LIMIT_PER_SECOND cfg ->
  metaByWs st !! id = Some meta ->
  sent_to id (snd (run cfg acts st))
  = replicate (length acts - Z.to_nat (STATE_SEND_LIMIT_PER_SECOND cfg))
      rate_error
  /\ lastState <$> metaByWs (fst (run cfg acts st)) !! id
     = Some (List.last (firstn (Z.to_nat (STATE_SEND_LIMIT_PER_SECOND cfg))
                     payloads)
               (lastState meta)).
Proof.
  fold limit.
  intros Hframes Hws Hid Hk Hentry Hlimit Hmeta.
  destruct Hframes as [|a p acts payloads Ha Hrest].
  - cbn. rewrite Hmeta. rewrite firstn_nil. split; reflexivity.
  - destruct (step_state_frame id t0 a p ws st Ha Hws) as (t & Ht & Hstep).
    subst id.
    destruct (ingest_state_fresh t ws k p st meta Hk Hentry Hlimit Hmeta)
      as (st1 & Hingest & Hclients & Hentry1 & Hmeta1).
    rewrite Hingest in Hstep. cbn [fst] in Hstep.
    cbn [run]. rewrite Hstep.
    assert (Hws1 : socket (ws_id ws) st1 = Some ws)
      by (rewrite (socket_same_clients _ _ _ Hclients); exact Hws).
    destruct (state_frames_live (ws_id ws) ws k t0 acts payloads Hrest
                st1 1 (t + 1000) _ Hws1 eq_refl Hk Hentry1
                ltac:(lia) ltac:(lia) Hmeta1)
      as [Hsent Hlast].
    destruct (run cfg acts st1) as [st2 log2]. cbn [fst snd] in *.
    rewrite sent_to_app, Hsent, Hlast.
    destruct (1 <=? limit) eqn:Hadmit.
    + replace (Z.to_nat limit) with (S (Z.to_nat (limit - 1))) by lia.
      cbn [sent_to omap app length Nat.sub firstn]. split; [reflexivity|].
      rewrite last_cons. reflexivity.
    + replace (Z.to_nat limit) with 0%nat by lia.
      replace (Z.to_nat (limit - 1)) with 0%nat by lia.
      cbn [firstn List.last]. rewrite !Nat.sub_0_r. split; [|reflexivity].
      cbn. rewrite Nat.eqb_refl. reflexivity.
Qed.

End Window.

(** ** The registry and the conversations over a run *)

(** A record with the fields [wss.on('connection')] gives it. *)
Definition complete (m : Meta) : Prop :=
  is_Some (lastCommentAt m) /\ is_Some (lastCoachAt m)
  /\ is_Some (coachEnabled m).

(** The clients are distinct connections, each accepted before now and
    each with a complete record. *)
Definition registered (st : Server) : Prop :=
  NoDup (map ws_id (clients st))
  /\ forall ws, In ws (clients st) ->
       (ws_id ws < next_ws st)%nat
       /\ exists meta, metaByWs st !! ws_id ws = Some meta /\ complete meta.

Definition is_welcome (ev : Event) : bool :=
  match ev with
  | Welcome _ => true
  | _ => false
  end.

(** An effect that greets nobody and concerns connections below [bound]
    only. *)
Definition quiet (bound : nat) (e : Effect) : Prop :=
  match e with
  | Send i ev => (i < bound)%nat /\ is_welcome ev = false
  | Generate i _ _ => (i < bound)%nat
  | Refuse _ => True
  end.

Lemma sent_to_quiet bound id l :
  Forall (quiet bound) l ->
  Forall (fun ev => is_welcome ev = false) (sent_to id l)
  /\ ((bound <= id)%nat -> sent_to id l = []).
Proof.
  induction 1 as [|e l He _ [IHplain IHnone]]; [split; [constructor|reflexivity]|].
  unfold sent_to in *. cbn [omap list_omap].
  destruct e as [i ev|i k t|status]; cbn [quiet] in He; try (split; assumption).
  destruct He as [Hlt Hplain].
  destruct (Nat.eqb_spec i id) as [->|Hne].
  - split; [constructor; assumption|]. intros Hge. lia.
  - split; assumption.
Qed.

Lemma NoDup_filter_ids (keep : nat -> bool) (l : list WebSocket) :
  NoDup (map ws_id l) ->
  NoDup (map ws_id (List.filter (fun ws => keep (ws_id ws)) l)).
Proof.
  induction l as [|ws l IH]; [intros _; constructor|].
  cbn [map List.filter]. intros Hnodup.
  apply NoDup_cons in Hnodup as [Hfresh Hrest].
  destruct (keep (ws_id ws)); [|exact (IH Hrest)].
  cbn [map]. apply NoDup_cons. split; [|exact (IH Hrest)].
  intros Hin. apply Hfresh.
  apply list_elem_of_In, in_map_iff in Hin as (w & Hid & Hw).
  apply filter_In in Hw as [Hw _].
  apply list_elem_of_In, in_map_iff. exists w. auto.
Qed.

Section Lifecycle.
Context `{Env} (cfg : Config).

Lemma run_invariant (Inv : Server -> list Effect -> Prop) :
  (forall a st log, Inv st log ->
     Inv (fst (step cfg a st)) (log ++ snd (step cfg a st))) ->
  forall acts st log,
    Inv st log -> Inv (fst (run cfg acts st)) (log ++ snd (run cfg acts st)).
Proof.
  intros Hstep. induction acts as [|a rest IH]; intros st log Hinv; cbn [run].
  - cbn [fst snd]. rewrite app_nil_r. exact Hinv.
  - pose proof (Hstep a st log Hinv) as Hone.
    destruct (step cfg a st) as [st1 e1]. cbn [fst snd] in Hone.
    specialize (IH st1 (log ++ e1) Hone).
    destruct (run cfg rest st1) as [st2 e2]. cbn [fst snd] in *.
    rewrite app_assoc. exact IH.
Qed.

(** *** The registry *)

Lemma registered_update ws m store st :
  complete m -> registered st ->
  registered (with_meta (ws_id ws) m (with_redis store st)).
Proof.
  intros Hm [Hnodup Hcl]. split; [exact Hnodup|].
  intros w Hin. destruct (Hcl w Hin) as [Hlt (meta & Hmeta & Hc)].
  split; [exact Hlt|]. unfold with_meta; simpl.
  destruct (Nat.eq_dec (ws_id ws) (ws_id w)) as [->|Hne].
  - rewrite lookup_insert_eq. eauto.
  - rewrite lookup_insert_ne by exact Hne. eauto.
Qed.

Lemma registered_only_stamps k now st st' :
  only_stamps k now st st' -> registered st -> registered st'.
Proof.
  intros (Hclients & Hnext & Hrec) [Hnodup Hcl].
  split; [rewrite Hclients; exact Hnodup|].
  intros w Hin. rewrite Hclients in Hin.
  destruct (Hcl w Hin) as [Hlt (meta & Hmeta & Hlc & Hlk & Hce)].
  split; [rewrite Hnext; exact Hlt|].
  specialize (Hrec (ws_id w)). rewrite Hmeta in Hrec.
  destruct (metaByWs st' !! ws_id w) as [meta'|]; [|contradiction].
  exists meta'. split; [reflexivity|].
  destruct Hrec as (_ & Hen & Hstamp). unfold complete. rewrite Hen.
  destruct k; destruct Hstamp as [Hother [Hown|Hown]];
    rewrite Hother, Hown; repeat split; eauto.
Qed.

Lemma on_message_registered now ws msg isBinary st :
  In ws (clients st) -> registered st ->
  registered (fst (fst (on_message cfg now ws msg isBinary st))).
Proof.
  intros Hws Hinv.
  destruct (proj2 Hinv ws Hws) as [_ (meta & Hmeta & Hlc & Hlk & Hce)].
  destruct (decode msg isBinary) as [data|] eqn:Hdec.
  - rewrite (on_message_decoded cfg now ws msg isBinary st data Hdec).
    destruct (classify data) as [payload|enable| |]; cbn [dispatch fst];
      try exact Hinv.
    + unfold ingest_state. rewrite Hmeta.
      destruct (consume _ _ _ _) as [[] store]; cbn [fst].
      * apply registered_update; [|exact Hinv]. repeat split; assumption.
      * destruct Hinv as [Hnodup Hcl]. split; assumption.
    + rewrite Hmeta.
      pose proof (registered_update ws
                    (set_lastCoachAt 0
                       (set_coachEnabled (ToBoolean enable) meta))
                    (redis st) st) as Hput.
      destruct st. apply Hput; [|exact Hinv].
      repeat split; cbn; eauto.
  - unfold decode in Hdec. unfold on_message. rewrite Hdec. exact Hinv.
Qed.

Lemma on_upgrade_registered now req st :
  registered st -> registered (fst (on_upgrade cfg now req st)).
Proof.
  intros [Hnodup Hcl]. unfold on_upgrade.
  destruct (admission cfg now req) as [status|claims];
    [split; assumption|].
  unfold on_connection. cbn [fst]. split; simpl.
  - rewrite map_app. cbn [map]. apply NoDup_app. repeat split.
    + exact Hnodup.
    + intros i Hi Hnew. apply list_elem_of_singleton in Hnew. subst i.
      apply list_elem_of_In, in_map_iff in Hi as (w & Hid & Hw).
      destruct (Hcl w Hw) as [Hlt _]. cbn [ws_id] in Hid. lia.
    + apply NoDup_singleton.
  - intros w Hin. apply in_app_or in Hin as [Hold|[<-|[]]].
    + destruct (Hcl w Hold) as [Hlt Hsome]. split; [lia|].
      rewrite lookup_insert_ne by lia. exact Hsome.
    + simpl. split; [lia|]. rewrite lookup_insert_eq.
      exists new_meta. repeat split; cbn; eauto.
Qed.

Lemma on_close_registered id st :
  registered st -> registered (on_close id st).
Proof.
  intros [Hnodup Hcl]. unfold on_close. split; simpl.
  - apply (NoDup_filter_ids (fun i => negb (Nat.eqb i id))), Hnodup.
  - intros w Hin. apply filter_In in Hin as [Hin Hne].
    destruct (Hcl w Hin) as [Hlt Hsome]. split; [exact Hlt|].
    rewrite lookup_delete_ne; [exact Hsome|].
    intros Heq. rewrite <- Heq, Nat.eqb_refl in Hne. discriminate.
Qed.

Lemma step_registered a st :
  registered st -> registered (fst (step cfg a st)).
Proof.
  intros Hinv.
  destruct a as [now req|id now msg isBinary|id|now P|now P|now P id
                |now P id]; cbn [step].
  - apply on_upgrade_registered, Hinv.
  - destruct (socket id st) as [ws|] eqn:Hsock; [|exact Hinv].
    apply on_message_registered; [|exact Hinv].
    apply (socket_client id st ws Hsock).
  - apply on_close_registered, Hinv.
  - apply (registered_only_stamps KCommentary now st); [|exact Hinv].
    apply for_each_only_stamps. intros. apply commentary_session_only_stamps.
  - apply (registered_only_stamps KCoach now st); [|exact Hinv].
    apply for_each_only_stamps. intros. apply coach_session_only_stamps.
  - destruct (socket id st) as [ws|] eqn:Hsock; [|exact Hinv].
    apply (registered_only_stamps KCommentary now st); [|exact Hinv].
    apply commentary_session_only_stamps.
  - destruct (socket id st) as [ws|] eqn:Hsock; [|exact Hinv].
    apply (registered_only_stamps KCoach now st); [|exact Hinv].
    apply coach_session_only_stamps.
Qed.

Lemma initial_registered : registered initial_server.
Proof. split; [constructor|intros ws []]. Qed.

Lemma run_registered acts st :
  registered st -> registered (fst (run cfg acts st)).
Proof.
  intros Hinv.
  exact (run_invariant (fun s _ => registered s)
           ltac:(intros a s g Hs; apply step_registered, Hs)
           acts st [] Hinv).
Qed.

(** X8: Whatever the clients send and whenever the workers run, every client
    of the server is a distinct connection with a record that has all its
    fields: the handler's fallback to an empty record and the workers'
    skip of a client without a record are never taken.  One handler call
    or worker iteration is taken as one step: nothing else runs while it
    waits for a limiter or the generator. *)
Theorem clients_keep_complete_records (acts : list Action) :
  let st := fst (run cfg acts initial_server) in
  NoDup (map ws_id (clients st))
  /\ forall ws, In ws (clients st) ->
       (ws_id ws < next_ws st)%nat
       /\ exists meta, metaByWs st !! ws_id ws = Some meta
                       /\ complete meta.
Proof. exact (run_registered acts initial_server initial_registered). Qed.

End Lifecycle.

(** ** The conversation of a connection *)

Section Conversations.
Context `{Env} (cfg : Config).

Lemma route_greets_nobody check text :
  Forall (fun ev => is_welcome ev = false) (route check text).
Proof.
  unfold route, directive_block.
  destruct (JSON_parse text) as [parsed|]; [|repeat constructor].
  destruct (if ToBoolean parsed then _ else _) as [[]|];
    try (repeat constructor).
  destruct (bindR _ _) as [shown_speed|]; repeat constructor.
Qed.

Lemma quiet_sends bound id (evs : list Event) :
  (id < bound)%nat ->
  Forall (fun ev => is_welcome ev = false) evs ->
  Forall (quiet bound) (map (Send id) evs).
Proof.
  intros Hlt Hall. apply Forall_map.
  eapply Forall_impl; [exact Hall|]. intros ev Hev. split; assumption.
Qed.

Lemma commentary_generate_quiet bound now P ws s :
  (ws_id ws < bound)%nat ->
  Forall (quiet bound) (fst (commentary_generate cfg now P ws s)).
Proof.
  intros Hlt. unfold commentary_generate.
  destruct (userPrompt _ _) as [prompt|]; [|constructor].
  destruct (simulated cfg).
  - destruct (generateSimulatedCommentary _ _) as [out|]; cbn [fst].
    + constructor; [exact Hlt|].
      apply quiet_sends; [exact Hlt|apply route_greets_nobody].
    + repeat constructor. exact Hlt.
  - destruct (chat_stream _ _ _ _) as [[parts []]|]; cbn [fst].
    + constructor; [exact Hlt|]. apply Forall_app. split.
      * apply Forall_map, Forall_forall. intros c _. split; [exact Hlt|reflexivity].
      * repeat constructor. exact Hlt.
    + constructor; [exact Hlt|]. apply Forall_app. split.
      * apply Forall_map, Forall_forall. intros c _. split; [exact Hlt|reflexivity].
      * apply quiet_sends; [exact Hlt|apply route_greets_nobody].
    + repeat constructor; exact Hlt.
Qed.

Lemma coach_generate_quiet bound now P ws s :
  (ws_id ws < bound)%nat ->
  Forall (quiet bound) (fst (coach_generate cfg now P ws s)).
Proof.
  intros Hlt. unfold coach_generate.
  destruct (userPrompt _ _) as [prompt|]; [|constructor].
  destruct (simulated cfg); [repeat constructor; exact Hlt|].
  destruct (chat_complete _ _ _ _); repeat constructor; exact Hlt.
Qed.

Lemma commentary_session_quiet bound now P ws st :
  (ws_id ws < bound)%nat ->
  Forall (quiet bound) (snd (fst (commentary_session cfg now P ws st))).
Proof.
  intros Hlt.
  destruct (commentary_session_cases cfg now P ws st)
    as [->|(meta & Hmeta & Hdue)]; [constructor|].
  rewrite (commentary_session_due cfg now P ws st meta Hmeta Hdue).
  destruct (consume _ _ _ _) as [[] store]; cbn zeta iota.
  - pose proof (commentary_generate_quiet bound now P ws (lastState meta) Hlt)
      as Hall.
    destruct (commentary_generate _ _ _ _ _) as [effects c]. exact Hall.
  - repeat constructor. exact Hlt.
Qed.

Lemma coach_session_quiet bound now P ws st :
  (ws_id ws < bound)%nat ->
  Forall (quiet bound) (snd (fst (coach_session cfg now P ws st))).
Proof.
  intros Hlt.
  destruct (coach_session_cases cfg now P ws st)
    as [->|(meta & Hmeta & Hdue)]; [constructor|].
  rewrite (coach_session_due cfg now P ws st meta Hmeta Hdue).
  destruct (consume _ _ _ _) as [[] store]; cbn zeta iota.
  - pose proof (coach_generate_quiet bound now P ws (lastState meta) Hlt)
      as Hall.
    destruct (coach_generate _ _ _ _ _) as [effects c]. exact Hall.
  - repeat constructor. exact Hlt.
Qed.

Lemma on_message_quiet bound now ws msg isBinary st :
  (ws_id ws < bound)%nat ->
  Forall (quiet bound) (snd (fst (on_message cfg now ws msg isBinary st)))
  /\ next_ws (fst (fst (on_message cfg now ws msg isBinary st))) = next_ws st.
Proof.
  intros Hlt.
  destruct (decode msg isBinary) as [data|] eqn:Hdec.
  - rewrite (on_message_decoded cfg now ws msg isBinary st data Hdec).
    destruct (classify data) as [payload|enable| |]; cbn [dispatch fst snd];
      try (split; [repeat constructor; exact Hlt|reflexivity]).
    unfold ingest_state.
    destruct (consume _ _ _ _) as [[] store]; cbn [fst snd];
      (split; [repeat constructor; exact Hlt|reflexivity]).
  - unfold decode in Hdec. unfold on_message. rewrite Hdec.
    split; [repeat constructor; exact Hlt|reflexivity].
Qed.

Lemma tick_quiet
    (body : WebSocket -> Server -> Server * list Effect * Completion)
    (bound : nat) (st : Server) :
  (forall ws s, clients (fst (fst (body ws s))) = clients s) ->
  (forall ws s, (ws_id ws < bound)%nat ->
     Forall (quiet bound) (snd (fst (body ws s)))) ->
  (forall ws, In ws (clients st) -> (ws_id ws < bound)%nat) ->
  Forall (quiet bound) (snd (fst (for_each body (clients st) st))).
Proof.
  intros Hclients Hbody Hbound.
  pose proof (for_each_invariant body
                (fun _ g => Forall (quiet bound) g) (clients st)) as Hloop.
  apply (Hloop ltac:(intros ws s g Hin Hg; apply Forall_app; split;
                     [exact Hg|apply Hbody, Hbound, Hin])
               st [] ltac:(constructor)).
Qed.

(** A step either accepts a connection, which it greets under the next
    identity, or greets nobody and concerns the connections accepted
    before. *)
Lemma step_conversation a st :
  registered st ->
  (next_ws (fst (step cfg a st)) = next_ws st
   /\ Forall (quiet (next_ws st)) (snd (step cfg a st)))
  \/ (exists claims,
        next_ws (fst (step cfg a st)) = S (next_ws st)
        /\ snd (step cfg a st) = [Send (next_ws st) (Welcome claims)]).
Proof.
  intros [Hnodup Hcl].
  assert (Hbound : forall ws, In ws (clients st) ->
                     (ws_id ws < next_ws st)%nat)
    by (intros ws Hin; apply Hcl, Hin).
  destruct a as [now req|id now msg isBinary|id|now P|now P|now P id
                |now P id]; cbn [step].
  - unfold on_upgrade. destruct (admission cfg now req) as [status|claims].
    + left. split; [reflexivity|repeat constructor].
    + right. exists claims. split; reflexivity.
  - left. destruct (socket id st) as [ws|] eqn:Hsock;
      [|split; [reflexivity|constructor]].
    destruct (on_message_quiet (next_ws st) now ws msg isBinary st
                (Hbound ws (proj1 (socket_client id st ws Hsock))))
      as [Hquiet Hnext].
    split; assumption.
  - left. split; [reflexivity|constructor].
  - left. split.
    + apply (for_each_only_stamps KCommentary now).
      intros. apply commentary_session_only_stamps.
    + apply tick_quiet; [| |exact Hbound].
      * intros ws s. apply (commentary_session_only_stamps cfg now P ws s).
      * intros ws s. apply commentary_session_quiet.
  - left. split.
    + apply (for_each_only_stamps KCoach now).
      intros. apply coach_session_only_stamps.
    + apply tick_quiet; [| |exact Hbound].
      * intros ws s. apply (coach_session_only_stamps cfg now P ws s).
      * intros ws s. apply coach_session_quiet.
  - left. destruct (socket id st) as [ws|] eqn:Hsock;
      [|split; [reflexivity|constructor]].
    split.
    + apply (commentary_session_only_stamps cfg now P ws st).
    + apply commentary_session_quiet, Hbound,
        (socket_client id st ws Hsock).
  - left. destruct (socket id st) as [ws|] eqn:Hsock;
      [|split; [reflexivity|constructor]].
    split.
    + apply (coach_session_only_stamps cfg now P ws st).
    + apply coach_session_quiet, Hbound, (socket_client id st ws Hsock).
Qed.

(** The frames of each connection accepted so far begin with its one
    welcome; no other connection was sent anything. *)
Definition greeted (st : Server) (log : list Effect) : Prop :=
  forall id,
    ((id < next_ws st)%nat ->
     exists claims rest,
       sent_to id log = Welcome claims :: rest
       /\ Forall (fun ev => is_welcome ev = false) rest)
    /\ ((next_ws st <= id)%nat -> sent_to id log = []).

Lemma step_greeted a st log :
  registered st /\ greeted st log ->
  registered (fst (step cfg a st))
  /\ greeted (fst (step cfg a st)) (log ++ snd (step cfg a st)).
Proof.
  intros [Hreg Hlog]. split; [apply step_registered, Hreg|].
  intros id. rewrite sent_to_app. destruct (Hlog id) as [Hold Hnew].
  destruct (step_conversation a st Hreg)
    as [[Hnext Hquiet]|(claims & Hnext & Heffects)]; rewrite Hnext.
  - destruct (sent_to_quiet (next_ws st) id _ Hquiet) as [Hplain Hnone].
    split.
    + intros Hlt. destruct (Hold Hlt) as (claims & rest & -> & Hrest).
      exists claims, (rest ++ sent_to id (snd (step cfg a st))).
      split; [reflexivity|]. apply Forall_app. split; assumption.
    + intros Hge. rewrite (Hnew Hge), (Hnone Hge). reflexivity.
  - rewrite Heffects. unfold sent_to at 2 4. cbn [omap list_omap].
    destruct (Nat.eqb_spec (next_ws st) id) as [<-|Hne].
    + split; [|lia]. intros _. rewrite (Hnew (le_n _)).
      exists claims, []. split; [reflexivity|constructor].
    + rewrite app_nil_r. split.
      * intros Hlt. apply Hold. lia.
      * intros Hge. apply Hnew. lia.
Qed.

(** X9: Over every run of the server from its start, the frames sent to a
    connection that was accepted begin with its welcome frame, which is
    the only one it ever gets, and nothing is sent under an identity no
    connection was given. *)
Theorem welcome_opens_every_conversation (acts : list Action) (id : nat) :
  let st := fst (run cfg acts initial_server) in
  let log := snd (run cfg acts initial_server) in
  ((id < next_ws st)%nat ->
   exists claims rest,
     sent_to id log = Welcome claims :: rest
     /\ Forall (fun ev => is_welcome ev = false) rest)
  /\ ((next_ws st <= id)%nat -> sent_to id log = []).
Proof.
  cbn zeta.
  pose proof (run_invariant cfg (fun s g => registered s /\ greeted s g)
                step_greeted acts initial_server []) as Hrun.
  cbn [app] in Hrun. apply Hrun. split; [apply initial_registered|].
  intros i. split; [cbn; lia|reflexivity].
Qed.

End Conversations.

(** ** The frames of one generation *)

Section Generations.
Context `{Env} (cfg : Config).

(** What follows the chunks of a generation: the commentary frame alone,
    or one control frame and then the commentary frame. *)
Definition closing_frames (evs : list Event) : Prop :=
  exists text,
    evs = [Commentary text]
    \/ exists control, evs = [Control control; Commentary text].

Lemma route_closing check text : closing_frames (route check text).
Proof.
  unfold route, directive_block.
  destruct (JSON_parse text) as [parsed|];
    [|exists text; left; reflexivity].
  destruct (if ToBoolean parsed then _ else _) as [[]|];
    try (exists text; left; reflexivity).
  destruct (bindR _ _) as [shown_speed|].
  - exists (confirmation shown_speed). right. exists parsed. reflexivity.
  - exists text. right. exists parsed. reflexivity.
Qed.

(** X10: A commentary generation that runs to its end sends chunk frames (none
    in simulated mode), then at most one control frame, then exactly one
    commentary frame, which is its last frame; a coach generation that
    runs to its end sends exactly one coach frame.  Neither sends anything
    when the prompt cannot be built. *)
Theorem generation_frames (now : Z) (P : Provider) (ws : WebSocket)
    (s : JsVal) :
  (match commentary_generate cfg now P ws s with
   | (effects, Normal) =>
       exists chunks closing,
         sent_to (ws_id ws) effects = map CommentaryChunk chunks ++ closing
         /\ closing_frames closing
         /\ (simulated cfg = true -> chunks = [])
   | (effects, Abrupt _) => sent_to (ws_id ws) effects = []
   end)
  /\ (match coach_generate cfg now P ws s with
      | (effects, Normal) =>
          exists text, sent_to (ws_id ws) effects = [Coach text]
      | (effects, Abrupt _) => sent_to (ws_id ws) effects = []
      end).
Proof.
  assert (Hone : forall k (evs : list Event),
            sent_to (ws_id ws) (Generate (ws_id ws) k now
                                  :: map (Send (ws_id ws)) evs) = evs).
  { intros k evs.
    change (sent_to (ws_id ws) (map (Send (ws_id ws)) evs) = evs).
    apply sent_to_sends. }
  split.
  - unfold commentary_generate.
    destruct (userPrompt _ _) as [prompt|]; [|reflexivity].
    destruct (simulated cfg).
    + destruct (generateSimulatedCommentary _ _) as [out|]; [|reflexivity].
      exists [], (route_simulated out). rewrite Hone.
      split; [reflexivity|]. split; [apply route_closing|reflexivity].
    + assert (Hstream : forall chunks (closing : list Event),
                sent_to (ws_id ws)
                  (Generate (ws_id ws) KCommentary now
                     :: map (fun c => Send (ws_id ws) (CommentaryChunk c))
                          chunks
                     ++ map (Send (ws_id ws)) closing)
                = map CommentaryChunk chunks ++ closing).
      { intros chunks closing.
        rewrite <- (Hone KCommentary (map CommentaryChunk chunks ++ closing)).
        rewrite map_app, map_map. reflexivity. }
      destruct (chat_stream _ _ _ _) as [[parts []]|].
      * exists (stream_chunks parts), [Commentary "[commentary error]"].
        split; [apply (Hstream _ [_])|]. split; [|discriminate].
        exists "[commentary error]". left. reflexivity.
      * exists (stream_chunks parts),
          (route_streamed (js_trim (aggregate (stream_chunks parts)))).
        split; [apply Hstream|].
        split; [apply route_closing|discriminate].
      * exists [], [Commentary "[commentary error]"].
        split; [apply (Hone KCommentary [_])|]. split; [|discriminate].
        exists "[commentary error]". left. reflexivity.
  - unfold coach_generate.
    destruct (userPrompt _ _) as [prompt|]; [|reflexivity].
    destruct (simulated cfg).
    + eexists. apply (Hone KCoach [_]).
    + destruct (chat_complete _ _ _ _); eexists; apply (Hone KCoach [_]).
Qed.

(** X11: The handler acts on a frame through the command it carries only: two
    frames that decode, from MessagePack or from JSON, as an array or as
    an object, to the same command have the same effect on the server and
    get the same answer. *)
Theorem frame_encoding_is_irrelevant (now : Z) (ws : WebSocket)
    (msg msg' : string) (isBinary isBinary' : bool) (st : Server)
    (data data' : JsVal) :
  decode msg isBinary = Some data ->
  decode msg' isBinary' = Some data' ->
  classify data = classify data' ->
  on_message cfg now ws msg isBinary st
  = on_message cfg now ws msg' isBinary' st.
Proof.
  intros Hdec Hdec' Hsame.
  rewrite (on_message_decoded cfg now ws msg isBinary st data Hdec).
  rewrite (on_message_decoded cfg now ws msg' isBinary' st data' Hdec').
  rewrite Hsame. reflexivity.
Qed.

End Generations.

(** ** After a connection is closed *)

Section Closing.
Context `{Env} (cfg : Config).

Lemma on_message_about now ws msg isBinary st :
  Forall (about (ws_id ws)) (snd (fst (on_message cfg now ws msg isBinary st))).
Proof.
  destruct (decode msg isBinary) as [data|] eqn:Hdec.
  - rewrite (on_message_decoded cfg now ws msg isBinary st data Hdec).
    destruct (classify data) as [payload|enable| |]; cbn [dispatch fst snd];
      try (repeat constructor).
    unfold ingest_state.
    destruct (consume _ _ _ _) as [[] store]; repeat constructor.
  - unfold decode in Hdec. unfold on_message. rewrite Hdec.
    repeat constructor.
Qed.

(** Nothing in the log concerns the connection. *)
Definition silent (id : nat) (log : list Effect) : Prop :=
  sent_to id log = [] /\ forall k, invocations id k log = [].

Lemma silent_nil id : silent id [].
Proof. split; reflexivity. Qed.

Lemma silent_app id l1 l2 : silent id l1 -> silent id l2 -> silent id (l1 ++ l2).
Proof.
  intros [Hs1 Hi1] [Hs2 Hi2]. split.
  - rewrite sent_to_app, Hs1, Hs2. reflexivity.
  - intros k. rewrite invocations_app, Hi1, Hi2. reflexivity.
Qed.

Lemma silent_other id other l :
  Forall (about other) l -> other <> id -> silent id l.
Proof.
  intros Hall Hne. split.
  - apply (sent_to_other id other); assumption.
  - intros k. apply (invocations_other id other); assumption.
Qed.

(** The identity was given out and belongs to no client. *)
Definition gone (id : nat) (st : Server) : Prop :=
  (id < next_ws st)%nat
  /\ forall ws, In ws (clients st) -> ws_id ws <> id.

Lemma tick_silent
    (body : WebSocket -> Server -> Server * list Effect * Completion)
    (id : nat) (st : Server) :
  (forall ws s, framed ws s (body ws s)) ->
  (forall ws, In ws (clients st) -> ws_id ws <> id) ->
  silent id (snd (fst (for_each body (clients st) st))).
Proof.
  intros Hframed Hgone.
  pose proof (for_each_invariant body (fun _ g => silent id g) (clients st))
    as Hloop.
  apply (Hloop ltac:(intros ws s g Hin Hg; apply silent_app; [exact Hg|];
                     apply (silent_other id (ws_id ws));
                     [apply Hframed|apply Hgone, Hin])
               st [] (silent_nil id)).
Qed.

Lemma tick_clients
    (body : WebSocket -> Server -> Server * list Effect * Completion)
    (l : list WebSocket) (st : Server) :
  (forall ws s, framed ws s (body ws s)) ->
  clients (fst (fst (for_each body l st))) = clients st
  /\ next_ws (fst (fst (for_each body l st))) = next_ws st.
Proof.
  intros Hframed.
  pose proof (for_each_invariant body
                (fun s _ => clients s = clients st
                            /\ next_ws s = next_ws st) l) as Hloop.
  apply (Hloop ltac:(intros ws s g _ [Hc Hn];
                     destruct (Hframed ws s) as (Hc' & Hn' & _);
                     split; congruence)
               st [] (conj eq_refl eq_refl)).
Qed.

Lemma step_gone id a st :
  gone id st ->
  gone id (fst (step cfg a st)) /\ silent id (snd (step cfg a st)).
Proof.
  intros [Hlt Hnone].
  assert (Hsame : forall st' : Server,
            clients st' = clients st -> next_ws st' = next_ws st ->
            gone id st').
  { intros st' Hc Hn. split; [rewrite Hn; exact Hlt|].
    rewrite Hc. exact Hnone. }
  destruct a as [now req|i now msg isBinary|i|now P|now P|now P i
                |now P i]; cbn [step].
  - unfold on_upgrade. destruct (admission cfg now req) as [status|claims].
    + split; [split; assumption|split; reflexivity].
    + unfold on_connection. cbn [fst snd]. split.
      * split; simpl; [lia|].
        intros w Hin. apply in_app_or in Hin as [Hold|[<-|[]]].
        -- apply Hnone, Hold.
        -- simpl. lia.
      * apply (silent_other id (next_ws st)); [repeat constructor|lia].
  - destruct (socket i st) as [ws|] eqn:Hsock;
      [|split; [split; assumption|apply silent_nil]].
    destruct (socket_client i st ws Hsock) as [Hin _]. split.
    + apply Hsame; [apply on_message_clients|].
      apply (on_message_quiet cfg (S (ws_id ws))). lia.
    + apply (silent_other id (ws_id ws));
        [apply on_message_about|apply Hnone, Hin].
  - split; [|apply silent_nil]. unfold on_close. split; simpl; [exact Hlt|].
    intros w Hin. apply filter_In in Hin as [Hin _]. apply Hnone, Hin.
  - split.
    + apply Hsame; apply tick_clients; intros;
        apply commentary_session_framed.
    + apply tick_silent; [|exact Hnone].
      intros; apply commentary_session_framed.
  - split.
    + apply Hsame; apply tick_clients; intros; apply coach_session_framed.
    + apply tick_silent; [|exact Hnone].
      intros; apply coach_session_framed.
  - destruct (socket i st) as [ws|] eqn:Hsock;
      [|split; [split; assumption|apply silent_nil]].
    destruct (socket_client i st ws Hsock) as [Hin _].
    destruct (commentary_session_framed cfg now P ws st)
      as (Hc & Hn & _ & _ & Habout).
    split; [apply Hsame; assumption|].
    apply (silent_other id (ws_id ws)); [exact Habout|apply Hnone, Hin].
  - destruct (socket i st) as [ws|] eqn:Hsock;
      [|split; [split; assumption|apply silent_nil]].
    destruct (socket_client i st ws Hsock) as [Hin _].
    destruct (coach_session_framed cfg now P ws st)
      as (Hc & Hn & _ & _ & Habout).
    split; [apply Hsame; assumption|].
    apply (silent_other id (ws_id ws)); [exact Habout|apply Hnone, Hin].
Qed.

Lemma on_close_gone id st :
  (id < next_ws st)%nat -> gone id (on_close id st).
Proof.
  intros Hlt. split; [exact Hlt|]. unfold on_close; simpl.
  intros w Hin. apply filter_In in Hin as [_ Hne].
  intros Heq. rewrite Heq, Nat.eqb_refl in Hne. discriminate.
Qed.

(** X12: Once a connection is closed nothing is sent to it and no generator is
    called for it any more, whatever happens next: frames that still name
    it, ticks of both workers, new connections (which never get its
    identity again). *)
Theorem closed_connection_hears_nothing (id : nat) (st : Server)
    (after : list Action) :
  (id < next_ws st)%nat ->
  sent_to id (snd (run cfg after (on_close id st))) = []
  /\ forall k, invocations id k (snd (run cfg after (on_close id st))) = [].
Proof.
  intros Hlt.
  pose proof (run_invariant cfg (fun s g => gone id s /\ silent id g)
                ltac:(intros a s g [Hs Hg];
                      destruct (step_gone id a s Hs) as [Hs' Hg'];
                      split; [exact Hs'|apply silent_app; assumption])
                after (on_close id st) []
                (conj (on_close_gone id st Hlt) (silent_nil id)))
    as [_ Hsilent].
  exact Hsilent.
Qed.

End Closing.

(** ** The sub-protocols the client offers *)

(** A visible ASCII character other than the comma: what a token is made
    of. *)
Definition token_char (c : Ascii.ascii) : bool :=
  let n := Ascii.nat_of_ascii c in
  (33 <=? n)%nat && (n <=? 126)%nat && negb (n =? 44)%nat.

Fixpoint token_text (s : string) : bool :=
  match s with
  | EmptyString => true
  | String c rest => token_char c && token_text rest
  end.

Fixpoint spaces (n : nat) : string :=
  match n with
  | O => ""
  | S n' => String (Ascii.ascii_of_nat 32) (spaces n')
  end.

(** The header a client sends for [new WebSocket(url, ['pong-proto.v1',
    token])]: the two names, separated by a comma and any number of
    spaces. *)
Definition offered (pad : nat) (token : string) : string :=
  "pong-proto.v1" +:+ String comma (spaces pad +:+ token).

Lemma token_char_not_comma c : token_char c = true -> Ascii.eqb c comma = false.
Proof.
  destruct c as [[] [] [] [] [] [] [] []]; try discriminate; reflexivity.
Qed.

Lemma token_char_starts_no_space c s :
  token_char c = true -> strip_any js_whitespace (String c s) = None.
Proof.
  destruct c as [[] [] [] [] [] [] [] []]; try discriminate; reflexivity.
Qed.

Lemma token_char_ends_no_space c s :
  token_char c = true ->
  strip_any (map String.rev js_whitespace) (String c s) = None.
Proof.
  destruct c as [[] [] [] [] [] [] [] []]; try discriminate; reflexivity.
Qed.

Lemma split_on_token s :
  token_text s = true -> split_on comma s = [s].
Proof.
  induction s as [|c s IH]; [reflexivity|].
  cbn [token_text split_on]. intros Hs.
  apply andb_true_iff in Hs as [Hc Hs].
  rewrite (token_char_not_comma c Hc), (IH Hs). reflexivity.
Qed.

Lemma split_on_padded pad token :
  token_text token = true ->
  split_on comma (spaces pad +:+ token) = [spaces pad +:+ token].
Proof.
  intros Htoken. induction pad as [|pad IH].
  - apply split_on_token, Htoken.
  - change (spaces (S pad) +:+ token)
      with (String (Ascii.ascii_of_nat 32) (spaces pad +:+ token)).
    cbn [split_on]. rewrite IH. reflexivity.
Qed.

Lemma length_padded pad token :
  String.length (spaces pad +:+ token) = (pad + String.length token)%nat.
Proof.
  induction pad as [|pad IH]; [reflexivity|].
  change (spaces (S pad) +:+ token)
    with (String (Ascii.ascii_of_nat 32) (spaces pad +:+ token)).
  cbn [String.length]. rewrite IH. reflexivity.
Qed.

Lemma strip_all_stops fuel (ws : list string) s :
  strip_any ws s = None -> strip_all fuel ws s = s.
Proof. intros Hs. destruct fuel; [reflexivity|]. cbn. rewrite Hs. reflexivity. Qed.

Lemma strip_all_padded pad c rest : forall fuel,
  (pad <= fuel)%nat -> token_char c = true ->
  strip_all fuel js_whitespace (spaces pad +:+ String c rest) = String c rest.
Proof.
  induction pad as [|pad IH]; intros fuel Hfuel Hc.
  - apply strip_all_stops, token_char_starts_no_space, Hc.
  - destruct fuel as [|fuel]; [lia|].
    change (spaces (S pad) +:+ String c rest)
      with (String (Ascii.ascii_of_nat 32) (spaces pad +:+ String c rest)).
    cbn [strip_all].
    change (strip_any js_whitespace
              (String (Ascii.ascii_of_nat 32)
                 (spaces pad +:+ String c rest)))
      with (Some (spaces pad +:+ String c rest)).
    apply IH; [lia|exact Hc].
Qed.

Lemma rev_app_rev_app s : forall a b,
  String.rev_app (String.rev_app s a) b = String.rev_app a (s +:+ b).
Proof.
  induction s as [|c s IH]; intros a b; [reflexivity|].
  change (String.rev_app (String c s) a) with (String.rev_app s (String c a)).
  rewrite IH. reflexivity.
Qed.

Lemma rev_rev s : String.rev (String.rev s) = s.
Proof.
  unfold String.rev. rewrite rev_app_rev_app.
  change (String.rev_app "" (s +:+ "")) with (s +:+ "").
  apply append_empty_r.
Qed.

Lemma token_text_rev_app s : forall a,
  token_text s = true -> token_text a = true ->
  token_text (String.rev_app s a) = true.
Proof.
  induction s as [|c s IH]; intros a Hs Ha; [exact Ha|].
  cbn [token_text] in Hs. apply andb_true_iff in Hs as [Hc Hs].
  change (String.rev_app (String c s) a) with (String.rev_app s (String c a)).
  apply IH; [exact Hs|]. cbn [token_text]. rewrite Hc, Ha. reflexivity.
Qed.

Lemma rev_app_nonempty s : forall c a,
  exists c' rest, String.rev_app s (String c a) = String c' rest.
Proof.
  induction s as [|d s IH]; intros c a; [eexists _, _; reflexivity|].
  change (String.rev_app (String d s) (String c a))
    with (String.rev_app s (String d (String c a))).
  apply IH.
Qed.

Lemma trimEnd_token c rest :
  token_text (String c rest) = true ->
  trimEnd (String c rest) = String c rest.
Proof.
  intros Htoken. unfold trimEnd.
  pose proof (token_text_rev_app (String c rest) "" Htoken eq_refl) as Hrev.
  fold (String.rev (String c rest)) in Hrev.
  destruct (rev_app_nonempty rest c "") as (c' & rest' & Heq).
  change (String.rev_app rest (String c ""))
    with (String.rev (String c rest)) in Heq.
  rewrite strip_all_stops; [apply rev_rev|].
  rewrite Heq in Hrev |- *. cbn [token_text] in Hrev.
  apply andb_true_iff in Hrev as [Hc' _].
  apply token_char_ends_no_space, Hc'.
Qed.

Lemma js_trim_padded pad c rest :
  token_text (String c rest) = true ->
  js_trim (spaces pad +:+ String c rest) = String c rest.
Proof.
  intros Htoken. unfold js_trim, trimStart.
  rewrite strip_all_padded.
  - apply trimEnd_token, Htoken.
  - rewrite length_padded. lia.
  - cbn [token_text] in Htoken. apply andb_true_iff in Htoken as [Hc _].
    exact Hc.
Qed.

Lemma split_on_first name rest :
  token_text name = true ->
  split_on comma (name +:+ String comma rest) = name :: split_on comma rest.
Proof.
  induction name as [|c name IH]; intros Hname.
  - change ("" +:+ String comma rest) with (String comma rest).
    cbn [split_on]. rewrite Ascii.eqb_refl. reflexivity.
  - cbn [token_text] in Hname. apply andb_true_iff in Hname as [Hc Hname].
    change (String c name +:+ String comma rest)
      with (String c (name +:+ String comma rest)).
    cbn [split_on]. rewrite (token_char_not_comma c Hc), (IH Hname).
    reflexivity.
Qed.

Lemma split_on_offered pad token :
  token_text token = true ->
  split_on comma (offered pad token)
  = ["pong-proto.v1"; spaces pad +:+ token].
Proof.
  intros Htoken. unfold offered.
  rewrite (split_on_first "pong-proto.v1" _ eq_refl).
  rewrite (split_on_padded pad token Htoken). reflexivity.
Qed.

Section Offers.
Context `{Env} (cfg : Config).

(** X13: A client that offers the sub-protocols ['pong-proto.v1'] and a
    non-empty token of visible ASCII characters without a comma has the
    two names read back exactly as offered, whatever the spacing after the
    comma; the query string is not looked at, and the handler accepts
    the request, to pass it on to [wss.handleUpgrade], exactly when the
    token verifies, with the claims it carries. *)
Theorem offered_token_is_verified (now : Z) (req : Request) (pad : nat)
    (token : string) :
  sec_websocket_protocol req = Some (offered pad token) ->
  token_text token = true ->
  token <> "" ->
  parseProtocols req = ["pong-proto.v1"; token]
  /\ upgrade cfg now req
     = match jwt_verify token (JWT_SECRET cfg) now with
       | Some claims => Accepted claims
       | None => Rejected 401
       end.
Proof.
  intros Hheader Htoken Hnonempty.
  destruct token as [|c rest]; [contradiction|].
  assert (Hparse : parseProtocols req = ["pong-proto.v1"; String c rest]).
  { unfold parseProtocols. rewrite Hheader. cbn [from_option id].
    rewrite (split_on_offered pad _ Htoken). cbn [map].
    rewrite (js_trim_padded pad c rest Htoken).
    reflexivity. }
  split; [exact Hparse|].
  unfold upgrade. rewrite Hparse. reflexivity.
Qed.

End Offers.

(** ** Worked scenarios for the properties above *)

Lemma flat_props (props : list (string * JsVal)) :
  forallb (fun p => primitive (snd p)) props = true ->
  forall f, primitive (field props f) = true.
Proof.
  intros Hall f. unfold field.
  induction props as [|[k v] props IH]; [reflexivity|].
  cbn [forallb snd] in Hall. apply andb_true_iff in Hall as [Hv Hall].
  cbn [obj_get]. destruct (String.eqb k f); [exact Hv|exact (IH Hall)].
Qed.

(** The server with a commentary budget of no call at all. *)
Definition frugal_config : Config :=
  {| JWT_SECRET := "s3cret";
     COMMENTARY_INTERVAL_MS := 1200;
     COACH_INTERVAL_MS := 10000;
     STATE_SEND_LIMIT_PER_SECOND := 5;
     COMMENTARY_LIMIT_PER_MINUTE := 0;
     SIMULATED_MODE := true;
     openaiClient := false |}.

(** The MessagePack encoding of [['state', {}]]. *)
Definition packed_state_frame : string :=
  bytes [146; 165; 115; 116; 97; 116; 101; 128]%nat.

Definition six_state_frames : list Action :=
  [AMessage 0 0 empty_state_frame false;
   AMessage 0 100 empty_state_frame false;
   AMessage 0 200 empty_state_frame false;
   AMessage 0 300 empty_state_frame false;
   AMessage 0 400 empty_state_frame false;
   AMessage 0 500 empty_state_frame false].

Section Scenarios.
#[local] Existing Instance Reference.platform.

(** One client connects. *)
Definition connected : Server :=
  fst (run example_config [AUpgrade 0 dev_request] initial_server).

(** One client connects to the frugal server and sends a full snapshot. *)
Definition starved : Server :=
  fst (run frugal_config
         [AUpgrade 0 dev_request; AMessage 0 0 full_state_frame false]
         initial_server).

Lemma rejected_admission_placeholder_witness :
  snd (fst (commentary_session frugal_config 60000 (offline prose_draws)
              dev_socket starved))
  = [Send 0 (Commentary "[commentary rate-limited]")].
Proof.
  destruct (@rejected_admission_placeholder Reference.platform frugal_config
              60000 (offline prose_draws) dev_socket starved
              (set_lastState full_snapshot new_meta)
              ltac:(vm_compute; reflexivity) ltac:(vm_compute; reflexivity))
    as [Hcommentary _].
  assert (Hdue : commentary_due frugal_config 60000 dev_socket
                   (set_lastState full_snapshot new_meta))
    by (vm_compute; repeat split; discriminate).
  specialize (Hcommentary Hdue).
  destruct (commentary_session frugal_config 60000 (offline prose_draws)
              dev_socket starved) as [[st' effects] completion].
  destruct Hcommentary as [Heffects _]. exact Heffects.
Defined.

Lemma provider_failure_contained_witness :
  sent_to 0 (fst (commentary_generate streaming_config 5000
                    (offline prose_draws) dev_socket full_snapshot))
  = [Commentary "[commentary error]"].
Proof.
  destruct (@provider_failure_contained Reference.platform streaming_config
              5000 (offline prose_draws) dev_socket full_snapshot eq_refl)
    as [Hcommentary _].
  destruct (Hcommentary full_prompt ltac:(vm_compute; reflexivity))
    as [_ Hsent].
  exact (Hsent eq_refl).
Defined.

Lemma simulated_mode_asks_no_provider_witness :
  commentary_tick example_config 60000 (offline prose_draws) playing
  = commentary_tick example_config 60000 (streaming ["Nice"; " shot"]) playing.
Proof.
  exact (proj1 (@simulated_mode_asks_no_provider Reference.platform
                  example_config 60000 (offline prose_draws)
                  (streaming ["Nice"; " shot"]) playing eq_refl
                  (fun _ => eq_refl))).
Defined.

Lemma shaped_snapshots_never_abort_witness :
  snd (commentary_tick example_config 60000 (offline adjust_draws) playing)
  = Normal.
Proof.
  refine (proj1 (proj1 (@shaped_snapshots_never_abort Reference.platform
                          example_config 60000 (offline adjust_draws)
                          playing _))).
  intros id meta Hmeta _.
  assert (Hone : metaByWs playing
                 = {[ 0%nat := set_lastState full_snapshot new_meta ]})
    by (vm_compute; reflexivity).
  rewrite Hone in Hmeta. apply lookup_singleton_Some in Hmeta as [_ <-].
  repeat split;
    try (eexists; split; [reflexivity|apply flat_props; reflexivity]).
  eexists. split; reflexivity.
Defined.

Lemma state_budget_per_second_witness :
  sent_to 0 (snd (run example_config six_state_frames connected))
  = [rate_error].
Proof.
  refine (proj1 (@state_budget_per_second Reference.platform example_config
                   0%nat dev_socket "dev-user" 0 six_state_frames
                   (replicate 6 (JObj [])) connected new_meta _
                   ltac:(vm_compute; reflexivity) eq_refl eq_refl
                   ltac:(vm_compute; reflexivity) ltac:(vm_compute; discriminate)
                   ltac:(vm_compute; reflexivity))).
  repeat (constructor;
          [split; [reflexivity|split; [lia|vm_compute; reflexivity]]|]).
  constructor.
Defined.

Lemma frame_encoding_is_irrelevant_witness :
  on_message example_config 0 dev_socket packed_state_frame true connected
  = on_message example_config 0 dev_socket empty_state_frame false connected.
Proof.
  apply (@frame_encoding_is_irrelevant Reference.platform example_config 0
           dev_socket packed_state_frame empty_state_frame true false
           connected
           (JArr [JStr "state"; JObj []])
           (JObj [("type", JStr "state"); ("state", JObj [])])).
  - vm_compute. reflexivity.
  - vm_compute. reflexivity.
  - reflexivity.
Defined.

Lemma closed_connection_hears_nothing_witness :
  sent_to 0 (snd (run example_config
                    [AMessage 0 10 coach_on_frame false;
                     ACommentaryTick 60000 (offline prose_draws);
                     AUpgrade 61000 dev_request;
                     ACoachTick 62000 (offline prose_draws)]
                    (on_close 0 playing)))
  = [].
Proof.
  apply (@closed_connection_hears_nothing Reference.platform example_config
           0%nat playing). vm_compute. lia.
Defined.

Lemma offered_token_is_verified_witness :
  parseProtocols dev_request = ["pong-proto.v1"; dev_token]
  /\ upgrade example_config 0 dev_request = Accepted dev_claims.
Proof.
  destruct (@offered_token_is_verified Reference.platform example_config 0
              dev_request 1 dev_token eq_refl
              ltac:(vm_compute; reflexivity) ltac:(vm_compute; discriminate))
    as [Hparse Hupgrade].
  split; [exact Hparse|]. rewrite Hupgrade. vm_compute. reflexivity.
Defined.

End Scenarios.

(** ** The browser client (public/script.js) *)

Definition amp : Ascii.ascii := Ascii.ascii_of_nat 38.
Definition lt : Ascii.ascii := Ascii.ascii_of_nat 60.
Definition gt : Ascii.ascii := Ascii.ascii_of_nat 62.
Definition quot : Ascii.ascii := Ascii.ascii_of_nat 34.

(** The replacement of one character by [escapeHtml]. *)
Definition entity (c : Ascii.ascii) : string :=
  if Ascii.eqb c amp then "&amp;"
  else if Ascii.eqb c lt then "&lt;"
  else if Ascii.eqb c gt then "&gt;"
  else if Ascii.eqb c quot then "&quot;"
  else String c "".

(** The global [replace] of [escapeHtml]: every ampersand, less-than
    sign, greater-than sign and double quote gives way to its entity.  The
    four characters are ASCII, so that the replacement is the same on the
    UTF-8 bytes of the text. *)
Fixpoint replace_special (t : string) : string :=
  match t with
  | EmptyString => ""
  | String c rest => entity c +:+ replace_special rest
  end.

Fixpoint occurs (c : Ascii.ascii) (t : string) : bool :=
  match t with
  | EmptyString => false
  | String d rest => Ascii.eqb d c || occurs c rest
  end.

Lemma prepend_cons (c : Ascii.ascii) (a b : string) :
  String c a +:+ b = String c (a +:+ b).
Proof. reflexivity. Qed.

Lemma prepend_nil (b : string) : "" +:+ b = b.
Proof. reflexivity. Qed.

Lemma occurs_app c a b : occurs c (a +:+ b) = occurs c a || occurs c b.
Proof.
  induction a as [|d a IH]; [reflexivity|].
  rewrite prepend_cons. cbn [occurs]. rewrite IH, orb_assoc. reflexivity.
Qed.

Lemma entity_cases (c : Ascii.ascii) :
  (c = amp /\ entity c = "&amp;")
  \/ (c = lt /\ entity c = "&lt;")
  \/ (c = gt /\ entity c = "&gt;")
  \/ (c = quot /\ entity c = "&quot;")
  \/ ((c <> amp /\ c <> lt /\ c <> gt /\ c <> quot)
      /\ entity c = String c "").
Proof.
  unfold entity.
  destruct (Ascii.eqb_spec c amp) as [->|Hamp]; [left; split; reflexivity|].
  destruct (Ascii.eqb_spec c lt) as [->|Hlt];
    [right; left; split; reflexivity|].
  destruct (Ascii.eqb_spec c gt) as [->|Hgt];
    [right; right; left; split; reflexivity|].
  destruct (Ascii.eqb_spec c quot) as [->|Hquot];
    [right; right; right; left; split; reflexivity|].
  right; right; right; right. repeat split; assumption.
Qed.

Lemma entity_markup_free (c : Ascii.ascii) :
  occurs lt (entity c) = false /\ occurs gt (entity c) = false
  /\ occurs quot (entity c) = false.
Proof.
  destruct (entity_cases c)
    as [[_ ->]|[[_ ->]|[[_ ->]|[[_ ->]|[(_ & Hlt & Hgt & Hquot) ->]]]]];
    try (repeat split; reflexivity).
  cbn [occurs]. rewrite !orb_false_r.
  repeat split; apply Ascii.eqb_neq; assumption.
Qed.

Lemma replace_special_app (a b : string) :
  replace_special (a +:+ b) = replace_special a +:+ replace_special b.
Proof.
  induction a as [|c a IH]; [reflexivity|].
  rewrite prepend_cons. cbn [replace_special]. rewrite IH.
  symmetry. apply append_assoc3.
Qed.

Lemma replace_special_inj (a : string) : forall b,
  replace_special a = replace_special b -> a = b.
Proof.
  induction a as [|c a IH]; intros [|d b]; cbn [replace_special].
  - reflexivity.
  - intros Heq. exfalso.
    destruct (entity_cases d) as [[_ Hd]|[[_ Hd]|[[_ Hd]|[[_ Hd]|[_ Hd]]]]];
      rewrite Hd in Heq; discriminate.
  - intros Heq. exfalso.
    destruct (entity_cases c) as [[_ Hc]|[[_ Hc]|[[_ Hc]|[[_ Hc]|[_ Hc]]]]];
      rewrite Hc in Heq; discriminate.
  - intros Heq.
    assert (Hboth : c = d /\ replace_special a = replace_special b).
    { destruct (entity_cases c)
        as [[-> Hc]|[[-> Hc]|[[-> Hc]|[[-> Hc]|[(Hc1 & Hc2 & Hc3 & Hc4) Hc]]]]];
      destruct (entity_cases d)
        as [[-> Hd]|[[-> Hd]|[[-> Hd]|[[-> Hd]|[(Hd1 & Hd2 & Hd3 & Hd4) Hd]]]]];
      rewrite ?Hc, ?Hd in Heq;
      repeat rewrite ?prepend_cons, ?prepend_nil in Heq;
      try discriminate;
      try (injection Heq as Heq; split; [reflexivity|exact Heq]);
      try (injection Heq as Hhead _; exfalso;
           solve [ apply Hd1; symmetry; exact Hhead
                 | apply Hd2; symmetry; exact Hhead
                 | apply Hd3; symmetry; exact Hhead
                 | apply Hd4; symmetry; exact Hhead
                 | apply Hc1; exact Hhead
                 | apply Hc2; exact Hhead
                 | apply Hc3; exact Hhead
                 | apply Hc4; exact Hhead ]).
      injection Heq as Hhead Hrest. split; assumption. }
    destruct Hboth as [-> Hrest]. f_equal. apply IH, Hrest.
Qed.

(** What the message handler of the client does, as calls of its helpers. *)
Inductive ClientOp : Type :=
| AppendCommentary (text : JsVal) (incremental : bool)
    (** [appendCommentary(text, incremental)] *)
| SetSpeed (speed : JsVal)
    (** [rightPaddle.speed = speed] *)
| Speak (text : JsVal)
    (** [speak(text)] *).

(** The [type] field of each frame the server sends. *)
Definition event_type (e : Event) : string :=
  match e with
  | Welcome _ => "welcome"
  | Error _ => "error"
  | Commentary _ => "commentary"
  | CommentaryChunk _ => "commentary_chunk"
  | Coach _ => "coach"
  | CoachStatus _ => "coach_status"
  | Control _ => "control"
  | Pong _ => "pong"
  end.

(** The object the client parsed has the type of the frame and the text or
    the control object the server put into it. *)
Definition carries (payload : JsVal) (e : Event) : Prop :=
  Get payload "type" = Ok (JStr (event_type e))
  /\ match e with
     | Commentary t | CommentaryChunk t | Coach t =>
         Get payload "text" = Ok (JStr t)
     | Control c => Get payload "control" = Ok c
     | _ => True
     end.

Section Client.
Context `{Env}.

(** [escapeHtml(s)] *)
Definition escapeHtml (s : JsVal) : Res string :=
  t <-- ToString s ;; Ok (replace_special t).

(** [ws.onmessage], on the data of a text frame. *)
Definition client_onmessage (data : string) : list ClientOp * Completion :=
  match JSON_parse data with
  | None => ([AppendCommentary (JStr data) false], Normal)
  | Some payload =>
      match Get payload "type" with
      | Throw e => ([], Abrupt e)
      | Ok ty =>
          if StrictEqStr ty "commentary_chunk" then
            match Get payload "text" with
            | Throw e => ([], Abrupt e)
            | Ok text => ([AppendCommentary text true], Normal)
            end
          else if StrictEqStr ty "commentary" then
            match Get payload "text" with
            | Throw e => ([], Abrupt e)
            | Ok text => ([AppendCommentary text false], Normal)
            end
          else if StrictEqStr ty "control" then
            match (c <-- Get payload "control" ;; OptGet c "type") with
            | Throw e => ([], Abrupt e)
            | Ok cty =>
                if StrictEqStr cty "aiAdjust" then
                  match (c <-- Get payload "control" ;; Get c "aiSpeed") with
                  | Throw e => ([], Abrupt e)
                  | Ok speed =>
                      match ToString speed with
                      | Throw e => ([SetSpeed speed], Abrupt e)
                      | Ok shown_speed =>
                          ([SetSpeed speed;
                            AppendCommentary
                              (JStr (confirmation shown_speed)) false],
                           Normal)
                      end
                  end
                else ([], Normal)
            end
          else if StrictEqStr ty "coach" then
            match (text <-- Get payload "text" ;;
                   t <-- ToString text ;; Ok (text, t)) with
            | Throw e => ([], Abrupt e)
            | Ok (text, t) =>
                ([AppendCommentary (JStr ("[Coach] " +:+ t)) false;
                  Speak text], Normal)
            end
          else if StrictEqStr ty "welcome" then
            ([AppendCommentary (JStr "[server] connected") false], Normal)
          else
            ([AppendCommentary (JStr (JSON_stringify payload)) false],
             Normal)
      end
  end.

(** X14: Whatever is given to [escapeHtml], its result holds none of the
    characters that open or close markup or an attribute value; escaping
    goes through concatenation, and loses nothing: different texts have
    different escapes. *)
Theorem escapeHtml_neutralizes_markup (s : JsVal) (t t' : string) :
  (escapeHtml s = Ok t ->
   occurs lt t = false /\ occurs gt t = false /\ occurs quot t = false)
  /\ escapeHtml (JStr (t +:+ t'))
     = Ok (replace_special t +:+ replace_special t')
  /\ (escapeHtml (JStr t) = escapeHtml (JStr t') -> t = t').
Proof.
  split; [|split].
  - unfold escapeHtml. destruct (ToString s) as [text|]; [|discriminate].
    cbn [bindR]. intros [= <-].
    induction text as [|c text (IHlt & IHgt & IHquot)];
      [repeat split; reflexivity|].
    cbn [replace_special]. rewrite !occurs_app, IHlt, IHgt, IHquot.
    destruct (entity_markup_free c) as (-> & -> & ->).
    repeat split; reflexivity.
  - unfold escapeHtml. cbn [ToString bindR].
    rewrite replace_special_app. reflexivity.
  - unfold escapeHtml. cbn [ToString bindR]. intros [= Heq].
    apply replace_special_inj, Heq.
Qed.

End Client.

(** ** The frames of the server, as the client reads them *)

(** The frames the client has a branch for. *)
Definition dedicated (e : Event) : bool :=
  match e with
  | Error _ | CoachStatus _ | Pong _ => false
  | _ => true
  end.

Section Protocol.
Context `{Env} (cfg : Config).

Lemma client_default data payload ty :
  JSON_parse data = Some payload ->
  Get payload "type" = Ok (JStr ty) ->
  String.eqb ty "commentary_chunk" = false ->
  String.eqb ty "commentary" = false ->
  String.eqb ty "control" = false ->
  String.eqb ty "coach" = false ->
  String.eqb ty "welcome" = false ->
  client_onmessage data
  = ([AppendCommentary (JStr (JSON_stringify payload)) false], Normal).
Proof.
  intros Hparse Hty H1 H2 H3 H4 H5. unfold client_onmessage.
  rewrite Hparse, Hty. cbn [StrictEqStr]. rewrite H1, H2, H3, H4, H5.
  reflexivity.
Qed.

(** X15: What the client does with each frame of the server, when the frame
    parses back to the object that was sent.  Commentary and its chunks are
    appended (the chunks incrementally), a coach tip is appended and
    spoken, the welcome is announced; a control frame tagged [aiAdjust]
    sets the speed of the right paddle to its [aiSpeed], whatever that is,
    and announces it with the words of the server's own confirmation; the
    frames [error], [coach_status] and [pong] meet no branch and are shown
    as raw JSON text. *)
Theorem client_handles_server_frames (data : string) (payload : JsVal)
    (e : Event) :
  JSON_parse data = Some payload ->
  carries payload e ->
  match e with
  | Welcome _ =>
      client_onmessage data
      = ([AppendCommentary (JStr "[server] connected") false], Normal)
  | Commentary t =>
      client_onmessage data = ([AppendCommentary (JStr t) false], Normal)
  | CommentaryChunk t =>
      client_onmessage data = ([AppendCommentary (JStr t) true], Normal)
  | Coach t =>
      client_onmessage data
      = ([AppendCommentary (JStr ("[Coach] " +:+ t)) false;
          Speak (JStr t)], Normal)
  | Control c =>
      forall speed,
        Get c "type" = Ok (JStr "aiAdjust") ->
        Get c "aiSpeed" = Ok speed ->
        client_onmessage data
        = match ToString speed with
          | Ok shown_speed =>
              ([SetSpeed speed;
                AppendCommentary (JStr (confirmation shown_speed)) false],
               Normal)
          | Throw err => ([SetSpeed speed], Abrupt err)
          end
  | Error _ | CoachStatus _ | Pong _ =>
      client_onmessage data
      = ([AppendCommentary (JStr (JSON_stringify payload)) false], Normal)
  end.
Proof.
  intros Hparse [Hty Hbody].
  destruct e as [u|m|t|t|t|b|c|ts]; cbn [event_type] in Hty;
    try (apply (client_default data payload _ Hparse Hty); reflexivity);
    unfold client_onmessage; rewrite Hparse, Hty; cbn [StrictEqStr].
  - reflexivity.
  - rewrite Hbody. reflexivity.
  - rewrite Hbody. reflexivity.
  - rewrite Hbody. reflexivity.
  - intros speed Htag Hspeed.
    change (String.eqb "control" "commentary_chunk") with false.
    change (String.eqb "control" "commentary") with false.
    change (String.eqb "control" "control") with true.
    cbn iota. rewrite Hbody. cbn [bindR].
    rewrite (OptGet_defined c "type" _ Htag), Hspeed. reflexivity.
Qed.

Lemma dispatch_replies now ws c st :
  Forall (fun ev => dedicated ev = false)
    (sent_to (ws_id ws) (snd (fst (dispatch cfg now ws c st)))).
Proof.
  destruct c as [payload|enable| |]; cbn [dispatch fst snd].
  - unfold ingest_state.
    destruct (consume _ _ _ _) as [[] store]; cbn [fst snd];
      [constructor|].
    unfold sent_to. cbn [omap list_omap]. rewrite Nat.eqb_refl.
    repeat constructor.
  - unfold sent_to. cbn [omap list_omap]. rewrite Nat.eqb_refl.
    repeat constructor.
  - unfold sent_to. cbn [omap list_omap]. rewrite Nat.eqb_refl.
    repeat constructor.
  - unfold sent_to. cbn [omap list_omap]. rewrite Nat.eqb_refl.
    repeat constructor.
Qed.

(** X16: No answer of the server's message handler has a branch in the client:
    the rate error, the errors for undecodable and unknown frames, the
    coach status and the pong all end in the client's last branch, which
    shows the frame as raw JSON text. *)
Theorem handler_answers_are_shown_raw (now : Z) (ws : WebSocket)
    (msg : string) (isBinary : bool) (st : Server) (ev : Event)
    (data : string) (payload : JsVal) :
  In ev (sent_to (ws_id ws)
           (snd (fst (on_message cfg now ws msg isBinary st)))) ->
  JSON_parse data = Some payload ->
  carries payload ev ->
  client_onmessage data
  = ([AppendCommentary (JStr (JSON_stringify payload)) false], Normal).
Proof.
  intros Hin Hparse [Hty _].
  assert (Hplain : dedicated ev = false).
  { destruct (decode msg isBinary) as [decoded|] eqn:Hdec.
    - rewrite (on_message_decoded cfg now ws msg isBinary st decoded Hdec)
        in Hin.
      pose proof (dispatch_replies now ws (classify decoded) st) as Hall.
      rewrite List.Forall_forall in Hall. exact (Hall ev Hin).
    - unfold decode in Hdec. unfold on_message in Hin. rewrite Hdec in Hin.
      unfold sent_to in Hin. cbn [fst snd omap list_omap] in Hin.
      rewrite Nat.eqb_refl in Hin. destruct Hin as [<-|[]]. reflexivity. }
  destruct ev as [u|m|t|t|t|b|c|ts]; try discriminate;
    apply (client_default data payload _ Hparse Hty); reflexivity.
Qed.

End Protocol.

(** *** Worked scenarios for the client *)

Definition ping_frame : string := json_text "{'type':'ping'}".

Definition pong_text : string := json_text "{'type':'pong','ts':5}".

(** The control frame of a simulated adjustment computed from a textual
    speed. *)
Definition null_speed_text : string :=
  json_text "{'type':'control','control':{'type':'aiAdjust','aiSpeed':null}}".

Section Displays.
#[local] Existing Instance Reference.platform.

Lemma client_handles_server_frames_witness :
  client_onmessage null_speed_text
  = ([SetSpeed JNull;
      AppendCommentary (JStr "(AI speed set to null)") false], Normal).
Proof.
  exact (@client_handles_server_frames Reference.platform null_speed_text
           (JObj [("type", JStr "control");
                  ("control", JObj [("type", JStr "aiAdjust");
                                    ("aiSpeed", JNull)])])
           (Control (JObj [("type", JStr "aiAdjust"); ("aiSpeed", JNull)]))
           ltac:(vm_compute; reflexivity)
           ltac:(split; reflexivity)
           JNull eq_refl eq_refl).
Defined.

Lemma handler_answers_are_shown_raw_witness :
  client_onmessage pong_text
  = ([AppendCommentary (JStr pong_text) false], Normal).
Proof.
  rewrite (@handler_answers_are_shown_raw Reference.platform example_config
             5 dev_socket ping_frame false connected (Pong 5) pong_text
             (JObj [("type", JStr "pong"); ("ts", JNum 5%float)])).
  - vm_compute. reflexivity.
  - vm_compute. left. reflexivity.
  - vm_compute. reflexivity.
  - split; reflexivity.
Defined.

End Displays.

(** ** Iterations that raise, and windows that end *)

Section Recovery.
Context `{Env} (cfg : Config).

(** X17: An iteration whose prompt cannot be built raises after its admission:
    the point is spent and the timestamp advanced, nothing is sent, and no
    iteration started less than an interval later tries the session again,
    so that the ticks in between reach the sessions after it. *)
Theorem raising_iteration_backs_off (now : Z) (P : Provider)
    (ws : WebSocket) (st : Server) (meta : Meta) (k : string) :
  metaByWs st !! ws_id ws = Some meta ->
  ToString (identity ws) = Ok k ->
  fst (consume (commentaryLimiter cfg) (identity ws) now (redis st)) = true ->
  (commentary_due cfg now ws meta ->
   forall e,
     userPrompt (lastState meta) "Respond accordingly." = Throw e ->
     let '(st', effects, completion) := commentary_session cfg now P ws st in
     effects = [] /\ completion = Abrupt e
     /\ remainingPoints (commentaryLimiter cfg) (redis st') k now
        = remainingPoints (commentaryLimiter cfg) (redis st) k now - 1
     /\ forall later P',
          later - now < COMMENTARY_INTERVAL_MS cfg ->
          commentary_session cfg later P' ws st' = (st', [], Normal))
  /\ (coach_due cfg now ws meta ->
      forall e,
        userPrompt (lastState meta) "Provide one coaching tip." = Throw e ->
        let '(st', effects, completion) := coach_session cfg now P ws st in
        effects = [] /\ completion = Abrupt e
        /\ remainingPoints (commentaryLimiter cfg) (redis st') k now
           = remainingPoints (commentaryLimiter cfg) (redis st) k now - 1
        /\ forall later P',
             later - now < COACH_INTERVAL_MS cfg ->
             coach_session cfg later P' ws st' = (st', [], Normal)).
Proof.
  intros Hmeta Hk Hadmit.
  assert (Hspent : forall store,
            consume (commentaryLimiter cfg) (identity ws) now (redis st)
            = (true, store) ->
            remainingPoints (commentaryLimiter cfg) store k now
            = remainingPoints (commentaryLimiter cfg) (redis st) k now - 1).
  { intros store Hc.
    destruct (consume_admitted _ _ k now _ _ Hk Hc) as [_ Hless].
    apply Hless. split; [lia|].
    unfold windowEnd. cbn [duration commentaryLimiter].
    destruct (redis st !! _) as [[c expires]|]; [|lia].
    destruct (Z.ltb_spec now expires); lia. }
  split; intros Hdue e Hprompt.
  - rewrite (commentary_session_due cfg now P ws st meta Hmeta Hdue).
    destruct (consume _ _ _ _) as [admitted store] eqn:Hc.
    cbn [fst] in Hadmit. subst admitted.
    unfold commentary_generate. rewrite Hprompt.
    repeat split; [exact (Hspent store eq_refl)|].
    intros later P' Hsoon.
    apply (commentary_session_not_due cfg later P' ws _ _
             (meta_after_session (set_lastCommentAt now) (ws_id ws) meta
                store st)).
    exact Hsoon.
  - rewrite (coach_session_due cfg now P ws st meta Hmeta Hdue).
    destruct (consume _ _ _ _) as [admitted store] eqn:Hc.
    cbn [fst] in Hadmit. subst admitted.
    unfold coach_generate. rewrite Hprompt.
    repeat split; [exact (Hspent store eq_refl)|].
    intros later P' Hsoon.
    apply (coach_session_not_due cfg later P' ws _ _
             (meta_after_session (set_lastCoachAt now) (ws_id ws) meta
                store st)).
    exact Hsoon.
Qed.

(** X18: Rejections end with the window: once the second of an exhausted state
    budget is over, the next state frame of the identity is stored again
    and answered by nothing, and it opens a new window with one point
    taken. *)
Theorem state_budget_renews (now : Z) (ws : WebSocket) (msg : string)
    (isBinary : bool) (st : Server) (payload : JsVal) (k : string)
    (c expires : Z) (meta : Meta) :
  classify <$> decode msg isBinary = Some (CState payload) ->
  ToString (identity ws) = Ok k ->
  redis st !! getKey (stateLimiter cfg) k = Some (c, expires) ->
  expires <= now ->
  1 <= STATE_SEND_LIMIT_PER_SECOND cfg ->
  metaByWs st !! ws_id ws = Some meta ->
  let '(st', effects, completion) := on_message cfg now ws msg isBinary st in
  effects = [] /\ completion = Normal
  /\ metaByWs st' !! ws_id ws = Some (set_lastState payload meta)
  /\ redis st' !! getKey (stateLimiter cfg) k = Some (1, now + 1000).
Proof.
  intros Hframe Hk Hentry Hover Hlimit Hmeta.
  destruct (decode msg isBinary) as [data|] eqn:Hdec; [|discriminate].
  injection Hframe as Hclass.
  rewrite (on_message_decoded cfg now ws msg isBinary st data Hdec), Hclass.
  cbn [dispatch]. unfold ingest_state, consume. rewrite Hk.
  unfold consumedPoints, windowEnd. rewrite Hentry.
  destruct (Z.ltb_spec now expires) as [Hlive|_]; [lia|].
  cbn [points duration stateLimiter].
  destruct (Z.leb_spec (STATE_SEND_LIMIT_PER_SECOND cfg + 1) 0) as [Hno|_];
    [lia|].
  destruct (Z.leb_spec (0 + 1) (STATE_SEND_LIMIT_PER_SECOND cfg)) as [_|Hno];
    [|lia].
  rewrite Hmeta. cbn. rewrite !lookup_insert_eq. repeat split.
Qed.

End Recovery.

Section Recoveries.
#[local] Existing Instance Reference.platform.

Lemma raising_iteration_backs_off_witness :
  snd (commentary_session example_config 60000 (offline prose_draws)
         dev_socket two_players)
  = Abrupt TypeError.
Proof.
  destruct (@raising_iteration_backs_off Reference.platform example_config
              60000 (offline prose_draws) dev_socket two_players
              {| lastCommentAt := Some 0; lastCoachAt := Some 0;
                 coachEnabled := Some true; lastState := JObj [] |}
              "dev-user"
              ltac:(vm_compute; reflexivity) eq_refl
              ltac:(vm_compute; reflexivity))
    as [Hcommentary _].
  specialize (Hcommentary ltac:(vm_compute; repeat split; discriminate)
                TypeError eq_refl).
  destruct (commentary_session example_config 60000 (offline prose_draws)
              dev_socket two_players) as [[st' effects] completion].
  destruct Hcommentary as (_ & Hraised & _). exact Hraised.
Defined.

(** The client of [after_five] has used its five points by 400 ms; the
    window ends at 1000 ms. *)
Lemma state_budget_renews_witness :
  snd (fst (on_message example_config 1000 dev_socket empty_state_frame false
              after_five)) = [].
Proof.
  generalize (@state_budget_renews Reference.platform example_config 1000
                dev_socket empty_state_frame false after_five (JObj [])
                "dev-user" 5 1000
                {| lastCommentAt := Some 0; lastCoachAt := Some 0;
                   coachEnabled := Some false; lastState := JObj [] |}
                ltac:(vm_compute; reflexivity) eq_refl
                ltac:(vm_compute; reflexivity) ltac:(lia)
                ltac:(vm_compute; discriminate)
                ltac:(vm_compute; reflexivity)).
  destruct (on_message example_config 1000 dev_socket empty_state_frame false
              after_five) as [[st' effects] completion].
  intros [Heffects _]. exact Heffects.
Defined.

End Recoveries.

(** ** Sessions without a snapshot *)

(** The frames of the two workers. *)
Definition worker_frame (ev : Event) : bool :=
  match ev with
  | Commentary _ | CommentaryChunk _ | Coach _ | Control _ => true
  | _ => false
  end.

(** The action is a state frame of connection [id]. *)
Definition brings_state `{Env} (id : nat) (a : Action) : Prop :=
  match a with
  | AMessage i _ msg isBinary =>
      i = id /\ exists p, classify <$> decode msg isBinary = Some (CState p)
  | _ => False
  end.

(** The record of the connection, if any, holds no snapshot. *)
Definition blank (id : nat) (st : Server) : Prop :=
  forall meta, metaByWs st !! id = Some meta ->
               ToBoolean (lastState meta) = false.

(** Nothing in the log is a worker's frame for the connection or a
    generator call for it. *)
Definition unserved (id : nat) (log : list Effect) : Prop :=
  Forall (fun ev => worker_frame ev = false) (sent_to id log)
  /\ forall k, invocations id k log = [].

Lemma unserved_nil id : unserved id [].
Proof. split; [constructor|reflexivity]. Qed.

Lemma unserved_app id l1 l2 :
  unserved id l1 -> unserved id l2 -> unserved id (l1 ++ l2).
Proof.
  intros [Hs1 Hi1] [Hs2 Hi2]. split.
  - rewrite sent_to_app. apply Forall_app. split; assumption.
  - intros k. rewrite invocations_app, Hi1, Hi2. reflexivity.
Qed.

Lemma unserved_silent id l : silent id l -> unserved id l.
Proof. intros [Hs Hi]. split; [rewrite Hs; constructor|exact Hi]. Qed.

Section Blank.
Context `{Env} (cfg : Config).

Lemma dispatch_unserved now ws c st id :
  unserved id (snd (fst (dispatch cfg now ws c st))).
Proof.
  assert (Hone : forall ev, worker_frame ev = false ->
                   unserved id [Send (ws_id ws) ev]).
  { intros ev Hev. split; [|reflexivity].
    unfold sent_to. cbn [omap list_omap].
    destruct (Nat.eqb (ws_id ws) id); repeat constructor. exact Hev. }
  destruct c as [payload|enable| |]; cbn [dispatch fst snd];
    try (apply Hone; reflexivity).
  unfold ingest_state.
  destruct (consume _ _ _ _) as [[] store]; cbn [fst snd];
    [apply unserved_nil|apply Hone; reflexivity].
Qed.

Lemma on_message_unserved now ws msg isBinary st id :
  unserved id (snd (fst (on_message cfg now ws msg isBinary st))).
Proof.
  destruct (decode msg isBinary) as [data|] eqn:Hdec.
  - rewrite (on_message_decoded cfg now ws msg isBinary st data Hdec).
    apply dispatch_unserved.
  - unfold decode in Hdec. unfold on_message. rewrite Hdec.
    cbn [fst snd]. split; [|reflexivity].
    unfold sent_to. cbn [omap list_omap].
    destruct (Nat.eqb (ws_id ws) id); repeat constructor.
Qed.

Lemma on_message_blank now ws msg isBinary st id :
  (ws_id ws = id ->
   forall p, classify <$> decode msg isBinary <> Some (CState p)) ->
  blank id st ->
  blank id (fst (fst (on_message cfg now ws msg isBinary st))).
Proof.
  intros Hframe Hblank.
  destruct (decode msg isBinary) as [data|] eqn:Hdec.
  2:{ unfold decode in Hdec. unfold on_message. rewrite Hdec. exact Hblank. }
  rewrite (on_message_decoded cfg now ws msg isBinary st data Hdec).
  cbn [fmap option_fmap option_map] in Hframe.
  destruct (classify data) as [payload|enable| |] eqn:Hclass;
    cbn [dispatch fst]; try exact Hblank.
  - unfold ingest_state.
    destruct (consume _ _ _ _) as [[] store]; cbn [fst]; [|exact Hblank].
    intros meta. unfold with_meta; simpl.
    destruct (Nat.eq_dec (ws_id ws) id) as [Hid|Hne].
    + exfalso. exact (Hframe Hid payload eq_refl).
    + rewrite lookup_insert_ne by exact Hne. apply Hblank.
  - intros meta. unfold with_meta; simpl.
    destruct (Nat.eq_dec (ws_id ws) id) as [Hid|Hne].
    + rewrite Hid, lookup_insert_eq. intros [= <-]. cbn [lastState].
      destruct (metaByWs st !! id) as [old|] eqn:Hold; [|reflexivity].
      exact (Hblank old Hold).
    + rewrite lookup_insert_ne by exact Hne. apply Hblank.
Qed.

Lemma blank_commentary_skip now P ws st :
  blank (ws_id ws) st ->
  commentary_session cfg now P ws st = (st, [], Normal).
Proof.
  intros Hblank. apply commentary_session_skip.
  intros meta Hmeta (_ & Hstate & _). rewrite (Hblank meta Hmeta) in Hstate.
  discriminate.
Qed.

Lemma blank_coach_skip now P ws st :
  blank (ws_id ws) st ->
  coach_session cfg now P ws st = (st, [], Normal).
Proof.
  intros Hblank. apply coach_session_skip.
  intros meta Hmeta (_ & _ & Hstate & _).
  rewrite (Hblank meta Hmeta) in Hstate. discriminate.
Qed.

(** An iteration for another session, or for a blank one, keeps the
    session blank and unserved. *)
Lemma session_blank
    (body : WebSocket -> Server -> Server * list Effect * Completion)
    (id : nat) (ws : WebSocket) (st : Server) :
  framed ws st (body ws st) ->
  (blank (ws_id ws) st -> body ws st = (st, [], Normal)) ->
  blank id st ->
  blank id (fst (fst (body ws st))) /\ unserved id (snd (fst (body ws st))).
Proof.
  intros (_ & _ & Hother & _ & Habout) Hskip Hblank.
  destruct (Nat.eq_dec (ws_id ws) id) as [Hid|Hne].
  - rewrite Hskip by (rewrite Hid; exact Hblank).
    split; [exact Hblank|apply unserved_nil].
  - split.
    + intros meta. rewrite (Hother id ltac:(congruence)). apply Hblank.
    + apply unserved_silent, (silent_other id (ws_id ws)); assumption.
Qed.

Lemma tick_blank
    (body : WebSocket -> Server -> Server * list Effect * Completion)
    (id : nat) (st : Server) :
  (forall ws s, framed ws s (body ws s)) ->
  (forall ws s, blank (ws_id ws) s -> body ws s = (s, [], Normal)) ->
  blank id st ->
  blank id (fst (fst (for_each body (clients st) st)))
  /\ unserved id (snd (fst (for_each body (clients st) st))).
Proof.
  intros Hframed Hskip Hblank.
  pose proof (for_each_invariant body
                (fun s g => blank id s /\ unserved id g) (clients st))
    as Hloop.
  apply (Hloop ltac:(intros ws s g _ [Hs Hg];
                     destruct (session_blank body id ws s (Hframed ws s)
                                 (Hskip ws s) Hs) as [Hs' Hg'];
                     split; [exact Hs'|apply unserved_app; assumption])
               st [] (conj Hblank (unserved_nil id))).
Qed.

Lemma step_blank id a st :
  ~ brings_state id a ->
  blank id st ->
  blank id (fst (step cfg a st)) /\ unserved id (snd (step cfg a st)).
Proof.
  intros Hno Hblank.
  destruct a as [now req|i now msg isBinary|i|now P|now P|now P i
                |now P i]; cbn [step].
  - unfold on_upgrade. destruct (admission cfg now req) as [status|claims].
    + split; [exact Hblank|]. split; [constructor|reflexivity].
    + unfold on_connection. cbn [fst snd]. split.
      * intros meta. simpl.
        destruct (Nat.eq_dec (next_ws st) id) as [Hid|Hne].
        -- rewrite Hid, lookup_insert_eq. intros [= <-]. reflexivity.
        -- rewrite lookup_insert_ne by exact Hne. apply Hblank.
      * split; [|reflexivity]. unfold sent_to. cbn [omap list_omap].
        destruct (Nat.eqb (next_ws st) id); repeat constructor.
  - destruct (socket i st) as [ws|] eqn:Hsock;
      [|split; [exact Hblank|apply unserved_nil]].
    destruct (socket_client i st ws Hsock) as [_ Hid]. split.
    + apply on_message_blank; [|exact Hblank].
      intros Hsame p Hframe. apply Hno. cbn [brings_state].
      split; [congruence|]. exists p. exact Hframe.
    + apply on_message_unserved.
  - split; [|apply unserved_nil]. intros meta. unfold on_close; simpl.
    destruct (Nat.eq_dec i id) as [->|Hne].
    + rewrite lookup_delete_eq. discriminate.
    + rewrite lookup_delete_ne by exact Hne. apply Hblank.
  - apply tick_blank; [| |exact Hblank].
    + intros; apply commentary_session_framed.
    + intros; apply blank_commentary_skip; assumption.
  - apply tick_blank; [| |exact Hblank].
    + intros; apply coach_session_framed.
    + intros; apply blank_coach_skip; assumption.
  - destruct (socket i st) as [ws|] eqn:Hsock;
      [|split; [exact Hblank|apply unserved_nil]].
    apply (session_blank (commentary_session cfg now P));
      [apply commentary_session_framed| |exact Hblank].
    apply blank_commentary_skip.
  - destruct (socket i st) as [ws|] eqn:Hsock;
      [|split; [exact Hblank|apply unserved_nil]].
    apply (session_blank (coach_session cfg now P));
      [apply coach_session_framed| |exact Hblank].
    apply blank_coach_skip.
Qed.

(** X19: A connection that has sent no state frame is served by neither
    worker: over every run of the server from its start in which no state
    frame of the connection arrives, whatever else arrives (pings, coach
    toggles, undecodable frames, the frames of other connections) and
    however often the workers tick, no commentary, chunk, control or coach
    frame is sent to it, and no generator is called for it. *)
Theorem no_snapshot_no_service (id : nat) (acts : list Action) :
  Forall (fun a => ~ brings_state id a) acts ->
  Forall (fun ev => worker_frame ev = false)
    (sent_to id (snd (run cfg acts initial_server)))
  /\ forall k, invocations id k (snd (run cfg acts initial_server)) = [].
Proof.
  intros Hnone.
  assert (Hrun : forall l st log,
            Forall (fun a => ~ brings_state id a) l ->
            blank id st /\ unserved id log ->
            blank id (fst (run cfg l st))
            /\ unserved id (log ++ snd (run cfg l st))).
  { induction l as [|a rest IH]; intros st log Hl [Hs Hg]; cbn [run].
    - cbn [fst snd]. rewrite app_nil_r. split; assumption.
    - apply Forall_cons in Hl as [Ha Hrest].
      destruct (step_blank id a st Ha Hs) as [Hs1 Hg1].
      destruct (step cfg a st) as [st1 e1]. cbn [fst snd] in Hs1, Hg1.
      specialize (IH st1 (log ++ e1) Hrest
                    (conj Hs1 (unserved_app id _ _ Hg Hg1))).
      destruct (run cfg rest st1) as [st2 e2]. cbn [fst snd] in *.
      rewrite app_assoc. exact IH. }
  assert (Hstart : blank id initial_server).
  { intros meta Hmeta. cbn [initial_server metaByWs] in Hmeta.
    rewrite lookup_empty in Hmeta. discriminate. }
  destruct (Hrun acts initial_server [] Hnone
              (conj Hstart (unserved_nil id))) as [_ Hlog].
  exact Hlog.
Qed.

End Blank.

(** ** Sessions with the coach off *)

Definition is_coach (ev : Event) : bool :=
  match ev with
  | Coach _ => true
  | _ => false
  end.

(** An effect that is neither a coach frame nor a call of the coach
    generator. *)
Definition not_coaching (e : Effect) : Prop :=
  match e with
  | Send _ (Coach _) | Generate _ KCoach _ => False
  | _ => True
  end.

(** The action is a [coach_enable] frame of connection [id] with a truthy
    value. *)
Definition enables_coach `{Env} (id : nat) (a : Action) : Prop :=
  match a with
  | AMessage i _ msg isBinary =>
      i = id
      /\ exists v, classify <$> decode msg isBinary = Some (CCoachEnable v)
                   /\ ToBoolean v = true
  | _ => False
  end.

(** The record of the connection, if any, has the coach off. *)
Definition coachless (id : nat) (st : Server) : Prop :=
  forall meta, metaByWs st !! id = Some meta ->
               default false (coachEnabled meta) = false.

Definition uncoached (id : nat) (log : list Effect) : Prop :=
  Forall (fun ev => is_coach ev = false) (sent_to id log)
  /\ invocations id KCoach log = [].

Lemma uncoached_nil id : uncoached id [].
Proof. split; [constructor|reflexivity]. Qed.

Lemma uncoached_app id l1 l2 :
  uncoached id l1 -> uncoached id l2 -> uncoached id (l1 ++ l2).
Proof.
  intros [Hs1 Hi1] [Hs2 Hi2]. split.
  - rewrite sent_to_app. apply Forall_app. split; assumption.
  - rewrite invocations_app, Hi1, Hi2. reflexivity.
Qed.

Lemma uncoached_silent id l : silent id l -> uncoached id l.
Proof. intros [Hs Hi]. split; [rewrite Hs; constructor|apply Hi]. Qed.

Lemma uncoached_not_coaching id l : Forall not_coaching l -> uncoached id l.
Proof.
  induction 1 as [|e l He _ [IHs IHi]]; [apply uncoached_nil|].
  unfold uncoached, sent_to, invocations in *. cbn [omap list_omap].
  destruct e as [i ev|i k t|status]; cbn [not_coaching] in He.
  - split; [|exact IHi].
    destruct (Nat.eqb i id); [|exact IHs].
    constructor; [|exact IHs]. destruct ev; try reflexivity. contradiction.
  - split; [exact IHs|]. destruct k; [|contradiction].
    rewrite andb_false_r. exact IHi.
  - split; assumption.
Qed.

Lemma coachless_only_stamps k now id st st' :
  only_stamps k now st st' -> coachless id st -> coachless id st'.
Proof.
  intros (_ & _ & Hrec) Hoff meta' Hmeta'.
  specialize (Hrec id). rewrite Hmeta' in Hrec.
  destruct (metaByWs st !! id) as [meta|] eqn:Hmeta; [|contradiction].
  destruct Hrec as (_ & Hsame & _). rewrite Hsame. exact (Hoff meta Hmeta).
Qed.

Section Coachless.
Context `{Env} (cfg : Config).

Lemma route_not_coaching id check text :
  Forall not_coaching (map (Send id) (route check text)).
Proof.
  destruct (route_closing check text) as [t [->|[control ->]]];
    repeat constructor.
Qed.

Lemma commentary_generate_not_coaching now P ws s :
  Forall not_coaching (fst (commentary_generate cfg now P ws s)).
Proof.
  unfold commentary_generate.
  destruct (userPrompt _ _) as [prompt|]; [|constructor].
  destruct (simulated cfg).
  - destruct (generateSimulatedCommentary _ _) as [out|]; cbn [fst].
    + constructor; [exact I|apply route_not_coaching].
    + repeat constructor.
  - destruct (chat_stream _ _ _ _) as [[parts []]|]; cbn [fst].
    + constructor; [exact I|]. apply Forall_app. split.
      * apply Forall_map, Forall_forall. intros c _. exact I.
      * repeat constructor.
    + constructor; [exact I|]. apply Forall_app. split.
      * apply Forall_map, Forall_forall. intros c _. exact I.
      * apply route_not_coaching.
    + repeat constructor.
Qed.

Lemma commentary_session_not_coaching now P ws st :
  Forall not_coaching (snd (fst (commentary_session cfg now P ws st))).
Proof.
  destruct (commentary_session_cases cfg now P ws st)
    as [->|(meta & Hmeta & Hdue)]; [constructor|].
  rewrite (commentary_session_due cfg now P ws st meta Hmeta Hdue).
  destruct (consume _ _ _ _) as [[] store]; cbn zeta iota.
  - pose proof (commentary_generate_not_coaching now P ws (lastState meta))
      as Hall.
    destruct (commentary_generate _ _ _ _ _) as [effects c]. exact Hall.
  - repeat constructor.
Qed.

Lemma on_message_not_coaching now ws msg isBinary st :
  Forall not_coaching (snd (fst (on_message cfg now ws msg isBinary st))).
Proof.
  destruct (decode msg isBinary) as [data|] eqn:Hdec.
  - rewrite (on_message_decoded cfg now ws msg isBinary st data Hdec).
    destruct (classify data) as [payload|enable| |]; cbn [dispatch fst snd];
      try (repeat constructor).
    unfold ingest_state.
    destruct (consume _ _ _ _) as [[] store]; repeat constructor.
  - unfold decode in Hdec. unfold on_message. rewrite Hdec.
    repeat constructor.
Qed.

Lemma on_message_coachless now ws msg isBinary st id :
  (ws_id ws = id ->
   forall v, classify <$> decode msg isBinary = Some (CCoachEnable v) ->
             ToBoolean v = false) ->
  coachless id st ->
  coachless id (fst (fst (on_message cfg now ws msg isBinary st))).
Proof.
  intros Hframe Hoff.
  destruct (decode msg isBinary) as [data|] eqn:Hdec.
  2:{ unfold decode in Hdec. unfold on_message. rewrite Hdec. exact Hoff. }
  rewrite (on_message_decoded cfg now ws msg isBinary st data Hdec).
  cbn [fmap option_fmap option_map] in Hframe.
  destruct (classify data) as [payload|enable| |] eqn:Hclass;
    cbn [dispatch fst]; try exact Hoff.
  - unfold ingest_state.
    destruct (consume _ _ _ _) as [[] store]; cbn [fst]; [|exact Hoff].
    intros meta. unfold with_meta; simpl.
    destruct (Nat.eq_dec (ws_id ws) id) as [Hid|Hne].
    + rewrite Hid, lookup_insert_eq. intros [= <-]. cbn [coachEnabled].
      destruct (metaByWs st !! id) as [old|] eqn:Hold; [|reflexivity].
      exact (Hoff old Hold).
    + rewrite lookup_insert_ne by exact Hne. apply Hoff.
  - intros meta. unfold with_meta; simpl.
    destruct (Nat.eq_dec (ws_id ws) id) as [Hid|Hne].
    + rewrite Hid, lookup_insert_eq. intros [= <-].
      exact (Hframe Hid enable eq_refl).
    + rewrite lookup_insert_ne by exact Hne. apply Hoff.
Qed.

Lemma coachless_skip now P ws st :
  coachless (ws_id ws) st ->
  coach_session cfg now P ws st = (st, [], Normal).
Proof.
  intros Hoff. apply coach_session_skip.
  intros meta Hmeta (_ & Hon & _). rewrite (Hoff meta Hmeta) in Hon.
  discriminate.
Qed.

Lemma coach_session_coachless now P id ws st :
  coachless id st ->
  coachless id (fst (fst (coach_session cfg now P ws st)))
  /\ uncoached id (snd (fst (coach_session cfg now P ws st))).
Proof.
  intros Hoff. split.
  - exact (coachless_only_stamps _ _ _ _ _
             (coach_session_only_stamps cfg now P ws st) Hoff).
  - destruct (Nat.eq_dec (ws_id ws) id) as [Hid|Hne].
    + rewrite coachless_skip by (rewrite Hid; exact Hoff).
      apply uncoached_nil.
    + destruct (coach_session_framed cfg now P ws st)
        as (_ & _ & _ & _ & Habout).
      apply uncoached_silent, (silent_other id (ws_id ws)); assumption.
Qed.

Lemma step_coachless id a st :
  ~ enables_coach id a ->
  coachless id st ->
  coachless id (fst (step cfg a st)) /\ uncoached id (snd (step cfg a st)).
Proof.
  intros Hno Hoff.
  destruct a as [now req|i now msg isBinary|i|now P|now P|now P i
                |now P i]; cbn [step].
  - unfold on_upgrade. destruct (admission cfg now req) as [status|claims].
    + split; [exact Hoff|]. apply uncoached_not_coaching. repeat constructor.
    + unfold on_connection. cbn [fst snd]. split.
      * intros meta. simpl.
        destruct (Nat.eq_dec (next_ws st) id) as [Hid|Hne].
        -- rewrite Hid, lookup_insert_eq. intros [= <-]. reflexivity.
        -- rewrite lookup_insert_ne by exact Hne. apply Hoff.
      * apply uncoached_not_coaching. repeat constructor.
  - destruct (socket i st) as [ws|] eqn:Hsock;
      [|split; [exact Hoff|apply uncoached_nil]].
    destruct (socket_client i st ws Hsock) as [_ Hid]. split.
    + apply on_message_coachless; [|exact Hoff].
      intros Hsame v Hframe.
      destruct (ToBoolean v) eqn:Hv; [|reflexivity].
      exfalso. apply Hno. cbn [enables_coach].
      split; [congruence|]. exists v. split; assumption.
    + apply uncoached_not_coaching, on_message_not_coaching.
  - split; [|apply uncoached_nil]. intros meta. unfold on_close; simpl.
    destruct (Nat.eq_dec i id) as [->|Hne].
    + rewrite lookup_delete_eq. discriminate.
    + rewrite lookup_delete_ne by exact Hne. apply Hoff.
  - split.
    + apply (coachless_only_stamps KCommentary now id st); [|exact Hoff].
      apply for_each_only_stamps. intros.
      apply commentary_session_only_stamps.
    + apply uncoached_not_coaching.
      pose proof (for_each_invariant (commentary_session cfg now P)
                    (fun _ g => Forall not_coaching g) (clients st))
        as Hloop.
      apply (Hloop ltac:(intros ws s g _ Hg; apply Forall_app; split;
                         [exact Hg|apply commentary_session_not_coaching])
                   st [] ltac:(constructor)).
  - pose proof (for_each_invariant (coach_session cfg now P)
                  (fun s g => coachless id s /\ uncoached id g) (clients st))
      as Hloop.
    apply (Hloop ltac:(intros ws s g _ [Hs Hg];
                       destruct (coach_session_coachless now P id ws s Hs)
                         as [Hs' Hg'];
                       split; [exact Hs'|apply uncoached_app; assumption])
                 st [] (conj Hoff (uncoached_nil id))).
  - destruct (socket i st) as [ws|] eqn:Hsock;
      [|split; [exact Hoff|apply uncoached_nil]].
    split.
    + exact (coachless_only_stamps _ _ _ _ _
               (commentary_session_only_stamps cfg now P ws st) Hoff).
    + apply uncoached_not_coaching, commentary_session_not_coaching.
  - destruct (socket i st) as [ws|] eqn:Hsock;
      [|split; [exact Hoff|apply uncoached_nil]].
    apply coach_session_coachless, Hoff.
Qed.

(** X20: While its coach is off a connection gets no coach frame and costs no
    coach call: from a server where the record of the connection, if there
    is one, has the coach off (a new connection, or one that sent a falsy
    [coach_enable]), and for as long as no [coach_enable] frame with a
    truthy value arrives from it, neither worker sends it a coach frame,
    not even the rate-limit placeholder, and the coach generator is never
    called for it. *)
Theorem coach_off_means_silence (id : nat) (st : Server)
    (acts : list Action) :
  coachless id st ->
  Forall (fun a => ~ enables_coach id a) acts ->
  Forall (fun ev => is_coach ev = false)
    (sent_to id (snd (run cfg acts st)))
  /\ invocations id KCoach (snd (run cfg acts st)) = [].
Proof.
  intros Hoff Hnone.
  assert (Hrun : forall l s log,
            Forall (fun a => ~ enables_coach id a) l ->
            coachless id s /\ uncoached id log ->
            coachless id (fst (run cfg l s))
            /\ uncoached id (log ++ snd (run cfg l s))).
  { induction l as [|a rest IH]; intros s log Hl [Hs Hg]; cbn [run].
    - cbn [fst snd]. rewrite app_nil_r. split; assumption.
    - apply Forall_cons in Hl as [Ha Hrest].
      destruct (step_coachless id a s Ha Hs) as [Hs1 Hg1].
      destruct (step cfg a s) as [st1 e1]. cbn [fst snd] in Hs1, Hg1.
      specialize (IH st1 (log ++ e1) Hrest
                    (conj Hs1 (uncoached_app id _ _ Hg Hg1))).
      destruct (run cfg rest st1) as [st2 e2]. cbn [fst snd] in *.
      rewrite app_assoc. exact IH. }
  destruct (Hrun acts st [] Hnone (conj Hoff (uncoached_nil id)))
    as [_ Hlog].
  exact Hlog.
Qed.

End Coachless.

(** *** Worked scenarios for silent sessions *)

Definition coach_off_frame : string :=
  json_text "{'type':'coach_enable','enable':false}".

Section Silences.
#[local] Existing Instance Reference.platform.

(** A client that connects, turns the coach on and pings, but sends no
    state. *)
Lemma no_snapshot_no_service_witness :
  invocations 0 KCoach
    (snd (run example_config
            [AUpgrade 0 dev_request;
             AMessage 0 10 coach_on_frame false;
             AMessage 0 20 ping_frame false;
             ACommentaryTick 60000 (offline prose_draws);
             ACoachTick 60000 (offline prose_draws)] initial_server))
  = [].
Proof.
  apply (@no_snapshot_no_service Reference.platform example_config 0%nat).
  repeat (constructor;
          [intros Hbad;
           first [ exact Hbad
                 | destruct Hbad as [_ [p Hp]]; vm_compute in Hp;
                   discriminate ]|]).
  constructor.
Defined.

(** A playing client that turns the coach off again. *)
Lemma coach_off_means_silence_witness :
  invocations 0 KCoach
    (snd (run example_config
            [AMessage 0 10 coach_off_frame false;
             ACoachTick 60000 (offline prose_draws);
             ACommentaryTick 60000 (offline prose_draws)] playing))
  = [].
Proof.
  apply (@coach_off_means_silence Reference.platform example_config 0%nat
           playing).
  - intros meta Hmeta.
    assert (Hone : metaByWs playing
                   = {[ 0%nat := set_lastState full_snapshot new_meta ]})
      by (vm_compute; reflexivity).
    rewrite Hone in Hmeta. apply lookup_singleton_Some in Hmeta as [_ <-].
    reflexivity.
  - repeat (constructor;
            [intros Hbad;
             first [ exact Hbad
                   | destruct Hbad as [_ (v & Hv & Htrue)];
                     vm_compute in Hv; injection Hv as <-;
                     discriminate Htrue ]|]).
    constructor.
Defined.

End Silences.

(** ** The server with its awaits

    The message handler and the two workers are async functions: at every
    [await] the function is parked, and whatever else is ready runs before
    it goes on.  Here every piece of code between two awaits is one step,
    and the parked continuations are resumed in any order.  The iterations
    of a tick are taken one by one, as visits of a client under the time
    of their tick, so that the iterations of ticks that overlap can
    alternate; the clock values are not ordered.  [ws.send] on a socket
    that is closed by then is taken to return, as in ws 8. *)

(** A record object: [inl id] is the one created for connection [id],
    [inr n] the [n]-th one created by [metaByWs.get(ws) || {}]. *)
Abbreviation Ref := (nat + nat)%type.

(** The continuation parked at an [await]. *)
Inductive Task : Type :=
| StateAdmission (ws : WebSocket) (payload : JsVal) (admitted : bool)
    (** a state branch of the handler, at
        [await stateLimiter.consume(userKey)] *)
| CommentaryAdmission (now : Z) (ws : WebSocket) (meta : Ref)
    (admitted : bool)
    (** an iteration of the commentary worker, at
        [await commentaryLimiter.consume(userKey)], holding the record it
        fetched *)
| CommentaryStream (ws : WebSocket)
    (answer : Res (list (list StreamChoice) * bool)) (aggregated : string)
    (** the same iteration at [await ...create(...)] or at the next part
        of [for await (const part of stream)] *)
| CoachAdmission (now : Z) (ws : WebSocket) (meta : Ref) (admitted : bool)
    (** an iteration of the coach worker, at
        [await commentaryLimiter.consume(userKey)] *)
| CoachCompletion (ws : WebSocket) (answer : Res ChatResponse)
    (** the same iteration at [await ...create(...)] *).

Record Async : Type := {
  (** [wss.clients] *)
  sockets : list WebSocket;
  (** the record objects *)
  objects : gmap Ref Meta;
  (** [metaByWs] *)
  registry : gmap nat Ref;
  counters : Redis;
  next_socket : nat;
  next_spare : nat;
  parked : list Task;
}.

Definition async_start : Async :=
  {| sockets := []; objects := ∅; registry := ∅; counters := ∅;
     next_socket := 0; next_spare := 0; parked := [] |}.

Definition park (t : Task) (a : Async) : Async :=
  {| sockets := sockets a; objects := objects a; registry := registry a;
     counters := counters a; next_socket := next_socket a;
     next_spare := next_spare a; parked := parked a ++ [t] |}.

Definition with_counters (store : Redis) (a : Async) : Async :=
  {| sockets := sockets a; objects := objects a; registry := registry a;
     counters := store; next_socket := next_socket a;
     next_spare := next_spare a; parked := parked a |}.

Definition with_parked (l : list Task) (a : Async) : Async :=
  {| sockets := sockets a; objects := objects a; registry := registry a;
     counters := counters a; next_socket := next_socket a;
     next_spare := next_spare a; parked := l |}.

(** [meta.field = ...; metaByWs.set(ws, meta)] on the object [r]. *)
Definition write (r : Ref) (f : Meta -> Meta) (id : nat) (a : Async)
    : Async :=
  {| sockets := sockets a;
     objects := <[r := f (default empty_meta (objects a !! r))]> (objects a);
     registry := <[id := r]> (registry a);
     counters := counters a; next_socket := next_socket a;
     next_spare := next_spare a; parked := parked a |}.

(** [const meta = metaByWs.get(ws) || {}; meta.field = ...;
    metaByWs.set(ws, meta)] *)
Definition update_record (id : nat) (f : Meta -> Meta) (a : Async)
    : Async :=
  match registry a !! id with
  | Some r => write r f id a
  | None =>
      {| sockets := sockets a;
         objects := <[inr (next_spare a) := f empty_meta]> (objects a);
         registry := <[id := inr (next_spare a)]> (registry a);
         counters := counters a; next_socket := next_socket a;
         next_spare := S (next_spare a); parked := parked a |}
  end.

(** The [n]-th parked continuation, and the others. *)
Fixpoint take_task (n : nat) (l : list Task) : option (Task * list Task) :=
  match l, n with
  | [], _ => None
  | t :: rest, O => Some (t, rest)
  | t :: rest, S n' =>
      match take_task n' rest with
      | Some (x, others) => Some (x, t :: others)
      | None => None
      end
  end.

(** What a step of the server is. *)
Inductive Activity : Type :=
| Upgrades (now : Z) (req : Request)
| Receives (id : nat) (now : Z) (msg : string) (isBinary : bool)
| Closes (id : nat)
| CommentaryVisits (now : Z) (id : nat)
    (** the commentary worker comes to client [id] in a tick started at
        [now], and runs to its first [await] *)
| CoachVisits (now : Z) (id : nat)
| Resumes (n : nat) (P : Provider)
    (** the [n]-th parked continuation runs to its next [await] or to its
        end; the provider answers as [P] *).

Section Awaits.
Context `{Env} (cfg : Config).

(** [wss.on('connection', ...)] *)
Definition accept (claims : JsVal) (a : Async) : Async * list Effect :=
  let id := next_socket a in
  ({| sockets := sockets a ++ [{| ws_id := id; user := claims;
                                   isOpen := true |}];
      objects := <[inl id := new_meta]> (objects a);
      registry := <[id := inl id]> (registry a);
      counters := counters a;
      next_socket := S id;
      next_spare := next_spare a;
      parked := parked a |},
   [Send id (Welcome claims)]).

(** [server.on('upgrade', ...)]: it has no [await]. *)
Definition async_upgrade (now : Z) (req : Request) (a : Async)
    : Async * list Effect :=
  match admission cfg now req with
  | Rejected status => (a, [Refuse status])
  | Accepted claims => accept claims a
  end.

(** [ws.on('close', ...)] *)
Definition async_close (id : nat) (a : Async) : Async :=
  {| sockets := List.filter (fun ws => negb (Nat.eqb (ws_id ws) id))
                  (sockets a);
     objects := objects a;
     registry := delete id (registry a);
     counters := counters a; next_socket := next_socket a;
     next_spare := next_spare a; parked := parked a |}.

(** A state branch up to its [await]: the call of the limiter is issued,
    and counted by the store. *)
Definition await_state (now : Z) (ws : WebSocket) (key payload : JsVal)
    (a : Async) : Async * list Effect :=
  let '(admitted, store) :=
    consume (stateLimiter cfg) key now (counters a) in
  (park (StateAdmission ws payload admitted) (with_counters store a), []).

(** [ws.on('message', async (msg, isBinary) => ...)] up to its [await],
    or to its end in the branches that have none. *)
Definition async_message (now : Z) (ws : WebSocket) (msg : string)
    (isBinary : bool) (a : Async) : Async * list Effect :=
  match (if isBinary then msgpack_decode msg else JSON_parse msg) with
  | None => (a, [Send (ws_id ws) (Error "invalid message")])
  | Some data =>
      match userKey ws with
      | Throw e => (a, [])
      | Ok key =>
          if isArray data && StrictEqStr (Index data 0) "state" then
            await_state now ws key (Index data 1) a
          else
            match has_type data "state" with
            | Throw e => (a, [])
            | Ok true =>
                match Get data "state" with
                | Throw e => (a, [])
                | Ok payload => await_state now ws key payload a
                end
            | Ok false =>
                match has_type data "coach_enable" with
                | Throw e => (a, [])
                | Ok true =>
                    match Get data "enable" with
                    | Throw e => (a, [])
                    | Ok enable =>
                        let b := ToBoolean enable in
                        (update_record (ws_id ws)
                           (fun m => set_lastCoachAt 0 (set_coachEnabled b m))
                           a,
                         [Send (ws_id ws) (CoachStatus b)])
                    end
                | Ok false =>
                    match has_type data "ping" with
                    | Throw e => (a, [])
                    | Ok true => (a, [Send (ws_id ws) (Pong now)])
                    | Ok false =>
                        (a, [Send (ws_id ws) (Error "unknown message type")])
                    end
                end
            end
      end
  end.

(** An iteration of the commentary worker up to its [await]: the gate,
    and the call of the limiter. *)
Definition commentary_gate (now : Z) (ws : WebSocket) (a : Async) : Async :=
  if negb (isOpen ws) then a
  else
    match registry a !! ws_id ws with
    | None => a
    | Some r =>
        match objects a !! r with
        | None => a
        | Some meta =>
            if negb (ToBoolean (lastState meta)) then a
            else if now - default 0 (lastCommentAt meta)
                    <? COMMENTARY_INTERVAL_MS cfg
            then a
            else
              match userKey ws with
              | Throw e => a
              | Ok key =>
                  let '(admitted, store) :=
                    consume (commentaryLimiter cfg) key now (counters a) in
                  park (CommentaryAdmission now ws r admitted)
                    (with_counters store a)
              end
        end
    end.

Definition coach_gate (now : Z) (ws : WebSocket) (a : Async) : Async :=
  if negb (isOpen ws) then a
  else
    match registry a !! ws_id ws with
    | None => a
    | Some r =>
        match objects a !! r with
        | None => a
        | Some meta =>
            if negb (default false (coachEnabled meta))
               || negb (ToBoolean (lastState meta))
            then a
            else if now - default 0 (lastCoachAt meta)
                    <? COACH_INTERVAL_MS cfg
            then a
            else
              match userKey ws with
              | Throw e => a
              | Ok key =>
                  let '(admitted, store) :=
                    consume (commentaryLimiter cfg) key now (counters a) in
                  park (CoachAdmission now ws r admitted)
                    (with_counters store a)
              end
        end
    end.

(** The chunks of one part of a stream. *)
Definition part_chunks (part : list StreamChoice) : list string :=
  List.filter nonempty (map textChunk part).

(** A parked continuation, from the answer it waited for to its next
    [await] or to its end. *)
Definition resume (t : Task) (P : Provider) (a : Async)
    : Async * list Effect :=
  match t with
  | StateAdmission ws payload admitted =>
      if admitted then
        (update_record (ws_id ws) (set_lastState payload) a, [])
      else (a, [Send (ws_id ws) (Error "state rate limit exceeded")])
  | CommentaryAdmission now ws r admitted =>
      let id := ws_id ws in
      let a' := write r (set_lastCommentAt now) id a in
      if admitted then
        let s := lastState (default empty_meta (objects a' !! r)) in
        match userPrompt s "Respond accordingly." with
        | Throw e => (a', [])
        | Ok prompt =>
            if simulated cfg then
              match generateSimulatedCommentary (Math_random P id) s with
              | Throw e => (a', [Generate id KCommentary now])
              | Ok out =>
                  (a', Generate id KCommentary now
                         :: map (Send id) (route_simulated out))
              end
            else
              (park (CommentaryStream ws
                       (chat_stream P id commentary_systemPrompt prompt) "")
                 a',
               [Generate id KCommentary now])
        end
      else (a', [Send id (Commentary "[commentary rate-limited]")])
  | CommentaryStream ws answer aggregated =>
      let id := ws_id ws in
      match answer with
      | Throw _ => (a, [Send id (Commentary "[commentary error]")])
      | Ok (part :: rest, breaks) =>
          let chunks := part_chunks part in
          (park (CommentaryStream ws (Ok (rest, breaks))
                   (fold_left String.append chunks aggregated)) a,
           map (fun c => Send id (CommentaryChunk c)) chunks)
      | Ok ([], true) => (a, [Send id (Commentary "[commentary error]")])
      | Ok ([], false) =>
          (a, map (Send id) (route_streamed (js_trim aggregated)))
      end
  | CoachAdmission now ws r admitted =>
      let id := ws_id ws in
      let a' := write r (set_lastCoachAt now) id a in
      if admitted then
        let s := lastState (default empty_meta (objects a' !! r)) in
        match userPrompt s "Provide one coaching tip." with
        | Throw e => (a', [])
        | Ok prompt =>
            if simulated cfg then
              (a', [Generate id KCoach now;
                    Send id (Coach (generateSimulatedCoachTip
                                      (Math_random P id) s))])
            else
              (park (CoachCompletion ws
                       (chat_complete P id coach_systemPrompt prompt)) a',
               [Generate id KCoach now])
        end
      else (a', [Send id (Coach "[coach rate-limited]")])
  | CoachCompletion ws answer =>
      let id := ws_id ws in
      match answer with
      | Throw _ => (a, [Send id (Coach "[coach error]")])
      | Ok resp =>
          let coachText :=
            match message_content resp with
            | Some c => c
            | None => default "[coach error]" (first_text resp)
            end in
          (a, [Send id (Coach (js_trim coachText))])
      end
  end.

Definition member (id : nat) (a : Async) : option WebSocket :=
  List.find (fun ws => Nat.eqb (ws_id ws) id) (sockets a).

Definition async_step (act : Activity) (a : Async) : Async * list Effect :=
  match act with
  | Upgrades now req => async_upgrade now req a
  | Receives id now msg isBinary =>
      match member id a with
      | Some ws => async_message now ws msg isBinary a
      | None => (a, [])
      end
  | Closes id => (async_close id a, [])
  | CommentaryVisits now id =>
      match member id a with
      | Some ws => (commentary_gate now ws a, [])
      | None => (a, [])
      end
  | CoachVisits now id =>
      match member id a with
      | Some ws => (coach_gate now ws a, [])
      | None => (a, [])
      end
  | Resumes n P =>
      match take_task n (parked a) with
      | Some (t, others) => resume t P (with_parked others a)
      | None => (a, [])
      end
  end.

Fixpoint async_run (acts : list Activity) (a : Async)
    : Async * list Effect :=
  match acts with
  | [] => (a, [])
  | act :: rest =>
      let '(a1, e1) := async_step act a in
      let '(a2, e2) := async_run rest a1 in
      (a2, e1 ++ e2)
  end.

End Awaits.

(** ** The commentary worker under interleaving *)

(** The sessions for which an iteration of the commentary worker waits for
    its limiter. *)
Definition commentary_ids (l : list Task) : list nat :=
  omap (fun t => match t with
                 | CommentaryAdmission _ ws _ _ => Some (ws_id ws)
                 | _ => None
                 end) l.

Definition commentary_pending (id : nat) (a : Async) : bool :=
  existsb (Nat.eqb id) (commentary_ids (parked a)).

(** A worker's continuation holds the record of its own connection. *)
Definition task_grounded (a : Async) (t : Task) : Prop :=
  match t with
  | CommentaryAdmission _ ws r _ | CoachAdmission _ ws r _ =>
      r = inl (ws_id ws) /\ (ws_id ws < next_socket a)%nat
  | _ => True
  end.

(** A parked iteration of the commentary worker passed its gate on the
    timestamp its record still has. *)
Definition task_due (gap : Z) (a : Async) (t : Task) : Prop :=
  match t with
  | CommentaryAdmission now _ r _ =>
      forall m, objects a !! r = Some m ->
                gap <= now - default 0 (lastCommentAt m)
  | _ => True
  end.

(** From [a] to [a'] no record object is lost, and the records of the
    connections accepted so far keep their [lastCommentAt]. *)
Definition tame (a a' : Async) : Prop :=
  forall r m, objects a !! r = Some m ->
    exists m', objects a' !! r = Some m'
               /\ forall i, r = inl i -> (i < next_socket a)%nat ->
                            lastCommentAt m' = lastCommentAt m.

Lemma take_task_split n : forall l t others,
  take_task n l = Some (t, others) ->
  exists l1 l2, l = l1 ++ t :: l2 /\ others = l1 ++ l2.
Proof.
  induction n as [|n IH]; intros [|x l] t others; cbn [take_task];
    try discriminate.
  - intros [= <- <-]. exists [], l. split; reflexivity.
  - destruct (take_task n l) as [[y rest]|] eqn:Htake; [|discriminate].
    intros [= <- <-]. destruct (IH l y rest Htake) as (l1 & l2 & -> & ->).
    exists (x :: l1), l2. split; reflexivity.
Qed.

Lemma commentary_ids_app l1 l2 :
  commentary_ids (l1 ++ l2) = commentary_ids l1 ++ commentary_ids l2.
Proof. apply omap_app. Qed.

Lemma commentary_pending_false id a :
  commentary_pending id a = false -> ~ In id (commentary_ids (parked a)).
Proof.
  unfold commentary_pending. intros Hnone Hin.
  assert (Hsome : existsb (Nat.eqb id) (commentary_ids (parked a)) = true).
  { apply existsb_exists. exists id. split; [exact Hin|apply Nat.eqb_refl]. }
  congruence.
Qed.

Lemma invocations_chunks id i (chunks : list string) :
  invocations id KCommentary
    (map (fun c => Send i (CommentaryChunk c)) chunks) = [].
Proof. induction chunks; [reflexivity|assumption]. Qed.

Lemma write_tame r f id a :
  (forall m, lastCommentAt (f m) = lastCommentAt m) ->
  is_Some (objects a !! r) ->
  tame a (write r f id a).
Proof.
  intros Hkeep [m0 Hm0] r' m Hm. unfold write; simpl.
  destruct (decide (r = r')) as [<-|Hne].
  - rewrite lookup_insert_eq, Hm0. rewrite Hm0 in Hm. injection Hm as <-.
    eexists. split; [reflexivity|]. intros i _ _. apply Hkeep.
  - rewrite lookup_insert_ne by exact Hne. exists m. auto.
Qed.

Section Interleaving.
Context `{Env} (cfg : Config).

Let gap := COMMENTARY_INTERVAL_MS cfg.

(** Every client is registered under the record created for it; every
    reference in use has its object; the parked iterations of the
    commentary worker are for different sessions and still due; every past
    commentary call of a session lies at or before the [lastCommentAt] of
    its record; the calls of each session are [gap] apart. *)
Definition orderly (a : Async) (log : list Effect) : Prop :=
  (forall ws, In ws (sockets a) ->
     (ws_id ws < next_socket a)%nat
     /\ registry a !! ws_id ws = Some (inl (ws_id ws)))
  /\ (forall i r, registry a !! i = Some r -> is_Some (objects a !! r))
  /\ (forall i, (i < next_socket a)%nat -> is_Some (objects a !! inl i))
  /\ List.Forall (task_grounded a) (parked a)
  /\ List.Forall (task_due gap a) (parked a)
  /\ List.NoDup (commentary_ids (parked a))
  /\ (forall id t, In t (invocations id KCommentary log) ->
        (id < next_socket a)%nat
        /\ forall m, objects a !! inl id = Some m ->
                     t <= default 0 (lastCommentAt m))
  /\ (forall id, spaced gap (invocations id KCommentary log)).

Lemma orderly_start : orderly async_start [].
Proof.
  split; [intros ws []|].
  split; [intros i r Hr; cbn in Hr; rewrite lookup_empty in Hr; discriminate|].
  split; [intros i Hi; cbn in Hi; lia|].
  split; [constructor|]. split; [constructor|]. split; [constructor|].
  split; [intros id t []|intros id; constructor].
Qed.

Lemma orderly_counters store a log :
  orderly a log -> orderly (with_counters store a) log.
Proof. intros Hinv. exact Hinv. Qed.

Lemma orderly_effects a log effects :
  (forall id, invocations id KCommentary effects = []) ->
  orderly a log -> orderly a (log ++ effects).
Proof.
  intros Hquiet (Hc & Hr & Ho & Hg & Hd & Hn & Hpast & Hspaced).
  assert (Hsame : forall id, invocations id KCommentary (log ++ effects)
                             = invocations id KCommentary log).
  { intros id. rewrite invocations_app, Hquiet, app_nil_r. reflexivity. }
  repeat (split; [assumption|]). split.
  - intros id t. rewrite Hsame. apply Hpast.
  - intros id. rewrite Hsame. apply Hspaced.
Qed.

Lemma orderly_park t a log :
  task_grounded a t -> task_due gap a t ->
  (forall now ws r adm,
     t = CommentaryAdmission now ws r adm ->
     ~ In (ws_id ws) (commentary_ids (parked a))) ->
  orderly a log -> orderly (park t a) log.
Proof.
  intros Hgt Hdt Hfresh (Hc & Hr & Ho & Hg & Hd & Hn & Hpast & Hspaced).
  split; [exact Hc|]. split; [exact Hr|]. split; [exact Ho|].
  split; [|split; [|split; [|split; assumption]]]; cbn [park parked].
  - apply List.Forall_app. split; [exact Hg|]. constructor; [exact Hgt|constructor].
  - apply List.Forall_app. split; [exact Hd|]. constructor; [exact Hdt|constructor].
  - rewrite commentary_ids_app.
    destruct t as [ws payload adm|now ws r adm|ws answer agg|now ws r adm
                  |ws answer]; cbn [commentary_ids omap list_omap];
      rewrite ?app_nil_r; try exact Hn.
    apply NoDup_ListNoDup, NoDup_app. repeat split.
    + apply NoDup_ListNoDup, Hn.
    + intros x Hx Hnew. apply list_elem_of_singleton in Hnew. subst x.
      apply (Hfresh now ws r adm eq_refl), list_elem_of_In, Hx.
    + apply NoDup_singleton.
Qed.

Lemma orderly_unpark a log l1 t l2 :
  parked a = l1 ++ t :: l2 ->
  orderly a log ->
  orderly (with_parked (l1 ++ l2) a) log
  /\ task_grounded a t /\ task_due gap a t
  /\ (forall now ws r adm,
        t = CommentaryAdmission now ws r adm ->
        ~ In (ws_id ws) (commentary_ids (l1 ++ l2))).
Proof.
  intros Hparked (Hc & Hr & Ho & Hg & Hd & Hn & Hpast & Hspaced).
  rewrite Hparked in Hg, Hd, Hn.
  apply List.Forall_app in Hg as [Hg1 Hg2]. apply List.Forall_cons_iff in Hg2 as [Hgt Hg2].
  apply List.Forall_app in Hd as [Hd1 Hd2]. apply List.Forall_cons_iff in Hd2 as [Hdt Hd2].
  split; [|split; [exact Hgt|split; [exact Hdt|]]].
  - split; [exact Hc|]. split; [exact Hr|]. split; [exact Ho|].
    split; [|split; [|split; [|split; assumption]]]; cbn [with_parked parked].
    + apply List.Forall_app. split; assumption.
    + apply List.Forall_app. split; assumption.
    + rewrite commentary_ids_app in *. cbn [commentary_ids omap list_omap] in Hn.
      destruct t; cbn in Hn; try exact Hn.
      apply List.NoDup_remove_1 in Hn. exact Hn.
  - intros now ws r adm ->. rewrite commentary_ids_app in *.
    cbn [commentary_ids omap list_omap] in Hn.
    apply List.NoDup_remove_2 in Hn. exact Hn.
Qed.

(** A change of the records that loses no object and keeps the commentary
    timestamps keeps the server orderly. *)
Lemma orderly_tame a log a' :
  orderly a log ->
  tame a a' ->
  (next_socket a <= next_socket a')%nat ->
  (forall ws, In ws (sockets a') ->
     (ws_id ws < next_socket a')%nat
     /\ registry a' !! ws_id ws = Some (inl (ws_id ws))) ->
  (forall i r, registry a' !! i = Some r -> is_Some (objects a' !! r)) ->
  (forall i, (next_socket a <= i < next_socket a')%nat ->
             is_Some (objects a' !! inl i)) ->
  parked a' = parked a ->
  orderly a' log.
Proof.
  intros (_ & _ & Ho & Hg & Hd & Hn & Hpast & Hspaced)
    Hobjects Hnext Hclients Hregistry Hnew Hparked.
  split; [exact Hclients|]. split; [exact Hregistry|].
  split; [|split; [|split; [|split; [|split; [|exact Hspaced]]]]];
    rewrite ?Hparked.
  - intros i Hi. destruct (Nat.lt_ge_cases i (next_socket a)) as [Hold|Hge].
    + destruct (Ho i Hold) as [m Hm].
      destruct (Hobjects _ m Hm) as (m' & Hm' & _). eauto.
    + apply Hnew. lia.
  - eapply List.Forall_impl; [|exact Hg].
    intros [ws payload adm|now ws r adm|ws answer agg|now ws r adm|ws answer];
      cbn [task_grounded]; try (intros; exact I);
      intros [Hr Hlt]; (split; [exact Hr|lia]).
  - rewrite List.Forall_forall in Hg, Hd. apply List.Forall_forall.
    intros t Hin. pose proof (Hg t Hin) as Hgt. pose proof (Hd t Hin) as Hdt.
    destruct t as [ws payload adm|now ws r adm|ws answer agg|now ws r adm
                  |ws answer]; cbn [task_grounded task_due] in *;
      try exact I.
    destruct Hgt as [Hr Hlt]. intros m' Hm'.
    destruct (Ho (ws_id ws) Hlt) as [m Hm]. rewrite <- Hr in Hm.
    destruct (Hobjects r m Hm) as (m0 & Hm0 & Hsame).
    rewrite Hm' in Hm0. injection Hm0 as <-.
    rewrite (Hsame (ws_id ws) Hr Hlt). apply Hdt, Hm.
  - exact Hn.
  - intros id t Hin. destruct (Hpast id t Hin) as [Hlt Hle].
    split; [lia|]. intros m' Hm'.
    destruct (Ho id Hlt) as [m Hm].
    destruct (Hobjects _ m Hm) as (m0 & Hm0 & Hsame).
    rewrite Hm' in Hm0. injection Hm0 as <-.
    rewrite (Hsame id eq_refl Hlt). apply Hle, Hm.
Qed.

(** [meta.field = ...; metaByWs.set(ws, meta)] on a record in use, for a
    field other than [lastCommentAt]. *)
Lemma write_orderly a log r f id :
  (forall m, lastCommentAt (f m) = lastCommentAt m) ->
  is_Some (objects a !! r) ->
  (forall ws, In ws (sockets a) -> ws_id ws = id -> r = inl id) ->
  orderly a log -> orderly (write r f id a) log.
Proof.
  intros Hkeep Hsome Hown Hinv.
  pose proof Hinv as (Hc & Hr & Ho & _).
  apply (orderly_tame a log); try assumption; try reflexivity.
  - apply write_tame; assumption.
  - intros ws Hin. destruct (Hc ws Hin) as [Hlt Hreg]. split; [exact Hlt|].
    cbn [write registry]. destruct (decide (id = ws_id ws)) as [->|Hne].
    + rewrite lookup_insert_eq. f_equal. apply (Hown ws Hin eq_refl).
    + rewrite lookup_insert_ne by exact Hne. exact Hreg.
  - intros i r'. cbn [write registry objects].
    destruct (decide (id = i)) as [->|Hne].
    + rewrite lookup_insert_eq. intros [= <-]. rewrite lookup_insert_eq. eauto.
    + rewrite lookup_insert_ne by exact Hne. intros Hreg.
      apply lookup_insert_is_Some'. right. apply (Hr i r' Hreg).
  - intros i Hi. cbn [write next_socket] in Hi. lia.
Qed.

Lemma update_record_orderly a log id f :
  (forall m, lastCommentAt (f m) = lastCommentAt m) ->
  orderly a log -> orderly (update_record id f a) log.
Proof.
  intros Hkeep Hinv. pose proof Hinv as (Hc & Hr & Ho & _).
  unfold update_record. destruct (registry a !! id) as [r|] eqn:Hreg.
  - apply write_orderly; try assumption.
    + apply (Hr id r Hreg).
    + intros ws Hin Hid. destruct (Hc ws Hin) as [_ Hown]. congruence.
  - apply (orderly_tame a log); try assumption; try reflexivity.
    + intros r m Hm. cbn [objects].
      destruct (decide (inr (next_spare a) = r)) as [<-|Hne].
      * rewrite lookup_insert_eq. eexists. split; [reflexivity|].
        intros i Hi. discriminate Hi.
      * rewrite lookup_insert_ne by exact Hne. exists m. auto.
    + intros ws Hin. destruct (Hc ws Hin) as [Hlt Hown]. split; [exact Hlt|].
      cbn [registry]. rewrite lookup_insert_ne; [exact Hown|].
      intros Heq. rewrite <- Heq in Hown. congruence.
    + intros i r. cbn [registry objects].
      destruct (decide (id = i)) as [->|Hne].
      * rewrite lookup_insert_eq. intros [= <-]. rewrite lookup_insert_eq. eauto.
      * rewrite lookup_insert_ne by exact Hne. intros Hi.
        apply lookup_insert_is_Some'. right. apply (Hr i r Hi).
    + intros i Hi. cbn [next_socket] in Hi. lia.
Qed.

(** The stamp of the commentary worker: [meta.lastCommentAt = now;
    metaByWs.set(ws, meta)] after the limiter has answered, with the call
    of the generator, if there is one, in [extra]. *)
Lemma orderly_stamp a log id now extra :
  0 <= gap ->
  orderly a log ->
  (id < next_socket a)%nat ->
  ~ In id (commentary_ids (parked a)) ->
  (forall m, objects a !! inl id = Some m ->
             gap <= now - default 0 (lastCommentAt m)) ->
  (forall id', id' <> id -> invocations id' KCommentary extra = []) ->
  invocations id KCommentary extra = []
  \/ invocations id KCommentary extra = [now] ->
  orderly (write (inl id) (set_lastCommentAt now) id a) (log ++ extra).
Proof.
  intros Hgap (Hc & Hr & Ho & Hg & Hd & Hn & Hpast & Hspaced)
    Hlt Hfresh Hdue Hothers Hself.
  destruct (Ho id Hlt) as [m0 Hm0]. pose proof (Hdue m0 Hm0) as Hdue0.
  assert (Hobj : forall r, r <> inl id ->
            objects (write (inl id) (set_lastCommentAt now) id a) !! r
            = objects a !! r).
  { intros r Hne. cbn [write objects]. apply lookup_insert_ne. congruence. }
  assert (Hown : objects (write (inl id) (set_lastCommentAt now) id a) !! inl id
                 = Some (set_lastCommentAt now m0)).
  { cbn [write objects]. rewrite lookup_insert_eq, Hm0. reflexivity. }
  split; [|split; [|split; [|split; [|split; [|split; [|split]]]]]].
  - intros ws Hin. destruct (Hc ws Hin) as [Hws Hreg]. split; [exact Hws|].
    cbn [write registry]. destruct (decide (id = ws_id ws)) as [->|Hne].
    + apply lookup_insert_eq.
    + rewrite lookup_insert_ne by exact Hne. exact Hreg.
  - intros i r. cbn [write registry].
    destruct (decide (id = i)) as [->|Hne].
    + rewrite lookup_insert_eq. intros [= <-]. rewrite Hown. eauto.
    + rewrite lookup_insert_ne by exact Hne. intros Hi.
      cbn [write objects]. apply lookup_insert_is_Some'. right.
      apply (Hr i r Hi).
  - intros i Hi. cbn [write objects]. apply lookup_insert_is_Some'. right.
    apply (Ho i Hi).
  - exact Hg.
  - cbn [write parked]. rewrite List.Forall_forall in Hg, Hd.
    apply List.Forall_forall. intros t Hin.
    pose proof (Hg t Hin) as Hgt. pose proof (Hd t Hin) as Hdt.
    destruct t as [ws payload adm|now' ws r adm|ws answer agg|now' ws r adm
                  |ws answer]; cbn [task_grounded task_due] in *;
      try exact I.
    destruct Hgt as [-> _]. intros m. rewrite Hobj; [apply Hdt|].
    intros [= Heq]. apply Hfresh. rewrite <- Heq.
    apply list_elem_of_In. unfold commentary_ids. apply list_elem_of_omap.
    exists (CommentaryAdmission now' ws (inl (ws_id ws)) adm).
    split; [apply list_elem_of_In; exact Hin|reflexivity].
  - exact Hn.
  - intros id' t. rewrite invocations_app, in_app_iff.
    cbn [write next_socket]. destruct (decide (id' = id)) as [->|Hne].
    + intros Hin. split; [exact Hlt|]. intros m. rewrite Hown. intros [= <-].
      change (t <= now).
      destruct Hin as [Hold|Hnew].
      * destruct (Hpast id t Hold) as [_ Hle]. specialize (Hle m0 Hm0). lia.
      * destruct Hself as [Hnone|Hone].
        -- rewrite Hnone in Hnew. destruct Hnew.
        -- rewrite Hone in Hnew. destruct Hnew as [<-|[]]. lia.
    + rewrite (Hothers id' Hne). intros [Hold|[]].
      rewrite Hobj by congruence. apply (Hpast id' t Hold).
  - intros id'. rewrite invocations_app.
    destruct (decide (id' = id)) as [->|Hne].
    + destruct Hself as [Hnone|Hone].
      * rewrite Hnone, app_nil_r. apply Hspaced.
      * rewrite Hone. apply spaced_snoc; [apply Hspaced|].
        intros t' Hin. destruct (Hpast id t' Hin) as [_ Hle].
        specialize (Hle m0 Hm0). lia.
    + rewrite (Hothers id' Hne), app_nil_r. apply Hspaced.
Qed.

Lemma member_socket id a ws :
  member id a = Some ws -> In ws (sockets a) /\ ws_id ws = id.
Proof.
  unfold member. intros Hfind. apply find_some in Hfind as [Hin Heq].
  split; [exact Hin|]. apply Nat.eqb_eq, Heq.
Qed.

Lemma invocations_call_other id' id k now (evs : list Event) :
  id' <> id ->
  invocations id' KCommentary (Generate id k now :: map (Send id) evs) = [].
Proof.
  intros Hne.
  change (Generate id k now :: map (Send id) evs)
    with ([Generate id k now] ++ map (Send id) evs).
  rewrite invocations_app, invocations_sends, app_nil_r.
  unfold invocations. cbn [omap list_omap].
  destruct (Nat.eqb_spec id id') as [Heq|_]; [congruence|reflexivity].
Qed.

Lemma invocations_coach_call id' id now (evs : list Event) :
  invocations id' KCommentary (Generate id KCoach now :: map (Send id) evs)
  = [].
Proof.
  change (Generate id KCoach now :: map (Send id) evs)
    with ([Generate id KCoach now] ++ map (Send id) evs).
  rewrite invocations_app, invocations_sends, app_nil_r.
  unfold invocations. cbn [omap list_omap]. rewrite andb_false_r.
  reflexivity.
Qed.

Ltac unmoved :=
  cbn [fst snd];
  first [ rewrite app_nil_r; assumption
        | apply orderly_effects;
            [ intros ?; first [reflexivity | apply invocations_sends]
            | assumption ] ].

Lemma accept_orderly claims a log :
  orderly a log ->
  orderly (fst (accept claims a)) (log ++ snd (accept claims a)).
Proof.
  intros Hinv. apply orderly_effects; [intros id; reflexivity|].
  pose proof Hinv as (Hc & Hr & Ho & _).
  apply (orderly_tame a log); try assumption; cbn [accept fst];
    cbn [sockets objects registry next_socket parked]; try reflexivity.
  - intros r m Hm. cbn [accept fst objects next_socket].
    destruct (decide (inl (next_socket a) = r)) as [<-|Hne].
    + rewrite lookup_insert_eq. eexists. split; [reflexivity|].
      intros i [= <-] Hi. lia.
    + rewrite lookup_insert_ne by exact Hne. exists m. auto.
  - lia.
  - intros ws Hin. apply in_app_iff in Hin as [Hold|[<-|[]]].
    + destruct (Hc ws Hold) as [Hlt Hown]. split; [lia|].
      rewrite lookup_insert_ne by lia. exact Hown.
    + cbn [ws_id]. split; [lia|]. apply lookup_insert_eq.
  - intros i r. destruct (decide (next_socket a = i)) as [<-|Hne].
    + rewrite lookup_insert_eq. intros [= <-]. rewrite lookup_insert_eq. eauto.
    + rewrite lookup_insert_ne by exact Hne. intros Hi.
      apply lookup_insert_is_Some'. right. apply (Hr i r Hi).
  - intros i Hi. assert (i = next_socket a) as -> by lia.
    rewrite lookup_insert_eq. eauto.
Qed.

Lemma async_upgrade_orderly now req a log :
  orderly a log ->
  orderly (fst (async_upgrade cfg now req a))
    (log ++ snd (async_upgrade cfg now req a)).
Proof.
  intros Hinv. unfold async_upgrade.
  destruct (admission cfg now req) as [status|claims].
  - unmoved.
  - apply accept_orderly, Hinv.
Qed.

Lemma async_close_orderly id a log :
  orderly a log -> orderly (async_close id a) log.
Proof.
  intros Hinv. pose proof Hinv as (Hc & Hr & Ho & _).
  apply (orderly_tame a log); try assumption; try reflexivity.
  - intros r m Hm. exists m. auto.
  - intros ws Hin. cbn [async_close sockets] in Hin.
    apply filter_In in Hin as [Hin Hne]. destruct (Hc ws Hin) as [Hlt Hown].
    split; [exact Hlt|]. cbn [async_close registry].
    rewrite lookup_delete_ne; [exact Hown|].
    intros Heq. rewrite Heq, Nat.eqb_refl in Hne. discriminate Hne.
  - intros i r Hi. cbn [async_close registry] in Hi.
    apply lookup_delete_Some in Hi as [_ Hi]. apply (Hr i r Hi).
  - intros i Hi. cbn [async_close next_socket] in Hi. lia.
Qed.

Lemma await_state_orderly now ws key payload a log :
  orderly a log ->
  orderly (fst (await_state cfg now ws key payload a))
    (log ++ snd (await_state cfg now ws key payload a)).
Proof.
  intros Hinv. unfold await_state.
  destruct (consume _ _ _ _) as [admitted store]. cbn [fst snd].
  rewrite app_nil_r. apply orderly_park; try exact I.
  - intros t ws' r adm Heq. discriminate Heq.
  - apply orderly_counters, Hinv.
Qed.

Lemma async_message_orderly now ws msg isBinary a log :
  orderly a log ->
  orderly (fst (async_message cfg now ws msg isBinary a))
    (log ++ snd (async_message cfg now ws msg isBinary a)).
Proof.
  intros Hinv. unfold async_message.
  destruct (if isBinary then msgpack_decode msg else JSON_parse msg)
    as [data|]; [|unmoved].
  destruct (userKey ws) as [key|e]; [|unmoved].
  destruct (isArray data && StrictEqStr (Index data 0) "state").
  { apply await_state_orderly, Hinv. }
  destruct (has_type data "state") as [[]|e]; [| |unmoved].
  { destruct (Get data "state") as [payload|e]; [|unmoved].
    apply await_state_orderly, Hinv. }
  destruct (has_type data "coach_enable") as [[]|e]; [| |unmoved].
  { destruct (Get data "enable") as [enable|e]; [|unmoved].
    cbn [fst snd]. apply orderly_effects; [intros id; reflexivity|].
    apply update_record_orderly; [reflexivity|exact Hinv]. }
  destruct (has_type data "ping") as [[]|e]; unmoved.
Qed.

Lemma commentary_gate_orderly now ws a log :
  In ws (sockets a) ->
  ~ In (ws_id ws) (commentary_ids (parked a)) ->
  orderly a log -> orderly (commentary_gate cfg now ws a) log.
Proof.
  intros Hin Hfresh Hinv. pose proof Hinv as (Hc & _).
  destruct (Hc ws Hin) as [Hlt Hown]. unfold commentary_gate.
  destruct (negb (isOpen ws)); [exact Hinv|]. rewrite Hown.
  destruct (objects a !! inl (ws_id ws)) as [meta|] eqn:Hmeta; [|exact Hinv].
  destruct (negb (ToBoolean (lastState meta))); [exact Hinv|].
  destruct (Z.ltb_spec (now - default 0 (lastCommentAt meta))
              (COMMENTARY_INTERVAL_MS cfg)) as [_|Hdue]; [exact Hinv|].
  destruct (userKey ws) as [key|e]; [|exact Hinv].
  destruct (consume _ _ _ _) as [admitted store].
  apply orderly_park.
  - split; [reflexivity|exact Hlt].
  - intros m Hm. cbn [with_counters objects] in Hm.
    rewrite Hmeta in Hm. injection Hm as <-. exact Hdue.
  - intros t ws' r adm [= _ <- _ _]. exact Hfresh.
  - apply orderly_counters, Hinv.
Qed.

Lemma coach_gate_orderly now ws a log :
  In ws (sockets a) ->
  orderly a log -> orderly (coach_gate cfg now ws a) log.
Proof.
  intros Hin Hinv. pose proof Hinv as (Hc & _).
  destruct (Hc ws Hin) as [Hlt Hown]. unfold coach_gate.
  destruct (negb (isOpen ws)); [exact Hinv|]. rewrite Hown.
  destruct (objects a !! inl (ws_id ws)) as [meta|] eqn:Hmeta; [|exact Hinv].
  destruct (negb (default false (coachEnabled meta))
            || negb (ToBoolean (lastState meta))); [exact Hinv|].
  destruct (now - default 0 (lastCoachAt meta) <? COACH_INTERVAL_MS cfg);
    [exact Hinv|].
  destruct (userKey ws) as [key|e]; [|exact Hinv].
  destruct (consume _ _ _ _) as [admitted store].
  apply orderly_park.
  - split; [reflexivity|exact Hlt].
  - exact I.
  - intros t ws' r adm Heq. discriminate Heq.
  - apply orderly_counters, Hinv.
Qed.

Lemma resume_orderly t P a log :
  0 <= gap ->
  orderly a log ->
  task_grounded a t -> task_due gap a t ->
  (forall now ws r adm,
     t = CommentaryAdmission now ws r adm ->
     ~ In (ws_id ws) (commentary_ids (parked a))) ->
  orderly (fst (resume cfg t P a)) (log ++ snd (resume cfg t P a)).
Proof.
  intros Hgap Hinv Hgt Hdt Hfresh.
  destruct t as [ws payload adm|now ws r adm|ws answer agg|now ws r adm
                |ws answer]; unfold resume; cbv zeta.
  - destruct adm; [|unmoved]. cbn [fst snd]. rewrite app_nil_r.
    apply update_record_orderly; [reflexivity|exact Hinv].
  - destruct Hgt as [-> Hlt]. cbn [task_due] in Hdt.
    specialize (Hfresh now ws _ adm eq_refl).
    assert (Hstamp : forall extra,
              (forall id', id' <> ws_id ws ->
                           invocations id' KCommentary extra = []) ->
              invocations (ws_id ws) KCommentary extra = []
              \/ invocations (ws_id ws) KCommentary extra = [now] ->
              orderly (write (inl (ws_id ws)) (set_lastCommentAt now)
                         (ws_id ws) a) (log ++ extra)).
    { intros extra. apply orderly_stamp; assumption. }
    destruct adm.
    + destruct (userPrompt _ _) as [prompt|e].
      * destruct (simulated cfg).
        -- destruct (generateSimulatedCommentary _ _) as [out|e];
             cbn [fst snd]; apply Hstamp.
           ++ intros id' Hne. apply invocations_call_other, Hne.
           ++ right. apply invocations_one.
           ++ intros id' Hne. apply (invocations_call_other _ _ _ _ []), Hne.
           ++ right. apply (invocations_one _ _ []).
        -- cbn [fst snd]. apply orderly_park; try exact I.
           ++ intros t ws' r adm Heq. discriminate Heq.
           ++ apply Hstamp.
              ** intros id' Hne. apply (invocations_call_other _ _ _ _ []), Hne.
              ** right. apply (invocations_one _ _ []).
      * cbn [fst snd]. apply Hstamp; [reflexivity|left; reflexivity].
    + cbn [fst snd]. apply Hstamp; [intros; reflexivity|left; reflexivity].
  - destruct answer as [[[|part rest] breaks]|e];
      [destruct breaks; unmoved| |unmoved].
    cbn [fst snd]. apply orderly_effects; [intros id; apply invocations_chunks|].
    apply orderly_park; try exact I; [|exact Hinv].
    intros t ws' r adm Heq. discriminate Heq.
  - destruct Hgt as [-> Hlt]. pose proof Hinv as (Hc & _ & Ho & _).
    assert (Hwrite : orderly (write (inl (ws_id ws)) (set_lastCoachAt now)
                                (ws_id ws) a) log).
    { apply write_orderly; [reflexivity|apply Ho, Hlt| |exact Hinv].
      intros ws' _ Heq. reflexivity. }
    destruct adm.
    + destruct (userPrompt _ _) as [prompt|e].
      * destruct (simulated cfg); cbn [fst snd].
        -- apply orderly_effects; [|exact Hwrite].
           intros id. apply (invocations_coach_call _ _ _ [_]).
        -- apply orderly_effects;
             [intros id; apply (invocations_coach_call _ _ _ [])|].
           apply orderly_park; try exact I; [|exact Hwrite].
           intros t ws' r adm Heq. discriminate Heq.
      * cbn [fst snd]. rewrite app_nil_r. exact Hwrite.
    + cbn [fst snd]. apply orderly_effects; [intros id; reflexivity|].
      exact Hwrite.
  - destruct answer as [resp|e]; unmoved.
Qed.

(** The iteration goes through its gate to the limiter. *)
Definition passes_gate (now : Z) (ws : WebSocket) (a : Async) : bool :=
  negb (Nat.eqb (length (parked (commentary_gate cfg now ws a)))
          (length (parked a))).

(** No iteration of the commentary worker goes through its gate for a
    session while an earlier iteration for that session waits for its
    limiter. *)
Definition calm (act : Activity) (a : Async) : bool :=
  match act with
  | CommentaryVisits now id =>
      match member id a with
      | Some ws => negb (commentary_pending id a && passes_gate now ws a)
      | None => true
      end
  | _ => true
  end.

Fixpoint unhurried (acts : list Activity) (a : Async) : bool :=
  match acts with
  | [] => true
  | act :: rest => calm act a && unhurried rest (fst (async_step cfg act a))
  end.

Lemma commentary_gate_cases now ws a :
  commentary_gate cfg now ws a = a
  \/ exists r admitted store,
       commentary_gate cfg now ws a
       = park (CommentaryAdmission now ws r admitted) (with_counters store a).
Proof.
  unfold commentary_gate.
  destruct (negb (isOpen ws)); [left; reflexivity|].
  destruct (registry a !! ws_id ws) as [r|]; [|left; reflexivity].
  destruct (objects a !! r) as [meta|]; [|left; reflexivity].
  destruct (negb (ToBoolean (lastState meta))); [left; reflexivity|].
  destruct (_ <? _); [left; reflexivity|].
  destruct (userKey ws) as [key|e]; [|left; reflexivity].
  destruct (consume _ _ _ _) as [admitted store].
  right. exists r, admitted, store. reflexivity.
Qed.

Lemma stopped_at_gate now ws a :
  passes_gate now ws a = false -> commentary_gate cfg now ws a = a.
Proof.
  unfold passes_gate. intros Hstop.
  destruct (commentary_gate_cases now ws a)
    as [Hsame|(r & admitted & store & Hparks)]; [exact Hsame|].
  rewrite Hparks in Hstop. cbn [park with_counters parked] in Hstop.
  rewrite length_app in Hstop. cbn [length] in Hstop.
  apply negb_false_iff, Nat.eqb_eq in Hstop. lia.
Qed.

Lemma async_step_orderly act a log :
  0 <= gap ->
  calm act a = true ->
  orderly a log ->
  orderly (fst (async_step cfg act a)) (log ++ snd (async_step cfg act a)).
Proof.
  intros Hgap Hcalm Hinv.
  destruct act as [now req|id now msg isBinary|id|now id|now id|n P];
    cbn [async_step].
  - apply async_upgrade_orderly, Hinv.
  - destruct (member id a) as [ws|]; [|unmoved].
    apply async_message_orderly, Hinv.
  - cbn [fst snd]. rewrite app_nil_r. apply async_close_orderly, Hinv.
  - destruct (member id a) as [ws|] eqn:Hmember; [|unmoved].
    cbn [calm] in Hcalm. rewrite Hmember in Hcalm.
    apply member_socket in Hmember as [Hin <-].
    cbn [fst snd]. rewrite app_nil_r.
    apply negb_true_iff, andb_false_iff in Hcalm as [Hfree|Hstop].
    + apply commentary_gate_orderly; [exact Hin| |exact Hinv].
      apply commentary_pending_false, Hfree.
    + rewrite (stopped_at_gate now ws a Hstop). exact Hinv.
  - destruct (member id a) as [ws|] eqn:Hmember; [|unmoved].
    apply member_socket in Hmember as [Hin _].
    cbn [fst snd]. rewrite app_nil_r.
    apply coach_gate_orderly; [exact Hin|exact Hinv].
  - destruct (take_task n (parked a)) as [[t others]|] eqn:Htake; [|unmoved].
    destruct (take_task_split n _ t others Htake) as (l1 & l2 & Hparked & ->).
    destruct (orderly_unpark a log l1 t l2 Hparked Hinv)
      as (Hrest & Hgt & Hdt & Hfresh).
    apply resume_orderly; assumption.
Qed.

Lemma async_run_orderly acts : forall a log,
  0 <= gap ->
  unhurried acts a = true ->
  orderly a log ->
  orderly (fst (async_run cfg acts a)) (log ++ snd (async_run cfg acts a)).
Proof.
  induction acts as [|act rest IH]; intros a log Hgap Hun Hinv;
    cbn [async_run].
  - cbn [fst snd]. rewrite app_nil_r. exact Hinv.
  - cbn [unhurried] in Hun. apply andb_true_iff in Hun as [Hcalm Hrest].
    pose proof (async_step_orderly act a log Hgap Hcalm Hinv) as Hstep.
    destruct (async_step cfg act a) as [a1 e1]. cbn [fst snd] in *.
    specialize (IH a1 (log ++ e1) Hgap Hrest Hstep).
    destruct (async_run cfg rest a1) as [a2 e2]. cbn [fst snd] in *.
    rewrite app_assoc. exact IH.
Qed.

(** C4: with a non-negative interval, in every interleaving of handlers,
    closes, worker iterations and resumed awaits from the start of the
    server in which no iteration of the commentary worker goes through
    its gate for a session while an earlier one for that session still
    waits for its limiter, the commentary generator is called for one session at tick
    times at least [COMMENTARY_INTERVAL_MS] apart.  And the continuation
    of an iteration after its limiter has answered, admitted or not,
    stores the record with [lastCommentAt] at the time of its tick before
    it awaits anything else: with the provider in use the generation is
    only parked by then, and from that state an iteration of a tick less
    than the interval later stops at its gate. *)
Theorem commentary_invocations_spaced :
  0 <= COMMENTARY_INTERVAL_MS cfg ->
  (forall (acts : list Activity) (id : nat),
     unhurried acts async_start = true ->
     spaced (COMMENTARY_INTERVAL_MS cfg)
       (invocations id KCommentary (snd (async_run cfg acts async_start))))
  /\ (forall now ws r admitted P a,
        let a' :=
          fst (resume cfg (CommentaryAdmission now ws r admitted) P a) in
        registry a' !! ws_id ws = Some r
        /\ lastCommentAt <$> objects a' !! r = Some (Some now)
        /\ (forall prompt,
              admitted = true -> simulated cfg = false ->
              userPrompt (lastState (default empty_meta (objects a !! r)))
                "Respond accordingly." = Ok prompt ->
              parked a'
              = parked a
                ++ [CommentaryStream ws
                      (chat_stream P (ws_id ws) commentary_systemPrompt
                         prompt) ""])
        /\ (forall later,
              later - now < COMMENTARY_INTERVAL_MS cfg ->
              commentary_gate cfg later ws a' = a')).
Proof.
  intros Hgap. split.
  - intros acts id Hun.
    destruct (async_run_orderly acts async_start [] Hgap Hun orderly_start)
      as (_ & _ & _ & _ & _ & _ & _ & Hsp).
    apply Hsp.
  - intros now ws r admitted P a a'.
    set (w := write r (set_lastCommentAt now) (ws_id ws) a).
    assert (Hobject : objects w !! r
                      = Some (set_lastCommentAt now
                                (default empty_meta (objects a !! r)))).
    { apply lookup_insert_eq. }
    assert (Hshape : registry a' = registry w /\ objects a' = objects w).
    { subst a'. unfold resume. cbv zeta. fold w.
      destruct admitted; [|split; reflexivity].
      destruct (userPrompt _ _) as [prompt|e]; [|split; reflexivity].
      destruct (simulated cfg); [|split; reflexivity].
      destruct (generateSimulatedCommentary _ _); split; reflexivity. }
    destruct Hshape as [Hregistry Hobjects].
    split; [|split; [|split]].
    + rewrite Hregistry. apply lookup_insert_eq.
    + rewrite Hobjects, Hobject. reflexivity.
    + intros prompt -> Hmode Hprompt. subst a'. unfold resume. cbv zeta.
      fold w. rewrite Hobject.
      change (lastState (default empty_meta
                (Some (set_lastCommentAt now
                         (default empty_meta (objects a !! r))))))
        with (lastState (default empty_meta (objects a !! r))).
      rewrite Hprompt, Hmode. reflexivity.
    + intros later Hsoon. unfold commentary_gate.
      destruct (negb (isOpen ws)); [reflexivity|].
      rewrite Hregistry, Hobjects.
      replace (registry w !! ws_id ws) with (Some r)
        by (symmetry; apply lookup_insert_eq).
      rewrite Hobject.
      destruct (negb (ToBoolean _)); [reflexivity|].
      change (default 0 (lastCommentAt (set_lastCommentAt now _))) with now.
      destruct (Z.ltb_spec (later - now) (COMMENTARY_INTERVAL_MS cfg))
        as [_|Hlate]; [reflexivity|lia].
Qed.

End Interleaving.

Section Overlaps.
#[local] Existing Instance Reference.platform.

(** A session with a snapshot, the provider in use; the tick of 60000 is
    admitted and its stream is still open when the tick of 60500 comes,
    which stops at the gate; the tick of 61200 comes after the stream has
    ended. *)
Definition patient_ticks : list Activity :=
  [Upgrades 0 dev_request;
   Receives 0 0 full_state_frame false;
   Resumes 0 (streaming ["Nice"; " shot"]);
   CommentaryVisits 60000 0;
   Resumes 0 (streaming ["Nice"; " shot"]);
   Resumes 0 (streaming ["Nice"; " shot"]);
   CommentaryVisits 60500 0;
   Resumes 0 (streaming ["Nice"; " shot"]);
   Resumes 0 (streaming ["Nice"; " shot"]);
   CommentaryVisits 61200 0;
   Resumes 0 (streaming ["Nice"; " shot"])].

Lemma commentary_invocations_spaced_witness :
  invocations 0 KCommentary
    (snd (async_run streaming_config patient_ticks async_start))
  = [60000; 61200]
  /\ spaced 1200
       (invocations 0 KCommentary
          (snd (async_run streaming_config patient_ticks async_start))).
Proof.
  split; [vm_compute; reflexivity|].
  apply (@commentary_invocations_spaced Reference.platform streaming_config).
  - simpl. lia.
  - vm_compute. reflexivity.
Defined.

(** The tick of 61199 comes to the session while the iteration of the
    tick of 60000 still waits for the limiter: both pass the gate on the
    timestamp of the connection, and both call the generator. *)
Definition overlapping_ticks : list Activity :=
  [Upgrades 0 dev_request;
   Receives 0 0 full_state_frame false;
   Resumes 0 (offline prose_draws);
   CommentaryVisits 60000 0;
   CommentaryVisits 61199 0;
   Resumes 0 (offline prose_draws);
   Resumes 0 (offline prose_draws)].

Lemma overlapping_ticks_both_fire :
  invocations 0 KCommentary
    (snd (async_run example_config overlapping_ticks async_start))
  = [60000; 61199]
  /\ 61199 - 60000 < COMMENTARY_INTERVAL_MS example_config
  /\ unhurried example_config overlapping_ticks async_start = false.
Proof. vm_compute. repeat split; reflexivity. Qed.

End Overlaps.

(** ** Records across the awaits *)

Definition keeps_complete (f : Meta -> Meta) : Prop :=
  forall m, complete m -> complete (f m).

(** The clients are distinct connections, each registered under the
    record created for it, and the records created for the connections
    have all their fields. *)
Definition settled (a : Async) : Prop :=
  NoDup (map ws_id (sockets a))
  /\ (forall ws, In ws (sockets a) ->
        (ws_id ws < next_socket a)%nat
        /\ registry a !! ws_id ws = Some (inl (ws_id ws)))
  /\ (forall i, (i < next_socket a)%nat ->
        exists m, objects a !! inl i = Some m /\ complete m)
  /\ List.Forall (task_grounded a) (parked a).

Lemma settled_start : settled async_start.
Proof.
  split; [constructor|]. split; [intros ws []|].
  split; [intros i Hi; cbn in Hi; lia|constructor].
Qed.

Lemma settled_counters store a : settled a -> settled (with_counters store a).
Proof. intros Hinv. exact Hinv. Qed.

Lemma settled_park t a :
  task_grounded a t -> settled a -> settled (park t a).
Proof.
  intros Hgt (Hn & Hc & Ho & Hg).
  split; [exact Hn|]. split; [exact Hc|]. split; [exact Ho|].
  cbn [park parked]. apply List.Forall_app. split; [exact Hg|].
  constructor; [exact Hgt|constructor].
Qed.

Lemma settled_unpark a l1 t l2 :
  parked a = l1 ++ t :: l2 ->
  settled a ->
  settled (with_parked (l1 ++ l2) a) /\ task_grounded a t.
Proof.
  intros Hparked (Hn & Hc & Ho & Hg). rewrite Hparked in Hg.
  apply List.Forall_app in Hg as [Hg1 Hg2].
  apply List.Forall_cons_iff in Hg2 as [Hgt Hg2].
  split; [|exact Hgt].
  split; [exact Hn|]. split; [exact Hc|]. split; [exact Ho|].
  cbn [with_parked parked]. apply List.Forall_app. split; assumption.
Qed.

Lemma settled_write a r f id :
  keeps_complete f ->
  (forall ws, In ws (sockets a) -> ws_id ws = id -> r = inl id) ->
  settled a -> settled (write r f id a).
Proof.
  intros Hkeep Hown (Hn & Hc & Ho & Hg).
  split; [exact Hn|]. split; [|split; [|exact Hg]].
  - intros ws Hin. destruct (Hc ws Hin) as [Hlt Hreg]. split; [exact Hlt|].
    cbn [write registry]. destruct (decide (id = ws_id ws)) as [Heq|Hne].
    + rewrite <- Heq, lookup_insert_eq. f_equal.
      apply (Hown ws Hin). symmetry. exact Heq.
    + rewrite lookup_insert_ne by exact Hne. exact Hreg.
  - intros i Hi. cbn [write next_socket] in Hi. cbn [write objects].
    destruct (Ho i Hi) as (m & Hm & Hcomplete).
    destruct (decide (r = inl i)) as [->|Hne].
    + rewrite lookup_insert_eq, Hm. eexists. split; [reflexivity|].
      apply Hkeep, Hcomplete.
    + rewrite lookup_insert_ne by exact Hne. eauto.
Qed.

Lemma settled_update_record a id f :
  keeps_complete f -> settled a -> settled (update_record id f a).
Proof.
  intros Hkeep Hinv. pose proof Hinv as (Hn & Hc & Ho & Hg).
  unfold update_record. destruct (registry a !! id) as [r|] eqn:Hreg.
  - apply settled_write; try assumption.
    intros ws Hin Hid. destruct (Hc ws Hin) as [_ Hown]. congruence.
  - split; [exact Hn|]. split; [|split; [|exact Hg]].
    + intros ws Hin. destruct (Hc ws Hin) as [Hlt Hown]. split; [exact Hlt|].
      cbn [registry]. rewrite lookup_insert_ne; [exact Hown|].
      intros Heq. rewrite <- Heq in Hown. congruence.
    + intros i Hi. cbn [next_socket] in Hi. cbn [objects].
      rewrite lookup_insert_ne by discriminate. apply (Ho i Hi).
Qed.

Lemma keeps_complete_lastState v : keeps_complete (set_lastState v).
Proof. intros m Hm. exact Hm. Qed.

Lemma keeps_complete_lastCommentAt t : keeps_complete (set_lastCommentAt t).
Proof. intros m (_ & Hcoach & Hon). repeat split; cbn; eauto. Qed.

Lemma keeps_complete_lastCoachAt t : keeps_complete (set_lastCoachAt t).
Proof. intros m (Hcomment & _ & Hon). repeat split; cbn; eauto. Qed.

Lemma keeps_complete_coach b t :
  keeps_complete (fun m => set_lastCoachAt t (set_coachEnabled b m)).
Proof. intros m (Hcomment & _ & _). repeat split; cbn; eauto. Qed.

Section Registry.
Context `{Env} (cfg : Config).

Lemma accept_settled claims a :
  settled a -> settled (fst (accept claims a)).
Proof.
  intros (Hn & Hc & Ho & Hg). unfold accept. cbn [fst].
  split; [|split; [|split]];
    cbn [sockets objects registry next_socket parked].
  - rewrite map_app. cbn [map]. apply NoDup_app. repeat split.
    + exact Hn.
    + intros i Hi Hnew. apply list_elem_of_singleton in Hnew. subst i.
      apply list_elem_of_In, in_map_iff in Hi as (w & Hid & Hw).
      destruct (Hc w Hw) as [Hlt _]. cbn [ws_id] in Hid. lia.
    + apply NoDup_singleton.
  - intros ws Hin. apply in_app_iff in Hin as [Hold|[<-|[]]].
    + destruct (Hc ws Hold) as [Hlt Hown]. split; [lia|].
      rewrite lookup_insert_ne by lia. exact Hown.
    + cbn [ws_id]. split; [lia|]. apply lookup_insert_eq.
  - intros i Hi. destruct (decide (i = next_socket a)) as [->|Hne].
    + rewrite lookup_insert_eq. exists new_meta.
      split; [reflexivity|]. repeat split; cbn; eauto.
    + rewrite lookup_insert_ne by congruence. apply Ho. lia.
  - eapply List.Forall_impl; [|exact Hg].
    intros [ws payload adm|now ws r adm|ws answer agg|now ws r adm|ws answer];
      cbn [task_grounded next_socket]; try (intros; exact I);
      intros [Hr Hlt]; (split; [exact Hr|lia]).
Qed.

Lemma async_close_settled id a : settled a -> settled (async_close id a).
Proof.
  intros (Hn & Hc & Ho & Hg).
  split; [|split; [|split; [exact Ho|exact Hg]]].
  - cbn [async_close sockets].
    apply (NoDup_filter_ids (fun i => negb (Nat.eqb i id))), Hn.
  - intros ws Hin. cbn [async_close sockets] in Hin.
    apply filter_In in Hin as [Hin Hne]. destruct (Hc ws Hin) as [Hlt Hown].
    split; [exact Hlt|]. cbn [async_close registry].
    rewrite lookup_delete_ne; [exact Hown|].
    intros Heq. rewrite Heq, Nat.eqb_refl in Hne. discriminate Hne.
Qed.

Lemma async_message_settled now ws msg isBinary a :
  settled a -> settled (fst (async_message cfg now ws msg isBinary a)).
Proof.
  intros Hinv.
  assert (Hstate : forall key payload,
            settled (fst (await_state cfg now ws key payload a))).
  { intros key payload. unfold await_state.
    destruct (consume _ _ _ _) as [admitted store]. cbn [fst].
    apply settled_park; [exact I|apply settled_counters, Hinv]. }
  unfold async_message.
  destruct (if isBinary then msgpack_decode msg else JSON_parse msg)
    as [data|]; [|exact Hinv].
  destruct (userKey ws) as [key|e]; [|exact Hinv].
  destruct (isArray data && StrictEqStr (Index data 0) "state");
    [apply Hstate|].
  destruct (has_type data "state") as [[]|e]; [| |exact Hinv].
  { destruct (Get data "state") as [payload|e]; [apply Hstate|exact Hinv]. }
  destruct (has_type data "coach_enable") as [[]|e]; [| |exact Hinv].
  { destruct (Get data "enable") as [enable|e]; [|exact Hinv].
    cbn [fst]. apply settled_update_record;
      [apply keeps_complete_coach|exact Hinv]. }
  destruct (has_type data "ping") as [[]|e]; exact Hinv.
Qed.

Lemma gates_settled now ws a :
  In ws (sockets a) -> settled a ->
  settled (commentary_gate cfg now ws a) /\ settled (coach_gate cfg now ws a).
Proof.
  intros Hin Hinv. pose proof Hinv as (_ & Hc & _).
  destruct (Hc ws Hin) as [Hlt Hown].
  unfold commentary_gate, coach_gate.
  destruct (negb (isOpen ws)); [split; exact Hinv|]. rewrite Hown.
  destruct (objects a !! inl (ws_id ws)) as [meta|]; [|split; exact Hinv].
  split.
  - destruct (negb (ToBoolean (lastState meta))); [exact Hinv|].
    destruct (_ <? _); [exact Hinv|].
    destruct (userKey ws) as [key|e]; [|exact Hinv].
    destruct (consume _ _ _ _) as [admitted store].
    apply settled_park; [split; [reflexivity|exact Hlt]|].
    apply settled_counters, Hinv.
  - destruct (_ || _); [exact Hinv|].
    destruct (_ <? _); [exact Hinv|].
    destruct (userKey ws) as [key|e]; [|exact Hinv].
    destruct (consume _ _ _ _) as [admitted store].
    apply settled_park; [split; [reflexivity|exact Hlt]|].
    apply settled_counters, Hinv.
Qed.

Lemma resume_settled t P a :
  task_grounded a t -> settled a -> settled (fst (resume cfg t P a)).
Proof.
  intros Hgt Hinv.
  destruct t as [ws payload adm|now ws r adm|ws answer agg|now ws r adm
                |ws answer]; unfold resume; cbv zeta.
  - destruct adm; [|exact Hinv]. cbn [fst].
    apply settled_update_record; [apply keeps_complete_lastState|exact Hinv].
  - destruct Hgt as [-> Hlt].
    assert (Hwrite : settled (write (inl (ws_id ws)) (set_lastCommentAt now)
                                (ws_id ws) a)).
    { apply settled_write; [apply keeps_complete_lastCommentAt| |exact Hinv].
      intros ws' _ _. reflexivity. }
    destruct adm; [|exact Hwrite].
    destruct (userPrompt _ _) as [prompt|e]; [|exact Hwrite].
    destruct (simulated cfg).
    + destruct (generateSimulatedCommentary _ _); exact Hwrite.
    + cbn [fst]. apply settled_park; [exact I|exact Hwrite].
  - destruct answer as [[[|part rest] breaks]|e];
      [destruct breaks; exact Hinv| |exact Hinv].
    cbn [fst]. apply settled_park; [exact I|exact Hinv].
  - destruct Hgt as [-> Hlt].
    assert (Hwrite : settled (write (inl (ws_id ws)) (set_lastCoachAt now)
                                (ws_id ws) a)).
    { apply settled_write; [apply keeps_complete_lastCoachAt| |exact Hinv].
      intros ws' _ _. reflexivity. }
    destruct adm; [|exact Hwrite].
    destruct (userPrompt _ _) as [prompt|e]; [|exact Hwrite].
    destruct (simulated cfg); [exact Hwrite|].
    cbn [fst]. apply settled_park; [exact I|exact Hwrite].
  - destruct answer as [resp|e]; exact Hinv.
Qed.

Lemma async_step_settled act a :
  settled a -> settled (fst (async_step cfg act a)).
Proof.
  intros Hinv.
  destruct act as [now req|id now msg isBinary|id|now id|now id|n P];
    cbn [async_step].
  - unfold async_upgrade.
    destruct (admission cfg now req) as [status|claims]; [exact Hinv|].
    apply accept_settled, Hinv.
  - destruct (member id a) as [ws|]; [|exact Hinv].
    apply async_message_settled, Hinv.
  - apply async_close_settled, Hinv.
  - destruct (member id a) as [ws|] eqn:Hmember; [|exact Hinv].
    apply member_socket in Hmember as [Hin _].
    apply (gates_settled now ws a Hin Hinv).
  - destruct (member id a) as [ws|] eqn:Hmember; [|exact Hinv].
    apply member_socket in Hmember as [Hin _].
    apply (gates_settled now ws a Hin Hinv).
  - destruct (take_task n (parked a)) as [[t others]|] eqn:Htake;
      [|exact Hinv].
    destruct (take_task_split n _ t others Htake) as (l1 & l2 & Hparked & ->).
    destruct (settled_unpark a l1 t l2 Hparked Hinv) as [Hrest Hgt].
    apply resume_settled; assumption.
Qed.

Lemma async_run_settled acts : forall a,
  settled a -> settled (fst (async_run cfg acts a)).
Proof.
  induction acts as [|act rest IH]; intros a Hinv; cbn [async_run].
  - exact Hinv.
  - pose proof (async_step_settled act a Hinv) as Hstep.
    destruct (async_step cfg act a) as [a1 e1]. cbn [fst] in Hstep.
    specialize (IH a1 Hstep).
    destruct (async_run cfg rest a1) as [a2 e2]. exact IH.
Qed.

(** X21: Whatever the interleaving of handlers, closes, worker iterations
    and resumed awaits from the start of the server, the clients are
    distinct connections and every client is registered under the record
    object that was created at its connection, with all of
    [lastCommentAt], [lastCoachAt] and [coachEnabled] defined. *)
Theorem clients_keep_their_records (acts : list Activity) :
  let a := fst (async_run cfg acts async_start) in
  NoDup (map ws_id (sockets a))
  /\ forall ws, In ws (sockets a) ->
       (ws_id ws < next_socket a)%nat
       /\ registry a !! ws_id ws = Some (inl (ws_id ws))
       /\ exists meta, objects a !! inl (ws_id ws) = Some meta
                       /\ complete meta.
Proof.
  destruct (async_run_settled acts async_start settled_start)
    as (Hn & Hc & Ho & _).
  split; [exact Hn|]. intros ws Hin. destruct (Hc ws Hin) as [Hlt Hown].
  split; [exact Hlt|]. split; [exact Hown|]. apply Ho, Hlt.
Qed.

(** X22: The continuation of a worker iteration after the limiter has
    answered writes, of the records, only its own timestamp, into the
    record object the iteration fetched before the await, and stores that
    object under its connection again: when the connection was closed
    during the await, the entry the close handler deleted is back. *)
Theorem worker_writes_after_await (now : Z) (ws : WebSocket) (r : Ref)
    (admitted : bool) (P : Provider) (a : Async) :
  let commented :=
    fst (resume cfg (CommentaryAdmission now ws r admitted) P a) in
  let coached := fst (resume cfg (CoachAdmission now ws r admitted) P a) in
  let closed := async_close (ws_id ws) a in
  (objects commented
   = <[r := set_lastCommentAt now (default empty_meta (objects a !! r))]>
       (objects a)
   /\ registry commented = <[ws_id ws := r]> (registry a))
  /\ (objects coached
      = <[r := set_lastCoachAt now (default empty_meta (objects a !! r))]>
          (objects a)
      /\ registry coached = <[ws_id ws := r]> (registry a))
  /\ registry closed !! ws_id ws = None
  /\ registry (fst (resume cfg (CommentaryAdmission now ws r admitted) P
                      closed)) !! ws_id ws = Some r
  /\ registry (fst (resume cfg (CoachAdmission now ws r admitted) P closed))
       !! ws_id ws = Some r.
Proof.
  assert (Hcomment : forall b,
            objects (fst (resume cfg (CommentaryAdmission now ws r admitted)
                            P b))
            = <[r := set_lastCommentAt now
                       (default empty_meta (objects b !! r))]> (objects b)
            /\ registry (fst (resume cfg
                                (CommentaryAdmission now ws r admitted) P b))
               = <[ws_id ws := r]> (registry b)).
  { intros b. unfold resume. cbv zeta.
    destruct admitted; [|split; reflexivity].
    destruct (userPrompt _ _) as [prompt|e]; [|split; reflexivity].
    destruct (simulated cfg); [|split; reflexivity].
    destruct (generateSimulatedCommentary _ _); split; reflexivity. }
  assert (Hcoach : forall b,
            objects (fst (resume cfg (CoachAdmission now ws r admitted) P b))
            = <[r := set_lastCoachAt now
                       (default empty_meta (objects b !! r))]> (objects b)
            /\ registry (fst (resume cfg (CoachAdmission now ws r admitted)
                                P b))
               = <[ws_id ws := r]> (registry b)).
  { intros b. unfold resume. cbv zeta.
    destruct admitted; [|split; reflexivity].
    destruct (userPrompt _ _) as [prompt|e]; [|split; reflexivity].
    destruct (simulated cfg); split; reflexivity. }
  cbv zeta. split; [apply Hcomment|]. split; [apply Hcoach|].
  split; [apply lookup_delete_eq|].
  split.
  - destruct (Hcomment (async_close (ws_id ws) a)) as [_ ->].
    apply lookup_insert_eq.
  - destruct (Hcoach (async_close (ws_id ws) a)) as [_ ->].
    apply lookup_insert_eq.
Qed.

(** X23: A state frame whose connection closes while its handler waits
    for the limiter is stored all the same when the limiter admits it: the
    handler finds no record, takes an empty one, and registers it with
    [lastState] alone. *)
Theorem late_state_frame_is_stored (ws : WebSocket) (payload : JsVal)
    (P : Provider) (a : Async) :
  let closed := async_close (ws_id ws) a in
  let a' := fst (resume cfg (StateAdmission ws payload true) P closed) in
  registry closed !! ws_id ws = None
  /\ registry a' !! ws_id ws = Some (inr (next_spare a))
  /\ objects a' !! inr (next_spare a)
     = Some {| lastCommentAt := None; lastCoachAt := None;
               coachEnabled := None; lastState := payload |}.
Proof.
  cbv zeta.
  assert (Hgone : registry (async_close (ws_id ws) a) !! ws_id ws = None)
    by apply lookup_delete_eq.
  split; [exact Hgone|].
  unfold resume. cbn [fst]. unfold update_record. rewrite Hgone.
  cbn [registry objects async_close next_spare].
  split; apply lookup_insert_eq.
Qed.

End Registry.

Section Departures.
#[local] Existing Instance Reference.platform.

(** A state frame is waiting for its limiter when its connection closes:
    the frame is stored under the closed connection, in a record of its
    own. *)
Example state_frame_outlives_its_connection :
  let a := fst (async_run example_config
                  [Upgrades 0 dev_request;
                   Receives 0 0 full_state_frame false;
                   Closes 0;
                   Resumes 0 (offline prose_draws)] async_start) in
  sockets a = []
  /\ registry a !! 0%nat = Some (inr 0%nat)
  /\ objects a !! inr 0%nat = Some (set_lastState full_snapshot empty_meta).
Proof. vm_compute. repeat split; reflexivity. Qed.

(** An iteration of the commentary worker is waiting for its limiter when
    the connection closes: the generator is called all the same, and the
    record is registered again. *)
Example commentary_outlives_its_connection :
  let '(a, effects) :=
    async_run example_config
      [Upgrades 0 dev_request;
       Receives 0 0 full_state_frame false;
       Resumes 0 (offline prose_draws);
       CommentaryVisits 60000 0;
       Closes 0;
       Resumes 0 (offline prose_draws)] async_start in
  sockets a = []
  /\ registry a !! 0%nat = Some (inl 0%nat)
  /\ invocations 0 KCommentary effects = [60000].
Proof. vm_compute. repeat split; reflexivity. Qed.

End Departures.
(** ** The uninterrupted runs among the interleaved ones *)

(** The server as the uninterrupted model has it: every connection with
    the record its registry entry refers to. *)
Definition view (a : Async) : Server :=
  {| clients := sockets a;
     metaByWs := omap (fun r => objects a !! r) (registry a);
     redis := counters a;
     next_ws := next_socket a |}.

(** Nothing is parked, and the registry holds the records created at the
    connections only. *)
Definition tidy (a : Async) : Prop :=
  parked a = []
  /\ settled a
  /\ forall i r, registry a !! i = Some r ->
                 r = inl i /\ (i < next_socket a)%nat.

Definition resumes (k : nat) (P : Provider) : list Activity :=
  repeat (Resumes 0 P) k.

Lemma server_eq (s t : Server) :
  clients s = clients t -> metaByWs s = metaByWs t -> redis s = redis t ->
  next_ws s = next_ws t -> s = t.
Proof. destruct s, t. cbn. intros -> -> -> ->. reflexivity. Qed.

Lemma view_lookup a i :
  metaByWs (view a) !! i = registry a !! i ≫= (fun r => objects a !! r).
Proof. apply lookup_omap. Qed.

Lemma view_record a i :
  registry a !! i = Some (inl i) ->
  metaByWs (view a) !! i = objects a !! inl i.
Proof. intros Hreg. rewrite view_lookup, Hreg. reflexivity. Qed.

Lemma stream_chunks_cons part rest :
  stream_chunks (part :: rest) = part_chunks part ++ stream_chunks rest.
Proof.
  unfold stream_chunks, part_chunks. cbn [concat].
  rewrite map_app. apply List.filter_app.
Qed.

Section Immediate.
Context `{Env} (cfg : Config).

Lemma async_run_app l1 : forall l2 a,
  async_run cfg (l1 ++ l2) a
  = let '(a1, e1) := async_run cfg l1 a in
    let '(a2, e2) := async_run cfg l2 a1 in
    (a2, e1 ++ e2).
Proof.
  induction l1 as [|act l1 IH]; intros l2 a; cbn [app async_run].
  - destruct (async_run cfg l2 a) as [a2 e2]. reflexivity.
  - destruct (async_step cfg act a) as [a1 e1]. rewrite IH.
    destruct (async_run cfg l1 a1) as [a2 e2].
    destruct (async_run cfg l2 a2) as [a3 e3].
    rewrite app_assoc. reflexivity.
Qed.

(** The parts of a stream, taken one after the other. *)
Lemma stream_drained P ws breaks : forall parts agg a,
  parked a = [CommentaryStream ws (Ok (parts, breaks)) agg] ->
  async_run cfg (resumes (S (length parts)) P) a
  = (with_parked [] a,
     map (fun c => Send (ws_id ws) (CommentaryChunk c)) (stream_chunks parts)
     ++ (if breaks
         then [Send (ws_id ws) (Commentary "[commentary error]")]
         else map (Send (ws_id ws))
                (route_streamed
                   (js_trim (fold_left String.append (stream_chunks parts)
                               agg))))).
Proof.
  induction parts as [|part rest IH]; intros agg a Hparked.
  - cbn [length resumes repeat async_run async_step]. rewrite Hparked.
    cbn [take_task resume]. destruct breaks; cbn; rewrite ?app_nil_r;
      reflexivity.
  - change (resumes (S (length (part :: rest))) P)
      with (Resumes 0 P :: resumes (S (length rest)) P).
    cbn [async_run async_step]. rewrite Hparked. cbn [take_task resume].
    rewrite (IH (fold_left String.append (part_chunks part) agg)
               (park (CommentaryStream ws (Ok (rest, breaks))
                        (fold_left String.append (part_chunks part) agg))
                  (with_parked [] a)) eq_refl).
    rewrite stream_chunks_cons, map_app, fold_left_app, <- app_assoc.
    reflexivity.
Qed.

Lemma resume_step P t b :
  parked b = [t] ->
  async_step cfg (Resumes 0 P) b = resume cfg t P (with_parked [] b).
Proof. intros Hparked. cbn [async_step]. rewrite Hparked. reflexivity. Qed.

Lemma resumes_idle P k : forall a,
  parked a = [] -> async_run cfg (resumes k P) a = (a, []).
Proof.
  induction k as [|k IH]; intros a Hparked; [reflexivity|].
  change (resumes (S k) P) with (Resumes 0 P :: resumes k P).
  cbn [async_run async_step]. rewrite Hparked. cbn [take_task].
  rewrite (IH a Hparked). reflexivity.
Qed.

Lemma resumes_next P k b :
  async_run cfg (resumes (S k) P) b
  = let '(a1, e1) := async_step cfg (Resumes 0 P) b in
    let '(a2, e2) := async_run cfg (resumes k P) a1 in
    (a2, e1 ++ e2).
Proof. reflexivity. Qed.

(** The iteration of the commentary worker from the answer of its
    limiter to its end. *)
Lemma commentary_resumed now P ws admitted meta b :
  parked b = [CommentaryAdmission now ws (inl (ws_id ws)) admitted] ->
  objects b !! inl (ws_id ws) = Some meta ->
  exists k,
    async_run cfg (resumes k P) b
    = (write (inl (ws_id ws)) (set_lastCommentAt now) (ws_id ws)
         (with_parked [] b),
       if admitted
       then fst (commentary_generate cfg now P ws (lastState meta))
       else [Send (ws_id ws) (Commentary "[commentary rate-limited]")]).
Proof.
  intros Hparked Hmeta.
  set (w := write (inl (ws_id ws)) (set_lastCommentAt now) (ws_id ws)
              (with_parked [] b)).
  assert (Hs : lastState (default empty_meta (objects w !! inl (ws_id ws)))
               = lastState meta).
  { subst w. cbn [write objects with_parked].
    rewrite lookup_insert_eq, Hmeta. reflexivity. }
  assert (Hfirst : async_step cfg (Resumes 0 P) b
                   = resume cfg
                       (CommentaryAdmission now ws (inl (ws_id ws)) admitted)
                       P (with_parked [] b))
    by apply (resume_step P _ b Hparked).
  unfold resume in Hfirst. cbv zeta in Hfirst. fold w in Hfirst.
  rewrite Hs in Hfirst.
  destruct admitted.
  - unfold commentary_generate.
    destruct (userPrompt (lastState meta) "Respond accordingly.")
      as [prompt|e].
    + destruct (simulated cfg).
      * exists 1%nat. rewrite resumes_next, Hfirst.
        destruct (generateSimulatedCommentary _ _) as [out|e];
          rewrite (resumes_idle P 0) by reflexivity;
          rewrite app_nil_r; reflexivity.
      * destruct (chat_stream P (ws_id ws) commentary_systemPrompt prompt)
          as [[parts breaks]|e] eqn:Hanswer.
        -- exists (S (S (length parts))). rewrite resumes_next, Hfirst.
           rewrite (stream_drained P ws breaks parts ""
                      (park (CommentaryStream ws (Ok (parts, breaks)) "") w)
                      eq_refl).
           destruct breaks; reflexivity.
        -- exists 2%nat. rewrite resumes_next, Hfirst.
           rewrite resumes_next.
           rewrite (resume_step P (CommentaryStream ws (Throw e) "")
                      (park (CommentaryStream ws (Throw e) "") w) eq_refl).
           reflexivity.
    + exists 1%nat. rewrite resumes_next, Hfirst.
      rewrite (resumes_idle P 0) by reflexivity. reflexivity.
  - exists 1%nat. rewrite resumes_next, Hfirst.
    rewrite (resumes_idle P 0) by reflexivity. reflexivity.
Qed.

(** The same for the coach worker. *)
Lemma coach_resumed now P ws admitted meta b :
  parked b = [CoachAdmission now ws (inl (ws_id ws)) admitted] ->
  objects b !! inl (ws_id ws) = Some meta ->
  exists k,
    async_run cfg (resumes k P) b
    = (write (inl (ws_id ws)) (set_lastCoachAt now) (ws_id ws)
         (with_parked [] b),
       if admitted
       then fst (coach_generate cfg now P ws (lastState meta))
       else [Send (ws_id ws) (Coach "[coach rate-limited]")]).
Proof.
  intros Hparked Hmeta.
  set (w := write (inl (ws_id ws)) (set_lastCoachAt now) (ws_id ws)
              (with_parked [] b)).
  assert (Hs : lastState (default empty_meta (objects w !! inl (ws_id ws)))
               = lastState meta).
  { subst w. cbn [write objects with_parked].
    rewrite lookup_insert_eq, Hmeta. reflexivity. }
  assert (Hfirst : async_step cfg (Resumes 0 P) b
                   = resume cfg
                       (CoachAdmission now ws (inl (ws_id ws)) admitted)
                       P (with_parked [] b))
    by apply (resume_step P _ b Hparked).
  unfold resume in Hfirst. cbv zeta in Hfirst. fold w in Hfirst.
  rewrite Hs in Hfirst.
  destruct admitted.
  - unfold coach_generate.
    destruct (userPrompt (lastState meta) "Provide one coaching tip.")
      as [prompt|e].
    + destruct (simulated cfg).
      * exists 1%nat. rewrite resumes_next, Hfirst.
        rewrite (resumes_idle P 0) by reflexivity. reflexivity.
      * exists 2%nat. rewrite resumes_next, Hfirst.
        rewrite resumes_next.
        rewrite (resume_step P
                   (CoachCompletion ws
                      (chat_complete P (ws_id ws) coach_systemPrompt prompt))
                   (park (CoachCompletion ws
                            (chat_complete P (ws_id ws) coach_systemPrompt
                               prompt)) w) eq_refl).
        destruct (chat_complete P (ws_id ws) coach_systemPrompt prompt)
          as [resp|e]; reflexivity.
    + exists 1%nat. rewrite resumes_next, Hfirst.
      rewrite (resumes_idle P 0) by reflexivity. reflexivity.
  - exists 1%nat. rewrite resumes_next, Hfirst.
    rewrite (resumes_idle P 0) by reflexivity. reflexivity.
Qed.

Lemma member_of ws : forall l,
  NoDup (map ws_id l) -> In ws l ->
  List.find (fun w => Nat.eqb (ws_id w) (ws_id ws)) l = Some ws.
Proof.
  induction l as [|w l IH]; intros Hnodup Hin; [destruct Hin|].
  cbn [map] in Hnodup. apply NoDup_cons in Hnodup as [Hfresh Hrest].
  cbn [List.find]. destruct Hin as [->|Hin].
  - rewrite Nat.eqb_refl. reflexivity.
  - destruct (Nat.eqb_spec (ws_id w) (ws_id ws)) as [Heq|_];
      [|exact (IH Hrest Hin)].
    exfalso. apply Hfresh. rewrite Heq.
    apply list_elem_of_In, in_map, Hin.
Qed.

Lemma tidy_client a ws :
  tidy a -> In ws (sockets a) ->
  member (ws_id ws) a = Some ws
  /\ registry a !! ws_id ws = Some (inl (ws_id ws))
  /\ exists meta, objects a !! inl (ws_id ws) = Some meta.
Proof.
  intros (_ & (Hn & Hc & Ho & _) & _) Hin.
  destruct (Hc ws Hin) as [Hlt Hreg].
  split; [apply member_of; assumption|]. split; [exact Hreg|].
  destruct (Ho _ Hlt) as (meta & Hmeta & _). eauto.
Qed.

Lemma view_write b f id meta :
  registry b !! id = Some (inl id) ->
  objects b !! inl id = Some meta ->
  (forall i r, registry b !! i = Some r -> r = inl i) ->
  view (write (inl id) f id b) = with_meta id (f meta) (view b)
  /\ registry (write (inl id) f id b) = registry b.
Proof.
  intros Hreg Hmeta Hplain.
  assert (Hsame : registry (write (inl id) f id b) = registry b).
  { cbn [write registry]. apply insert_id, Hreg. }
  split; [|exact Hsame].
  apply server_eq; try reflexivity.
  cbn [view with_meta metaByWs]. rewrite Hsame.
  apply map_eq. intros j. rewrite lookup_omap.
  destruct (decide (id = j)) as [<-|Hne].
  - rewrite lookup_insert_eq, Hreg. cbn [write objects option_bind mbind].
    rewrite lookup_insert_eq, Hmeta. reflexivity.
  - rewrite lookup_insert_ne by exact Hne. rewrite lookup_omap.
    destruct (registry b !! j) as [r|] eqn:Hj; [|reflexivity].
    rewrite (Hplain j r Hj). cbn [write objects option_bind mbind].
    rewrite lookup_insert_ne by congruence. reflexivity.
Qed.

(** The schedule takes the interleaved server where the uninterrupted
    model goes, with nothing left parked and the same connections. *)
Definition stays (schedule : list Activity) (a : Async) (st : Server)
    (effects : list Effect) : Prop :=
  view (fst (async_run cfg schedule a)) = st
  /\ snd (async_run cfg schedule a) = effects
  /\ parked (fst (async_run cfg schedule a)) = []
  /\ registry (fst (async_run cfg schedule a)) = registry a
  /\ next_socket (fst (async_run cfg schedule a)) = next_socket a
  /\ sockets (fst (async_run cfg schedule a)) = sockets a.

Lemma stays_tidy schedule a st effects :
  tidy a -> stays schedule a st effects ->
  tidy (fst (async_run cfg schedule a)).
Proof.
  intros (_ & Hsettled & Hplain) (_ & _ & Hparked & Hreg & Hnext & _).
  split; [exact Hparked|]. split; [apply async_run_settled, Hsettled|].
  rewrite Hreg, Hnext. exact Hplain.
Qed.

Lemma stays_idle a : parked a = [] -> stays [] a (view a) [].
Proof. intros Hparked. repeat split. exact Hparked. Qed.

Lemma tidy_plain a :
  tidy a -> forall i r, registry a !! i = Some r -> r = inl i.
Proof. intros (_ & _ & Hplain) i r Hi. apply (Hplain i r Hi). Qed.

(** One iteration of the commentary worker, each await answered at
    once. *)
Lemma commentary_session_immediate now P ws a :
  tidy a -> In ws (sockets a) ->
  exists k,
    stays (CommentaryVisits now (ws_id ws) :: resumes k P) a
      (fst (fst (commentary_session cfg now P ws (view a))))
      (snd (fst (commentary_session cfg now P ws (view a)))).
Proof.
  intros Htidy Hin. pose proof Htidy as (Hparked & _ & _).
  destruct (tidy_client a ws Htidy Hin) as (Hmember & Hreg & meta & Hmeta).
  assert (Hskip : commentary_gate cfg now ws a = a ->
                  stays (CommentaryVisits now (ws_id ws) :: resumes 0 P) a
                    (view a) []).
  { intros Hgate. unfold stays. cbn [resumes repeat async_run async_step].
    rewrite Hmember, Hgate. cbn [fst snd]. repeat split. exact Hparked. }
  unfold commentary_session. rewrite (view_record a _ Hreg), Hmeta.
  unfold commentary_gate in Hskip. rewrite Hreg, Hmeta in Hskip.
  destruct (negb (isOpen ws)) eqn:Hopen;
    [exists 0%nat; apply Hskip; reflexivity|].
  destruct (negb (ToBoolean (lastState meta))) eqn:Hstate;
    [exists 0%nat; apply Hskip; reflexivity|].
  destruct (_ <? _) eqn:Hsoon; [exists 0%nat; apply Hskip; reflexivity|].
  destruct (userKey ws) as [key|e] eqn:Hkey;
    [|exists 0%nat; apply Hskip; reflexivity].
  clear Hskip. change (redis (view a)) with (counters a).
  destruct (consume (commentaryLimiter cfg) key now (counters a))
    as [admitted store] eqn:Hconsume.
  set (b := park (CommentaryAdmission now ws (inl (ws_id ws)) admitted)
              (with_counters store a)).
  assert (Hb : parked b
               = [CommentaryAdmission now ws (inl (ws_id ws)) admitted]).
  { subst b. cbn [park with_counters parked]. rewrite Hparked. reflexivity. }
  destruct (commentary_resumed now P ws admitted meta b Hb Hmeta) as [k Hk].
  exists k. unfold stays. cbn [async_run async_step]. rewrite Hmember.
  cbn [fst snd]. unfold commentary_gate.
  rewrite Hreg, Hmeta, Hopen, Hstate, Hsoon, Hkey, Hconsume.
  fold b. rewrite Hk.
  destruct (view_write (with_parked [] b) (set_lastCommentAt now) (ws_id ws)
              meta Hreg Hmeta (tidy_plain a Htidy)) as [Hview Hsame].
  cbn [fst snd app]. split; [|split; [|repeat split; exact Hsame]].
  - rewrite Hview. destruct admitted;
      [destruct (commentary_generate _ _ _ _ _)|]; reflexivity.
  - destruct admitted;
      [destruct (commentary_generate _ _ _ _ _)|]; reflexivity.
Qed.

Lemma coach_session_immediate now P ws a :
  tidy a -> In ws (sockets a) ->
  exists k,
    stays (CoachVisits now (ws_id ws) :: resumes k P) a
      (fst (fst (coach_session cfg now P ws (view a))))
      (snd (fst (coach_session cfg now P ws (view a)))).
Proof.
  intros Htidy Hin. pose proof Htidy as (Hparked & _ & _).
  destruct (tidy_client a ws Htidy Hin) as (Hmember & Hreg & meta & Hmeta).
  assert (Hskip : coach_gate cfg now ws a = a ->
                  stays (CoachVisits now (ws_id ws) :: resumes 0 P) a
                    (view a) []).
  { intros Hgate. unfold stays. cbn [resumes repeat async_run async_step].
    rewrite Hmember, Hgate. cbn [fst snd]. repeat split. exact Hparked. }
  unfold coach_session. rewrite (view_record a _ Hreg), Hmeta.
  unfold coach_gate in Hskip. rewrite Hreg, Hmeta in Hskip.
  destruct (negb (isOpen ws)) eqn:Hopen;
    [exists 0%nat; apply Hskip; reflexivity|].
  destruct (_ || _) eqn:Hoff; [exists 0%nat; apply Hskip; reflexivity|].
  destruct (_ <? _) eqn:Hsoon; [exists 0%nat; apply Hskip; reflexivity|].
  destruct (userKey ws) as [key|e] eqn:Hkey;
    [|exists 0%nat; apply Hskip; reflexivity].
  clear Hskip. change (redis (view a)) with (counters a).
  destruct (consume (commentaryLimiter cfg) key now (counters a))
    as [admitted store] eqn:Hconsume.
  set (b := park (CoachAdmission now ws (inl (ws_id ws)) admitted)
              (with_counters store a)).
  assert (Hb : parked b = [CoachAdmission now ws (inl (ws_id ws)) admitted]).
  { subst b. cbn [park with_counters parked]. rewrite Hparked. reflexivity. }
  destruct (coach_resumed now P ws admitted meta b Hb Hmeta) as [k Hk].
  exists k. unfold stays. cbn [async_run async_step]. rewrite Hmember.
  cbn [fst snd]. unfold coach_gate.
  rewrite Hreg, Hmeta, Hopen, Hoff, Hsoon, Hkey, Hconsume.
  fold b. rewrite Hk.
  destruct (view_write (with_parked [] b) (set_lastCoachAt now) (ws_id ws)
              meta Hreg Hmeta (tidy_plain a Htidy)) as [Hview Hsame].
  cbn [fst snd app]. split; [|split; [|repeat split; exact Hsame]].
  - rewrite Hview. destruct admitted;
      [destruct (coach_generate _ _ _ _ _)|]; reflexivity.
  - destruct admitted;
      [destruct (coach_generate _ _ _ _ _)|]; reflexivity.
Qed.

Definition lands (r : Async * list Effect) (a : Async) (st : Server)
    (effects : list Effect) : Prop :=
  view (fst r) = st /\ snd r = effects /\ parked (fst r) = []
  /\ registry (fst r) = registry a /\ next_socket (fst r) = next_socket a
  /\ sockets (fst r) = sockets a.

Lemma lands_then P a1 e1 a st effects :
  parked a1 = [] ->
  lands (a1, e1) a st effects ->
  lands (let '(a2, e2) := async_run cfg (resumes 1 P) a1 in (a2, e1 ++ e2))
    a st effects.
Proof.
  intros Hparked Hlands. rewrite (resumes_idle P 1 a1 Hparked).
  rewrite app_nil_r. exact Hlands.
Qed.

Lemma lands_here a effects :
  parked a = [] -> lands (a, effects) a (view a) effects.
Proof. intros Hparked. repeat split. exact Hparked. Qed.

Lemma view_update_record b f id meta :
  registry b !! id = Some (inl id) ->
  objects b !! inl id = Some meta ->
  (forall i r, registry b !! i = Some r -> r = inl i) ->
  update_record id f b = write (inl id) f id b
  /\ view (update_record id f b) = with_meta id (f meta) (view b)
  /\ registry (update_record id f b) = registry b.
Proof.
  intros Hreg Hmeta Hplain. unfold update_record. rewrite Hreg.
  split; [reflexivity|]. apply view_write; assumption.
Qed.

Lemma ingest_immediate now ws key payload P a :
  tidy a -> In ws (sockets a) ->
  lands (let '(a1, e1) := await_state cfg now ws key payload a in
         let '(a2, e2) := async_run cfg (resumes 1 P) a1 in
         (a2, e1 ++ e2))
    a (fst (fst (ingest_state cfg now ws key payload (view a))))
    (snd (fst (ingest_state cfg now ws key payload (view a)))).
Proof.
  intros Htidy Hin. pose proof Htidy as (Hparked & _ & _).
  destruct (tidy_client a ws Htidy Hin) as (_ & Hreg & meta & Hmeta).
  unfold await_state, ingest_state. rewrite (view_record a _ Hreg), Hmeta.
  change (redis (view a)) with (counters a).
  destruct (consume (stateLimiter cfg) key now (counters a))
    as [admitted store].
  set (b := park (StateAdmission ws payload admitted)
              (with_counters store a)).
  assert (Hb : parked b = [StateAdmission ws payload admitted]).
  { subst b. cbn [park with_counters parked]. rewrite Hparked. reflexivity. }
  rewrite resumes_next, (resume_step P _ b Hb). cbn [resume].
  destruct admitted.
  - destruct (view_update_record (with_parked [] b) (set_lastState payload)
                (ws_id ws) meta Hreg Hmeta (tidy_plain a Htidy))
      as (Hwrite & Hview & Hsame).
    rewrite (resumes_idle P 0) by (rewrite Hwrite; reflexivity).
    cbn [fst snd app]. split; [exact Hview|].
    split; [reflexivity|]. split; [rewrite Hwrite; reflexivity|].
    split; [exact Hsame|]. rewrite Hwrite. split; reflexivity.
  - rewrite (resumes_idle P 0) by reflexivity. repeat split.
Qed.

Lemma on_message_immediate now ws msg isBinary P a :
  tidy a -> In ws (sockets a) ->
  stays (Receives (ws_id ws) now msg isBinary :: resumes 1 P) a
    (fst (fst (on_message cfg now ws msg isBinary (view a))))
    (snd (fst (on_message cfg now ws msg isBinary (view a)))).
Proof.
  intros Htidy Hin. pose proof Htidy as (Hparked & _ & _).
  destruct (tidy_client a ws Htidy Hin) as (Hmember & Hreg & meta & Hmeta).
  change (lands (async_run cfg (Receives (ws_id ws) now msg isBinary
                                  :: resumes 1 P) a) a
            (fst (fst (on_message cfg now ws msg isBinary (view a))))
            (snd (fst (on_message cfg now ws msg isBinary (view a))))).
  cbn [async_run async_step]. rewrite Hmember.
  unfold async_message, on_message, raise.
  destruct (if isBinary then msgpack_decode msg else JSON_parse msg)
    as [data|]; [|apply lands_then, lands_here; assumption].
  destruct (userKey ws) as [key|e];
    [|apply lands_then, lands_here; assumption].
  destruct (isArray data && StrictEqStr (Index data 0) "state");
    [apply ingest_immediate; assumption|].
  destruct (has_type data "state") as [[]|e];
    [| |apply lands_then, lands_here; assumption].
  { destruct (Get data "state") as [payload|e];
      [apply ingest_immediate; assumption
      |apply lands_then, lands_here; assumption]. }
  destruct (has_type data "coach_enable") as [[]|e];
    [| |apply lands_then, lands_here; assumption].
  { destruct (Get data "enable") as [enable|e];
      [|apply lands_then, lands_here; assumption].
    rewrite (view_record a _ Hreg), Hmeta.
    destruct (view_update_record a
                (fun m => set_lastCoachAt 0
                            (set_coachEnabled (ToBoolean enable) m))
                (ws_id ws) meta Hreg Hmeta (tidy_plain a Htidy))
      as (Hwrite & Hview & Hsame).
    apply lands_then; [rewrite Hwrite; exact Hparked|].
    split; [exact Hview|]. split; [reflexivity|].
    split; [rewrite Hwrite; exact Hparked|]. split; [exact Hsame|].
    rewrite Hwrite. split; reflexivity. }
  destruct (has_type data "ping") as [[]|e];
    apply lands_then, lands_here; assumption.
Qed.

Lemma upgrade_immediate now req a :
  tidy a ->
  view (fst (async_upgrade cfg now req a))
  = fst (on_upgrade cfg now req (view a))
  /\ snd (async_upgrade cfg now req a) = snd (on_upgrade cfg now req (view a))
  /\ tidy (fst (async_upgrade cfg now req a)).
Proof.
  intros Htidy. pose proof Htidy as (Hparked & Hsettled & Hplain).
  unfold async_upgrade, on_upgrade.
  destruct (admission cfg now req) as [status|claims];
    [split; [reflexivity|split; [reflexivity|exact Htidy]]|].
  split; [|split; [reflexivity|]].
  - apply server_eq; try reflexivity.
    cbn [accept on_connection fst view metaByWs objects registry next_ws].
    apply map_eq. intros j. rewrite lookup_omap.
    destruct (decide (next_socket a = j)) as [<-|Hne].
    + rewrite !lookup_insert_eq. cbn [option_bind mbind].
      apply lookup_insert_eq.
    + rewrite !lookup_insert_ne by exact Hne. rewrite lookup_omap.
      destruct (registry a !! j) as [r|] eqn:Hj; [|reflexivity].
      destruct (Hplain j r Hj) as [-> Hlt]. cbn [option_bind mbind].
      apply lookup_insert_ne. congruence.
  - split; [exact Hparked|]. split; [apply accept_settled, Hsettled|].
    intros i r. cbn [accept fst registry next_socket].
    destruct (decide (next_socket a = i)) as [<-|Hne].
    + rewrite lookup_insert_eq. intros [= <-]. split; [reflexivity|lia].
    + rewrite lookup_insert_ne by exact Hne. intros Hi.
      destruct (Hplain i r Hi) as [-> Hlt]. split; [reflexivity|lia].
Qed.

Lemma close_immediate id a :
  tidy a ->
  view (async_close id a) = on_close id (view a)
  /\ tidy (async_close id a).
Proof.
  intros (Hparked & Hsettled & Hplain). split.
  - apply server_eq; try reflexivity.
    cbn [async_close on_close view metaByWs objects registry].
    apply map_eq. intros j. rewrite lookup_omap.
    destruct (decide (id = j)) as [<-|Hne].
    + rewrite !lookup_delete_eq. reflexivity.
    + rewrite !lookup_delete_ne by exact Hne. rewrite lookup_omap.
      reflexivity.
  - split; [exact Hparked|]. split; [apply async_close_settled, Hsettled|].
    intros i r Hi. cbn [async_close registry next_socket] in *.
    apply lookup_delete_Some in Hi as [_ Hi]. apply (Hplain i r Hi).
Qed.

Lemma stays_app s1 s2 a st1 e1 st2 e2 :
  stays s1 a st1 e1 ->
  stays s2 (fst (async_run cfg s1 a)) st2 e2 ->
  stays (s1 ++ s2) a st2 (e1 ++ e2).
Proof.
  unfold stays. rewrite async_run_app.
  destruct (async_run cfg s1 a) as [a1 x1]. cbn [fst snd].
  destruct (async_run cfg s2 a1) as [a2 x2]. cbn [fst snd].
  intros (_ & -> & _ & Hr1 & Hn1 & Hs1) (Hview & -> & Hp & Hr2 & Hn2 & Hs2).
  repeat split; congruence.
Qed.

(** A tick, its iterations one after the other, each await answered at
    once; the schedule ends where an iteration raises. *)
Lemma for_each_immediate
    (body : WebSocket -> Server -> Server * list Effect * Completion)
    (visit : WebSocket -> Activity) (P : Provider) :
  (forall a ws, tidy a -> In ws (sockets a) ->
     exists k, stays (visit ws :: resumes k P) a
                 (fst (fst (body ws (view a))))
                 (snd (fst (body ws (view a))))) ->
  forall l a, tidy a -> (forall ws, In ws l -> In ws (sockets a)) ->
    exists schedule,
      stays schedule a (fst (fst (for_each body l (view a))))
        (snd (fst (for_each body l (view a)))).
Proof.
  intros Hbody. induction l as [|ws rest IH]; intros a Htidy Hsub.
  - exists []. apply stays_idle. apply Htidy.
  - destruct (Hbody a ws Htidy (Hsub ws (or_introl eq_refl))) as [k Hk].
    cbn [for_each].
    destruct (body ws (view a)) as [[st1 e1] c]. cbn [fst snd] in Hk.
    destruct c as [|e].
    + pose proof (stays_tidy _ _ _ _ Htidy Hk) as Htidy1.
      pose proof Hk as (Hview & _ & _ & _ & _ & Hsockets).
      destruct (IH (fst (async_run cfg (visit ws :: resumes k P) a)) Htidy1)
        as [schedule Hrest].
      { intros w Hw. rewrite Hsockets. apply Hsub. right. exact Hw. }
      rewrite Hview in Hrest.
      exists ((visit ws :: resumes k P) ++ schedule).
      destruct (for_each body rest st1) as [[st2 e2] c2].
      cbn [fst snd] in *. apply (stays_app _ _ _ st1 e1 st2 e2 Hk Hrest).
    + exists (visit ws :: resumes k P). exact Hk.
Qed.

(** The answers of a provider that is never asked: a handler of frames
    calls none. *)
Definition quiet_provider : Provider :=
  {| Math_random := fun _ => {| draw1 := 0; draw2 := 0; draw3 := 0 |};
     chat_stream := fun _ _ _ => Throw ProviderError;
     chat_complete := fun _ _ _ => Throw ProviderError |}.

Lemma step_immediate act a :
  tidy a ->
  exists schedule,
    view (fst (async_run cfg schedule a)) = fst (step cfg act (view a))
    /\ snd (async_run cfg schedule a) = snd (step cfg act (view a))
    /\ tidy (fst (async_run cfg schedule a)).
Proof.
  intros Htidy.
  assert (Hstays : forall schedule st effects,
            stays schedule a st effects ->
            view (fst (async_run cfg schedule a)) = st
            /\ snd (async_run cfg schedule a) = effects
            /\ tidy (fst (async_run cfg schedule a))).
  { intros schedule st effects Hs. pose proof (stays_tidy _ _ _ _ Htidy Hs).
    destruct Hs as (Hview & Heffects & _). auto. }
  assert (Hnone : exists schedule,
            view (fst (async_run cfg schedule a)) = view a
            /\ snd (async_run cfg schedule a) = []
            /\ tidy (fst (async_run cfg schedule a))).
  { exists []. split; [reflexivity|split; [reflexivity|exact Htidy]]. }
  destruct act as [now req|id now msg isBinary|id|now P|now P|now P id
                  |now P id]; cbn [step].
  - exists [Upgrades now req]. cbn [async_run async_step].
    destruct (upgrade_immediate now req a Htidy) as (Hview & Heffects & Ht).
    destruct (async_upgrade cfg now req a) as [a1 e1]. cbn [fst snd] in *.
    rewrite app_nil_r. auto.
  - change (socket id (view a)) with (member id a).
    destruct (member id a) as [ws|] eqn:Hmember; [|exact Hnone].
    apply member_socket in Hmember as [Hin <-].
    exists (Receives (ws_id ws) now msg isBinary
              :: resumes 1 quiet_provider).
    apply Hstays, on_message_immediate; assumption.
  - exists [Closes id]. cbn [async_run async_step fst snd].
    destruct (close_immediate id a Htidy) as [Hview Ht]. auto.
  - destruct (for_each_immediate (commentary_session cfg now P)
                (fun ws => CommentaryVisits now (ws_id ws)) P
                (fun b ws => commentary_session_immediate now P ws b)
                (sockets a) a Htidy (fun ws Hw => Hw)) as [schedule Hs].
    exists schedule. apply Hstays, Hs.
  - destruct (for_each_immediate (coach_session cfg now P)
                (fun ws => CoachVisits now (ws_id ws)) P
                (fun b ws => coach_session_immediate now P ws b)
                (sockets a) a Htidy (fun ws Hw => Hw)) as [schedule Hs].
    exists schedule. apply Hstays, Hs.
  - change (socket id (view a)) with (member id a).
    destruct (member id a) as [ws|] eqn:Hmember; [|exact Hnone].
    apply member_socket in Hmember as [Hin <-].
    destruct (commentary_session_immediate now P ws a Htidy Hin) as [k Hk].
    exists (CommentaryVisits now (ws_id ws) :: resumes k P).
    apply Hstays, Hk.
  - change (socket id (view a)) with (member id a).
    destruct (member id a) as [ws|] eqn:Hmember; [|exact Hnone].
    apply member_socket in Hmember as [Hin <-].
    destruct (coach_session_immediate now P ws a Htidy Hin) as [k Hk].
    exists (CoachVisits now (ws_id ws) :: resumes k P).
    apply Hstays, Hk.
Qed.

Lemma run_immediate acts : forall a,
  tidy a ->
  exists schedule,
    view (fst (async_run cfg schedule a)) = fst (run cfg acts (view a))
    /\ snd (async_run cfg schedule a) = snd (run cfg acts (view a)).
Proof.
  induction acts as [|act rest IH]; intros a Htidy.
  - exists []. split; reflexivity.
  - destruct (step_immediate act a Htidy) as (s1 & Hview & Heffects & Ht).
    destruct (IH _ Ht) as (s2 & Hview2 & Heffects2).
    exists (s1 ++ s2). rewrite async_run_app. cbn [run].
    destruct (async_run cfg s1 a) as [a1 e1]. cbn [fst snd] in *.
    destruct (step cfg act (view a)) as [st1 x1]. cbn [fst snd] in *.
    subst st1 x1.
    destruct (async_run cfg s2 a1) as [a2 e2].
    destruct (run cfg rest (view a1)) as [st2 x2]. cbn [fst snd] in *.
    subst st2 x2. split; reflexivity.
Qed.

Lemma tidy_start : tidy async_start.
Proof.
  split; [reflexivity|]. split; [exact settled_start|].
  intros i r Hi. cbn in Hi. rewrite lookup_empty in Hi. discriminate Hi.
Qed.

(** X24: Every run of the uninterrupted model is a run of the
    interleaved one: for every list of its actions from the start of the
    server there is a schedule of steps between awaits, each await
    resumed before anything else happens, that sends the same frames and
    calls the generators alike in the same order, and ends with the same
    clients, records, counters and next identity. *)
Theorem uninterrupted_runs_are_interleavings (acts : list Action) :
  exists schedule : list Activity,
    view (fst (async_run cfg schedule async_start))
    = fst (run cfg acts initial_server)
    /\ snd (async_run cfg schedule async_start)
       = snd (run cfg acts initial_server).
Proof.
  destruct (run_immediate acts async_start tidy_start)
    as (schedule & Hview & Heffects).
  exists schedule. split; [exact Hview|exact Heffects].
Qed.

End Immediate.
